(** * Hyperfy client runtime: App lifecycle, event dispatch, packet queue,
      character controller ground check, scale authoring, file drop.

    A shallow embedding of the parts of
      - [src/core/entities/PlayerLocal.js] ([PlayerLocal.fixedUpdate], and
        the class [App], whose source follows it in that file)
      - [src/core/entities/PlayerRemote.js] ([PlayerRemote.destroy])
      - [src/core/systems/ClientNetwork.js] ([enqueue], [flush], [onPacket])
      - [src/core/systems/ClientEditor.js]  ([onDrop], [addModel])
    that the specification's testable properties talk about, and of the
    code around them: the rest of the physics step, the pointer state
    ([PointerState.update]), the transform methods and the frame update of
    [App], the entity packet handlers of [ClientNetwork], and the app
    container of [src/core/extras/appTools.js].

    Conventions.
      - JavaScript numbers are rationals ([Q]); no NaN or infinity is
        modelled, and the comparisons and clamps used here round nothing.
      - [null] and [undefined] are both [None].
      - An [async] function runs synchronously up to its first [await]; a
        suspended call is a first-order record (the stage it waits at and its
        local variables) kept in the list of pending calls; resuming it runs
        the code after that [await] on the state of that moment.
      - A throw is an explicit result ([Threw]); a throw that escapes an
        [async] function rejects its promise and never reaches the caller. *)

From Stdlib Require Import ZArith QArith Qminmax Lia Lqa.
From Stdlib Require Ascii DecimalString.
From stdpp Require Import base option list gmap strings.

Open Scope string_scope.
Open Scope list_scope.

(** ** JavaScript values *)

Module JS.

(** Truthiness of a value that is [null]/[undefined] or a string. *)
Definition truthy (v : option string) : bool :=
  match v with
  | None => false
  | Some s => negb (String.eqb s EmptyString)
  end.

(** [a === b] on such values. *)
Definition seq (a b : option string) : bool :=
  match a, b with
  | None, None => true
  | Some x, Some y => String.eqb x y
  | _, _ => false
  end.

(** [s.endsWith(suffix)]. *)
Definition endsWith (s suffix : string) : bool :=
  let n := String.length s in
  let m := String.length suffix in
  if (m <=? n)%nat then String.eqb (String.substring (n - m) m s) suffix else false.

End JS.

(** ** Vectors (THREE.Vector3, THREE.Quaternion) *)

Record Vec3 := mkVec3 { vx : Q; vy : Q; vz : Q }.
Record Quat := mkQuat { qx : Q; qy : Q; qz : Q; qw : Q }.

Module V3.
Local Open Scope Q_scope.

Definition UP : Vec3 := mkVec3 0 1 0.
Definition dot (a b : Vec3) : Q := vx a * vx b + vy a * vy b + vz a * vz b.
Definition multiplyScalar (a : Vec3) (s : Q) : Vec3 :=
  mkVec3 (vx a * s) (vy a * s) (vz a * s).
Definition add (a b : Vec3) : Vec3 := mkVec3 (vx a + vx b) (vy a + vy b) (vz a + vz b).
Definition sub (a b : Vec3) : Vec3 := mkVec3 (vx a - vx b) (vy a - vy b) (vz a - vz b).
Definition addScalar (a : Vec3) (s : Q) : Vec3 := mkVec3 (vx a + s) (vy a + s) (vz a + s).
(** [THREE.MathUtils.clamp(value, min, max)] is
    [Math.max(min, Math.min(max, value))]. *)
Definition clamp (value lo hi : Q) : Q := Qmax lo (Qmin hi value).
Definition clampScalar (a : Vec3) (lo hi : Q) : Vec3 :=
  mkVec3 (clamp (vx a) lo hi) (clamp (vy a) lo hi) (clamp (vz a) lo hi).
Definition setY (a : Vec3) (y : Q) : Vec3 := mkVec3 (vx a) y (vz a).

End V3.

(** ** Data model shared by the entities *)

(** Opaque payloads (event data, script-owned state): JSON text. *)
Definition Data := string.

(** A blueprint record, [{ id, version, model, script, ... }]. *)
Record Blueprint := mkBlueprint {
  bp_id : string;
  bp_version : Z;
  bp_model : option string;
  bp_script : option string
}.

(** The two arguments [emit(name, a1, a2)] hands to a listener. *)
Inductive Arg :=
| AUndef
| ANum (q : Q)
| AData (d : Data)
| AId (s : string).

(** A script callback: a function value with an identity; calling it either
    returns or throws.  What else a callback does with the proxies it holds
    (writing [app.state], sending, registering listeners) is left out: the
    statements about the entity's record and the packets sent are made for
    builds and frames that run no script code. *)
Record Callback := mkCallback { cb_id : nat; cb_throws : bool }.

(** What running a script's [exec(world, app, fetch)] does: it registers
    listeners with [app.on], subscribes to world events with [world.on], adds
    nodes with [world.add], and then returns or throws; its other uses of
    the proxies are left out, as for a callback. *)
Record Script := mkScript {
  s_url : string;
  s_on : list (string * Callback);
  s_worldOn : list (string * Callback);
  s_adds : list string;
  s_throws : bool
}.

(** A scene node: where it came from, the build generation that created it
    (its object identity), and its transform. *)
Inductive NodeSrc :=
| SrcGlb (url : string)
| SrcBox.

Record Node := mkNode {
  nd_src : NodeSrc;
  nd_gen : nat;
  nd_position : Vec3;
  nd_quaternion : Quat;
  nd_scale : Vec3
}.

Definition set_nd_scale (v : Vec3) (nd : Node) : Node :=
  {| nd_src := nd_src nd; nd_gen := nd_gen nd; nd_position := nd_position nd;
     nd_quaternion := nd_quaternion nd; nd_scale := v |}.

(** [LerpVector3] / [LerpQuaternion]: the value they drive and the targets
    pushed so far. *)
Record LerpVector3 := mkLerpV { lv_value : Vec3; lv_pushed : list Vec3 }.
Record LerpQuaternion := mkLerpQ { lq_value : Quat; lq_pushed : list Quat }.

Definition lv_pushArray (t : Vec3) (l : LerpVector3) : LerpVector3 :=
  {| lv_value := lv_value l; lv_pushed := lv_pushed l ++ [t] |}.
Definition lq_pushArray (t : Quat) (l : LerpQuaternion) : LerpQuaternion :=
  {| lq_value := lq_value l; lq_pushed := lq_pushed l ++ [t] |}.

Inductive Mode := ACTIVE | MOVING | ROTATING | SCALING | LOADING | CRASHED.

Definition Mode_eqb (a b : Mode) : bool :=
  match a, b with
  | ACTIVE, ACTIVE | MOVING, MOVING | ROTATING, ROTATING
  | SCALING, SCALING | LOADING, LOADING | CRASHED, CRASHED => true
  | _, _ => false
  end.

(** A control binding, by the priority it was bound with. *)
Inductive Control := ControlEntity | ControlApp.

(** An entry of [App.eventQueue]. *)
Record QueuedEvent := mkQueuedEvent {
  ev_version : Z;
  ev_name : string;
  ev_data : Data;
  ev_networkId : option string
}.

(** The argument of [modify(data)]: a field is [Some] when
    [data.hasOwnProperty] holds for it. *)
Record Patch := mkPatch {
  p_blueprint : option string;
  p_uploader : option (option string);
  p_mover : option (option string);
  p_transformMode : option (option string);
  p_position : option Vec3;
  p_quaternion : option Quat;
  p_scale : option (option Vec3);
  p_state : option Data
}.

Definition emptyPatch : Patch :=
  {| p_blueprint := None; p_uploader := None; p_mover := None; p_transformMode := None;
     p_position := None; p_quaternion := None; p_scale := None; p_state := None |}.

(** Effects on the collaborators, kept as logs. *)
Inductive SceneOp :=
| Activate (current : nat) (nd : Node) (physics : bool)
| Deactivate (nd : Node)
| DeactivateWorldNode (name : string)
| ActivateWorldNode (name : string).

Record Call := mkCall { call_cb : nat; call_a1 : Arg; call_a2 : Arg }.

Inductive Packet :=
| EntityRemoved (id : string)
| EntityModified (id : string) (patch : Patch).

(** The [await] a suspended [build] waits at, and its local variables. *)
Inductive Stage := AwaitScript | AwaitModel | AwaitCrashBlock.

Record Locals := mkLocals {
  l_n : nat;
  l_blueprint : Blueprint;
  l_crashed : bool;
  l_script : option Script;
  l_root : option Node
}.

Definition set_l_crashed (v : bool) (l : Locals) : Locals :=
  {| l_n := l_n l; l_blueprint := l_blueprint l; l_crashed := v;
     l_script := l_script l; l_root := l_root l |}.
Definition set_l_script (v : option Script) (l : Locals) : Locals :=
  {| l_n := l_n l; l_blueprint := l_blueprint l; l_crashed := l_crashed l;
     l_script := v; l_root := l_root l |}.
Definition set_l_root (v : option Node) (l : Locals) : Locals :=
  {| l_n := l_n l; l_blueprint := l_blueprint l; l_crashed := l_crashed l;
     l_script := l_script l; l_root := v |}.

Record Pending := mkPending { pd_stage : Stage; pd_locals : Locals }.

(** [entity.data] of an app. *)
Record AppData := mkAppData {
  d_id : string;
  d_blueprint : string;
  d_uploader : option string;
  d_mover : option string;
  d_transformMode : option string;
  d_position : Vec3;
  d_quaternion : Quat;
  d_scale : option Vec3;
  d_state : Data
}.

Definition set_d_blueprint (v : string) (d : AppData) : AppData :=
  {| d_id := d_id d; d_blueprint := v; d_uploader := d_uploader d; d_mover := d_mover d; d_transformMode := d_transformMode d; d_position := d_position d; d_quaternion := d_quaternion d; d_scale := d_scale d; d_state := d_state d |}.
Definition set_d_uploader (v : option string) (d : AppData) : AppData :=
  {| d_id := d_id d; d_blueprint := d_blueprint d; d_uploader := v; d_mover := d_mover d; d_transformMode := d_transformMode d; d_position := d_position d; d_quaternion := d_quaternion d; d_scale := d_scale d; d_state := d_state d |}.
Definition set_d_mover (v : option string) (d : AppData) : AppData :=
  {| d_id := d_id d; d_blueprint := d_blueprint d; d_uploader := d_uploader d; d_mover := v; d_transformMode := d_transformMode d; d_position := d_position d; d_quaternion := d_quaternion d; d_scale := d_scale d; d_state := d_state d |}.
Definition set_d_transformMode (v : option string) (d : AppData) : AppData :=
  {| d_id := d_id d; d_blueprint := d_blueprint d; d_uploader := d_uploader d; d_mover := d_mover d; d_transformMode := v; d_position := d_position d; d_quaternion := d_quaternion d; d_scale := d_scale d; d_state := d_state d |}.
Definition set_d_position (v : Vec3) (d : AppData) : AppData :=
  {| d_id := d_id d; d_blueprint := d_blueprint d; d_uploader := d_uploader d; d_mover := d_mover d; d_transformMode := d_transformMode d; d_position := v; d_quaternion := d_quaternion d; d_scale := d_scale d; d_state := d_state d |}.
Definition set_d_quaternion (v : Quat) (d : AppData) : AppData :=
  {| d_id := d_id d; d_blueprint := d_blueprint d; d_uploader := d_uploader d; d_mover := d_mover d; d_transformMode := d_transformMode d; d_position := d_position d; d_quaternion := v; d_scale := d_scale d; d_state := d_state d |}.
Definition set_d_scale (v : option Vec3) (d : AppData) : AppData :=
  {| d_id := d_id d; d_blueprint := d_blueprint d; d_uploader := d_uploader d; d_mover := d_mover d; d_transformMode := d_transformMode d; d_position := d_position d; d_quaternion := d_quaternion d; d_scale := v; d_state := d_state d |}.
Definition set_d_state (v : Data) (d : AppData) : AppData :=
  {| d_id := d_id d; d_blueprint := d_blueprint d; d_uploader := d_uploader d; d_mover := d_mover d; d_transformMode := d_transformMode d; d_position := d_position d; d_quaternion := d_quaternion d; d_scale := d_scale d; d_state := v |}.

(** The fields of an [App] instance.  [app_abortController] is [Some aborted]
    when a controller exists. *)
Record App := mkApp {
  app_data : AppData;
  app_n : nat;
  app_building : bool;
  app_dead : bool;
  app_mode : option Mode;
  app_blueprint : option Blueprint;
  app_root : option Node;
  app_script : option Script;
  app_listeners : gmap string (list Callback);
  app_hotEvents : Z;
  app_worldNodes : list string;
  app_worldListeners : list (Callback * string);
  app_eventQueue : list QueuedEvent;
  app_control : option Control;
  app_lastMoveSendTime : option Q;
  app_networkPos : option LerpVector3;
  app_networkQuat : option LerpQuaternion;
  app_abortController : option bool
}.

Definition set_app_data (v : AppData) (a : App) : App :=
  {| app_data := v; app_n := app_n a; app_building := app_building a; app_dead := app_dead a; app_mode := app_mode a; app_blueprint := app_blueprint a; app_root := app_root a; app_script := app_script a; app_listeners := app_listeners a; app_hotEvents := app_hotEvents a; app_worldNodes := app_worldNodes a; app_worldListeners := app_worldListeners a; app_eventQueue := app_eventQueue a; app_control := app_control a; app_lastMoveSendTime := app_lastMoveSendTime a; app_networkPos := app_networkPos a; app_networkQuat := app_networkQuat a; app_abortController := app_abortController a |}.
Definition set_app_n (v : nat) (a : App) : App :=
  {| app_data := app_data a; app_n := v; app_building := app_building a; app_dead := app_dead a; app_mode := app_mode a; app_blueprint := app_blueprint a; app_root := app_root a; app_script := app_script a; app_listeners := app_listeners a; app_hotEvents := app_hotEvents a; app_worldNodes := app_worldNodes a; app_worldListeners := app_worldListeners a; app_eventQueue := app_eventQueue a; app_control := app_control a; app_lastMoveSendTime := app_lastMoveSendTime a; app_networkPos := app_networkPos a; app_networkQuat := app_networkQuat a; app_abortController := app_abortController a |}.
Definition set_app_building (v : bool) (a : App) : App :=
  {| app_data := app_data a; app_n := app_n a; app_building := v; app_dead := app_dead a; app_mode := app_mode a; app_blueprint := app_blueprint a; app_root := app_root a; app_script := app_script a; app_listeners := app_listeners a; app_hotEvents := app_hotEvents a; app_worldNodes := app_worldNodes a; app_worldListeners := app_worldListeners a; app_eventQueue := app_eventQueue a; app_control := app_control a; app_lastMoveSendTime := app_lastMoveSendTime a; app_networkPos := app_networkPos a; app_networkQuat := app_networkQuat a; app_abortController := app_abortController a |}.
Definition set_app_dead (v : bool) (a : App) : App :=
  {| app_data := app_data a; app_n := app_n a; app_building := app_building a; app_dead := v; app_mode := app_mode a; app_blueprint := app_blueprint a; app_root := app_root a; app_script := app_script a; app_listeners := app_listeners a; app_hotEvents := app_hotEvents a; app_worldNodes := app_worldNodes a; app_worldListeners := app_worldListeners a; app_eventQueue := app_eventQueue a; app_control := app_control a; app_lastMoveSendTime := app_lastMoveSendTime a; app_networkPos := app_networkPos a; app_networkQuat := app_networkQuat a; app_abortController := app_abortController a |}.
Definition set_app_mode (v : option Mode) (a : App) : App :=
  {| app_data := app_data a; app_n := app_n a; app_building := app_building a; app_dead := app_dead a; app_mode := v; app_blueprint := app_blueprint a; app_root := app_root a; app_script := app_script a; app_listeners := app_listeners a; app_hotEvents := app_hotEvents a; app_worldNodes := app_worldNodes a; app_worldListeners := app_worldListeners a; app_eventQueue := app_eventQueue a; app_control := app_control a; app_lastMoveSendTime := app_lastMoveSendTime a; app_networkPos := app_networkPos a; app_networkQuat := app_networkQuat a; app_abortController := app_abortController a |}.
Definition set_app_blueprint (v : option Blueprint) (a : App) : App :=
  {| app_data := app_data a; app_n := app_n a; app_building := app_building a; app_dead := app_dead a; app_mode := app_mode a; app_blueprint := v; app_root := app_root a; app_script := app_script a; app_listeners := app_listeners a; app_hotEvents := app_hotEvents a; app_worldNodes := app_worldNodes a; app_worldListeners := app_worldListeners a; app_eventQueue := app_eventQueue a; app_control := app_control a; app_lastMoveSendTime := app_lastMoveSendTime a; app_networkPos := app_networkPos a; app_networkQuat := app_networkQuat a; app_abortController := app_abortController a |}.
Definition set_app_root (v : option Node) (a : App) : App :=
  {| app_data := app_data a; app_n := app_n a; app_building := app_building a; app_dead := app_dead a; app_mode := app_mode a; app_blueprint := app_blueprint a; app_root := v; app_script := app_script a; app_listeners := app_listeners a; app_hotEvents := app_hotEvents a; app_worldNodes := app_worldNodes a; app_worldListeners := app_worldListeners a; app_eventQueue := app_eventQueue a; app_control := app_control a; app_lastMoveSendTime := app_lastMoveSendTime a; app_networkPos := app_networkPos a; app_networkQuat := app_networkQuat a; app_abortController := app_abortController a |}.
Definition set_app_script (v : option Script) (a : App) : App :=
  {| app_data := app_data a; app_n := app_n a; app_building := app_building a; app_dead := app_dead a; app_mode := app_mode a; app_blueprint := app_blueprint a; app_root := app_root a; app_script := v; app_listeners := app_listeners a; app_hotEvents := app_hotEvents a; app_worldNodes := app_worldNodes a; app_worldListeners := app_worldListeners a; app_eventQueue := app_eventQueue a; app_control := app_control a; app_lastMoveSendTime := app_lastMoveSendTime a; app_networkPos := app_networkPos a; app_networkQuat := app_networkQuat a; app_abortController := app_abortController a |}.
Definition set_app_listeners (v : gmap string (list Callback)) (a : App) : App :=
  {| app_data := app_data a; app_n := app_n a; app_building := app_building a; app_dead := app_dead a; app_mode := app_mode a; app_blueprint := app_blueprint a; app_root := app_root a; app_script := app_script a; app_listeners := v; app_hotEvents := app_hotEvents a; app_worldNodes := app_worldNodes a; app_worldListeners := app_worldListeners a; app_eventQueue := app_eventQueue a; app_control := app_control a; app_lastMoveSendTime := app_lastMoveSendTime a; app_networkPos := app_networkPos a; app_networkQuat := app_networkQuat a; app_abortController := app_abortController a |}.
Definition set_app_hotEvents (v : Z) (a : App) : App :=
  {| app_data := app_data a; app_n := app_n a; app_building := app_building a; app_dead := app_dead a; app_mode := app_mode a; app_blueprint := app_blueprint a; app_root := app_root a; app_script := app_script a; app_listeners := app_listeners a; app_hotEvents := v; app_worldNodes := app_worldNodes a; app_worldListeners := app_worldListeners a; app_eventQueue := app_eventQueue a; app_control := app_control a; app_lastMoveSendTime := app_lastMoveSendTime a; app_networkPos := app_networkPos a; app_networkQuat := app_networkQuat a; app_abortController := app_abortController a |}.
Definition set_app_worldNodes (v : list string) (a : App) : App :=
  {| app_data := app_data a; app_n := app_n a; app_building := app_building a; app_dead := app_dead a; app_mode := app_mode a; app_blueprint := app_blueprint a; app_root := app_root a; app_script := app_script a; app_listeners := app_listeners a; app_hotEvents := app_hotEvents a; app_worldNodes := v; app_worldListeners := app_worldListeners a; app_eventQueue := app_eventQueue a; app_control := app_control a; app_lastMoveSendTime := app_lastMoveSendTime a; app_networkPos := app_networkPos a; app_networkQuat := app_networkQuat a; app_abortController := app_abortController a |}.
Definition set_app_worldListeners (v : list (Callback * string)) (a : App) : App :=
  {| app_data := app_data a; app_n := app_n a; app_building := app_building a; app_dead := app_dead a; app_mode := app_mode a; app_blueprint := app_blueprint a; app_root := app_root a; app_script := app_script a; app_listeners := app_listeners a; app_hotEvents := app_hotEvents a; app_worldNodes := app_worldNodes a; app_worldListeners := v; app_eventQueue := app_eventQueue a; app_control := app_control a; app_lastMoveSendTime := app_lastMoveSendTime a; app_networkPos := app_networkPos a; app_networkQuat := app_networkQuat a; app_abortController := app_abortController a |}.
Definition set_app_eventQueue (v : list QueuedEvent) (a : App) : App :=
  {| app_data := app_data a; app_n := app_n a; app_building := app_building a; app_dead := app_dead a; app_mode := app_mode a; app_blueprint := app_blueprint a; app_root := app_root a; app_script := app_script a; app_listeners := app_listeners a; app_hotEvents := app_hotEvents a; app_worldNodes := app_worldNodes a; app_worldListeners := app_worldListeners a; app_eventQueue := v; app_control := app_control a; app_lastMoveSendTime := app_lastMoveSendTime a; app_networkPos := app_networkPos a; app_networkQuat := app_networkQuat a; app_abortController := app_abortController a |}.
Definition set_app_control (v : option Control) (a : App) : App :=
  {| app_data := app_data a; app_n := app_n a; app_building := app_building a; app_dead := app_dead a; app_mode := app_mode a; app_blueprint := app_blueprint a; app_root := app_root a; app_script := app_script a; app_listeners := app_listeners a; app_hotEvents := app_hotEvents a; app_worldNodes := app_worldNodes a; app_worldListeners := app_worldListeners a; app_eventQueue := app_eventQueue a; app_control := v; app_lastMoveSendTime := app_lastMoveSendTime a; app_networkPos := app_networkPos a; app_networkQuat := app_networkQuat a; app_abortController := app_abortController a |}.
Definition set_app_lastMoveSendTime (v : option Q) (a : App) : App :=
  {| app_data := app_data a; app_n := app_n a; app_building := app_building a; app_dead := app_dead a; app_mode := app_mode a; app_blueprint := app_blueprint a; app_root := app_root a; app_script := app_script a; app_listeners := app_listeners a; app_hotEvents := app_hotEvents a; app_worldNodes := app_worldNodes a; app_worldListeners := app_worldListeners a; app_eventQueue := app_eventQueue a; app_control := app_control a; app_lastMoveSendTime := v; app_networkPos := app_networkPos a; app_networkQuat := app_networkQuat a; app_abortController := app_abortController a |}.
Definition set_app_networkPos (v : option LerpVector3) (a : App) : App :=
  {| app_data := app_data a; app_n := app_n a; app_building := app_building a; app_dead := app_dead a; app_mode := app_mode a; app_blueprint := app_blueprint a; app_root := app_root a; app_script := app_script a; app_listeners := app_listeners a; app_hotEvents := app_hotEvents a; app_worldNodes := app_worldNodes a; app_worldListeners := app_worldListeners a; app_eventQueue := app_eventQueue a; app_control := app_control a; app_lastMoveSendTime := app_lastMoveSendTime a; app_networkPos := v; app_networkQuat := app_networkQuat a; app_abortController := app_abortController a |}.
Definition set_app_networkQuat (v : option LerpQuaternion) (a : App) : App :=
  {| app_data := app_data a; app_n := app_n a; app_building := app_building a; app_dead := app_dead a; app_mode := app_mode a; app_blueprint := app_blueprint a; app_root := app_root a; app_script := app_script a; app_listeners := app_listeners a; app_hotEvents := app_hotEvents a; app_worldNodes := app_worldNodes a; app_worldListeners := app_worldListeners a; app_eventQueue := app_eventQueue a; app_control := app_control a; app_lastMoveSendTime := app_lastMoveSendTime a; app_networkPos := app_networkPos a; app_networkQuat := v; app_abortController := app_abortController a |}.
Definition set_app_abortController (v : option bool) (a : App) : App :=
  {| app_data := app_data a; app_n := app_n a; app_building := app_building a; app_dead := app_dead a; app_mode := app_mode a; app_blueprint := app_blueprint a; app_root := app_root a; app_script := app_script a; app_listeners := app_listeners a; app_hotEvents := app_hotEvents a; app_worldNodes := app_worldNodes a; app_worldListeners := app_worldListeners a; app_eventQueue := app_eventQueue a; app_control := app_control a; app_lastMoveSendTime := app_lastMoveSendTime a; app_networkPos := app_networkPos a; app_networkQuat := app_networkQuat a; app_abortController := v |}.

(** The collaborators reached through [this.world]: the network id, the
    blueprint registry, the loader's cache ([loader.get]) split by asset
    type, the entity store, the hot set, the world event bus (its listeners
    and the events emitted on it, with the player they name), and the logs of
    scene operations, listener calls, packets sent and [console.error]. *)
Record World := mkWorld {
  w_netid : string;
  w_blueprints : gmap string Blueprint;
  w_scripts : gmap string Script;
  w_glbs : gset (string * string);
  w_entities : gset string;
  w_hot : gset string;
  w_events : gmap string (list Callback);
  w_emitted : list (string * string);
  w_scene : list SceneOp;
  w_calls : list Call;
  w_sent : list Packet;
  w_errors : list string
}.

Definition set_w_blueprints (v : gmap string Blueprint) (w : World) : World :=
  {| w_netid := w_netid w; w_blueprints := v; w_scripts := w_scripts w; w_glbs := w_glbs w; w_entities := w_entities w; w_hot := w_hot w; w_events := w_events w; w_emitted := w_emitted w; w_scene := w_scene w; w_calls := w_calls w; w_sent := w_sent w; w_errors := w_errors w |}.
Definition set_w_scripts (v : gmap string Script) (w : World) : World :=
  {| w_netid := w_netid w; w_blueprints := w_blueprints w; w_scripts := v; w_glbs := w_glbs w; w_entities := w_entities w; w_hot := w_hot w; w_events := w_events w; w_emitted := w_emitted w; w_scene := w_scene w; w_calls := w_calls w; w_sent := w_sent w; w_errors := w_errors w |}.
Definition set_w_glbs (v : gset (string * string)) (w : World) : World :=
  {| w_netid := w_netid w; w_blueprints := w_blueprints w; w_scripts := w_scripts w; w_glbs := v; w_entities := w_entities w; w_hot := w_hot w; w_events := w_events w; w_emitted := w_emitted w; w_scene := w_scene w; w_calls := w_calls w; w_sent := w_sent w; w_errors := w_errors w |}.
Definition set_w_entities (v : gset string) (w : World) : World :=
  {| w_netid := w_netid w; w_blueprints := w_blueprints w; w_scripts := w_scripts w; w_glbs := w_glbs w; w_entities := v; w_hot := w_hot w; w_events := w_events w; w_emitted := w_emitted w; w_scene := w_scene w; w_calls := w_calls w; w_sent := w_sent w; w_errors := w_errors w |}.
Definition set_w_hot (v : gset string) (w : World) : World :=
  {| w_netid := w_netid w; w_blueprints := w_blueprints w; w_scripts := w_scripts w; w_glbs := w_glbs w; w_entities := w_entities w; w_hot := v; w_events := w_events w; w_emitted := w_emitted w; w_scene := w_scene w; w_calls := w_calls w; w_sent := w_sent w; w_errors := w_errors w |}.
Definition set_w_events (v : gmap string (list Callback)) (w : World) : World :=
  {| w_netid := w_netid w; w_blueprints := w_blueprints w; w_scripts := w_scripts w; w_glbs := w_glbs w; w_entities := w_entities w; w_hot := w_hot w; w_events := v; w_emitted := w_emitted w; w_scene := w_scene w; w_calls := w_calls w; w_sent := w_sent w; w_errors := w_errors w |}.
Definition set_w_emitted (v : list (string * string)) (w : World) : World :=
  {| w_netid := w_netid w; w_blueprints := w_blueprints w; w_scripts := w_scripts w; w_glbs := w_glbs w; w_entities := w_entities w; w_hot := w_hot w; w_events := w_events w; w_emitted := v; w_scene := w_scene w; w_calls := w_calls w; w_sent := w_sent w; w_errors := w_errors w |}.
Definition set_w_scene (v : list SceneOp) (w : World) : World :=
  {| w_netid := w_netid w; w_blueprints := w_blueprints w; w_scripts := w_scripts w; w_glbs := w_glbs w; w_entities := w_entities w; w_hot := w_hot w; w_events := w_events w; w_emitted := w_emitted w; w_scene := v; w_calls := w_calls w; w_sent := w_sent w; w_errors := w_errors w |}.
Definition set_w_calls (v : list Call) (w : World) : World :=
  {| w_netid := w_netid w; w_blueprints := w_blueprints w; w_scripts := w_scripts w; w_glbs := w_glbs w; w_entities := w_entities w; w_hot := w_hot w; w_events := w_events w; w_emitted := w_emitted w; w_scene := w_scene w; w_calls := v; w_sent := w_sent w; w_errors := w_errors w |}.
Definition set_w_sent (v : list Packet) (w : World) : World :=
  {| w_netid := w_netid w; w_blueprints := w_blueprints w; w_scripts := w_scripts w; w_glbs := w_glbs w; w_entities := w_entities w; w_hot := w_hot w; w_events := w_events w; w_emitted := w_emitted w; w_scene := w_scene w; w_calls := w_calls w; w_sent := v; w_errors := w_errors w |}.
Definition set_w_errors (v : list string) (w : World) : World :=
  {| w_netid := w_netid w; w_blueprints := w_blueprints w; w_scripts := w_scripts w; w_glbs := w_glbs w; w_entities := w_entities w; w_hot := w_hot w; w_events := w_events w; w_emitted := w_emitted w; w_scene := w_scene w; w_calls := w_calls w; w_sent := w_sent w; w_errors := v |}.

(** The whole state: one app, its world, the suspended [build] calls, and a
    ghost field naming the generation and blueprint of the latest [build]
    that read the registry. *)
Record St := mkSt {
  st_app : App;
  st_world : World;
  st_pending : list Pending;
  st_requested : option (nat * Blueprint)
}.

Definition set_st_app (v : App) (s : St) : St :=
  {| st_app := v; st_world := st_world s; st_pending := st_pending s; st_requested := st_requested s |}.
Definition set_st_world (v : World) (s : St) : St :=
  {| st_app := st_app s; st_world := v; st_pending := st_pending s; st_requested := st_requested s |}.
Definition set_st_pending (v : list Pending) (s : St) : St :=
  {| st_app := st_app s; st_world := st_world s; st_pending := v; st_requested := st_requested s |}.
Definition set_st_requested (v : option (nat * Blueprint)) (s : St) : St :=
  {| st_app := st_app s; st_world := st_world s; st_pending := st_pending s; st_requested := v |}.


(** ** A state monad with throws *)

Inductive Res (A : Type) :=
| Ok (a : A)
| Threw (err : string).
Arguments Ok {A} a.
Arguments Threw {A} err.

Definition M (A : Type) : Type := St -> St * Res A.

Definition ret {A} (a : A) : M A := fun s => (s, Ok a).
Definition throw {A} (err : string) : M A := fun s => (s, Threw err).
Definition bind {A B} (m : M A) (k : A -> M B) : M B :=
  fun s => match m s with
           | (s', Ok a) => k a s'
           | (s', Threw e) => (s', Threw e)
           end.
(** [try { m } catch (err) { h err }] *)
Definition try_catch {A} (m : M A) (h : string -> M A) : M A :=
  fun s => match m s with
           | (s', Ok a) => (s', Ok a)
           | (s', Threw e) => h e s'
           end.

Notation "x <- m ;; k" := (bind m (fun x => k))
  (at level 20, m at level 99, k at level 200, only parsing).
Notation "m ;; k" := (bind m (fun _ => k))
  (at level 100, k at level 200, only parsing, right associativity).

Definition get_app : M App := fun s => (s, Ok (st_app s)).
Definition get_world : M World := fun s => (s, Ok (st_world s)).
Definition mod_app (f : App -> App) : M unit := fun s => (set_st_app (f (st_app s)) s, Ok tt).
Definition mod_world (f : World -> World) : M unit :=
  fun s => (set_st_world (f (st_world s)) s, Ok tt).
Definition mod_data (f : AppData -> AppData) : M unit :=
  mod_app (fun a => set_app_data (f (app_data a)) a).

Fixpoint forM_ {A} (l : list A) (f : A -> M unit) : M unit :=
  match l with
  | [] => ret tt
  | x :: rest => f x ;; forM_ rest f
  end.

(** The state reached and the result, projected. *)
Definition exec_M {A} (m : M A) (s : St) : St := fst (m s).
Definition result_M {A} (m : M A) (s : St) : Res A := snd (m s).

Definition threw {A} (r : Res A) : bool :=
  match r with Ok _ => false | Threw _ => true end.

(** An [async] function called without [await]: a throw inside it rejects
    the promise nobody holds; the caller continues. *)
Definition async (m : M unit) : M unit :=
  try_catch m (fun err =>
    mod_world (fun w => set_w_errors (w_errors w ++ [String.append "Uncaught (in promise) " err]) w)).

(** ** Collaborators of the entities *)

Module World.

Definition console_error (msg : string) : M unit :=
  mod_world (fun w => set_w_errors (w_errors w ++ [msg]) w).

(** Modelled from the spec: [world.setHot(entity, hot)] of the Entities
    system, whose source is not part of the listing; the hot set is the
    set of entities that take part in the update phases. *)
Definition setHot (id : string) (hot : bool) : M unit :=
  mod_world (fun w =>
    set_w_hot (if hot then {[ id ]} ∪ w_hot w else w_hot w ∖ {[ id ]}) w).

(** Modelled from the spec: [world.entities.remove(id)] of the Entities
    system removes the entity from the store. *)
Definition entities_remove (id : string) : M unit :=
  mod_world (fun w => set_w_entities (w_entities w ∖ {[ id ]}) w).

Definition network_send (p : Packet) : M unit :=
  mod_world (fun w => set_w_sent (w_sent w ++ [p]) w).

(** A JavaScript [Set] of callbacks in insertion order. *)
Definition set_add (cb : Callback) (l : list Callback) : list Callback :=
  if existsb (fun c => Nat.eqb (cb_id c) (cb_id cb)) l then l else l ++ [cb].
Definition set_delete (cb : Callback) (l : list Callback) : list Callback :=
  List.filter (fun c => negb (Nat.eqb (cb_id c) (cb_id cb))) l.

(** Modelled from the spec: [world.events.on] / [off] of the Events
    system keep the listeners of a name in a Set. *)
Definition events_on (name : string) (cb : Callback) : M unit :=
  mod_world (fun w =>
    set_w_events (<[name := set_add cb (default [] (w_events w !! name))]> (w_events w)) w).
Definition events_off (name : string) (cb : Callback) : M unit :=
  mod_world (fun w =>
    match w_events w !! name with
    | None => w
    | Some l => set_w_events (<[name := set_delete cb l]> (w_events w)) w
    end).

Definition scene (op : SceneOp) : M unit :=
  mod_world (fun w => set_w_scene (w_scene w ++ [op]) w).

End World.

(** ** The class [App] *)

Module App.
Import World.

Definition hotEventNames : list string := ["fixedUpdate"; "update"; "lateUpdate"].
Definition includes (l : list string) (s : string) : bool := existsb (String.eqb s) l.

Definition setHotSelf (hot : bool) : M unit :=
  a <- get_app;; setHot (d_id (app_data a)) hot.

(** *** Listeners: [on], [off], [emit] *)

(** The property names every object inherits from [Object.prototype].
    [this.listeners] is a plain object ([{}]), so for these names
    [this.listeners[name]] is truthy although nothing was registered: a
    function, or the prototype itself for [__proto__]; it has no [add] or
    [delete] and is not iterable. *)
Definition prototypeNames : list string :=
  ["constructor"; "__defineGetter__"; "__defineSetter__"; "hasOwnProperty";
   "__lookupGetter__"; "__lookupSetter__"; "isPrototypeOf"; "propertyIsEnumerable";
   "toString"; "valueOf"; "__proto__"; "toLocaleString"].

Definition inherited (name : string) : bool := includes prototypeNames name.

(** [this.listeners[name]] used as a Set: an own entry of the table is one,
    and so is the Set made for a name that gives [undefined]; a name that
    is only inherited throws the TypeError [what]. *)
Definition asSet (name what : string) : M unit :=
  a <- get_app;;
  match app_listeners a !! name with
  | Some _ => ret tt
  | None => if inherited name then throw what else ret tt
  end.

Definition on (name : string) (cb : Callback) : M unit :=
  asSet name "TypeError: this.listeners[name].add is not a function";;
  mod_app (fun a =>
    set_app_listeners
      (<[name := set_add cb (default [] (app_listeners a !! name))]> (app_listeners a)) a);;
  if includes hotEventNames name then
    mod_app (fun a => set_app_hotEvents (app_hotEvents a + 1)%Z a);;
    a <- get_app;;
    setHotSelf (0 <? app_hotEvents a)%Z
  else ret tt.

Definition off (name : string) (cb : Callback) : M unit :=
  asSet name "TypeError: this.listeners[name].delete is not a function";;
  a <- get_app;;
  match app_listeners a !! name with
  | None => ret tt
  | Some l =>
      mod_app (set_app_listeners (<[name := set_delete cb l]> (app_listeners a)));;
      if includes hotEventNames name then
        mod_app (fun a => set_app_hotEvents (app_hotEvents a - 1)%Z a);;
        a <- get_app;;
        setHotSelf (0 <? app_hotEvents a)%Z
      else ret tt
  end.

(** [callback(a1, a2)]: the call is observed, then the callback returns or
    throws. *)
Definition call (a1 a2 : Arg) (cb : Callback) : M unit :=
  mod_world (fun w => set_w_calls (w_calls w ++ [mkCall (cb_id cb) a1 a2]) w);;
  if cb_throws cb then throw "listener threw" else ret tt.

(** [emit(name, a1, a2)]: a plain [for ... of] over the Set of listeners. *)
Definition emit (name : string) (a1 a2 : Arg) : M unit :=
  asSet name "TypeError: this.listeners[name] is not iterable";;
  a <- get_app;;
  match app_listeners a !! name with
  | None => ret tt
  | Some cbs => forM_ cbs (call a1 a2)
  end.

Fixpoint map_set (cb : Callback) (name : string) (l : list (Callback * string))
  : list (Callback * string) :=
  match l with
  | [] => [(cb, name)]
  | (c, n) :: rest =>
      if Nat.eqb (cb_id c) (cb_id cb) then (c, name) :: rest
      else (c, n) :: map_set cb name rest
  end.

Definition onWorldEvent (name : string) (cb : Callback) : M unit :=
  mod_app (fun a => set_app_worldListeners (map_set cb name (app_worldListeners a)) a);;
  events_on name cb.

Definition clearEventListeners : M unit :=
  mod_app (set_app_listeners ∅);;
  a <- get_app;;
  forM_ (app_worldListeners a) (fun '(cb, name) => events_off name cb);;
  mod_app (set_app_worldListeners []).

(** [onEvent(version, name, data, networkId)] *)
Definition arg_of_id (o : option string) : Arg :=
  match o with Some s => AId s | None => AUndef end.

Definition enqueueEvent (ev : QueuedEvent) : M unit :=
  mod_app (fun a => set_app_eventQueue (app_eventQueue a ++ [ev]) a).

Definition onEvent (version : Z) (name : string) (data : Data) (networkId : option string)
  : M unit :=
  a <- get_app;;
  if app_building a then enqueueEvent (mkQueuedEvent version name data networkId)
  else
    match app_blueprint a with
    | None => throw "TypeError: Cannot read properties of undefined (reading 'version')"
    | Some bp =>
        if (bp_version bp <? version)%Z
        then enqueueEvent (mkQueuedEvent version name data networkId)
        else emit name (AData data) (arg_of_id networkId)
    end.

(** *** [unbuild] *)

Definition unbuild : M unit :=
  a <- get_app;;
  (match app_root a with
   | Some root => scene (Deactivate root)
   | None => ret tt
   end);;
  forM_ (app_worldNodes a) (fun nd => scene (DeactivateWorldNode nd));;
  mod_app (set_app_worldNodes []);;
  clearEventListeners;;
  mod_app (set_app_hotEvents 0%Z);;
  a <- get_app;;
  (match app_control a with
   | Some _ => mod_app (set_app_control None)
   | None => ret tt
   end);;
  setHotSelf false;;
  mod_app (set_app_abortController None).

(** *** Running a script: [script.exec(worldProxy, appProxy, fetch)] *)

Definition world_add (name : string) : M unit :=
  mod_app (fun a => set_app_worldNodes (app_worldNodes a ++ [name]) a);;
  scene (ActivateWorldNode name).

Definition exec (script : Script) : M unit :=
  forM_ (s_on script) (fun '(name, cb) => on name cb);;
  forM_ (s_worldOn script) (fun '(name, cb) => onWorldEvent name cb);;
  forM_ (s_adds script) world_add;;
  if s_throws script then throw "script threw" else ret tt.

(** *** [build] *)

Definition crashBlockUrl : string := "asset://crash-block.glb".

(** [glb.toNodes()]: a fresh root at the identity transform, tagged with
    the generation of the build that made it. *)
Definition toNodes (url : string) (gen : nat) : Node :=
  mkNode (SrcGlb url) gen (mkVec3 0 0 0) (mkQuat 0 0 0 1) (mkVec3 1 1 1).

(** [createNode({ name: 'mesh' })] made a unit box. *)
Definition loadingBox (gen : nat) : Node :=
  mkNode SrcBox gen (mkVec3 0 0 0) (mkQuat 0 0 0 1) (mkVec3 1 1 1).

Definition suspend (stage : Stage) (L : Locals) : M unit :=
  fun s => (set_st_pending (st_pending s ++ [mkPending stage L]) s, Ok tt).

(** [this.data.uploader && this.data.uploader !== this.world.network.id] *)
Definition uploaderIsOther (d : AppData) (netid : string) : bool :=
  JS.truthy (d_uploader d) && negb (JS.seq (d_uploader d) (Some netid)).

(** The mode chosen by [build] (the lines under the comment "mode"). *)
Definition build_mode (d : AppData) (netid : string) : Mode :=
  let mode :=
    if JS.truthy (d_mover d) then
      if JS.seq (d_transformMode d) (Some "rotate") then ROTATING
      else if JS.seq (d_transformMode d) (Some "scale") then SCALING
      else MOVING
    else ACTIVE in
  if uploaderIsOther d netid then LOADING else mode.

(** The [while (this.eventQueue.length)] loop that ends [build]; every turn
    shifts one event, so the length of the queue is fuel enough. *)
Fixpoint drain (fuel : nat) : M unit :=
  match fuel with
  | O => ret tt
  | S fuel' =>
      a <- get_app;;
      match app_eventQueue a with
      | [] => ret tt
      | event :: rest =>
          match app_blueprint a with
          | None => throw "TypeError: Cannot read properties of undefined (reading 'version')"
          | Some bp =>
              if (bp_version bp <? ev_version event)%Z then ret tt
              else
                mod_app (set_app_eventQueue rest);;
                emit (ev_name event) (AData (ev_data event)) (arg_of_id (ev_networkId event));;
                drain fuel'
          end
      end
  end.

Definition isTransforming (m : Mode) : bool :=
  match m with MOVING | ROTATING | SCALING => true | _ => false end.

Section Build.
(** [this.crash()], tied below. *)
Variable crash : M unit.

(** [root.position.fromArray(...)], [root.quaternion.fromArray(...)] and
    [if (this.data.scale) root.scale.fromArray(...)]. *)
Definition placed (d : AppData) (root0 : Node) : Node :=
  mkNode (nd_src root0) (nd_gen root0) (d_position d) (d_quaternion d)
         (match d_scale d with Some sc => sc | None => nd_scale root0 end).

(** The lines under "mode", "setup" and "activate". *)
Definition setup (L : Locals) : M (Mode * Node) :=
  a <- get_app;;
  w <- get_world;;
  let d := app_data a in
  let mode := build_mode d (w_netid w) in
  match l_root L with
  | None =>
      mod_app (fun a =>
        set_app_root None
          (set_app_blueprint (Some (l_blueprint L)) (set_app_mode (Some mode) a)));;
      throw "TypeError: Cannot read properties of undefined (reading 'position')"
  | Some root0 =>
      let root := placed d root0 in
      mod_app (fun a =>
        set_app_root (Some root)
          (set_app_blueprint (Some (l_blueprint L)) (set_app_mode (Some mode) a)));;
      scene (Activate (app_n a) root (negb (JS.truthy (d_mover d))));;
      ret (mode, root)
  end.

(** The lines under "execute script"; [false] when the script crashed and
    [build] returned [this.crash()]. *)
Definition execute (L : Locals) (mode : Mode) : M bool :=
  match l_script L with
  | Some script =>
      if Mode_eqb mode ACTIVE && negb (l_crashed L) then
        mod_app (fun a =>
          set_app_script (Some script) (set_app_abortController (Some false) a));;
        try_catch (exec script;; ret true)
          (fun err =>
             console_error "script crashed";;
             console_error err;;
             crash;;
             ret false)
      else ret true
  | None => ret true
  end.

(** From "if transforming we need updates" to the drained queue. *)
Definition install (mode : Mode) (root : Node) : M unit :=
  (if isTransforming mode then setHotSelf true else ret tt);;
  a <- get_app;;
  w <- get_world;;
  (if JS.seq (d_mover (app_data a)) (Some (w_netid w)) then
     mod_app (fun a =>
       set_app_control (Some ControlEntity) (set_app_lastMoveSendTime (Some 0%Q) a))
   else ret tt);;
  mod_app (fun a =>
    set_app_networkQuat (Some (mkLerpQ (nd_quaternion root) []))
      (set_app_networkPos (Some (mkLerpV (nd_position root) [])) a));;
  a <- get_app;;
  drain (length (app_eventQueue a)).

(** From "if a new build happened while we were fetching, stop here" to
    the end of [build]. *)
Definition finish (L : Locals) : M unit :=
  a <- get_app;;
  if negb (Nat.eqb (app_n a) (l_n L)) then ret tt
  else
    unbuild;;
    r <- setup L;;
    continue <- execute L (fst r);;
    if continue : bool then
      install (fst r) (snd r);;
      mod_app (set_app_building false)
    else ret tt.

(** From "if script crashed (or failed to load model), show crash-block". *)
Definition after_model (L : Locals) : M unit :=
  if l_crashed L || negb (bool_decide (is_Some (l_root L))) then
    w <- get_world;;
    if bool_decide (("model", crashBlockUrl) ∈ w_glbs w)
    then finish (set_l_root (Some (toNodes crashBlockUrl (l_n L))) L)
    else suspend AwaitCrashBlock L
  else finish L.

Definition modelType (model : string) : string :=
  if JS.endsWith model "vrm" then "avatar" else "model".

(** From "let root" on: the placeholder box or the model. *)
Definition after_script (L : Locals) : M unit :=
  a <- get_app;;
  w <- get_world;;
  if uploaderIsOther (app_data a) (w_netid w)
  then after_model (set_l_root (Some (loadingBox (l_n L))) L)
  else
    match bp_model (l_blueprint L) with
    | None =>
        (* [blueprint.model.endsWith] throws inside the [try] *)
        console_error "TypeError: Cannot read properties of null (reading 'endsWith')";;
        after_model L
    | Some model =>
        if bool_decide ((modelType model, model) ∈ w_glbs w)
        then after_model (set_l_root (Some (toNodes model (l_n L))) L)
        else suspend AwaitModel L
    end.

(** The body of [async build(crashed)] up to its first [await]. *)
Definition build_body (crashed : bool) : M unit :=
  mod_app (fun a => set_app_n (S (app_n a)) (set_app_building true a));;
  a <- get_app;;
  w <- get_world;;
  let n := app_n a in
  match w_blueprints w !! d_blueprint (app_data a) with
  | None => throw "TypeError: Cannot read properties of undefined (reading 'script')"
  | Some blueprint =>
      (fun s => (set_st_requested (Some (n, blueprint)) s, Ok tt));;
      let L := mkLocals n blueprint crashed None None in
      if JS.truthy (bp_script blueprint) then
        match w_scripts w !! default EmptyString (bp_script blueprint) with
        | Some script => after_script (set_l_script (Some script) L)
        | None => suspend AwaitScript L
        end
      else after_script L
  end.

(** What an awaited load settled with. *)
Inductive Settled :=
| ResolvedScript (script : Script)
| ResolvedGlb
| Rejected (err : string).

(** The code after each [await], given what the promise settled with. *)
Definition resume_body (p : Pending) (r : Settled) : M unit :=
  let L := pd_locals p in
  match pd_stage p, r with
  | AwaitScript, ResolvedScript script => after_script (set_l_script (Some script) L)
  | AwaitScript, Rejected err => console_error err;; after_script (set_l_crashed true L)
  | AwaitModel, ResolvedGlb =>
      match bp_model (l_blueprint L) with
      | Some model => after_model (set_l_root (Some (toNodes model (l_n L))) L)
      | None => after_model L
      end
  | AwaitModel, Rejected err => console_error err;; after_model L
  | AwaitCrashBlock, ResolvedGlb =>
      finish (set_l_root (Some (toNodes crashBlockUrl (l_n L))) L)
  | AwaitCrashBlock, Rejected err => throw err
  | _, _ => ret tt
  end.
End Build.

(** [crash() { this.build(true) }]: a build that starts out crashed never
    runs the script, so its own crash handler is never reached. *)
Definition crash : M unit := async (build_body (ret tt) true).
Definition build (crashed : bool) : M unit := async (build_body crash crashed).
Definition resume (p : Pending) (r : Settled) : M unit := async (resume_body crash p r).

(** *** [fixedUpdate], [handleScale], [modify], [destroy] *)

Definition scriptIsActive (a : App) : bool :=
  match app_mode a, app_script a with
  | Some ACTIVE, Some _ => true
  | _, _ => false
  end.

Definition fixedUpdate (delta : Q) : M unit :=
  a <- get_app;;
  if scriptIsActive a then
    try_catch (emit "fixedUpdate" (ANum delta) AUndef)
      (fun err =>
         console_error "script fixedUpdate crashed";;
         console_error err;;
         crash)
  else ret tt.

(** The inputs [handleScale] reads: [this.control.buttons.ShiftLeft] and
    [this.world.controls.pointer.delta]. *)
Record Input := mkInput { in_ShiftLeft : bool; in_pointer_dx : Q; in_pointer_dy : Q }.

Definition handleScale (inp : Input) (delta : Q) : M unit :=
  a <- get_app;;
  match app_control a, app_root a with
  | Some _, Some root =>
      let scaleSpeed := 1%Q in
      let sc := nd_scale root in
      if in_ShiftLeft inp then
        let scaleDelta := (- in_pointer_dy inp * delta * scaleSpeed)%Q in
        mod_app (set_app_root (Some (set_nd_scale
          (V3.clampScalar (V3.addScalar sc scaleDelta) (1 # 10) 10%Q) root)))
      else
        let x := (vx sc + in_pointer_dx inp * delta * scaleSpeed)%Q in
        let y := (vy sc + - in_pointer_dy inp * delta * scaleSpeed)%Q in
        mod_app (set_app_root (Some (set_nd_scale
          (mkVec3 (V3.clamp x (1 # 10) 10%Q) (V3.clamp y (1 # 10) 10%Q) (vz sc)) root)))
  | None, _ => throw "TypeError: Cannot read properties of null (reading 'buttons')"
  | _, None => throw "TypeError: Cannot read properties of undefined (reading 'scale')"
  end.

(** One [if (data.hasOwnProperty(key))] of [modify] that sets [rebuild]. *)
Definition take {A} (field : option A) (store : A -> AppData -> AppData) : M bool :=
  match field with
  | Some v => mod_data (store v);; ret true
  | None => ret false
  end.

Definition modify (data : Patch) : M unit :=
  r1 <- take (p_blueprint data) set_d_blueprint;;
  r2 <- take (p_uploader data) set_d_uploader;;
  r3 <- take (p_mover data) set_d_mover;;
  r4 <- take (p_transformMode data) set_d_transformMode;;
  (match p_position data with
   | Some pos =>
       mod_data (set_d_position pos);;
       a <- get_app;;
       match app_networkPos a with
       | Some lerp => mod_app (set_app_networkPos (Some (lv_pushArray pos lerp)))
       | None => throw "TypeError: Cannot read properties of undefined (reading 'pushArray')"
       end
   | None => ret tt
   end);;
  (match p_quaternion data with
   | Some quat =>
       mod_data (set_d_quaternion quat);;
       a <- get_app;;
       match app_networkQuat a with
       | Some lerp => mod_app (set_app_networkQuat (Some (lq_pushArray quat lerp)))
       | None => throw "TypeError: Cannot read properties of undefined (reading 'pushArray')"
       end
   | None => ret tt
   end);;
  (match p_scale data with
   | Some sc => mod_data (set_d_scale sc)
   | None => ret tt
   end);;
  r5 <- take (p_state data) set_d_state;;
  if r1 || r2 || r3 || r4 || r5 then build false else ret tt.

Definition destroy (local : bool) : M unit :=
  a <- get_app;;
  if app_dead a then ret tt
  else
    mod_app (set_app_dead true);;
    unbuild;;
    a <- get_app;;
    entities_remove (d_id (app_data a));;
    if local then network_send (EntityRemoved (d_id (app_data a))) else ret tt.

(** *** Construction, and the event loop around one app *)

(** The fields set by [constructor(world, data, local)] before it calls
    [this.build()]. *)
Definition fresh (data : AppData) : App :=
  {| app_data := data; app_n := 0; app_building := false; app_dead := false;
     app_mode := None; app_blueprint := None; app_root := None; app_script := None;
     app_listeners := ∅; app_hotEvents := 0%Z; app_worldNodes := [];
     app_worldListeners := []; app_eventQueue := []; app_control := None;
     app_lastMoveSendTime := None; app_networkPos := None; app_networkQuat := None;
     app_abortController := None |}.

Definition construct (data : AppData) (w : World) : St :=
  exec_M (build false)
    {| st_app := fresh data; st_world := w; st_pending := []; st_requested := None |}.

(** What can happen to the app between two turns of the event loop:
    a call of one of its methods, a suspended [build] whose promise
    settles, or the registry and the loader cache changing under it. *)
Inductive Turn :=
| TBuild (crashed : bool)
| TModify (data : Patch)
| TOnEvent (version : Z) (name : string) (data : Data) (networkId : option string)
| TFixedUpdate (delta : Q)
| TDestroy (local : bool)
| TSettle (i : nat) (r : Settled)
| TBlueprint (bp : Blueprint)
| TLoadedScript (url : string) (script : Script)
| TLoadedGlb (type url : string).

Definition take_pending (i : nat) : M (option Pending) :=
  fun s => (set_st_pending (delete i (st_pending s)) s, Ok (st_pending s !! i)).

Definition turn (t : Turn) : M unit :=
  match t with
  | TBuild crashed => build crashed
  | TModify data => modify data
  | TOnEvent version name data networkId => onEvent version name data networkId
  | TFixedUpdate delta => fixedUpdate delta
  | TDestroy local => destroy local
  | TSettle i r =>
      p <- take_pending i;;
      match p with
      | Some p => resume p r
      | None => ret tt
      end
  | TBlueprint bp =>
      mod_world (fun w => set_w_blueprints (<[bp_id bp := bp]> (w_blueprints w)) w)
  | TLoadedScript url script =>
      mod_world (fun w => set_w_scripts (<[url := script]> (w_scripts w)) w)
  | TLoadedGlb type url =>
      mod_world (fun w => set_w_glbs ({[ (type, url) ]} ∪ w_glbs w) w)
  end.

Definition run (ts : list Turn) (s : St) : St :=
  fold_left (fun s t => exec_M (turn t) s) ts s.

End App.

(** ** Vocabulary of the statements about [App] *)

Module AppSpec.
Import App.

(** A computation that leaves a part [proj] of the state as it was. *)
Definition keeps {X A} (proj : St -> X) (m : M A) : Prop :=
  forall s, proj (fst (m s)) = proj s.

(** The calls made by dispatching to a list of callbacks in order: up to
    and including the first one that throws. *)
Fixpoint dispatched (a1 a2 : Arg) (cbs : list Callback) : list Call :=
  match cbs with
  | [] => []
  | cb :: rest =>
      mkCall (cb_id cb) a1 a2 :: (if cb_throws cb then [] else dispatched a1 a2 rest)
  end.

Definition anyThrows (cbs : list Callback) : bool := existsb cb_throws cbs.

Definition no_listener_throws (a : App) : Prop :=
  map_Forall (fun _ cbs => anyThrows cbs = false) (app_listeners a).

(** The state after [this.eventQueue.push({ version, name, data, networkId })]. *)
Definition queued (v : Z) (name : string) (data : Data) (id : option string) (s : St) : St :=
  set_st_app
    (set_app_eventQueue (app_eventQueue (st_app s) ++ [mkQueuedEvent v name data id])
       (st_app s)) s.

Definition head_is_future (bp : Blueprint) (q : list QueuedEvent) : Prop :=
  match q with
  | [] => True
  | ev :: _ => (bp_version bp < ev_version ev)%Z
  end.

Definition ready (bp : Blueprint) (ev : QueuedEvent) : bool :=
  negb (bp_version bp <? ev_version ev)%Z.

(** Events none of which is named like a property of [Object.prototype]. *)
Definition plain_names (q : list QueuedEvent) : Prop :=
  Forall (fun ev => inherited (ev_name ev) = false) q.

(** The longest prefix of the queue that holds no event of a future
    version, and what is behind it. *)
Fixpoint ready_prefix (bp : Blueprint) (q : list QueuedEvent) : list QueuedEvent :=
  match q with
  | [] => []
  | ev :: rest => if ready bp ev then ev :: ready_prefix bp rest else []
  end.
Fixpoint rest_after (bp : Blueprint) (q : list QueuedEvent) : list QueuedEvent :=
  match q with
  | [] => []
  | ev :: rest => if ready bp ev then rest_after bp rest else q
  end.

(** The listener calls that firing a queued event makes. *)
Definition calls_of (ls : gmap string (list Callback)) (ev : QueuedEvent) : list Call :=
  dispatched (AData (ev_data ev)) (arg_of_id (ev_networkId ev)) (default [] (ls !! ev_name ev)).

End AppSpec.

(** ** Concrete apps used to run the model *)

Module Examples.
Import App.

Definition origin : Vec3 := mkVec3 0 0 0.
Definition noRotation : Quat := mkQuat 0 0 0 1.

(** A script that listens to "tick" with callback 7. *)
Definition tickScript : Script :=
  mkScript "asset://s.js" [("tick", mkCallback 7 false)] [] [] false.

Definition bp1 : Blueprint :=
  mkBlueprint "b" 1 (Some "asset://m.glb") (Some "asset://s.js").

Definition data1 : AppData :=
  mkAppData "app1" "b" None None None origin noRotation None "{}".

(** The script is cached, the model is not. *)
Definition world1 : World :=
  {| w_netid := "me";
     w_blueprints := {[ "b" := bp1 ]};
     w_scripts := {[ "asset://s.js" := tickScript ]};
     w_glbs := ∅;
     w_entities := {[ "app1" ]};
     w_hot := ∅; w_events := ∅; w_emitted := []; w_scene := []; w_calls := []; w_sent := [];
     w_errors := [] |}.

(** A new app whose first build waits for its model. *)
Definition loading : St := construct data1 world1.

(** The same app once the model has arrived. *)
Definition built : St := run [TSettle 0 ResolvedGlb] loading.

(** Built at version 1, rebuilding, with an event of version 1 and one of
    version 5 in its queue. *)
Definition rebuilding : St :=
  run [TBuild false; TOnEvent 1 "tick" "a" None; TOnEvent 5 "tick" "b" None;
       TOnEvent 0 "tick" "c" None] built.

End Examples.

(** ** Vocabulary of the statements about [build] *)

Module BuildSpec.
Import App.

(** The part of the state that only [build] and [modify] write. *)
Definition kernel (s : St) :=
  (app_n (st_app s), st_requested s, st_pending s, app_building (st_app s),
   app_root (st_app s), app_blueprint (st_app s), app_mode (st_app s),
   app_data (st_app s), w_netid (st_world s)).

Definition isActivate (op : SceneOp) : bool :=
  match op with Activate _ _ _ => true | _ => false end.

(** [s'] differs from [s] outside the kernel only, and no root was
    activated in between. *)
Definition quiet (s s' : St) : Prop :=
  kernel s' = kernel s /\
  exists ops, w_scene (st_world s') = w_scene (st_world s) ++ ops /\
              Forall (fun op => isActivate op = false) ops.

Definition stable {A} (m : M A) : Prop := forall s, quiet s (fst (m s)).

(** An activation is in order when the root it activates was made by the
    build whose generation is the app's counter at that moment. *)
Definition act_ok (op : SceneOp) : Prop :=
  match op with
  | Activate current nd _ => nd_gen nd = current
  | _ => True
  end.

(** The roots a build may show for a blueprint: its model, the crash block,
    or the loading box. *)
Definition root_of (bp : Blueprint) (nd : Node) : Prop :=
  nd_src nd = SrcBox \/ nd_src nd = SrcGlb crashBlockUrl \/
  exists model, bp_model bp = Some model /\ nd_src nd = SrcGlb model.

(** The local variables of a build, against the state: its generation is
    not ahead of the counter, its root (if any) is its own and fits its
    blueprint, and if it is the latest build its blueprint is the one last
    requested. *)
Definition locals_ok (s : St) (L : Locals) : Prop :=
  l_n L <= app_n (st_app s) /\
  (forall nd, l_root L = Some nd -> nd_gen nd = l_n L /\ root_of (l_blueprint L) nd) /\
  (l_n L = app_n (st_app s) -> st_requested s = Some (l_n L, l_blueprint L)).

(** When no build is in flight the app shows the latest build. *)
Definition shows_latest (s : St) : Prop :=
  app_building (st_app s) = false ->
  exists root bp,
    app_root (st_app s) = Some root /\
    nd_gen root = app_n (st_app s) /\
    root_of bp root /\
    app_blueprint (st_app s) = Some bp /\
    st_requested s = Some (app_n (st_app s), bp).

Definition Inv (s : St) : Prop :=
  Forall act_ok (w_scene (st_world s)) /\
  Forall (fun p => locals_ok s (pd_locals p)) (st_pending s) /\
  shows_latest s.

Definition Inv0 (s : St) : Prop :=
  Forall act_ok (w_scene (st_world s)) /\
  Forall (fun p => locals_ok s (pd_locals p)) (st_pending s).

Definition preserves {A} (m : M A) : Prop := forall s, Inv s -> Inv (fst (m s)).

(** What the lines under "setup" establish for a build that is the latest. *)
Definition shown (L : Locals) (s : St) : Prop :=
  exists root,
    app_root (st_app s) = Some root /\
    nd_gen root = app_n (st_app s) /\
    root_of (l_blueprint L) root /\
    app_blueprint (st_app s) = Some (l_blueprint L) /\
    st_requested s = Some (app_n (st_app s), l_blueprint L).

(** The world up to what [console.error] printed. *)
Definition silent (w : World) : World := set_w_errors [] w.

End BuildSpec.

(** ** Vocabulary of the statements about superseded builds *)

Module SupersededSpec.
Import App BuildSpec.

(** The part of the state the invariant reads. *)
Definition ikernel (s : St) :=
  (app_n (st_app s), st_requested s, st_pending s, app_building (st_app s),
   app_root (st_app s), app_blueprint (st_app s), w_scene (st_world s)).

(** [s'] is [s] up to the pending list and what [console.error] printed:
    the app, the scene, the registries and the ghost field are as they
    were. *)
Definition untouched (s s' : St) : Prop :=
  st_app s' = st_app s /\
  silent (st_world s') = silent (st_world s) /\
  st_requested s' = st_requested s.

(** The specification's scenario "rebuild supersession": an app built from
    blueprint "a" is sent to blueprint "b1" and at once to "b2", and neither
    model is in the cache. *)
Definition bpA : Blueprint := mkBlueprint "a" 0 (Some "asset://a.glb") None.
Definition bpB1 : Blueprint := mkBlueprint "b1" 0 (Some "asset://b1.glb") None.
Definition bpB2 : Blueprint := mkBlueprint "b2" 0 (Some "asset://b2.glb") None.

Definition worldAB : World :=
  {| w_netid := "me";
     w_blueprints := {[ "a" := bpA; "b1" := bpB1; "b2" := bpB2 ]};
     w_scripts := ∅;
     w_glbs := {[ ("model", "asset://a.glb") ]};
     w_entities := {[ "x" ]};
     w_hot := ∅; w_events := ∅; w_emitted := []; w_scene := []; w_calls := []; w_sent := [];
     w_errors := [] |}.

Definition dataX : AppData :=
  mkAppData "x" "a" None None None Examples.origin Examples.noRotation None "{}".

Definition toBlueprint (id : string) : Patch :=
  {| p_blueprint := Some id; p_uploader := None; p_mover := None; p_transformMode := None;
     p_position := None; p_quaternion := None; p_scale := None; p_state := None |}.

Definition twoRequests : list Turn := [TModify (toBlueprint "b1"); TModify (toBlueprint "b2")].

(** Both builds are suspended; generation 2 (for "b1") is superseded. *)
Definition overlapping : St := run twoRequests (construct dataX worldAB).

(** The model of "b1" arrives first, then the model of "b2"; or the other
    way round. *)
Definition b1_then_b2 : St :=
  run (twoRequests ++ [TSettle 0 ResolvedGlb; TSettle 0 ResolvedGlb]) (construct dataX worldAB).
Definition b2_then_b1 : St :=
  run (twoRequests ++ [TSettle 1 ResolvedGlb; TSettle 0 ResolvedGlb]) (construct dataX worldAB).

End SupersededSpec.

(** ** An app whose script listens to "fixedUpdate" twice *)

Module DispatchExample.
Import App.

(** Callback 1 throws, callback 2 does not. *)
Definition twoListeners : Script :=
  mkScript "asset://s2.js"
    [("fixedUpdate", mkCallback 1 true); ("fixedUpdate", mkCallback 2 false)] [] [] false.

Definition bpT : Blueprint :=
  mkBlueprint "t" 0 (Some "asset://t.glb") (Some "asset://s2.js").

Definition worldT : World :=
  {| w_netid := "me";
     w_blueprints := {[ "t" := bpT ]};
     w_scripts := {[ "asset://s2.js" := twoListeners ]};
     w_glbs := {[ ("model", "asset://t.glb") ]};
     w_entities := {[ "t1" ]};
     w_hot := ∅; w_events := ∅; w_emitted := []; w_scene := []; w_calls := []; w_sent := [];
     w_errors := [] |}.

(** Script and model are cached: the first build completes at once. *)
Definition ticking : St :=
  construct (mkAppData "t1" "t" None None None Examples.origin Examples.noRotation None "{}")
    worldT.

Definition step : Q := 1 # 50.

End DispatchExample.

(** ** Vocabulary of the statements about the mode of a build *)

Module ModeSpec.
Import App.

(** MOVING, ROTATING or SCALING by [transformMode]. *)
Definition transformingMode (d : AppData) : Mode :=
  if JS.seq (d_transformMode d) (Some "rotate") then ROTATING
  else if JS.seq (d_transformMode d) (Some "scale") then SCALING
  else MOVING.

(** The mode as the specification words it: the local mover first, then
    the foreign uploader. *)
Definition mode_as_claimed (d : AppData) (netid : string) : Mode :=
  if JS.seq (d_mover d) (Some netid) then transformingMode d
  else if uploaderIsOther d netid then LOADING
  else ACTIVE.

(** The mode as [build] decides it: a foreign uploader first, then any
    mover, local or not. *)
Definition mode_by_design (d : AppData) (netid : string) : Mode :=
  if uploaderIsOther d netid then LOADING
  else if JS.truthy (d_mover d) then transformingMode d
  else ACTIVE.

(** An activation has physics on exactly when [data.mover] is not set. *)
Definition phys_ok (mover : option string) (op : SceneOp) : Prop :=
  match op with
  | Activate _ _ physics => physics = negb (JS.truthy mover)
  | _ => True
  end.

(** What a build may do to the mode and the scene while [data] and the
    network id stay as they are. *)
Definition bstep (s s' : St) : Prop :=
  app_data (st_app s') = app_data (st_app s) /\
  w_netid (st_world s') = w_netid (st_world s) /\
  (app_mode (st_app s') = app_mode (st_app s) \/
   app_mode (st_app s') =
     Some (build_mode (app_data (st_app s)) (w_netid (st_world s)))) /\
  exists ops, w_scene (st_world s') = w_scene (st_world s) ++ ops /\
              Forall (phys_ok (d_mover (app_data (st_app s)))) ops.

Definition follows {A} (R : St -> St -> Prop) (m : M A) : Prop :=
  forall s, R s (fst (m s)).

(** A computation that never throws. *)
Definition total {A} (m : M A) : Prop := forall s, threw (snd (m s)) = false.

(** An app that a peer ("other") is moving, and an app that we ("me") move
    while a peer still uploads its model. *)
Definition worldM : World :=
  {| w_netid := "me";
     w_blueprints := {[ "a" := mkBlueprint "a" 0 (Some "asset://a.glb") None ]};
     w_scripts := ∅;
     w_glbs := {[ ("model", "asset://a.glb") ]};
     w_entities := {[ "x" ]};
     w_hot := ∅; w_events := ∅; w_emitted := []; w_scene := []; w_calls := []; w_sent := [];
     w_errors := [] |}.

Definition movedByPeer : AppData :=
  mkAppData "x" "a" None (Some "other") (Some "move")
    Examples.origin Examples.noRotation None "{}".

Definition movedWhileUploading : AppData :=
  mkAppData "x" "a" (Some "other") (Some "me") (Some "move")
    Examples.origin Examples.noRotation None "{}".

End ModeSpec.

(** ** Vocabulary of the statements about [handleScale] *)

Module ScaleSpec.
Import App.
Local Open Scope Q_scope.

(** [lo <= v <= hi] with the limits of [handleScale]. *)
Definition in_limits (v : Q) : Prop := 1 # 10 <= v /\ v <= 10.

(** An app we ("me") are scaling, whose stored scale is (1, 1, 20). *)
Definition scaledData : AppData :=
  mkAppData "x" "a" None (Some "me") (Some "scale")
    Examples.origin Examples.noRotation (Some (mkVec3 1 1 20)) "{}".

Definition scaling : St := construct scaledData ModeSpec.worldM.

(** No Shift, the pointer moved by (3, -6) during a frame of 1/60 s. *)
Definition drag : Input := mkInput false 3 (-6).
Definition frame : Q := 1 # 60.

End ScaleSpec.

(** ** Vocabulary of the statements about [modify] *)

Module ModifySpec.
Import App.

(** [data] has one of the keys blueprint, uploader, mover, transformMode,
    state. *)
Definition needs_rebuild (data : Patch) : bool :=
  bool_decide (is_Some (p_blueprint data)) || bool_decide (is_Some (p_uploader data)) ||
  bool_decide (is_Some (p_mover data)) || bool_decide (is_Some (p_transformMode data)) ||
  bool_decide (is_Some (p_state data)).

Definition or_keep {A} (field : option A) (old : A) : A := default old field.

(** [entity.data] with the keys of [data] written over it. *)
Definition stored_data (data : Patch) (d : AppData) : AppData :=
  {| d_id := d_id d;
     d_blueprint := or_keep (p_blueprint data) (d_blueprint d);
     d_uploader := or_keep (p_uploader data) (d_uploader d);
     d_mover := or_keep (p_mover data) (d_mover d);
     d_transformMode := or_keep (p_transformMode data) (d_transformMode d);
     d_position := or_keep (p_position data) (d_position d);
     d_quaternion := or_keep (p_quaternion data) (d_quaternion d);
     d_scale := or_keep (p_scale data) (d_scale d);
     d_state := or_keep (p_state data) (d_state d) |}.

(** The app after the stores and pushes of [modify], for an app whose
    interpolators [lp] and [lq] are installed. *)
Definition stored (data : Patch) (lp : LerpVector3) (lq : LerpQuaternion) (a : App) : App :=
  set_app_networkQuat
    (Some (match p_quaternion data with Some q => lq_pushArray q lq | None => lq end))
    (set_app_networkPos
       (Some (match p_position data with Some p => lv_pushArray p lp | None => lp end))
       (set_app_data (stored_data data (app_data a)) a)).

(** An update of the transform of the [loading] example, and one that
    also names a blueprint. *)
Definition moveTo : Patch :=
  {| p_blueprint := None; p_uploader := None; p_mover := None; p_transformMode := None;
     p_position := Some (mkVec3 1 2 3); p_quaternion := Some (mkQuat 0 1 0 0);
     p_scale := None; p_state := None |}.

Definition moveAndSwap : Patch :=
  {| p_blueprint := Some "b"; p_uploader := None; p_mover := None; p_transformMode := None;
     p_position := Some (mkVec3 1 2 3); p_quaternion := None;
     p_scale := None; p_state := None |}.

End ModifySpec.

(** ** The class [PlayerRemote]: [destroy] *)

Module PlayerRemote.

(** The fields of a remote player that [destroy] reads or writes:
    [data.id], [dead], whether the scene subtree under [base] is active,
    [avatar], and whether the chat bubble's timer is pending. *)
Record Remote := mkRemote {
  pr_id : string;
  pr_dead : bool;
  pr_baseActive : bool;
  pr_avatar : option string;
  pr_chatTimerPending : bool
}.

(** Modelled from the spec: [world.events.emit(name, arg)] of the Events
    system calls every listener of the name, a throwing listener not
    stopping the others; the emission and the calls are logged. *)
Definition events_emit (name : string) (player : string) (w : World) : World :=
  set_w_calls
    (w_calls w ++
     map (fun cb => mkCall (cb_id cb) (AId player) AUndef) (default [] (w_events w !! name)))
    (set_w_emitted (w_emitted w ++ [(name, player)]) w).

Definition destroy (local : bool) (st : Remote * World) : Remote * World :=
  let (r, w) := st in
  if pr_dead r then st
  else
    (* this.dead = true; clearTimeout(this.chatTimer); this.base.deactivate();
       this.avatar = null *)
    let r' := {| pr_id := pr_id r; pr_dead := true; pr_baseActive := false;
                 pr_avatar := None; pr_chatTimerPending := false |} in
    (* this.world.setHot(this, false) *)
    let w := set_w_hot (w_hot w ∖ {[ pr_id r ]}) w in
    (* this.world.events.emit('leave', { player: this.getProxy() }) *)
    let w := events_emit "leave" (pr_id r) w in
    (* this.world.entities.remove(this.data.id) *)
    let w := set_w_entities (w_entities w ∖ {[ pr_id r ]}) w in
    (* if (local) this.world.network.send('entityRemoved', this.data.id) *)
    let w := if local then set_w_sent (w_sent w ++ [EntityRemoved (pr_id r)]) w else w in
    (r', w).

End PlayerRemote.

(** ** Vocabulary of the statements about [destroy] *)

Module DestroySpec.
Import App.

Definition add_scene (ops : list SceneOp) (s : St) : St :=
  set_st_world (set_w_scene (w_scene (st_world s) ++ ops) (st_world s)) s.

(** What [world.events.off] leaves of the listeners of a name. *)
Definition off_one (ev : gmap string (list Callback)) (entry : Callback * string)
  : gmap string (list Callback) :=
  match ev !! snd entry with
  | None => ev
  | Some l => <[snd entry := World.set_delete (fst entry) l]> ev
  end.

(** The state [unbuild] leaves. *)
Definition unbuilt (s : St) : St :=
  let a := st_app s in
  let w := st_world s in
  let scene' :=
    w_scene w ++
    match app_root a with Some root => [Deactivate root] | None => [] end ++
    map DeactivateWorldNode (app_worldNodes a) in
  let a' :=
    set_app_abortController None
      (set_app_control None
         (set_app_hotEvents 0%Z
            (set_app_worldListeners []
               (set_app_listeners ∅ (set_app_worldNodes [] a))))) in
  let w' :=
    set_w_hot (w_hot w ∖ {[ d_id (app_data a) ]})
      (set_w_events (fold_left off_one (app_worldListeners a) (w_events w))
         (set_w_scene scene' w)) in
  set_st_world w' (set_st_app a' s).

(** The packets [destroy(local)] sends. *)
Definition removal (local : bool) (id : string) : list Packet :=
  if local then [EntityRemoved id] else [].

(** A remote player, and the world it lives in. *)
Definition peer : PlayerRemote.Remote :=
  PlayerRemote.mkRemote "p2" false true (Some "asset://avatar.vrm") true.

Definition worldP : World :=
  {| w_netid := "me";
     w_blueprints := ∅; w_scripts := ∅; w_glbs := ∅;
     w_entities := {[ "p2"; "x" ]};
     w_hot := {[ "p2" ]}; w_events := ∅; w_emitted := []; w_scene := []; w_calls := [];
     w_sent := []; w_errors := [] |}.

End DestroySpec.

(** ** The system [ClientNetwork]: the queue of inbound packets *)

Module ClientNetwork.

(** What [this[method]] is: nothing, a property that is not a function, or
    a handler, which changes the world and returns or throws. *)
Inductive Member (W Payload : Type) :=
| Undefined
| NotCallable
| Method (handler : Payload -> W -> W * option string).
Arguments Undefined {W Payload}.
Arguments NotCallable {W Payload}.
Arguments Method {W Payload} handler.

(** How the turn of one packet in [flush] ended. *)
Inductive Outcome :=
| Skipped
| Returned
| Caught (err : string).

(** The system: its queue, the world its handlers act on, what
    [console.error] printed, and the log of the packets [flush] took, with
    how each turn ended. *)
Record Net (W Payload : Type) := mkNet {
  net_queue : list (option string * Payload);
  net_world : W;
  net_errors : list string;
  net_taken : list (option string * Payload * Outcome)
}.
Arguments mkNet {W Payload}.
Arguments net_queue {W Payload}.
Arguments net_world {W Payload}.
Arguments net_errors {W Payload}.
Arguments net_taken {W Payload}.

Section Handlers.
(** The world, the payload of a packet, and a frame as it arrives
    ([e.data]). *)
Context {W Payload Raw : Type}.
(** [readPacket] (core/packets, not part of the listing) decodes a frame to
    [[method, data]]; [None] when it throws, and the method is undefined for
    a packet it does not know. *)
Variable readPacket : Raw -> option (option string * Payload).
(** The members of the system by name: [onSnapshot], [onEntityModified],
    ... *)
Variable member : string -> Member W Payload.

Definition lookup_member (method : option string) : Member W Payload :=
  match method with
  | None => Undefined
  | Some name => member name
  end.

(** [enqueue(method, data) { this.queue.push([method, data]) }] *)
Definition enqueue (method : option string) (data : Payload) (n : Net W Payload)
  : Net W Payload :=
  mkNet (net_queue n ++ [(method, data)]) (net_world n) (net_errors n) (net_taken n).

(** [onPacket = e => { const [method, data] = readPacket(e.data);
    this.enqueue(method, data) }] *)
Definition onPacket (e : Raw) (n : Net W Payload) : Net W Payload :=
  match readPacket e with
  | None => n
  | Some (method, data) => enqueue method data n
  end.

(** One turn of the loop of [flush], after the [shift]:
    [try { this[method]?.(data) } catch (err) { console.error(err) }]. *)
Definition dispatch (method : option string) (data : Payload) (n : Net W Payload)
  : Net W Payload :=
  match lookup_member method with
  | Undefined =>
      mkNet (net_queue n) (net_world n) (net_errors n)
            (net_taken n ++ [(method, data, Skipped)])
  | NotCallable =>
      let err := "TypeError: this[method] is not a function" in
      mkNet (net_queue n) (net_world n) (net_errors n ++ [err])
            (net_taken n ++ [(method, data, Caught err)])
  | Method handler =>
      match handler data (net_world n) with
      | (w, None) =>
          mkNet (net_queue n) w (net_errors n) (net_taken n ++ [(method, data, Returned)])
      | (w, Some err) =>
          mkNet (net_queue n) w (net_errors n ++ [err])
                (net_taken n ++ [(method, data, Caught err)])
      end
  end.

(** [while (this.queue.length) { ... this.queue.shift() ... }]; every turn
    shifts one packet, so the length of the queue is fuel enough. *)
Fixpoint flush_loop (fuel : nat) (n : Net W Payload) : Net W Payload :=
  match fuel with
  | O => n
  | S fuel' =>
      match net_queue n with
      | [] => n
      | (method, data) :: rest =>
          flush_loop fuel'
            (dispatch method data
               (mkNet rest (net_world n) (net_errors n) (net_taken n)))
      end
  end.

Definition flush (n : Net W Payload) : Net W Payload :=
  flush_loop (length (net_queue n)) n.

(** [preFixedUpdate() { this.flush() }] *)
Definition preFixedUpdate (n : Net W Payload) : Net W Payload := flush n.

(** What happens to the system between and at the start of frames. *)
Inductive Op :=
| Arrives (e : Raw)
| PreFixedUpdate.

Definition op (o : Op) (n : Net W Payload) : Net W Payload :=
  match o with
  | Arrives e => onPacket e n
  | PreFixedUpdate => preFixedUpdate n
  end.

Definition run (ops : list Op) (n : Net W Payload) : Net W Payload :=
  fold_left (fun n o => op o n) ops n.

(** *** Vocabulary of the statements *)

(** The packets among the frames that arrived. *)
Definition arrivals (ops : list Op) : list (option string * Payload) :=
  flat_map (fun o => match o with
                     | Arrives e => match readPacket e with Some p => [p] | None => [] end
                     | PreFixedUpdate => []
                     end) ops.

(** The world after the handler of a packet ran, whether it threw or not. *)
Definition handled (w : W) (p : option string * Payload) : W :=
  match lookup_member (fst p) with
  | Method handler => fst (handler (snd p) w)
  | _ => w
  end.

Definition taken_packets (n : Net W Payload) : list (option string * Payload) :=
  map fst (net_taken n).

End Handlers.

(** *** A concrete system: the world is a list of the chat lines added *)

Definition chatHandlers (name : string) : Member (list string) string :=
  if String.eqb name "onChatAdded" then Method (fun msg w => (w ++ [msg], None))
  else if String.eqb name "onEntityModified" then
    (* the entity is not in the store: [entity.modify] throws *)
    Method (fun _ w => (w, Some "TypeError: Cannot read properties of undefined (reading 'modify')"))
  else if String.eqb name "queue" then NotCallable
  else Undefined.

(** A frame is the name of its method and its payload; an empty name does
    not decode. *)
Definition readPair (e : string * string) : option (option string * string) :=
  if String.eqb (fst e) EmptyString then None else Some (Some (fst e), snd e).

Definition idle : Net (list string) string := mkNet [] [] [] [].

End ClientNetwork.

(** ** The class [PlayerLocal]: the physics step *)

Module PlayerLocal.
Local Open Scope Q_scope.

(** A rigid body the player may stand on: its identity, and whether it is
    a [PxRigidStatic] or has the kinematic flag. *)
Record Actor := mkActor { ac_id : nat; ac_static : bool; ac_kinematic : bool }.

(** The fields of the player that [fixedUpdate] reads or writes.  The
    capsule is the linear velocity the physics engine reports for it and the
    forces added to it during the step; [pl_materialMax] is [None] while
    [this.materialMax] is undefined; the forces added at the capsule's
    position to the platform are logged with the platform. *)
Record Player := mkPlayer {
  pl_mass : Q;
  pl_effectiveGravity : Q;
  pl_jumpHeight : Q;
  pl_grounded : bool;
  pl_groundAngle : Q;
  pl_groundNormal : Vec3;
  pl_slipping : bool;
  pl_jumped : bool;
  pl_jumping : bool;
  pl_justLeftGround : bool;
  pl_fallTimer : Q;
  pl_falling : bool;
  pl_moveDir : Vec3;
  pl_moving : bool;
  pl_running : bool;
  pl_platform : option Actor;
  pl_materialMax : option bool;
  pl_velocity : Vec3;
  pl_forces : list Vec3;
  pl_platformForces : list (Actor * Vec3)
}.

Definition set_pl_grounded (v : bool) (p : Player) : Player :=
  {| pl_mass := pl_mass p; pl_effectiveGravity := pl_effectiveGravity p; pl_jumpHeight := pl_jumpHeight p; pl_grounded := v; pl_groundAngle := pl_groundAngle p; pl_groundNormal := pl_groundNormal p; pl_slipping := pl_slipping p; pl_jumped := pl_jumped p; pl_jumping := pl_jumping p; pl_justLeftGround := pl_justLeftGround p; pl_fallTimer := pl_fallTimer p; pl_falling := pl_falling p; pl_moveDir := pl_moveDir p; pl_moving := pl_moving p; pl_running := pl_running p; pl_platform := pl_platform p; pl_materialMax := pl_materialMax p; pl_velocity := pl_velocity p; pl_forces := pl_forces p; pl_platformForces := pl_platformForces p |}.
Definition set_pl_groundAngle (v : Q) (p : Player) : Player :=
  {| pl_mass := pl_mass p; pl_effectiveGravity := pl_effectiveGravity p; pl_jumpHeight := pl_jumpHeight p; pl_grounded := pl_grounded p; pl_groundAngle := v; pl_groundNormal := pl_groundNormal p; pl_slipping := pl_slipping p; pl_jumped := pl_jumped p; pl_jumping := pl_jumping p; pl_justLeftGround := pl_justLeftGround p; pl_fallTimer := pl_fallTimer p; pl_falling := pl_falling p; pl_moveDir := pl_moveDir p; pl_moving := pl_moving p; pl_running := pl_running p; pl_platform := pl_platform p; pl_materialMax := pl_materialMax p; pl_velocity := pl_velocity p; pl_forces := pl_forces p; pl_platformForces := pl_platformForces p |}.
Definition set_pl_groundNormal (v : Vec3) (p : Player) : Player :=
  {| pl_mass := pl_mass p; pl_effectiveGravity := pl_effectiveGravity p; pl_jumpHeight := pl_jumpHeight p; pl_grounded := pl_grounded p; pl_groundAngle := pl_groundAngle p; pl_groundNormal := v; pl_slipping := pl_slipping p; pl_jumped := pl_jumped p; pl_jumping := pl_jumping p; pl_justLeftGround := pl_justLeftGround p; pl_fallTimer := pl_fallTimer p; pl_falling := pl_falling p; pl_moveDir := pl_moveDir p; pl_moving := pl_moving p; pl_running := pl_running p; pl_platform := pl_platform p; pl_materialMax := pl_materialMax p; pl_velocity := pl_velocity p; pl_forces := pl_forces p; pl_platformForces := pl_platformForces p |}.
Definition set_pl_slipping (v : bool) (p : Player) : Player :=
  {| pl_mass := pl_mass p; pl_effectiveGravity := pl_effectiveGravity p; pl_jumpHeight := pl_jumpHeight p; pl_grounded := pl_grounded p; pl_groundAngle := pl_groundAngle p; pl_groundNormal := pl_groundNormal p; pl_slipping := v; pl_jumped := pl_jumped p; pl_jumping := pl_jumping p; pl_justLeftGround := pl_justLeftGround p; pl_fallTimer := pl_fallTimer p; pl_falling := pl_falling p; pl_moveDir := pl_moveDir p; pl_moving := pl_moving p; pl_running := pl_running p; pl_platform := pl_platform p; pl_materialMax := pl_materialMax p; pl_velocity := pl_velocity p; pl_forces := pl_forces p; pl_platformForces := pl_platformForces p |}.
Definition set_pl_jumped (v : bool) (p : Player) : Player :=
  {| pl_mass := pl_mass p; pl_effectiveGravity := pl_effectiveGravity p; pl_jumpHeight := pl_jumpHeight p; pl_grounded := pl_grounded p; pl_groundAngle := pl_groundAngle p; pl_groundNormal := pl_groundNormal p; pl_slipping := pl_slipping p; pl_jumped := v; pl_jumping := pl_jumping p; pl_justLeftGround := pl_justLeftGround p; pl_fallTimer := pl_fallTimer p; pl_falling := pl_falling p; pl_moveDir := pl_moveDir p; pl_moving := pl_moving p; pl_running := pl_running p; pl_platform := pl_platform p; pl_materialMax := pl_materialMax p; pl_velocity := pl_velocity p; pl_forces := pl_forces p; pl_platformForces := pl_platformForces p |}.
Definition set_pl_jumping (v : bool) (p : Player) : Player :=
  {| pl_mass := pl_mass p; pl_effectiveGravity := pl_effectiveGravity p; pl_jumpHeight := pl_jumpHeight p; pl_grounded := pl_grounded p; pl_groundAngle := pl_groundAngle p; pl_groundNormal := pl_groundNormal p; pl_slipping := pl_slipping p; pl_jumped := pl_jumped p; pl_jumping := v; pl_justLeftGround := pl_justLeftGround p; pl_fallTimer := pl_fallTimer p; pl_falling := pl_falling p; pl_moveDir := pl_moveDir p; pl_moving := pl_moving p; pl_running := pl_running p; pl_platform := pl_platform p; pl_materialMax := pl_materialMax p; pl_velocity := pl_velocity p; pl_forces := pl_forces p; pl_platformForces := pl_platformForces p |}.
Definition set_pl_justLeftGround (v : bool) (p : Player) : Player :=
  {| pl_mass := pl_mass p; pl_effectiveGravity := pl_effectiveGravity p; pl_jumpHeight := pl_jumpHeight p; pl_grounded := pl_grounded p; pl_groundAngle := pl_groundAngle p; pl_groundNormal := pl_groundNormal p; pl_slipping := pl_slipping p; pl_jumped := pl_jumped p; pl_jumping := pl_jumping p; pl_justLeftGround := v; pl_fallTimer := pl_fallTimer p; pl_falling := pl_falling p; pl_moveDir := pl_moveDir p; pl_moving := pl_moving p; pl_running := pl_running p; pl_platform := pl_platform p; pl_materialMax := pl_materialMax p; pl_velocity := pl_velocity p; pl_forces := pl_forces p; pl_platformForces := pl_platformForces p |}.
Definition set_pl_fallTimer (v : Q) (p : Player) : Player :=
  {| pl_mass := pl_mass p; pl_effectiveGravity := pl_effectiveGravity p; pl_jumpHeight := pl_jumpHeight p; pl_grounded := pl_grounded p; pl_groundAngle := pl_groundAngle p; pl_groundNormal := pl_groundNormal p; pl_slipping := pl_slipping p; pl_jumped := pl_jumped p; pl_jumping := pl_jumping p; pl_justLeftGround := pl_justLeftGround p; pl_fallTimer := v; pl_falling := pl_falling p; pl_moveDir := pl_moveDir p; pl_moving := pl_moving p; pl_running := pl_running p; pl_platform := pl_platform p; pl_materialMax := pl_materialMax p; pl_velocity := pl_velocity p; pl_forces := pl_forces p; pl_platformForces := pl_platformForces p |}.
Definition set_pl_falling (v : bool) (p : Player) : Player :=
  {| pl_mass := pl_mass p; pl_effectiveGravity := pl_effectiveGravity p; pl_jumpHeight := pl_jumpHeight p; pl_grounded := pl_grounded p; pl_groundAngle := pl_groundAngle p; pl_groundNormal := pl_groundNormal p; pl_slipping := pl_slipping p; pl_jumped := pl_jumped p; pl_jumping := pl_jumping p; pl_justLeftGround := pl_justLeftGround p; pl_fallTimer := pl_fallTimer p; pl_falling := v; pl_moveDir := pl_moveDir p; pl_moving := pl_moving p; pl_running := pl_running p; pl_platform := pl_platform p; pl_materialMax := pl_materialMax p; pl_velocity := pl_velocity p; pl_forces := pl_forces p; pl_platformForces := pl_platformForces p |}.
Definition set_pl_platform (v : option Actor) (p : Player) : Player :=
  {| pl_mass := pl_mass p; pl_effectiveGravity := pl_effectiveGravity p; pl_jumpHeight := pl_jumpHeight p; pl_grounded := pl_grounded p; pl_groundAngle := pl_groundAngle p; pl_groundNormal := pl_groundNormal p; pl_slipping := pl_slipping p; pl_jumped := pl_jumped p; pl_jumping := pl_jumping p; pl_justLeftGround := pl_justLeftGround p; pl_fallTimer := pl_fallTimer p; pl_falling := pl_falling p; pl_moveDir := pl_moveDir p; pl_moving := pl_moving p; pl_running := pl_running p; pl_platform := v; pl_materialMax := pl_materialMax p; pl_velocity := pl_velocity p; pl_forces := pl_forces p; pl_platformForces := pl_platformForces p |}.
Definition set_pl_materialMax (v : option bool) (p : Player) : Player :=
  {| pl_mass := pl_mass p; pl_effectiveGravity := pl_effectiveGravity p; pl_jumpHeight := pl_jumpHeight p; pl_grounded := pl_grounded p; pl_groundAngle := pl_groundAngle p; pl_groundNormal := pl_groundNormal p; pl_slipping := pl_slipping p; pl_jumped := pl_jumped p; pl_jumping := pl_jumping p; pl_justLeftGround := pl_justLeftGround p; pl_fallTimer := pl_fallTimer p; pl_falling := pl_falling p; pl_moveDir := pl_moveDir p; pl_moving := pl_moving p; pl_running := pl_running p; pl_platform := pl_platform p; pl_materialMax := v; pl_velocity := pl_velocity p; pl_forces := pl_forces p; pl_platformForces := pl_platformForces p |}.
Definition set_pl_velocity (v : Vec3) (p : Player) : Player :=
  {| pl_mass := pl_mass p; pl_effectiveGravity := pl_effectiveGravity p; pl_jumpHeight := pl_jumpHeight p; pl_grounded := pl_grounded p; pl_groundAngle := pl_groundAngle p; pl_groundNormal := pl_groundNormal p; pl_slipping := pl_slipping p; pl_jumped := pl_jumped p; pl_jumping := pl_jumping p; pl_justLeftGround := pl_justLeftGround p; pl_fallTimer := pl_fallTimer p; pl_falling := pl_falling p; pl_moveDir := pl_moveDir p; pl_moving := pl_moving p; pl_running := pl_running p; pl_platform := pl_platform p; pl_materialMax := pl_materialMax p; pl_velocity := v; pl_forces := pl_forces p; pl_platformForces := pl_platformForces p |}.
Definition set_pl_forces (v : list Vec3) (p : Player) : Player :=
  {| pl_mass := pl_mass p; pl_effectiveGravity := pl_effectiveGravity p; pl_jumpHeight := pl_jumpHeight p; pl_grounded := pl_grounded p; pl_groundAngle := pl_groundAngle p; pl_groundNormal := pl_groundNormal p; pl_slipping := pl_slipping p; pl_jumped := pl_jumped p; pl_jumping := pl_jumping p; pl_justLeftGround := pl_justLeftGround p; pl_fallTimer := pl_fallTimer p; pl_falling := pl_falling p; pl_moveDir := pl_moveDir p; pl_moving := pl_moving p; pl_running := pl_running p; pl_platform := pl_platform p; pl_materialMax := pl_materialMax p; pl_velocity := pl_velocity p; pl_forces := v; pl_platformForces := pl_platformForces p |}.
Definition set_pl_platformForces (v : list (Actor * Vec3)) (p : Player) : Player :=
  {| pl_mass := pl_mass p; pl_effectiveGravity := pl_effectiveGravity p; pl_jumpHeight := pl_jumpHeight p; pl_grounded := pl_grounded p; pl_groundAngle := pl_groundAngle p; pl_groundNormal := pl_groundNormal p; pl_slipping := pl_slipping p; pl_jumped := pl_jumped p; pl_jumping := pl_jumping p; pl_justLeftGround := pl_justLeftGround p; pl_fallTimer := pl_fallTimer p; pl_falling := pl_falling p; pl_moveDir := pl_moveDir p; pl_moving := pl_moving p; pl_running := pl_running p; pl_platform := pl_platform p; pl_materialMax := pl_materialMax p; pl_velocity := pl_velocity p; pl_forces := pl_forces p; pl_platformForces := v |}.

(** What the physics queries of one step return, and the key state: the
    actor under the player found by the raycast (already resolved through
    [physics.handles]), the normal of the surface the ground sweep hit, and
    whether Space is down. *)
Record Queries := mkQueries {
  q_raycastActor : option Actor;
  q_sweepNormal : option Vec3;
  q_Space : bool
}.

Section Math.
(** Arithmetic of the vector library and of [Math] that is not rational:
    [a.angleTo(b)] in radians, the constant [RAD2DEG], [Math.sqrt], and
    [v.applyQuaternion(q.setFromUnitVectors(UP, normal))]. *)
Variable angleTo : Vec3 -> Vec3 -> Q.
Variable RAD2DEG : Q.
Variable sqrt : Q -> Q.
Variable alignToSlope : Vec3 -> Vec3 -> Vec3.

(** "if grounded last update, check for moving platforms and move with
    them".  The arithmetic on the poses is left out: it writes the capsule's
    pose, [platform.prevTransform] and the base's quaternion, which the rest
    of the step reads only through the physics queries. *)
Definition trackPlatform (q : Queries) (p : Player) : Player :=
  if pl_grounded p then set_pl_platform (q_raycastActor q) p
  else set_pl_platform None p.

(** "update grounded info" *)
Definition updateGrounded (q : Queries) (p : Player) : Player :=
  match q_sweepNormal q with
  | Some normal =>
      set_pl_groundAngle (angleTo V3.UP normal * RAD2DEG)
        (set_pl_groundNormal normal
           (set_pl_grounded true (set_pl_justLeftGround false p)))
  | None =>
      set_pl_groundAngle 0
        (set_pl_groundNormal V3.UP
           (set_pl_grounded false (set_pl_justLeftGround (pl_grounded p) p)))
  end.

Definition Qgtb (a b : Q) : bool := negb (Qle_bool a b).

(** "if on a steep slope, unground and track slipping" *)
Definition checkSlope (p : Player) : Player :=
  if pl_grounded p && Qgtb (pl_groundAngle p) 60 then
    set_pl_slipping true
      (set_pl_groundAngle 0
         (set_pl_groundNormal V3.UP
            (set_pl_grounded false (set_pl_justLeftGround false p))))
  else set_pl_slipping false p.

(** The combine mode of the capsule's material follows [grounded]. *)
Definition swapMaterial (p : Player) : Player :=
  if pl_grounded p then
    match pl_materialMax p with
    | Some true => p
    | _ => set_pl_materialMax (Some true) p
    end
  else
    match pl_materialMax p with
    | Some false => p
    | _ => set_pl_materialMax (Some false) p
    end.

(** "if we jumped and have now left the ground, progress to jumping" *)
Definition progressJump (p : Player) : Player :=
  if pl_jumped p && negb (pl_grounded p)
  then set_pl_jumping true (set_pl_jumped false p) else p.

(** "if not grounded and our velocity is downward, start timing our
    falling" *)
Definition timeFall (delta : Q) (p : Player) : Player :=
  if negb (pl_grounded p) && Qgtb 0 (vy (pl_velocity p))
  then set_pl_fallTimer (pl_fallTimer p + delta) p
  else set_pl_fallTimer 0 p.

(** "if we've been falling for a bit then progress to actual falling" *)
Definition startFalling (p : Player) : Player :=
  if Qgtb (pl_fallTimer p) (1 # 10)
  then set_pl_falling true (set_pl_jumping false p) else p.

(** "if falling and we're now on the ground, clear it" *)
Definition clearFalling (p : Player) : Player :=
  if pl_falling p && pl_grounded p then set_pl_falling false p else p.

(** "if jumping and we're now on the ground, clear it" *)
Definition clearJumping (p : Player) : Player :=
  if pl_jumping p && pl_grounded p then set_pl_jumping false p else p.

(** The jump and fall flags. *)
Definition jumpAndFall (delta : Q) (p : Player) : Player :=
  clearJumping (clearFalling (startFalling (timeFall delta (progressJump p)))).

(** Gravity, or the reaction force on a dynamic platform. *)
Definition applyGravity (p : Player) : Player :=
  if pl_grounded p then
    match pl_platform p with
    | Some actor =>
        if negb (ac_kinematic actor) && negb (ac_static actor) then
          set_pl_platformForces
            (pl_platformForces p ++ [(actor, mkVec3 0 (- (981 # 100) * (2 # 10)) 0)]) p
        else p
    | None => p
    end
  else set_pl_forces (pl_forces p ++ [mkVec3 0 (- pl_effectiveGravity p) 0]) p.

(** The velocity after the drag, the cancelling along the ground normal and
    the snap down: what "update velocity" computes before it looks at
    [slipping]. *)
Definition shaped (delta : Q) (p : Player) : Vec3 :=
  let velocity := pl_velocity p in
  let dragCoeff := 10 * delta in
  let perpComponent :=
    V3.multiplyScalar (pl_groundNormal p) (V3.dot velocity (pl_groundNormal p)) in
  let parallelComponent := V3.sub velocity perpComponent in
  let parallelComponent := V3.multiplyScalar parallelComponent (1 - dragCoeff) in
  let velocity := V3.add parallelComponent perpComponent in
  let velocity :=
    if pl_grounded p && negb (pl_jumping p) then
      let projectedLength := V3.dot velocity (pl_groundNormal p) in
      V3.sub velocity (V3.multiplyScalar (pl_groundNormal p) projectedLength)
    else velocity in
  if pl_justLeftGround p && negb (pl_jumping p) then V3.setY velocity (-5) else velocity.

(** "if slipping ensure we can't gain upward velocity", and
    [setLinearVelocity]. *)
Definition updateVelocity (delta : Q) (p : Player) : Player :=
  let velocity := shaped delta p in
  let velocity :=
    if pl_slipping p then V3.setY velocity (vy velocity - (1 # 2)) else velocity in
  set_pl_velocity velocity p.

(** "apply move force, projected onto ground normal" *)
Definition applyMove (p : Player) : Player :=
  if pl_moving p then
    let moveSpeed := (if pl_running p then 8 else 4) * pl_mass p in
    let moveForce :=
      alignToSlope (pl_groundNormal p) (V3.multiplyScalar (pl_moveDir p) (moveSpeed * 10)) in
    set_pl_forces (pl_forces p ++ [moveForce]) p
  else p.

(** "apply jump" *)
Definition applyJump (q : Queries) (p : Player) : Player :=
  if pl_grounded p && negb (pl_jumping p) && q_Space q then
    let jumpVelocity := sqrt (2 * pl_effectiveGravity p * pl_jumpHeight p) in
    let jumpVelocity := jumpVelocity * (1 / sqrt (pl_mass p)) in
    set_pl_jumped true (set_pl_velocity (V3.setY (pl_velocity p) jumpVelocity) p)
  else p.

Definition fixedUpdate (delta : Q) (q : Queries) (p : Player) : Player :=
  let p := trackPlatform q p in
  let p := updateGrounded q p in
  let p := checkSlope p in
  let p := swapMaterial p in
  let p := jumpAndFall delta p in
  let p := applyGravity p in
  let p := updateVelocity delta p in
  let p := applyMove p in
  applyJump q p.

(** *** Vocabulary of the statements *)

(** The fields the ground check decides. *)
Definition groundState (p : Player) :=
  (pl_grounded p, pl_slipping p, pl_groundNormal p, pl_groundAngle p, pl_justLeftGround p).

(** The state the velocity update starts from. *)
Definition beforeVelocity (delta : Q) (q : Queries) (p : Player) : Player :=
  applyGravity
    (jumpAndFall delta
       (swapMaterial (checkSlope (updateGrounded q (trackPlatform q p))))).

End Math.

(** *** A player on a slope of 65 degrees *)

(** Stand-ins for the irrational arithmetic: the angle to a normal is
    65 degrees when the normal leans, 0 when it is straight up. *)
Definition angleTo65 (a b : Vec3) : Q :=
  if Qeq_bool (vx b) 0 && Qeq_bool (vz b) 0 then 0 else 65 * (1 # 57).
Definition sqrtStub (x : Q) : Q := x.
Definition noSlope (normal v : Vec3) : Vec3 := v.

(** The values [init] gives the fields, walking on the ground at 3 m/s and
    rising at 1 m/s. *)
Definition walking : Player :=
  {| pl_mass := 1; pl_effectiveGravity := 20; pl_jumpHeight := 3 # 2;
     pl_grounded := true; pl_groundAngle := 0; pl_groundNormal := V3.UP;
     pl_slipping := false; pl_jumped := false; pl_jumping := false;
     pl_justLeftGround := false; pl_fallTimer := 0; pl_falling := false;
     pl_moveDir := mkVec3 1 0 0; pl_moving := true; pl_running := false;
     pl_platform := None; pl_materialMax := Some true;
     pl_velocity := mkVec3 3 1 0; pl_forces := []; pl_platformForces := [] |}.

(** The sweep hits a surface whose normal leans by 65 degrees. *)
Definition steep : Queries := mkQueries None (Some (mkVec3 (9 # 10) (4 # 10) 0)) true.

End PlayerLocal.

(** ** The system [ClientEditor]: dropping a file *)

Module ClientEditor.

Record File := mkFile { file_name : string; file_size : Z }.

(** A [DataTransferItem]: its kind, its type, and what [getAsFile()]
    returns. *)
Record Item := mkItem { item_kind : string; item_type : string; item_asFile : option File }.

(** [e.dataTransfer]: [items] and [files], each possibly missing. *)
Record DataTransfer := mkDataTransfer {
  dt_items : option (list Item);
  dt_files : option (list File)
}.

Record ChatMessage := mkChatMessage {
  msg_id : string;
  msg_from : option string;
  msg_fromId : option string;
  msg_body : string;
  msg_createdAt : string
}.

(** A call of [addModel] or [addAvatar], suspended at [await hashFile(file)]. *)
Inductive Task :=
| AddModel (file : File)
| AddAvatar (file : File).

(** The client as [onDrop] sees it: [this.dropping], the roles of the local
    player, the network id, the chat log, the blueprint registry, the entity
    store, whether the socket is open, the names of the packets sent, what
    [console.error] printed, and the suspended calls. *)
Record Client := mkClient {
  cl_dropping : bool;
  cl_roles : list string;
  cl_netid : string;
  cl_chat : list ChatMessage;
  cl_blueprints : gmap string Blueprint;
  cl_entities : gset string;
  cl_socketOpen : bool;
  cl_sent : list string;
  cl_errors : list string;
  cl_tasks : list Task
}.

Definition set_cl_dropping (v : bool) (c : Client) : Client :=
  {| cl_dropping := v; cl_roles := cl_roles c; cl_netid := cl_netid c; cl_chat := cl_chat c; cl_blueprints := cl_blueprints c; cl_entities := cl_entities c; cl_socketOpen := cl_socketOpen c; cl_sent := cl_sent c; cl_errors := cl_errors c; cl_tasks := cl_tasks c |}.
Definition set_cl_chat (v : list ChatMessage) (c : Client) : Client :=
  {| cl_dropping := cl_dropping c; cl_roles := cl_roles c; cl_netid := cl_netid c; cl_chat := v; cl_blueprints := cl_blueprints c; cl_entities := cl_entities c; cl_socketOpen := cl_socketOpen c; cl_sent := cl_sent c; cl_errors := cl_errors c; cl_tasks := cl_tasks c |}.
Definition set_cl_blueprints (v : gmap string Blueprint) (c : Client) : Client :=
  {| cl_dropping := cl_dropping c; cl_roles := cl_roles c; cl_netid := cl_netid c; cl_chat := cl_chat c; cl_blueprints := v; cl_entities := cl_entities c; cl_socketOpen := cl_socketOpen c; cl_sent := cl_sent c; cl_errors := cl_errors c; cl_tasks := cl_tasks c |}.
Definition set_cl_entities (v : gset string) (c : Client) : Client :=
  {| cl_dropping := cl_dropping c; cl_roles := cl_roles c; cl_netid := cl_netid c; cl_chat := cl_chat c; cl_blueprints := cl_blueprints c; cl_entities := v; cl_socketOpen := cl_socketOpen c; cl_sent := cl_sent c; cl_errors := cl_errors c; cl_tasks := cl_tasks c |}.
Definition set_cl_sent (v : list string) (c : Client) : Client :=
  {| cl_dropping := cl_dropping c; cl_roles := cl_roles c; cl_netid := cl_netid c; cl_chat := cl_chat c; cl_blueprints := cl_blueprints c; cl_entities := cl_entities c; cl_socketOpen := cl_socketOpen c; cl_sent := v; cl_errors := cl_errors c; cl_tasks := cl_tasks c |}.
Definition set_cl_errors (v : list string) (c : Client) : Client :=
  {| cl_dropping := cl_dropping c; cl_roles := cl_roles c; cl_netid := cl_netid c; cl_chat := cl_chat c; cl_blueprints := cl_blueprints c; cl_entities := cl_entities c; cl_socketOpen := cl_socketOpen c; cl_sent := cl_sent c; cl_errors := v; cl_tasks := cl_tasks c |}.
Definition set_cl_tasks (v : list Task) (c : Client) : Client :=
  {| cl_dropping := cl_dropping c; cl_roles := cl_roles c; cl_netid := cl_netid c; cl_chat := cl_chat c; cl_blueprints := cl_blueprints c; cl_entities := cl_entities c; cl_socketOpen := cl_socketOpen c; cl_sent := cl_sent c; cl_errors := cl_errors c; cl_tasks := v |}.

(** [number.toString()] of an integer below 10^21 in absolute value, all
    of whose digits JavaScript prints; from there on it prints the exponent
    form. *)
Definition show (z : Z) : string := DecimalString.NilZero.string_of_int (Z.to_int z).

(** [name.split('.').pop()]: what follows the last dot, or the whole
    name. *)
Fixpoint afterLastDot (s acc : string) : string :=
  match s with
  | EmptyString => acc
  | String c rest =>
      if Ascii.eqb c (Ascii.ascii_of_nat 46) then afterLastDot rest EmptyString
      else afterLastDot rest (String.append acc (String c EmptyString))
  end.

Definition lowerChar (c : Ascii.ascii) : Ascii.ascii :=
  let n := Ascii.nat_of_ascii c in
  if (65 <=? n)%nat && (n <=? 90)%nat then Ascii.ascii_of_nat (n + 32) else c.

Fixpoint toLowerCase (s : string) : string :=
  match s with
  | EmptyString => EmptyString
  | String c rest => String (lowerChar c) (toLowerCase rest)
  end.

Definition extension (name : string) : string := toLowerCase (afterLastDot name EmptyString).

(** Modelled from the spec: [world.chat.add(msg, broadcast)] of the Chat
    system, whose source is not part of the listing, appends the message
    and keeps the most recent 50; it broadcasts only when [broadcast] is
    given, which [onDrop] does not do. *)
Definition chat_add (msg : ChatMessage) (c : Client) : Client :=
  let msgs := cl_chat c ++ [msg] in
  set_cl_chat (skipn (length msgs - 50) msgs) c.

Section Config.
(** [MAX_UPLOAD_SIZE], the integer [parseInt] reads from
    [process.env.PUBLIC_MAX_UPLOAD_SIZE || '100'], and [hasRole] of
    core/utils, which is not part of the listing. *)
Variable MAX_UPLOAD_SIZE : Z.
Variable hasRole : list string -> list string -> bool.

(** The file [onDrop] picks from the event. *)
Definition droppedFile (e : DataTransfer) : option File :=
  match dt_items e with
  | Some (item :: _) =>
      if String.eqb (item_kind item) "file" then item_asFile item else None
  | _ =>
      match dt_files e with
      | Some (file :: _) => Some file
      | _ => None
      end
  end.

Definition tooLarge (id now : string) : ChatMessage :=
  {| msg_id := id; msg_from := None; msg_fromId := None;
     msg_body := String.append "File size too large (>"
                   (String.append (show MAX_UPLOAD_SIZE) "mb)");
     msg_createdAt := now |}.

(** [onDrop]; [id] is what [uuid()] returns and [now] what
    [moment().toISOString()] returns. *)
Definition onDrop (e : DataTransfer) (id now : string) (c : Client) : Client :=
  let c := set_cl_dropping false c in
  if negb (hasRole (cl_roles c) ["admin"; "builder"]) then c
  else
    match droppedFile e with
    | None => c
    | Some file =>
        let maxSize := (MAX_UPLOAD_SIZE * 1024 * 1024)%Z in
        if (maxSize <? file_size file)%Z then
          let c := chat_add (tooLarge id now) c in
          set_cl_errors
            (cl_errors c ++
             [String.append "File too large. Maximum size is "
                (String.append (show MAX_UPLOAD_SIZE) "MB")]) c
        else
          let ext := extension (file_name file) in
          let c := if String.eqb ext "glb"
                   then set_cl_tasks (cl_tasks c ++ [AddModel file]) c else c in
          if String.eqb ext "vrm"
          then set_cl_tasks (cl_tasks c ++ [AddAvatar file]) c else c
    end.

End Config.

(** [addModel] from the hash on, up to [await this.world.network.upload]:
    the blueprint is registered and the app is added, both announced to the
    server.  [bpId] and [appId] are what [uuid()] returns.  Modelled from
    the spec: [blueprints.add(blueprint, true)] and [entities.add(data,
    true)] store the record and send blueprintAdded / entityAdded. *)
Definition addModel_hashed (hash bpId appId : string) (c : Client) : Client :=
  let url := String.append "asset://" (String.append hash ".glb") in
  let blueprint := mkBlueprint bpId 0 (Some url) None in
  let c := set_cl_sent (cl_sent c ++ ["blueprintAdded"])
             (set_cl_blueprints (<[bpId := blueprint]> (cl_blueprints c)) c) in
  set_cl_sent (cl_sent c ++ ["entityAdded"])
    (set_cl_entities ({[ appId ]} ∪ cl_entities c) c).

(** *** A builder, and a drop of 200 MB against a cap of 100 MB *)

Definition anyRole (roles wanted : list string) : bool :=
  existsb (fun r => existsb (String.eqb r) wanted) roles.

Definition builder : Client :=
  {| cl_dropping := true; cl_roles := ["builder"]; cl_netid := "me"; cl_chat := [];
     cl_blueprints := ∅; cl_entities := {[ "me" ]}; cl_socketOpen := true;
     cl_sent := []; cl_errors := []; cl_tasks := [] |}.

Definition bigFile : File := mkFile "castle.GLB" (200 * 1024 * 1024).

Definition bigDrop : DataTransfer :=
  mkDataTransfer (Some [mkItem "file" "model/gltf-binary" (Some bigFile)]) None.

Definition smallDrop : DataTransfer :=
  mkDataTransfer None (Some [mkFile "castle.GLB" (2 * 1024 * 1024)]).

End ClientEditor.

(** ** Vocabulary of the statements about the physics step *)

Module GroundSpec.
Import PlayerLocal.
Local Open Scope Q_scope.

(** A reading [f] of the player that a write of one field does not
    change. *)
Definition untouched_by {A B} (f : Player -> A) (set : B -> Player -> Player) : Prop :=
  forall v p, f (set v p) = f p.

(** The readings the flags of jumping and falling do not change. *)
Definition ignores_flight {A} (f : Player -> A) : Prop :=
  untouched_by f set_pl_jumped /\ untouched_by f set_pl_jumping /\
  untouched_by f set_pl_fallTimer /\ untouched_by f set_pl_falling.

(** The readings the capsule (its velocity, the forces added to it and to
    the platform) and [jumped] do not change. *)
Definition ignores_capsule {A} (f : Player -> A) : Prop :=
  untouched_by f set_pl_forces /\ untouched_by f set_pl_platformForces /\
  untouched_by f set_pl_velocity /\ untouched_by f set_pl_jumped.

(** The readings the ground check does not change. *)
Definition ignores_ground {A} (f : Player -> A) : Prop :=
  untouched_by f set_pl_platform /\ untouched_by f set_pl_grounded /\
  untouched_by f set_pl_groundAngle /\ untouched_by f set_pl_groundNormal /\
  untouched_by f set_pl_justLeftGround /\ untouched_by f set_pl_slipping /\
  untouched_by f set_pl_materialMax.

(** The player after the ground check: the steps up to the swap of the
    material's combine mode. *)
Definition afterGroundCheck (angleTo : Vec3 -> Vec3 -> Q) (RAD2DEG : Q)
  (q : Queries) (p : Player) : Player :=
  swapMaterial (checkSlope (updateGrounded angleTo RAD2DEG q (trackPlatform q p))).

(** The force of gravity on the capsule. *)
Definition gravityForce (p : Player) : Vec3 := mkVec3 0 (- pl_effectiveGravity p) 0.

(** The force of the move input, before it is aligned to the slope. *)
Definition moveInput (p : Player) : Vec3 :=
  V3.multiplyScalar (pl_moveDir p) ((if pl_running p then 8 else 4) * pl_mass p * 10).

(** The reaction force on a platform that is neither static nor
    kinematic. *)
Definition reactionForce : Vec3 := mkVec3 0 (- (981 # 100) * (2 # 10)) 0.

Definition isDynamic (a : Actor) : bool := negb (ac_kinematic a) && negb (ac_static a).

(** The speed a jump starts with. *)
Definition jumpVelocity (sqrt : Q -> Q) (p : Player) : Q :=
  sqrt (2 * pl_effectiveGravity p * pl_jumpHeight p) * (1 / sqrt (pl_mass p)).

(** A player falling at 2 m/s that has left the ground a step ago. *)
Definition airborne : Player :=
  set_pl_velocity (mkVec3 3 (-2) 0)
    (set_pl_materialMax (Some false) (set_pl_grounded false walking)).

(** Flat ground under the player, and nothing under the player; Space is
    not held in either. *)
Definition flat : Queries := mkQueries None (Some V3.UP) false.
Definition nothing : Queries := mkQueries None None false.
Definition flatSpace : Queries := mkQueries None (Some V3.UP) true.

End GroundSpec.

(** ** [core/extras/appTools.js]: the .hyp container and version checks *)

Module AppTools.

(** *** Bytes, code units and the size prefix *)

(** A [Uint8Array] or [ArrayBuffer] is the list of its bytes; a JavaScript
    string whose code units matter is the list of its UTF-16 code units. *)
Definition Bytes := list Z.
Definition CodeUnits := list Z.

Definition is_byte (b : Z) : Prop := (0 <= b < 256)%Z.
Definition is_unit (c : Z) : Prop := (0 <= c < 65536)%Z.

(** [str2ab]: [buf[i] = str.charCodeAt(i)], the store into a [Uint8Array]
    keeping the low 8 bits. *)
Definition str2ab (str : CodeUnits) : Bytes := map (fun c => c mod 256)%Z str.

Section Apply.
(** The number of arguments the engine accepts in a call made with
    [Function.prototype.apply]. *)
Variable maxArguments : nat.

(** [ab2str]: [String.fromCharCode.apply(null, buf)] passes every byte as
    an argument of its own; with more bytes than the engine accepts the
    call throws a RangeError ([None]). *)
Definition ab2str (buf : Bytes) : option CodeUnits :=
  if (length buf <=? maxArguments)%nat
  then Some (map (fun b => b mod 65536)%Z buf)
  else None.
End Apply.

(** [new DataView(a.buffer).setUint32(0, n, true)] on four bytes. *)
Definition setUint32 (n : Z) : Bytes :=
  let n := (n mod 2 ^ 32)%Z in
  [Z.land n 255; Z.land (Z.shiftr n 8) 255; Z.land (Z.shiftr n 16) 255;
   Z.land (Z.shiftr n 24) 255].

(** [view.getUint32(0, true)]; a view of fewer than four bytes throws a
    RangeError. *)
Definition getUint32 (buf : Bytes) : option Z :=
  match buf with
  | b0 :: b1 :: b2 :: b3 :: _ =>
      Some (Z.lor (Z.lor b0 (Z.shiftl b1 8)) (Z.lor (Z.shiftl b2 16) (Z.shiftl b3 24)))
  | _ => None
  end.

(** [buffer.slice(start, end)]: negative indices count from the end, and
    both are clamped to the length. *)
Definition clampIndex (len i : Z) : Z :=
  if (i <? 0)%Z then Z.max (len + i) 0 else Z.min i len.

Definition slice (start stop : Z) (buf : Bytes) : Bytes :=
  let len := Z.of_nat (length buf) in
  let first := clampIndex len start in
  let final := clampIndex len stop in
  take (Z.to_nat (Z.max (final - first) 0)) (drop (Z.to_nat first) buf).

(** *** Strings *)

Fixpoint dropPrefix (pre s : string) : option string :=
  match pre with
  | EmptyString => Some s
  | String c pre' =>
      match s with
      | String d s' => if Ascii.eqb c d then dropPrefix pre' s' else None
      | EmptyString => None
      end
  end.

(** [s.replace(pat, rep)] with a string pattern: the first occurrence
    only. *)
Fixpoint replaceFirst (pat rep s : string) : string :=
  match dropPrefix pat s with
  | Some rest => String.append rep rest
  | None =>
      match s with
      | EmptyString => EmptyString
      | String c s' => String c (replaceFirst pat rep s')
      end
  end.

(** [s.split(sep)] with a separator of one character. *)
Fixpoint split (sep : Ascii.ascii) (s : string) : list string :=
  match s with
  | EmptyString => [EmptyString]
  | String c s' =>
      if Ascii.eqb c sep then EmptyString :: split sep s'
      else match split sep s' with
           | h :: t => String c h :: t
           | [] => [String c EmptyString]
           end
  end.

Definition slash : Ascii.ascii := Ascii.ascii_of_nat 47.
Definition dot : Ascii.ascii := Ascii.ascii_of_nat 46.

(** [url.split('/').pop()] *)
Definition lastSegment (url : string) : string := List.last (split slash url) EmptyString.

(** *** [exportApp] and [importApp] *)

(** A [File]: its bytes, name and type. *)
Record HFile := mkHFile { hf_bytes : Bytes; hf_name : string; hf_type : string }.

(** A value of [blueprint.props]: what [value?.url] and [value.type]
    read. *)
Record PropValue := mkPropValue { pv_url : option string; pv_type : option string }.

(** The fields of a blueprint [exportApp] reads or writes; the others are
    carried as they are. *)
Record AppBlueprint := mkAppBlueprint {
  ab_name : option string;
  ab_model : option string;
  ab_script : option string;
  ab_props : list (string * PropValue);
  ab_locked : bool;
  ab_frozen : bool;
  ab_rest : Data
}.

Record Asset := mkAsset { as_type : option string; as_url : string; as_file : HFile }.

(** An entry of [header.assets]. *)
Record AssetInfo := mkAssetInfo {
  ai_type : option string;
  ai_url : string;
  ai_size : Z;
  ai_mime : string
}.

Record Header := mkHeader {
  h_version : option string;
  h_blueprint : AppBlueprint;
  h_assets : list AssetInfo
}.

(** What [importApp] returns. *)
Record Imported := mkImported {
  im_version : option string;
  im_blueprint : AppBlueprint;
  im_assets : list Asset
}.

Definition setFrozen (bp : AppBlueprint) : AppBlueprint :=
  {| ab_name := ab_name bp; ab_model := ab_model bp; ab_script := ab_script bp;
     ab_props := ab_props bp; ab_locked := ab_locked bp; ab_frozen := true;
     ab_rest := ab_rest bp |}.

Section Codec.
(** [process.env.PUBLIC_VERSION]; [resolveFile], [None] when its promise
    rejects; [JSON.stringify] of a header, as code units, and [JSON.parse],
    [None] when it throws. *)
Variable PUBLIC_VERSION : option string.
Variable resolveFile : string -> option HFile.
Variable stringify : Header -> CodeUnits.
Variable parse : CodeUnits -> option Header.
Variable maxArguments : nat.

(** The urls [exportApp] collects, each with the type of its asset: the
    model, the script, and the props that have a url. *)
Definition assetRefs (bp : AppBlueprint) : list (option string * string) :=
  (match ab_model bp with
   | Some model =>
       if JS.truthy (Some model)
       then [(Some (if JS.endsWith model ".vrm" then "avatar" else "model"), model)]
       else []
   | None => []
   end) ++
  (match ab_script bp with
   | Some script => if JS.truthy (Some script) then [(Some "script", script)] else []
   | None => []
   end) ++
  flat_map (fun kv =>
    match pv_url (snd kv) with
    | Some url => if JS.truthy (Some url) then [(pv_type (snd kv), url)] else []
    | None => []
    end) (ab_props bp).

(** [file: await resolveFile(url)] for each of them, in order; the first
    rejection rejects [exportApp]. *)
Fixpoint resolveAll (refs : list (option string * string)) : option (list Asset) :=
  match refs with
  | [] => Some []
  | (type, url) :: rest =>
      match resolveFile url with
      | None => None
      | Some file =>
          match resolveAll rest with
          | None => None
          | Some assets => Some (mkAsset type url file :: assets)
          end
      end
  end.

Definition assetInfo (a : Asset) : AssetInfo :=
  mkAssetInfo (as_type a) (as_url a) (Z.of_nat (length (hf_bytes (as_file a))))
              (hf_type (as_file a)).

Definition exportedBlueprint (bp : AppBlueprint) : AppBlueprint :=
  if ab_locked bp then setFrozen bp else bp.

Definition headerOf (bp : AppBlueprint) (assets : list Asset) : Header :=
  mkHeader PUBLIC_VERSION (exportedBlueprint bp) (map assetInfo assets).

Definition hypName (bp : AppBlueprint) : string :=
  String.append (if JS.truthy (ab_name bp) then default EmptyString (ab_name bp) else "app")
                ".hyp".

Definition exportApp (bp : AppBlueprint) : option HFile :=
  match resolveAll (assetRefs bp) with
  | None => None
  | Some assets =>
      let headerBytes := str2ab (stringify (headerOf bp assets)) in
      let headerSize := setUint32 (Z.of_nat (length headerBytes)) in
      Some (mkHFile
              (headerSize ++ headerBytes ++ concat (map (fun a => hf_bytes (as_file a)) assets))
              (hypName bp) "application/octet-stream")
  end.

(** The loop of [importApp] over [header.assets]. *)
Fixpoint extract (buffer : Bytes) (position : Z) (infos : list AssetInfo) : list Asset :=
  match infos with
  | [] => []
  | info :: rest =>
      let data := slice position (position + ai_size info) buffer in
      mkAsset (ai_type info) (ai_url info)
              (mkHFile data (lastSegment (ai_url info)) (ai_mime info))
      :: extract buffer (position + ai_size info) rest
  end.

Definition importApp (file : HFile) : option Imported :=
  let buffer := hf_bytes file in
  match getUint32 buffer with
  | None => None
  | Some headerSize =>
      let bytes := slice 4 (4 + headerSize) buffer in
      match ab2str maxArguments bytes with
      | None => None
      | Some text =>
          match parse text with
          | None => None
          | Some header =>
              Some (mkImported (h_version header) (h_blueprint header)
                      (extract buffer (4 + headerSize) (h_assets header)))
          end
      end
  end.

(** What a file that went through the container comes back as: the same
    bytes and type, named by the last segment of its url. *)
Definition reimported (a : Asset) : Asset :=
  mkAsset (as_type a) (as_url a)
          (mkHFile (hf_bytes (as_file a)) (lastSegment (as_url a)) (hf_type (as_file a))).

End Codec.

(** *** [isAppCompatible] *)

(** A JavaScript number as the comparisons see it. *)
Inductive Num := NaN | NegInf | Fin (q : Q) | PosInf.

(** [a < b] on numbers. *)
Definition num_lt (a b : Num) : bool :=
  match a, b with
  | NaN, _ | _, NaN => false
  | NegInf, NegInf => false
  | NegInf, _ => true
  | _, NegInf => false
  | PosInf, _ => false
  | Fin _, PosInf => true
  | Fin x, Fin y => negb (Qle_bool y x)
  end.

(** [l[i]] converted to a number: [undefined] past the end gives NaN. *)
Definition part (l : list Num) (i : nat) : Num :=
  match l !! i with Some x => x | None => NaN end.

(** [for (let i = 0; i < 3; i++) { ... } return true], from index [i] with
    [n] turns left. *)
Fixpoint compareParts (current required : list Num) (i n : nat) : bool :=
  match n with
  | O => true
  | S n' =>
      if num_lt (part required i) (part current i) then true
      else if num_lt (part current i) (part required i) then false
      else compareParts current required (S i) n'
  end.

Section Version.
(** [Number] on the text of a part. *)
Variable Number : string -> Num.

Definition versionParts (v : string) : list Num :=
  map Number (split dot (replaceFirst "-dev" EmptyString v)).

(** [isAppCompatible(appVersion)]; [None] when [PUBLIC_VERSION] is not set
    and [currentVersion.replace] throws. *)
Definition isAppCompatible (PUBLIC_VERSION : option string) (appVersion : string)
  : option bool :=
  match PUBLIC_VERSION with
  | None => None
  | Some currentVersion =>
      Some (compareParts (versionParts currentVersion) (versionParts appVersion) 0 3)
  end.

End Version.

(** [isDevBuild()] *)
Definition isDevBuild (PUBLIC_VERSION : option string) : option bool :=
  match PUBLIC_VERSION with
  | None => None
  | Some v => Some (JS.endsWith v "-dev")
  end.

(** *** Vocabulary of the statements *)

(** The order of versions of three numbers. *)
Definition lex_le (a b : Q * Q * Q) : Prop :=
  let '(a0, a1, a2) := a in
  let '(b0, b1, b2) := b in
  (a0 < b0 \/ (a0 == b0 /\ (a1 < b1 \/ (a1 == b1 /\ a2 <= b2))))%Q.

(** A stand-in for [Number] that agrees with it on texts of decimal
    digits (the empty text is 0) and gives NaN elsewhere. *)
Fixpoint digitsValue (s : string) (acc : Z) : option Z :=
  match s with
  | EmptyString => Some acc
  | String c s' =>
      let n := Ascii.nat_of_ascii c in
      if (48 <=? n)%nat && (n <=? 57)%nat
      then digitsValue s' (acc * 10 + Z.of_nat (n - 48))%Z
      else None
  end.

Definition digits (s : string) : Num :=
  match digitsValue s 0 with
  | Some z => Fin (inject_Z z)
  | None => NaN
  end.

(** A header written as its model name, and read back when the text is
    "ok": a stand-in for JSON on one header. *)
Definition cubeFile : HFile := mkHFile [1; 2; 3]%Z "cube.glb" "model/gltf-binary".
Definition scriptFile : HFile := mkHFile [7; 8]%Z "main.js" "text/javascript".

Definition cube : AppBlueprint :=
  mkAppBlueprint (Some "cube") (Some "asset://abc.glb") (Some "asset://def.js") [] true false "{}".

Definition cubeFiles (url : string) : option HFile :=
  if String.eqb url "asset://abc.glb" then Some cubeFile
  else if String.eqb url "asset://def.js" then Some scriptFile
  else None.

Definition cubeHeader : Header :=
  headerOf (Some "0.5.0") cube
    [mkAsset (Some "model") "asset://abc.glb" cubeFile;
     mkAsset (Some "script") "asset://def.js" scriptFile].

Definition okText : CodeUnits := [111; 107]%Z.
Definition writeOk (h : Header) : CodeUnits := okText.
Definition readOk (text : CodeUnits) : option Header :=
  if bool_decide (text = okText) then Some cubeHeader else None.

End AppTools.

(** ** The class [PointerState] of PlayerLocal.js: hover, cursor, press *)

Module PointerState.
#[local] Set Warnings "-register-all".

(** What calling a handler of a node does: it returns, it calls
    [event.stopPropagation()] and returns, or it throws.  Handlers that
    change the nodes are not modelled. *)
Inductive Handler := Returns | Stops | Throws.

(** A node as [update] sees it: its identity, its parent, its four
    handlers (absent when the property is not set) and its cursor. *)
Inductive PNode := mkPNode {
  pn_id : nat;
  pn_parent : option PNode;
  pn_onPointerEnter : option Handler;
  pn_onPointerLeave : option Handler;
  pn_onPointerDown : option Handler;
  pn_onPointerUp : option Handler;
  pn_cursor : option string
}.

(** [a === b] on nodes. *)
Definition same (a b : PNode) : bool := Nat.eqb (pn_id a) (pn_id b).

(** A raycast hit: [hit.node], and what [hit.node?.resolveHit?.(hit)]
    gives when it is truthy. *)
Record Hit := mkHit { hit_node : option PNode; hit_resolved : option PNode }.

(** The fields of a [PointerState], the [PointerEvent] it owns, the writes
    to [document.body.style.cursor], and the handlers called, each with the
    type the event had. *)
Record PState := mkPState {
  ps_activePath : list PNode;
  ps_eventType : option string;
  ps_stopped : bool;
  ps_cursor : string;
  ps_pressedNodes : list PNode;
  ps_bodyCursor : list string;
  ps_calls : list (string * nat)
}.

Definition set_ps_activePath (v : list PNode) (s : PState) : PState :=
  {| ps_activePath := v; ps_eventType := ps_eventType s; ps_stopped := ps_stopped s; ps_cursor := ps_cursor s; ps_pressedNodes := ps_pressedNodes s; ps_bodyCursor := ps_bodyCursor s; ps_calls := ps_calls s |}.
Definition set_ps_pressedNodes (v : list PNode) (s : PState) : PState :=
  {| ps_activePath := ps_activePath s; ps_eventType := ps_eventType s; ps_stopped := ps_stopped s; ps_cursor := ps_cursor s; ps_pressedNodes := v; ps_bodyCursor := ps_bodyCursor s; ps_calls := ps_calls s |}.

Definition CURSOR_DEFAULT : string := "default".
Definition ENTER : string := "pointerenter".
Definition LEAVE : string := "pointerleave".
Definition DOWN : string := "pointerdown".
Definition UP : string := "pointerup".

(** [new PointerState()] *)
Definition fresh : PState := mkPState [] None false CURSOR_DEFAULT [] [] [].

(** A [Set] of nodes in insertion order. *)
Definition set_has (n : PNode) (l : list PNode) : bool := existsb (same n) l.
Definition set_add (n : PNode) (l : list PNode) : list PNode :=
  if set_has n l then l else l ++ [n].
Definition set_delete (n : PNode) (l : list PNode) : list PNode :=
  List.filter (fun m => negb (same n m)) l.

(** [getAncestorPath]: the nodes from the root down to the node hit. *)
Fixpoint pathTo (n : PNode) (path : list PNode) : list PNode :=
  match pn_parent n with
  | Some parent => pathTo parent (n :: path)
  | None => n :: path
  end.

Definition getAncestorPath (hit : Hit) : list PNode :=
  match (match hit_resolved hit with Some n => Some n | None => hit_node hit end) with
  | Some node => pathTo node []
  | None => []
  end.

(** "find divergence point" *)
Fixpoint divergence (newPath oldPath : list PNode) : nat :=
  match newPath, oldPath with
  | n :: newPath', o :: oldPath' => if same n o then S (divergence newPath' oldPath') else O
  | _, _ => O
  end.

(** [this.event.set(type); handler(this.event)]: the state after, and
    whether the handler threw. *)
Definition fire (type : string) (n : PNode) (h : Handler) (s : PState) : PState * bool :=
  let s := {| ps_activePath := ps_activePath s; ps_eventType := Some type;
              ps_stopped := match h with Stops => true | _ => false end;
              ps_cursor := ps_cursor s; ps_pressedNodes := ps_pressedNodes s;
              ps_bodyCursor := ps_bodyCursor s;
              ps_calls := ps_calls s ++ [(type, pn_id n)] |} in
  (s, match h with Throws => true | _ => false end).

(** "pointer leave events bubble up from leaf": the nodes are given
    leaf first. *)
Fixpoint leaveAll (nodes : list PNode) (s : PState) : PState * bool :=
  match nodes with
  | [] => (s, false)
  | n :: rest =>
      let '(s, threw) :=
        match pn_onPointerLeave n with
        | Some h => fire LEAVE n h s
        | None => (s, false)
        end in
      if threw then (s, true)
      else leaveAll rest (set_ps_activePath (set_delete n (ps_activePath s)) s)
  end.

(** "pointer enter events bubble down from divergence" *)
Fixpoint enterAll (nodes : list PNode) (s : PState) : PState * bool :=
  match nodes with
  | [] => (s, false)
  | n :: rest =>
      match pn_onPointerEnter n with
      | Some h =>
          let '(s, threw) := fire ENTER n h s in
          if threw then (s, true)
          else if ps_stopped s then (s, false)
          else enterAll rest (set_ps_activePath (set_add n (ps_activePath s)) s)
      | None => enterAll rest (set_ps_activePath (set_add n (ps_activePath s)) s)
      end
  end.

(** "check from leaf to root for first defined cursor": the nodes are
    given leaf first. *)
Fixpoint pickCursor (nodes : list PNode) : string :=
  match nodes with
  | [] => CURSOR_DEFAULT
  | n :: rest =>
      if JS.truthy (pn_cursor n) then default EmptyString (pn_cursor n) else pickCursor rest
  end.

Definition setCursor (newPath : list PNode) (s : PState) : PState :=
  let cursor := pickCursor (rev newPath) in
  if String.eqb cursor (ps_cursor s) then s
  else {| ps_activePath := ps_activePath s; ps_eventType := ps_eventType s;
          ps_stopped := ps_stopped s; ps_cursor := cursor;
          ps_pressedNodes := ps_pressedNodes s;
          ps_bodyCursor := ps_bodyCursor s ++ [cursor]; ps_calls := ps_calls s |}.

(** "handle pointer down events": the nodes are given leaf first. *)
Fixpoint downAll (nodes : list PNode) (s : PState) : PState * bool :=
  match nodes with
  | [] => (s, false)
  | n :: rest =>
      match pn_onPointerDown n with
      | Some h =>
          let '(s, threw) := fire DOWN n h s in
          if threw then (s, true)
          else
            let s := set_ps_pressedNodes (set_add n (ps_pressedNodes s)) s in
            if ps_stopped s then (s, false) else downAll rest s
      | None => downAll rest s
      end
  end.

(** "handle pointer up events", before [pressedNodes.clear()] *)
Fixpoint upAll (nodes : list PNode) (s : PState) : PState * bool :=
  match nodes with
  | [] => (s, false)
  | n :: rest =>
      match pn_onPointerUp n with
      | Some h =>
          let '(s, threw) := fire UP n h s in
          if threw then (s, true)
          else if ps_stopped s then (s, false) else upAll rest s
      | None => upAll rest s
      end
  end.

(** [update(hit, pointerPressed, pointerReleased)]: the state after, and
    whether a handler threw, which ends the call there. *)
Definition update (hit : option Hit) (pointerPressed pointerReleased : bool) (s : PState)
  : PState * bool :=
  let newPath := match hit with Some h => getAncestorPath h | None => [] end in
  let oldPath := ps_activePath s in
  let i := divergence newPath oldPath in
  let '(s, threw) := leaveAll (rev (drop i oldPath)) s in
  if threw then (s, true) else
  let '(s, threw) := enterAll (drop i newPath) s in
  if threw then (s, true) else
  let s := setCursor newPath s in
  let '(s, threw) := if pointerPressed then downAll (rev newPath) s else (s, false) in
  if threw then (s, true) else
  if pointerReleased then
    let '(s, threw) := upAll (ps_pressedNodes s) s in
    if threw then (s, true) else (set_ps_pressedNodes [] s, false)
  else (s, false).

(** *** Vocabulary of the statements *)

Definition ids (l : list PNode) : list nat := map pn_id l.

Definition quiet (h : option Handler) : Prop := h = None \/ h = Some Returns.
Definition no_throw (h : option Handler) : Prop := h <> Some Throws.

(** The handlers called for a list of nodes, in its order, for one kind of
    event. *)
Definition callsOf (type : string) (handler : PNode -> option Handler) (nodes : list PNode)
  : list (string * nat) :=
  flat_map (fun n => match handler n with Some _ => [(type, pn_id n)] | None => [] end) nodes.

(** The nodes that listen to a press. *)
Definition hasDown (n : PNode) : bool :=
  match pn_onPointerDown n with Some _ => true | None => false end.

(** A root with a cursor, a panel under it that listens to enter and
    leave, and two buttons under the panel, the second of which stops the
    enter event. *)
Definition root : PNode := mkPNode 0 None None None None None (Some "crosshair").
Definition panel : PNode :=
  mkPNode 1 (Some root) (Some Returns) (Some Returns) (Some Returns) (Some Returns) None.
Definition button : PNode :=
  mkPNode 2 (Some panel) (Some Returns) (Some Returns) (Some Stops) (Some Returns)
          (Some "pointer").
Definition shy : PNode :=
  mkPNode 3 (Some panel) (Some Stops) None None None None.

Definition over (n : PNode) : option Hit := Some (mkHit (Some n) None).

End PointerState.

(** ** The class [App]: transforming, placing and the other frame methods *)

Module AppMethods.
Import World App.
Local Open Scope Q_scope.

Definition set_nd_position (v : Vec3) (nd : Node) : Node :=
  {| nd_src := nd_src nd; nd_gen := nd_gen nd; nd_position := v;
     nd_quaternion := nd_quaternion nd; nd_scale := nd_scale nd |}.
Definition set_nd_quaternion (v : Quat) (nd : Node) : Node :=
  {| nd_src := nd_src nd; nd_gen := nd_gen nd; nd_position := nd_position nd;
     nd_quaternion := v; nd_scale := nd_scale nd |}.

(** *** [move], [rotate], [scale], [onUploaded] *)

(** The body the three methods share: the mover and the transform mode are
    stored, a build is started, and both are announced. *)
Definition startTransform (transformMode : string) : M unit :=
  w <- get_world;;
  mod_data (set_d_mover (Some (w_netid w)));;
  mod_data (set_d_transformMode (Some transformMode));;
  build false;;
  a <- get_app;;
  network_send
    (EntityModified (d_id (app_data a))
       {| p_blueprint := None; p_uploader := None;
          p_mover := Some (d_mover (app_data a));
          p_transformMode := Some (d_transformMode (app_data a));
          p_position := None; p_quaternion := None; p_scale := None; p_state := None |}).

Definition move : M unit := startTransform "move".
Definition rotate : M unit := startTransform "rotate".
Definition scale : M unit := startTransform "scale".

Definition onUploaded : M unit :=
  mod_data (set_d_uploader None);;
  a <- get_app;;
  network_send
    (EntityModified (d_id (app_data a))
       {| p_blueprint := None; p_uploader := Some None; p_mover := None;
          p_transformMode := None; p_position := None; p_quaternion := None;
          p_scale := None; p_state := None |}).

(** [offWorldEvent(name, callback)] *)
Definition map_delete (cb : Callback) (l : list (Callback * string))
  : list (Callback * string) :=
  List.filter (fun e => negb (Nat.eqb (cb_id (fst e)) (cb_id cb))) l.

Definition offWorldEvent (name : string) (cb : Callback) : M unit :=
  mod_app (fun a => set_app_worldListeners (map_delete cb (app_worldListeners a)) a);;
  events_off name cb.

(** *** [update] *)

(** What [_hit.getEntity?.()] gives for a hit of the pointer's ray. *)
Inductive HitEntity := NoEntity | Self | APlayer | Another.

Record PointerHit := mkPointerHit { ph_entity : HitEntity; ph_point : Vec3 }.

(** What one frame reads from the controls and the stage:
    [control.buttons.ShiftLeft] and [world.controls.pointer.delta],
    [control.pressed.MouseLeft], the hits of [stage.raycastPointer], and
    [world.networkRate]. *)
Record Frame := mkFrame {
  fr_input : Input;
  fr_MouseLeft : bool;
  fr_hits : list PointerHit;
  fr_networkRate : Q
}.

(** "Ignore self and players" *)
Fixpoint firstHit (hits : list PointerHit) : option PointerHit :=
  match hits with
  | [] => None
  | h :: rest =>
      match ph_entity h with
      | Self | APlayer => firstHit rest
      | _ => Some h
      end
  end.

Definition noControl : string := "TypeError: Cannot read properties of null (reading 'buttons')".
Definition noRoot : string := "TypeError: Cannot read properties of undefined (reading 'position')".

Definition handleMove (fr : Frame) (delta : Q) : M unit :=
  a <- get_app;;
  match app_control a with
  | None => throw noControl
  | Some _ =>
      if in_ShiftLeft (fr_input fr) then
        match app_root a with
        | None => throw noRoot
        | Some root =>
            let pos := nd_position root in
            mod_app (set_app_root (Some (set_nd_position
              (V3.setY pos (vy pos - in_pointer_dy (fr_input fr) * delta * (1 # 2))) root)))
        end
      else
        match firstHit (fr_hits fr) with
        | None => ret tt
        | Some hit =>
            match app_root a with
            | None => throw noRoot
            | Some root => mod_app (set_app_root (Some (set_nd_position (ph_point hit) root)))
            end
        end
  end.

Section Frames.
(** The arithmetic of [THREE.Euler] bound to the quaternion of a node:
    what [rotation.y += a] and [rotation.x += a] do to the quaternion.
    Modelled from the spec: what [networkPos.update(delta)] and
    [networkQuat.update(delta)] of LerpVector3 / LerpQuaternion, which are
    not part of the listing, do to the two interpolators and the root they
    drive. *)
Variable addRotationY : Q -> Quat -> Quat.
Variable addRotationX : Q -> Quat -> Quat.
Variable interpolate :
  Q -> LerpVector3 * LerpQuaternion * option Node -> LerpVector3 * LerpQuaternion * option Node.

Definition handleRotate (fr : Frame) (delta : Q) : M unit :=
  let rotationSpeed := 2 in
  a <- get_app;;
  match app_root a with
  | None => throw "TypeError: Cannot read properties of undefined (reading 'rotation')"
  | Some root =>
      let root := set_nd_quaternion
                    (addRotationY (in_pointer_dx (fr_input fr) * delta * rotationSpeed)
                       (nd_quaternion root)) root in
      mod_app (set_app_root (Some root));;
      match app_control a with
      | None => throw noControl
      | Some _ =>
          if in_ShiftLeft (fr_input fr) then
            mod_app (set_app_root (Some (set_nd_quaternion
              (addRotationX (in_pointer_dy (fr_input fr) * delta * rotationSpeed)
                 (nd_quaternion root)) root)))
          else ret tt
      end
  end.

(** "Periodically send updates" *)
Definition sendMove (fr : Frame) (delta : Q) : M unit :=
  mod_app (fun a =>
    set_app_lastMoveSendTime (option_map (fun t => t + delta) (app_lastMoveSendTime a)) a);;
  a <- get_app;;
  match app_lastMoveSendTime a with
  | None => ret tt
  | Some t =>
      if PlayerLocal.Qgtb t (fr_networkRate fr) then
        match app_root a with
        | None => throw noRoot
        | Some root =>
            network_send
              (EntityModified (d_id (app_data a))
                 {| p_blueprint := None; p_uploader := None; p_mover := None;
                    p_transformMode := None;
                    p_position := Some (nd_position root);
                    p_quaternion := Some (nd_quaternion root);
                    p_scale := if Mode_eqb (default ACTIVE (app_mode a)) SCALING
                               then Some (Some (nd_scale root)) else None;
                    p_state := None |});;
            mod_app (set_app_lastMoveSendTime (Some 0))
        end
      else ret tt
  end.

(** "If we left clicked, place the app" *)
Definition place (fr : Frame) : M unit :=
  a <- get_app;;
  match app_control a with
  | None => throw "TypeError: Cannot read properties of null (reading 'pressed')"
  | Some _ =>
      if fr_MouseLeft fr then
        mod_data (set_d_mover None);;
        match app_root a with
        | None => throw noRoot
        | Some root =>
            mod_data (set_d_position (nd_position root));;
            mod_data (set_d_quaternion (nd_quaternion root));;
            (if Mode_eqb (default ACTIVE (app_mode a)) SCALING
             then mod_data (set_d_scale (Some (nd_scale root))) else ret tt);;
            mod_data (set_d_transformMode None);;
            mod_data (set_d_state "{}");;
            a <- get_app;;
            let d := app_data a in
            network_send
              (EntityModified (d_id d)
                 {| p_blueprint := None; p_uploader := None; p_mover := Some None;
                    p_transformMode := Some None;
                    p_position := Some (d_position d);
                    p_quaternion := Some (d_quaternion d);
                    p_scale := Some (d_scale d);
                    p_state := Some (d_state d) |});;
            build false
        end
      else ret tt
  end.

(** "if someone else is moving the app, interpolate updates" *)
Definition followMover (delta : Q) : M unit :=
  a <- get_app;;
  w <- get_world;;
  if JS.truthy (d_mover (app_data a)) && negb (JS.seq (d_mover (app_data a)) (Some (w_netid w)))
  then
    match app_networkPos a, app_networkQuat a with
    | Some lp, Some lq =>
        let '(lp', lq', root') := interpolate delta (lp, lq, app_root a) in
        mod_app (fun a =>
          set_app_root root' (set_app_networkQuat (Some lq') (set_app_networkPos (Some lp') a)))
    | _, _ => throw "TypeError: Cannot read properties of undefined (reading 'update')"
    end
  else ret tt.

(** The script's [update], [lateUpdate]: as [fixedUpdate]. *)
Definition scriptFrame (name crashedText : string) (delta : Q) : M unit :=
  a <- get_app;;
  if scriptIsActive a then
    try_catch (emit name (ANum delta) AUndef)
      (fun err =>
         console_error crashedText;;
         console_error err;;
         crash)
  else ret tt.

Definition update (fr : Frame) (delta : Q) : M unit :=
  a <- get_app;;
  w <- get_world;;
  (if JS.seq (d_mover (app_data a)) (Some (w_netid w)) then
     (match app_mode a with
      | Some MOVING => handleMove fr delta
      | Some ROTATING => handleRotate fr delta
      | Some SCALING => handleScale (fr_input fr) delta
      | _ => ret tt
      end);;
     sendMove fr delta;;
     place fr
   else ret tt);;
  followMover delta;;
  scriptFrame "update" "script update() crashed" delta.

Definition lateUpdate (delta : Q) : M unit :=
  scriptFrame "lateUpdate" "script lateUpdate() crashed" delta.

End Frames.

(** *** Vocabulary of the statements *)

(** What a build may not touch: the entity's record, the packets sent, the
    entity store and the blueprint registry. *)
Definition outside (s : St) :=
  (app_data (st_app s), w_sent (st_world s), w_entities (st_world s),
   w_blueprints (st_world s), w_netid (st_world s)).

(** The announcement of a transform. *)
Definition transformPacket (id netid mode : string) : Packet :=
  EntityModified id
    {| p_blueprint := None; p_uploader := None; p_mover := Some (Some netid);
       p_transformMode := Some (Some mode);
       p_position := None; p_quaternion := None; p_scale := None; p_state := None |}.

(** The packet that places an app. *)
Definition placePacket (d : AppData) (root : Node) (scaling : bool) : Packet :=
  EntityModified (d_id d)
    {| p_blueprint := None; p_uploader := None; p_mover := Some None;
       p_transformMode := Some None;
       p_position := Some (nd_position root);
       p_quaternion := Some (nd_quaternion root);
       p_scale := Some (if scaling then Some (nd_scale root) else d_scale d);
       p_state := Some "{}" |}.

(** The record of an app placed where its root is. *)
Definition placedData (d : AppData) (root : Node) (scaling : bool) : AppData :=
  {| d_id := d_id d; d_blueprint := d_blueprint d; d_uploader := d_uploader d;
     d_mover := None; d_transformMode := None;
     d_position := nd_position root; d_quaternion := nd_quaternion root;
     d_scale := if scaling then Some (nd_scale root) else d_scale d;
     d_state := "{}" |}.

(** The packet of a periodic update while the app is being moved. *)
Definition movePacket (a : App) (root : Node) : Packet :=
  EntityModified (d_id (app_data a))
    {| p_blueprint := None; p_uploader := None; p_mover := None;
       p_transformMode := None;
       p_position := Some (nd_position root);
       p_quaternion := Some (nd_quaternion root);
       p_scale := if Mode_eqb (default ACTIVE (app_mode a)) SCALING
                  then Some (Some (nd_scale root)) else None;
       p_state := None |}.

(** The time since the last periodic update, after a frame of [delta]
    seconds, and whether the frame sends one. *)
Definition moveTick (rate delta t : Q) : Q * bool :=
  if PlayerLocal.Qgtb (t + delta) rate then (0, true) else (t + delta, false).

(** What the frame methods read of the app besides its root: the control,
    the mode, the record, the time since the last update, and the
    interpolators. *)
Definition besidesRoot (s : St) :=
  (app_control (st_app s), app_mode (st_app s), app_data (st_app s),
   app_lastMoveSendTime (st_app s), app_script (st_app s), st_world s).

(** ... and besides that time and the packets sent. *)
Definition besidesSending (s : St) :=
  (app_control (st_app s), app_mode (st_app s), app_data (st_app s),
   app_root (st_app s), app_script (st_app s), w_netid (st_world s),
   w_entities (st_world s), w_blueprints (st_world s)).

(** An app the local client is moving over the point (4, 0, 2) of the
    ground, a frame that clicks, and one that does not. *)
Definition held : St :=
  construct
    (mkAppData "x" "a" None (Some "me") (Some "move") (mkVec3 0 0 0) (mkQuat 0 0 0 1)
               None "{}")
    SupersededSpec.worldAB.

(** Stand-ins for the rotation arithmetic and the interpolators: both
    leave what they are given as it is. *)
Definition sameQuat (angle : Q) (q : Quat) : Quat := q.
Definition still (delta : Q) (x : LerpVector3 * LerpQuaternion * option Node) := x.

Definition ground : PointerHit := mkPointerHit NoEntity (mkVec3 4 0 2).
Definition click : Frame := mkFrame (mkInput false 0 0) true [ground] (1 # 8).
Definition hover : Frame := mkFrame (mkInput false 0 0) false [ground] (1 # 8).

Definition listenersOf (name : string) (s : St) : list Callback :=
  default [] (app_listeners (st_app s) !! name).

(** *** Builds and frames that run no script *)

(** The trace script code leaves in the state: the callbacks called so
    far and the script the app holds; with it, the generation of the latest
    build. *)
Definition scriptTrace (s : St) :=
  (w_calls (st_world s), app_script (st_app s), app_n (st_app s)).

(** No listener is registered with the app. *)
Definition deaf (s : St) : Prop := app_listeners (st_app s) = ∅.

(** The blueprint of the app names no script. *)
Definition scriptless (s : St) : Prop :=
  forall bp, w_blueprints (st_world s) !! d_blueprint (app_data (st_app s)) = Some bp ->
             JS.truthy (bp_script bp) = false.

(** The mode a build would choose on this state is not ACTIVE. *)
Definition buildsInactive (s : St) : Prop :=
  build_mode (app_data (st_app s)) (w_netid (st_world s)) <> ACTIVE.

(** A build with these local variables does not execute a script: it has
    none, it has crashed, or it does not build the ACTIVE mode. *)
Definition idle (L : Locals) (s : St) : Prop :=
  l_script L = None \/ l_crashed L = true \/ buildsInactive s.

(** What [idle] and [deaf] read, with the trace. *)
Definition traced (s : St) :=
  (scriptTrace s, app_data (st_app s), w_netid (st_world s)).
Definition tracedDeaf (s : St) := (traced s, app_listeners (st_app s)).

(** A computation that, run on an app without listeners, leaves the trace
    and the listeners as they are. *)
Definition deafly {A} (m : M A) : Prop :=
  forall s, deaf s -> tracedDeaf (fst (m s)) = tracedDeaf s.

(** What a build that runs no script leaves: the trace, the record and the
    network id; and, where it came as far as taking the previous version
    down, an app without listeners. *)
Definition afterBuild (s s' : St) : Prop :=
  traced s' = traced s /\
  (app_mode (st_app s') = app_mode (st_app s) \/ deaf s').

(** The state as [build] finds it once it has counted itself. *)
Definition counted (s : St) : St :=
  set_st_app (set_app_n (S (app_n (st_app s))) (set_app_building true (st_app s))) s.

End AppMethods.

(** ** [ClientNetwork]: the handlers of the entity packets *)

Module ClientEntities.
Import App ClientNetwork.

(** The payloads of the two packets: the array [[id, version, name, data]]
    of an entityEvent, and the record of an entityModified with its [id].
    Either handler may be handed either of them. *)
Inductive EPayload :=
| EntityEventData (id : string) (version : Z) (name : string) (data : Data)
| EntityModifiedData (id : string) (patch : Patch).

(** What [world.entities.get(id)] finds: nothing, the app of the state, or
    another entity of the store. *)
Inductive Found := Missing | TheApp | Another.

Definition entities_get (id : string) (s : St) : Found :=
  if bool_decide (id ∈ w_entities (st_world s)) then
    if String.eqb id (d_id (app_data (st_app s))) then TheApp else Another
  else Missing.

(** A method run as a handler: the state after, and the error when it
    threw. *)
Definition handler_of (m : M unit) (s : St) : St * option string :=
  match m s with
  | (s', Ok _) => (s', None)
  | (s', Threw err) => (s', Some err)
  end.

Section Others.
(** What the methods of the other entities of the store do. *)
Variable other : EPayload -> St -> St * option string.

(** [onEntityEvent = event => { const [id, version, name, data] = event;
    const entity = this.world.entities.get(id);
    entity?.onEvent(version, name, data) }]; a record is not iterable, so
    destructuring it throws. *)
Definition onEntityEvent (event : EPayload) (s : St) : St * option string :=
  match event with
  | EntityEventData id version name data =>
      match entities_get id s with
      | Missing => (s, None)
      | TheApp => handler_of (onEvent version name data None) s
      | Another => other event s
      end
  | EntityModifiedData _ _ => (s, Some "TypeError: event is not iterable")
  end.

(** [onEntityModified = data => { const entity =
    this.world.entities.get(data.id); entity.modify(data) }]; an array has
    no [id], and [entities.get(undefined)] finds nothing. *)
Definition onEntityModified (data : EPayload) (s : St) : St * option string :=
  match data with
  | EntityModifiedData id patch =>
      match entities_get id s with
      | Missing => (s, Some "TypeError: Cannot read properties of undefined (reading 'modify')")
      | TheApp => handler_of (modify patch) s
      | Another => other data s
      end
  | EntityEventData _ _ _ _ =>
      (s, Some "TypeError: Cannot read properties of undefined (reading 'modify')")
  end.

(** The members of the system that handle entity packets. *)
Definition entityMembers (name : string) : Member St EPayload :=
  if String.eqb name "onEntityEvent" then Method onEntityEvent
  else if String.eqb name "onEntityModified" then Method onEntityModified
  else if String.eqb name "queue" then NotCallable
  else Undefined.

End Others.

(** *** Vocabulary of the statements *)

Definition eventPacket (id : string) (ev : QueuedEvent) : option string * EPayload :=
  (Some "onEntityEvent", EntityEventData id (ev_version ev) (ev_name ev) (ev_data ev)).

(** An event as [onEntityEvent] hands it to the app: without a network
    id. *)
Definition fromServer (ev : QueuedEvent) : QueuedEvent :=
  mkQueuedEvent (ev_version ev) (ev_name ev) (ev_data ev) None.

Definition noOthers (p : EPayload) (s : St) : St * option string := (s, None).

End ClientEntities.

(** ** [ClientEditor]: what a drop starts, and what it spawns *)

Module EditorSpec.
Import ClientEditor.

(** A text without a dot. *)
Fixpoint noDot (s : string) : bool :=
  match s with
  | EmptyString => true
  | String c rest => negb (Ascii.eqb c (Ascii.ascii_of_nat 46)) && noDot rest
  end.

(** The call a dropped file of a given extension starts. *)
Definition started (file : File) : list Task :=
  let ext := extension (file_name file) in
  if String.eqb ext "glb" then [AddModel file]
  else if String.eqb ext "vrm" then [AddAvatar file]
  else [].

(** The record [addModel] spawns the app with: it follows the cursor of
    the dropping client ([mover]) and is marked as being uploaded by it
    ([uploader]). *)
Definition spawnData (appId bpId netid : string) (position : Vec3) : AppData :=
  {| d_id := appId; d_blueprint := bpId; d_uploader := Some netid; d_mover := Some netid;
     d_transformMode := None; d_position := position; d_quaternion := mkQuat 0 0 0 1;
     d_scale := None; d_state := "{}" |}.

(** The record the Duplicate action of the context menu adds. *)
Definition duplicateData (appId netid : string) (d : AppData) : AppData :=
  {| d_id := appId; d_blueprint := d_blueprint d; d_uploader := None; d_mover := Some netid;
     d_transformMode := None; d_position := d_position d; d_quaternion := d_quaternion d;
     d_scale := None; d_state := "{}" |}.

Definition textFile : File := mkFile "notes.txt" 10.
Definition textDrop : DataTransfer := mkDataTransfer None (Some [textFile]).
Definition visitor : Client :=
  {| cl_dropping := true; cl_roles := []; cl_netid := "me"; cl_chat := [];
     cl_blueprints := ∅; cl_entities := {[ "me" ]}; cl_socketOpen := true;
     cl_sent := []; cl_errors := []; cl_tasks := [] |}.

End EditorSpec.

(** ** World listeners of an app *)

Module WorldListenersSpec.

(** Whether the Set holds the callback. *)
Definition has (cb : Callback) (l : list Callback) : bool :=
  existsb (fun c => Nat.eqb (cb_id c) (cb_id cb)) l.

(** Whether the callback is subscribed to [name] on [world.events]. *)
Definition worldListens (name : string) (cb : Callback) (s : St) : bool :=
  has cb (default [] (w_events (st_world s) !! name)).

(** The callback is not a key of [worldListeners]. *)
Definition unknownTo (cb : Callback) (s : St) : Prop :=
  Forall (fun e : Callback * string => cb_id (fst e) <> cb_id cb)
         (app_worldListeners (st_app s)).

End WorldListenersSpec.

(* ---- definitions above, properties below ---- *)

(** * Properties *)

Module JSFacts.
Import JS.

Lemma truthy_Some_nonempty s : s <> EmptyString -> truthy (Some s) = true.
Proof.
  intros H. unfold truthy. destruct (String.eqb_spec s EmptyString); [contradiction | reflexivity].
Qed.

Lemma seq_refl a : seq a a = true.
Proof. destruct a; simpl; [apply String.eqb_refl | reflexivity]. Qed.

Lemma seq_eq a b : seq a b = true <-> a = b.
Proof.
  destruct a as [x|], b as [y|]; simpl; split; intros H; try congruence; try reflexivity.
  - apply String.eqb_eq in H. congruence.
  - inversion H; subst. apply String.eqb_refl.
Qed.

End JSFacts.

Module V3Facts.
Import V3.
Local Open Scope Q_scope.

Lemma clamp_bounds v lo hi : lo <= hi -> lo <= clamp v lo hi /\ clamp v lo hi <= hi.
Proof.
  intros Hle. unfold clamp. split.
  - apply Q.le_max_l.
  - apply Q.max_lub; [exact Hle | apply Q.le_min_l].
Qed.

Lemma clamp_id v lo hi : lo <= v -> v <= hi -> clamp v lo hi == v.
Proof.
  intros H1 H2. unfold clamp.
  rewrite (Q.min_r hi v H2). apply Q.max_r. exact H1.
Qed.

End V3Facts.

Lemma async_never_throws m s : result_M (async m) s = Ok tt.
Proof.
  unfold result_M, async, try_catch. destruct (m s) as [s' [[]|e]]; reflexivity.
Qed.

(** ** Stepping through monadic code *)

Lemma bind_unfold {A B} (m : M A) (k : A -> M B) s :
  bind m k s = match m s with
               | (s', Ok a) => k a s'
               | (s', Threw e) => (s', Threw e)
               end.
Proof. reflexivity. Qed.

Module Keeps.
Import AppSpec.

Section Projection.
Context {X : Type} (proj : St -> X).

Lemma of_ret {A} (a : A) : keeps proj (ret a).
Proof. intros s; reflexivity. Qed.

Lemma of_throw {A} e : keeps proj (@throw A e).
Proof. intros s; reflexivity. Qed.

Lemma of_bind {A B} (m : M A) (k : A -> M B) :
  keeps proj m -> (forall a, keeps proj (k a)) -> keeps proj (bind m k).
Proof.
  intros Hm Hk s. rewrite bind_unfold. specialize (Hm s).
  destruct (m s) as [s' [a|e]]; simpl in *.
  - rewrite Hk. exact Hm.
  - exact Hm.
Qed.

Lemma of_try_catch {A} (m : M A) (h : string -> M A) :
  keeps proj m -> (forall e, keeps proj (h e)) -> keeps proj (try_catch m h).
Proof.
  intros Hm Hh s. unfold try_catch. specialize (Hm s).
  destruct (m s) as [s' [a|e]]; simpl in *.
  - exact Hm.
  - rewrite Hh. exact Hm.
Qed.

Lemma of_forM {A} (l : list A) (f : A -> M unit) :
  (forall x, keeps proj (f x)) -> keeps proj (forM_ l f).
Proof.
  intros Hf. induction l as [|x l IH]; simpl.
  - apply of_ret.
  - apply of_bind; [apply Hf | intros _; exact IH].
Qed.

End Projection.

(** A primitive step keeps [proj] when both sides compute to the same
    value. *)
Ltac keeps_step :=
  first
    [ apply of_ret
    | apply of_throw
    | assumption
    | match goal with H : _ |- keeps _ _ => solve [apply H] end
    | apply of_bind; [| intros ?]
    | apply of_try_catch; [| intros ?]
    | apply of_forM; intros ?
    | (let s := fresh "s" in intros s; reflexivity)
    | progress cbv beta
    | match goal with
      | |- keeps _ (match ?x with _ => _ end) => destruct x
      | |- keeps _ (if ?x then _ else _) => destruct x
      end ].

Ltac keeps_auto := repeat keeps_step.

Lemma of_call a1 a2 cb : keeps st_app (App.call a1 a2 cb).
Proof. unfold App.call. keeps_auto. Qed.

Lemma of_emit name a1 a2 : keeps st_app (App.emit name a1 a2).
Proof. unfold App.emit. pose proof of_call. keeps_auto. Qed.

End Keeps.

(** ** Listener dispatch *)

Module Dispatch.
Import App AppSpec.

(** Dispatching to a list of callbacks logs the calls up to the first
    throw, and throws exactly when one of them does. *)
Lemma forM_call a1 a2 cbs s :
  forM_ cbs (call a1 a2) s =
    (set_st_world
       (set_w_calls (w_calls (st_world s) ++ dispatched a1 a2 cbs) (st_world s)) s,
     if anyThrows cbs then Threw "listener threw" else Ok tt).
Proof.
  revert s. induction cbs as [|cb rest IH]; intros s; simpl.
  - unfold ret. rewrite app_nil_r. destruct s as [a w p r]; destruct w; reflexivity.
  - rewrite bind_unfold. unfold call at 1. rewrite bind_unfold. simpl.
    destruct (cb_throws cb); simpl.
    + reflexivity.
    + rewrite IH. simpl. rewrite <- app_assoc. reflexivity.
Qed.

Lemma emit_unfold name a1 a2 s :
  emit name a1 a2 s =
    match app_listeners (st_app s) !! name with
    | None =>
        if inherited name
        then (s, Threw "TypeError: this.listeners[name] is not iterable")
        else (s, Ok tt)
    | Some cbs => forM_ cbs (call a1 a2) s
    end.
Proof.
  unfold emit, asSet. rewrite !bind_unfold. cbn [get_app].
  destruct (app_listeners (st_app s) !! name) eqn:Hl.
  - cbn [ret]. rewrite bind_unfold. cbn [get_app]. rewrite Hl. reflexivity.
  - destruct (inherited name); [reflexivity|].
    cbn [ret]. rewrite bind_unfold. cbn [get_app]. rewrite Hl. reflexivity.
Qed.

End Dispatch.

(** ** Deferred events: [onEvent] and the drain that ends [build] *)

Module DeferredEvents.
Import App AppSpec Dispatch.

Lemma onEvent_while_building s v name data id :
  app_building (st_app s) = true ->
  onEvent v name data id s = (queued v name data id s, Ok tt).
Proof.
  intros Hb. unfold onEvent. rewrite bind_unfold. simpl. rewrite Hb. reflexivity.
Qed.

Lemma onEvent_future s bp v name data id :
  app_building (st_app s) = false ->
  app_blueprint (st_app s) = Some bp ->
  (bp_version bp < v)%Z ->
  onEvent v name data id s = (queued v name data id s, Ok tt).
Proof.
  intros Hb Hbp Hv. unfold onEvent. rewrite bind_unfold. simpl. rewrite Hb, Hbp.
  apply Z.ltb_lt in Hv. rewrite Hv. reflexivity.
Qed.

Lemma onEvent_not_future s bp v name data id :
  app_building (st_app s) = false ->
  app_blueprint (st_app s) = Some bp ->
  (v <= bp_version bp)%Z ->
  onEvent v name data id s = emit name (AData data) (arg_of_id id) s.
Proof.
  intros Hb Hbp Hv. unfold onEvent. rewrite bind_unfold. simpl. rewrite Hb, Hbp.
  apply Z.ltb_ge in Hv. rewrite Hv. reflexivity.
Qed.

(** One turn of the loop in [drain]. *)
Lemma drain_S fuel s :
  drain (S fuel) s =
    match app_eventQueue (st_app s) with
    | [] => (s, Ok tt)
    | event :: rest =>
        match app_blueprint (st_app s) with
        | None => (s, Threw "TypeError: Cannot read properties of undefined (reading 'version')")
        | Some bp =>
            if (bp_version bp <? ev_version event)%Z then (s, Ok tt)
            else
              match emit (ev_name event) (AData (ev_data event)) (arg_of_id (ev_networkId event))
                      (set_st_app (set_app_eventQueue rest (st_app s)) s) with
              | (s', Ok _) => drain fuel s'
              | (s', Threw e) => (s', Threw e)
              end
        end
    end.
Proof.
  simpl. rewrite bind_unfold. simpl.
  destruct (app_eventQueue (st_app s)) as [|event rest]; [reflexivity|].
  destruct (app_blueprint (st_app s)) as [bp|]; [|reflexivity].
  destruct (bp_version bp <? ev_version event)%Z; [reflexivity|].
  rewrite bind_unfold. simpl. rewrite bind_unfold. reflexivity.
Qed.

(** Whatever the listeners do, the drain removes a prefix of the queue,
    no removed event is of a future version, and when it ends normally
    with enough fuel the event at the head is of a future version. *)
Lemma drain_dequeues fuel : forall s bp,
  app_blueprint (st_app s) = Some bp ->
  exists fired,
    app_eventQueue (st_app s) = fired ++ app_eventQueue (st_app (fst (drain fuel s))) /\
    Forall (fun ev => (ev_version ev <= bp_version bp)%Z) fired /\
    app_blueprint (st_app (fst (drain fuel s))) = Some bp /\
    (length (app_eventQueue (st_app s)) <= fuel ->
     snd (drain fuel s) = Ok tt ->
     head_is_future bp (app_eventQueue (st_app (fst (drain fuel s))))).
Proof.
  induction fuel as [|fuel IH]; intros s bp Hbp.
  - exists []. simpl. repeat split; auto.
    intros Hlen _. destruct (app_eventQueue (st_app s)); [exact I | simpl in Hlen; lia].
  - rewrite drain_S.
    destruct (app_eventQueue (st_app s)) as [|event rest] eqn:Hq.
    { exists []. simpl. rewrite Hq. repeat split; auto. }
    rewrite Hbp.
    destruct (bp_version bp <? ev_version event)%Z eqn:Hv.
    { exists []. simpl. rewrite Hq. repeat split; auto.
      intros _ _. simpl. apply Z.ltb_lt. exact Hv. }
    apply Z.ltb_ge in Hv.
    set (s1 := set_st_app (set_app_eventQueue rest (st_app s)) s).
    pose proof (Keeps.of_emit (ev_name event) (AData (ev_data event))
                  (arg_of_id (ev_networkId event)) s1) as Hkeep.
    destruct (emit _ _ _ s1) as [s2 [[]|e]] eqn:Hemit; simpl in Hkeep.
    + assert (Hbp2 : app_blueprint (st_app s2) = Some bp) by (rewrite Hkeep; exact Hbp).
      destruct (IH s2 bp Hbp2) as (fired & Hsplit & Hall & Hbp' & Hhead).
      exists (event :: fired). repeat split.
      * simpl. f_equal. rewrite <- Hsplit, Hkeep. reflexivity.
      * constructor; assumption.
      * exact Hbp'.
      * intros Hlen Hok. apply Hhead; [|exact Hok].
        rewrite Hkeep. simpl in *. lia.
    + exists [event]. simpl. rewrite Hkeep. simpl. repeat split; auto.
      intros _ Habs. discriminate.
Qed.

(** When no listener throws, the drain fires the ready prefix in order
    and leaves the rest. *)
Lemma drain_fires q : forall fuel s bp,
  app_eventQueue (st_app s) = q ->
  length q <= fuel ->
  app_blueprint (st_app s) = Some bp ->
  no_listener_throws (st_app s) ->
  plain_names (ready_prefix bp q) ->
  snd (drain fuel s) = Ok tt /\
  app_eventQueue (st_app (fst (drain fuel s))) = rest_after bp q /\
  w_calls (st_world (fst (drain fuel s))) =
    w_calls (st_world s) ++ flat_map (calls_of (app_listeners (st_app s))) (ready_prefix bp q).
Proof.
  induction q as [|ev rest IH]; intros fuel s bp Hq Hlen Hbp Hno Hplain.
  - destruct fuel; simpl.
    + rewrite app_nil_r. auto.
    + rewrite bind_unfold. simpl. rewrite Hq. simpl. rewrite app_nil_r. auto.
  - destruct fuel as [|fuel]; [simpl in Hlen; lia|].
    rewrite drain_S, Hq, Hbp. simpl. simpl in Hplain. unfold ready in *.
    destruct (bp_version bp <? ev_version ev)%Z eqn:Hv; simpl in *.
    + rewrite Hq, app_nil_r. auto.
    + apply Forall_cons_1 in Hplain. destruct Hplain as [Hname Hplain].
      rewrite emit_unfold. simpl.
      set (s1 := set_st_app (set_app_eventQueue rest (st_app s)) s).
      destruct (app_listeners (st_app s) !! ev_name ev) as [cbs|] eqn:Hl.
      * rewrite forM_call. rewrite (Hno _ _ Hl).
        match goal with |- context [drain fuel ?st] => set (s2 := st) end.
        destruct (IH fuel s2 bp) as (Hok & Hrest & Hcalls);
          [reflexivity | simpl in Hlen; lia | exact Hbp | exact Hno | exact Hplain |].
        repeat split; [exact Hok | exact Hrest |].
        rewrite Hcalls. simpl. unfold calls_of at 2. rewrite Hl. simpl.
        rewrite <- app_assoc. reflexivity.
      * rewrite Hname.
        destruct (IH fuel s1 bp) as (Hok & Hrest & Hcalls);
          [reflexivity | simpl in Hlen; lia | exact Hbp | exact Hno | exact Hplain |].
        repeat split; [exact Hok | exact Hrest |].
        rewrite Hcalls. simpl. unfold calls_of at 2. rewrite Hl. reflexivity.
Qed.

(** A ready event at the head of the queue whose name is only inherited:
    the drain removes it and throws. *)
Lemma drain_inherited fuel s bp ev rest :
  app_eventQueue (st_app s) = ev :: rest ->
  app_blueprint (st_app s) = Some bp ->
  (ev_version ev <= bp_version bp)%Z ->
  app_listeners (st_app s) !! ev_name ev = None ->
  inherited (ev_name ev) = true ->
  drain (S fuel) s =
    (set_st_app (set_app_eventQueue rest (st_app s)) s,
     Threw "TypeError: this.listeners[name] is not iterable").
Proof.
  intros Hq Hbp Hv Hl Hin. rewrite drain_S, Hq, Hbp.
  apply Z.ltb_ge in Hv. rewrite Hv. rewrite emit_unfold.
  cbn [st_app set_st_app app_listeners set_app_eventQueue]. rewrite Hl, Hin. reflexivity.
Qed.

(** C1, as the code has it.  While a build is in flight [onEvent] appends
    the event to the queue and fires nothing.  With no build in flight an
    event of a future version (version > blueprint.version) is appended as
    well, and any other event, one of an older version included, is fired
    at once.  The drain that ends a build removes events from the front of
    the queue and fires them while their version is at most
    blueprint.version, older versions included, and stops at the first
    event of a future version, which stays queued with everything behind
    it: every event it dequeues satisfies version <= blueprint.version,
    and when no listener throws and no event of the ready prefix is named
    like a property of [Object.prototype] it fires exactly the ready
    prefix, in order.  A ready event with such a name and no listener makes
    [emit] throw a TypeError, [this.listeners] being a plain object: the
    drain has removed the event and ends there, before [building] is
    cleared. *)
Theorem C1_deferred_events (s : St) (v : Z) (name : string) (data : Data)
    (id : option string) :
  (app_building (st_app s) = true ->
     onEvent v name data id s = (queued v name data id s, Ok tt)) /\
  (forall bp,
     app_building (st_app s) = false ->
     app_blueprint (st_app s) = Some bp ->
     ((bp_version bp < v)%Z ->
        onEvent v name data id s = (queued v name data id s, Ok tt)) /\
     ((v <= bp_version bp)%Z ->
        onEvent v name data id s = emit name (AData data) (arg_of_id id) s)) /\
  (forall bp,
     app_blueprint (st_app s) = Some bp ->
     let q := app_eventQueue (st_app s) in
     let r := drain (length q) s in
     (exists fired,
        q = fired ++ app_eventQueue (st_app (fst r)) /\
        Forall (fun ev => (ev_version ev <= bp_version bp)%Z) fired /\
        (snd r = Ok tt -> head_is_future bp (app_eventQueue (st_app (fst r))))) /\
     (no_listener_throws (st_app s) ->
      plain_names (ready_prefix bp q) ->
        snd r = Ok tt /\
        app_eventQueue (st_app (fst r)) = rest_after bp q /\
        w_calls (st_world (fst r)) =
          w_calls (st_world s) ++
          flat_map (calls_of (app_listeners (st_app s))) (ready_prefix bp q)) /\
     (forall ev rest,
        q = ev :: rest ->
        (ev_version ev <= bp_version bp)%Z ->
        app_listeners (st_app s) !! ev_name ev = None ->
        inherited (ev_name ev) = true ->
        r = (set_st_app (set_app_eventQueue rest (st_app s)) s,
             Threw "TypeError: this.listeners[name] is not iterable"))).
Proof.
  split; [apply onEvent_while_building|].
  split.
  - intros bp Hb Hbp. split; intros Hv.
    + eapply onEvent_future; eassumption.
    + eapply onEvent_not_future; eassumption.
  - intros bp Hbp q r. split.
    + destruct (drain_dequeues (length q) s bp Hbp) as (fired & H1 & H2 & _ & H4).
      exists fired. repeat split; [exact H1 | exact H2 |].
      intros Hok. apply H4; [reflexivity | exact Hok].
    + split.
      * intros Hno Hplain. apply (drain_fires q (length q) s bp); auto.
      * intros ev rest Hq Hv Hl Hin. subst r. fold q. rewrite Hq. cbn [length].
        apply (drain_inherited _ s bp ev rest); auto.
Qed.

Import Examples.

Lemma rebuilding_no_listener_throws : no_listener_throws (st_app rebuilding).
Proof. unfold no_listener_throws. refine (bool_decide_unpack _ _). vm_compute. exact I. Qed.

(** The theorem at work: an event arriving while [loading] builds is
    queued; on the [built] app (version 1) an event of version 5 is queued
    and one of version 0 is fired; draining the queue of [rebuilding]
    fires the event of version 1 and keeps the two behind it. *)
Lemma C1_deferred_events_witness :
  (app_building (st_app loading) = true /\
   onEvent 0 "tick" "x" None loading = (queued 0 "tick" "x" None loading, Ok tt)) /\
  (app_building (st_app built) = false /\
   app_blueprint (st_app built) = Some bp1 /\
   onEvent 5 "tick" "x" None built = (queued 5 "tick" "x" None built, Ok tt) /\
   onEvent 0 "tick" "x" None built = emit "tick" (AData "x") AUndef built) /\
  (app_blueprint (st_app rebuilding) = Some bp1 /\
   no_listener_throws (st_app rebuilding) /\
   plain_names (ready_prefix bp1 (app_eventQueue (st_app rebuilding))) /\
   let r := drain 3 rebuilding in
   snd r = Ok tt /\
   app_eventQueue (st_app (fst r)) =
     [mkQueuedEvent 5 "tick" "b" None; mkQueuedEvent 0 "tick" "c" None] /\
   w_calls (st_world (fst r)) = w_calls (st_world rebuilding) ++ [mkCall 7 (AData "a") AUndef]).
Proof.
  split; [|split].
  - split; [reflexivity|].
    apply (proj1 (C1_deferred_events loading 0 "tick" "x" None)). reflexivity.
  - assert (Hb : app_building (st_app built) = false) by reflexivity.
    assert (Hbp : app_blueprint (st_app built) = Some bp1) by reflexivity.
    split; [exact Hb|]. split; [exact Hbp|]. split.
    + apply (proj1 (proj2 (C1_deferred_events built 5 "tick" "x" None)) bp1 Hb Hbp).
      vm_compute. reflexivity.
    + apply (proj1 (proj2 (C1_deferred_events built 0 "tick" "x" None)) bp1 Hb Hbp).
      vm_compute. discriminate.
  - assert (Hbp : app_blueprint (st_app rebuilding) = Some bp1) by reflexivity.
    assert (Hplain : plain_names (ready_prefix bp1 (app_eventQueue (st_app rebuilding)))).
    { repeat constructor. }
    split; [exact Hbp|]. split; [exact rebuilding_no_listener_throws|]. split; [exact Hplain|].
    exact (proj1 (proj2 (proj2 (proj2 (C1_deferred_events rebuilding 0 EmptyString EmptyString
                                         None)) bp1 Hbp))
             rebuilding_no_listener_throws Hplain).
Defined.

(** C1 as stated fails: an event of version 0 reaches an app whose build
    to blueprint version 1 is in flight; it is queued, and when the build
    completes it is dequeued and fired (callback 7 is called), not
    discarded, although its version is below the blueprint's. *)
Lemma C1_older_event_is_fired :
  let s1 := exec_M (onEvent 0 "tick" "x" None) loading in
  let s2 := exec_M (turn (TSettle 0 ResolvedGlb)) s1 in
  app_building (st_app loading) = true /\
  app_eventQueue (st_app s1) = [mkQueuedEvent 0 "tick" "x" None] /\
  app_blueprint (st_app s2) = Some bp1 /\
  (0 < bp_version bp1)%Z /\
  app_building (st_app s2) = false /\
  app_eventQueue (st_app s2) = [] /\
  w_calls (st_world s2) = [mkCall 7 (AData "x") AUndef].
Proof. vm_compute. repeat split. Qed.

End DeferredEvents.

(** ** Steps of [build] that stay outside the kernel *)

Module Quiet.
Import App World BuildSpec.

Lemma quiet_refl s : quiet s s.
Proof. split; [reflexivity|]. exists []. rewrite app_nil_r. split; [reflexivity | constructor]. Qed.

Lemma quiet_trans s1 s2 s3 : quiet s1 s2 -> quiet s2 s3 -> quiet s1 s3.
Proof.
  intros [Hk1 (ops1 & Hs1 & Hf1)] [Hk2 (ops2 & Hs2 & Hf2)]. split.
  - congruence.
  - exists (ops1 ++ ops2). split.
    + rewrite Hs2, Hs1, app_assoc. reflexivity.
    + apply Forall_app. split; assumption.
Qed.

Lemma quiet_same s s' :
  kernel s' = kernel s -> w_scene (st_world s') = w_scene (st_world s) -> quiet s s'.
Proof.
  intros Hk Hs. split; [exact Hk|]. exists []. rewrite app_nil_r.
  split; [exact Hs | constructor].
Qed.

Lemma quiet_op s s' op :
  kernel s' = kernel s -> w_scene (st_world s') = w_scene (st_world s) ++ [op] ->
  isActivate op = false -> quiet s s'.
Proof.
  intros Hk Hs Hop. split; [exact Hk|]. exists [op]. split; [exact Hs|].
  constructor; [exact Hop | constructor].
Qed.

Lemma stable_ret {A} (a : A) : stable (ret a).
Proof. intros s. apply quiet_refl. Qed.

Lemma stable_throw {A} e : stable (@throw A e).
Proof. intros s. apply quiet_refl. Qed.

Lemma stable_bind {A B} (m : M A) (k : A -> M B) :
  stable m -> (forall a, stable (k a)) -> stable (bind m k).
Proof.
  intros Hm Hk s. rewrite bind_unfold. specialize (Hm s).
  destruct (m s) as [s' [a|e]]; simpl in *.
  - eapply quiet_trans; [exact Hm | apply Hk].
  - exact Hm.
Qed.

Lemma stable_try_catch {A} (m : M A) (h : string -> M A) :
  stable m -> (forall e, stable (h e)) -> stable (try_catch m h).
Proof.
  intros Hm Hh s. unfold try_catch. specialize (Hm s).
  destruct (m s) as [s' [a|e]]; simpl in *.
  - exact Hm.
  - eapply quiet_trans; [exact Hm | apply Hh].
Qed.

Lemma stable_forM {A} (l : list A) (f : A -> M unit) :
  (forall x, stable (f x)) -> stable (forM_ l f).
Proof.
  intros Hf. induction l as [|x l IH]; simpl.
  - apply stable_ret.
  - apply stable_bind; [apply Hf | intros _; exact IH].
Qed.

(** A primitive step is stable when the two sides compute to the same
    kernel and the scene grows by at most one operation that is not an
    activation. *)
Ltac stable_prim :=
  let s := fresh "s" in
  intros s;
  first [ apply quiet_same; reflexivity
        | eapply quiet_op; [reflexivity | reflexivity | reflexivity] ].

Ltac stable_step :=
  first
    [ apply stable_ret
    | apply stable_throw
    | assumption
    | match goal with H : _ |- stable _ => solve [apply H] end
    | apply stable_bind; [| intros ?]
    | apply stable_try_catch; [| intros ?]
    | apply stable_forM; intros ?
    | stable_prim
    | progress cbv beta
    | match goal with
      | |- stable (match ?x with _ => _ end) => destruct x
      | |- stable (let '(_, _) := ?x in _) => destruct x
      end ].

Ltac stable_auto := repeat stable_step.

Lemma stable_console_error msg : stable (console_error msg).
Proof. stable_prim. Qed.

Lemma stable_setHot id hot : stable (setHot id hot).
Proof. stable_prim. Qed.

Lemma stable_setHotSelf hot : stable (setHotSelf hot).
Proof. unfold setHotSelf. stable_auto. Qed.

Lemma stable_on name cb : stable (on name cb).
Proof. unfold on. pose proof stable_setHotSelf. stable_auto. Qed.

Lemma stable_events_on name cb : stable (events_on name cb).
Proof. stable_prim. Qed.

Lemma stable_events_off name cb : stable (events_off name cb).
Proof.
  intros s. unfold events_off, mod_world. simpl.
  destruct (w_events (st_world s) !! name); apply quiet_same; reflexivity.
Qed.

Lemma stable_onWorldEvent name cb : stable (onWorldEvent name cb).
Proof. unfold onWorldEvent. pose proof stable_events_on. stable_auto. Qed.

Lemma stable_clearEventListeners : stable clearEventListeners.
Proof. unfold clearEventListeners. pose proof stable_events_off. stable_auto. Qed.

Lemma stable_unbuild : stable unbuild.
Proof.
  unfold unbuild.
  pose proof stable_clearEventListeners. pose proof stable_setHotSelf.
  stable_auto.
Qed.

Lemma stable_exec script : stable (exec script).
Proof.
  unfold exec, world_add.
  pose proof stable_on. pose proof stable_onWorldEvent.
  stable_auto.
Qed.

Lemma stable_call a1 a2 cb : stable (call a1 a2 cb).
Proof. unfold call. stable_auto. Qed.

Lemma stable_emit name a1 a2 : stable (emit name a1 a2).
Proof. unfold emit. pose proof stable_call. stable_auto. Qed.

Lemma stable_drain fuel : stable (drain fuel).
Proof.
  induction fuel as [|fuel IH]; simpl.
  - apply stable_ret.
  - pose proof stable_emit. stable_auto.
Qed.

End Quiet.

(** ** The invariant of the build generations *)

Module BuildInv.
Import App World BuildSpec Quiet.

Lemma kernel_eq s s' :
  kernel s' = kernel s ->
  app_n (st_app s') = app_n (st_app s) /\ st_requested s' = st_requested s /\
  st_pending s' = st_pending s /\ app_building (st_app s') = app_building (st_app s) /\
  app_root (st_app s') = app_root (st_app s) /\
  app_blueprint (st_app s') = app_blueprint (st_app s) /\
  app_mode (st_app s') = app_mode (st_app s) /\
  app_data (st_app s') = app_data (st_app s) /\
  w_netid (st_world s') = w_netid (st_world s).
Proof. unfold kernel. intros H. inversion H. repeat split; reflexivity || assumption. Qed.

Lemma locals_ok_quiet s s' L : quiet s s' -> locals_ok s L -> locals_ok s' L.
Proof.
  intros [Hk _] (H1 & H2 & H3). apply kernel_eq in Hk.
  destruct Hk as (Hn & Hr & _). unfold locals_ok. rewrite Hn, Hr. auto.
Qed.

Lemma shows_latest_kernel s s' : kernel s' = kernel s -> shows_latest s -> shows_latest s'.
Proof.
  intros Hk HJ. apply kernel_eq in Hk.
  destruct Hk as (Hn & Hr & _ & Hb & Hroot & Hbp & _).
  unfold shows_latest. rewrite Hn, Hr, Hb, Hroot, Hbp. exact HJ.
Qed.

Lemma act_ok_not_activate ops :
  Forall (fun op => isActivate op = false) ops -> Forall act_ok ops.
Proof.
  intros H. eapply Forall_impl; [exact H|].
  intros op Hop. destruct op; simpl in *; [discriminate | exact I ..].
Qed.

Lemma Inv_quiet s s' : quiet s s' -> Inv s -> Inv s'.
Proof.
  intros Hq (Hs & Hp & HJ). pose proof Hq as [Hk (ops & Hsc & Hops)].
  split; [|split].
  - rewrite Hsc. apply Forall_app. split; [exact Hs | apply act_ok_not_activate, Hops].
  - pose proof (kernel_eq _ _ Hk) as (_ & _ & Hpend & _). rewrite Hpend.
    eapply Forall_impl; [exact Hp|]. intros p. apply locals_ok_quiet. exact Hq.
  - eapply shows_latest_kernel; eassumption.
Qed.

Lemma preserves_stable {A} (m : M A) : stable m -> preserves m.
Proof. intros H s. apply Inv_quiet, H. Qed.

Lemma preserves_ret {A} (a : A) : preserves (ret a).
Proof. intros s H. exact H. Qed.

Lemma preserves_bind {A B} (m : M A) (k : A -> M B) :
  preserves m -> (forall a, preserves (k a)) -> preserves (bind m k).
Proof.
  intros Hm Hk s HI. rewrite bind_unfold. specialize (Hm s HI).
  destruct (m s) as [s' [a|e]]; simpl in *; [apply Hk, Hm | exact Hm].
Qed.

Lemma preserves_try_catch {A} (m : M A) (h : string -> M A) :
  preserves m -> (forall e, preserves (h e)) -> preserves (try_catch m h).
Proof.
  intros Hm Hh s HI. unfold try_catch. specialize (Hm s HI).
  destruct (m s) as [s' [a|e]]; simpl in *; [exact Hm | apply Hh, Hm].
Qed.

Lemma preserves_async m : preserves m -> preserves (async m).
Proof.
  intros Hm. unfold async. apply preserves_try_catch; [exact Hm|].
  intros e. apply preserves_stable. intros s. apply quiet_same; reflexivity.
Qed.

Section WithCrash.
Variable crash : M unit.
Hypothesis crash_preserves : preserves crash.

Lemma execute_preserves L mode : preserves (execute crash L mode).
Proof.
  unfold execute. destruct (l_script L) as [script|]; [|apply preserves_ret].
  destruct (Mode_eqb mode ACTIVE && negb (l_crashed L)); [|apply preserves_ret].
  apply preserves_bind; [apply preserves_stable; intros s; apply quiet_same; reflexivity|].
  intros _. apply preserves_try_catch.
  - apply preserves_stable. apply stable_bind; [apply stable_exec | intros; apply stable_ret].
  - intros e.
    apply preserves_bind; [apply preserves_stable, stable_console_error|]. intros _.
    apply preserves_bind; [apply preserves_stable, stable_console_error|]. intros _.
    apply preserves_bind; [exact crash_preserves|]. intros _. apply preserves_ret.
Qed.

(** When [execute] lets [build] continue, the crash handler did not run. *)
Lemma execute_true L mode s :
  snd (execute crash L mode s) = Ok true -> quiet s (fst (execute crash L mode s)).
Proof.
  unfold execute. destruct (l_script L) as [script|]; [|intros _; apply quiet_refl].
  destruct (Mode_eqb mode ACTIVE && negb (l_crashed L)); [|intros _; apply quiet_refl].
  rewrite bind_unfold. simpl. unfold try_catch.
  match goal with |- context [bind (exec script) ?k ?st] => set (s1 := st) end.
  assert (Hq1 : quiet s s1) by (apply quiet_same; reflexivity).
  rewrite bind_unfold.
  pose proof (stable_exec script s1) as Hq2.
  destruct (exec script s1) as [s2 [[]|e]]; simpl in *.
  - intros _. exact (quiet_trans _ _ _ Hq1 Hq2).
  - repeat (rewrite bind_unfold; simpl).
    match goal with |- context [crash ?st] => destruct (crash st) as [s3 [[]|e3]] end;
      simpl; discriminate.
Qed.

Lemma shown_quiet L s s' : quiet s s' -> shown L s -> shown L s'.
Proof.
  intros [Hk _] H. apply kernel_eq in Hk.
  destruct Hk as (Hn & Hr & _ & _ & Hroot & Hbp & _).
  unfold shown. rewrite Hn, Hr, Hroot, Hbp. exact H.
Qed.

Lemma setup_latest L root0 s :
  l_root L = Some root0 ->
  app_n (st_app s) = l_n L ->
  locals_ok s L ->
  Inv s ->
  Inv (fst (setup L s)) /\ shown L (fst (setup L s)) /\
  exists r, snd (setup L s) = Ok r.
Proof.
  intros Hroot Hn (Hle & Hown & Hreq) (Hs & Hp & HJ).
  destruct (Hown _ Hroot) as [Hgen Hsrc]. specialize (Hreq (eq_sym Hn)).
  unfold setup. rewrite bind_unfold. simpl. rewrite bind_unfold. simpl.
  rewrite Hroot. simpl.
  assert (Hshown : shown L
            (set_st_app
               (set_app_root (Some (placed (app_data (st_app s)) root0))
                  (set_app_blueprint (Some (l_blueprint L))
                     (set_app_mode
                        (Some (build_mode (app_data (st_app s)) (w_netid (st_world s))))
                        (st_app s)))) s)).
  { exists (placed (app_data (st_app s)) root0). simpl.
    repeat split; [congruence | exact Hsrc | congruence]. }
  split; [|split].
  - split; [|split]; simpl.
    + apply Forall_app. split; [exact Hs|]. constructor; [|constructor]. simpl. congruence.
    + eapply Forall_impl; [exact Hp|]. intros p H. exact H.
    + intros _. destruct Hshown as (root & H1 & H2 & H3 & H4 & H5).
      exists root, (l_blueprint L). auto.
  - destruct Hshown as (root & H1 & H2 & H3 & H4 & H5).
    exists root. simpl. auto.
  - eexists. reflexivity.
Qed.

Lemma finish_preserves L s :
  is_Some (l_root L) -> locals_ok s L -> Inv s -> Inv (fst (finish crash L s)).
Proof.
  intros [root0 Hroot] HL HI. unfold finish. rewrite bind_unfold. simpl.
  destruct (Nat.eqb (app_n (st_app s)) (l_n L)) eqn:Hn; simpl; [|exact HI].
  apply Nat.eqb_eq in Hn.
  rewrite bind_unfold.
  pose proof (stable_unbuild s) as Hq1.
  destruct (unbuild s) as [s1 [[]|e]]; simpl in *; [|eapply Inv_quiet; eassumption].
  assert (HI1 : Inv s1) by (eapply Inv_quiet; eassumption).
  assert (HL1 : locals_ok s1 L) by (eapply locals_ok_quiet; eassumption).
  assert (Hn1 : app_n (st_app s1) = l_n L).
  { destruct Hq1 as [Hk _]. apply kernel_eq in Hk. destruct Hk as (Hk & _). congruence. }
  destruct (setup_latest L root0 s1 Hroot Hn1 HL1 HI1) as (HI2 & Hsh2 & r & Hr).
  rewrite bind_unfold.
  destruct (setup L s1) as [s2 res2]; simpl in *. subst res2.
  rewrite bind_unfold.
  pose proof (execute_preserves L (fst r) s2 HI2) as HI3.
  pose proof (execute_true L (fst r) s2) as Hq3.
  destruct (execute crash L (fst r) s2) as [s3 [[|]|e]]; simpl in *; try exact HI3.
  specialize (Hq3 eq_refl).
  assert (Hsh3 : shown L s3) by (eapply shown_quiet; eassumption).
  rewrite bind_unfold.
  assert (Hst : stable (install (fst r) (snd r))).
  { unfold install. pose proof stable_setHotSelf. pose proof stable_drain. stable_auto. }
  specialize (Hst s3).
  destruct (install (fst r) (snd r) s3) as [s4 [[]|e]]; simpl in *;
    [|eapply Inv_quiet; eassumption].
  assert (HI4 : Inv s4) by (eapply Inv_quiet; eassumption).
  assert (Hsh4 : shown L s4) by (eapply shown_quiet; eassumption).
  destruct HI4 as (Hs4 & Hp4 & _).
  split; [exact Hs4 | split].
  - eapply Forall_impl; [exact Hp4|]. intros p H. exact H.
  - intros _. destruct Hsh4 as (root & H1 & H2 & H3 & H4 & H5).
    exists root, (l_blueprint L). simpl. auto.
Qed.

Lemma suspend_preserves stage L s :
  locals_ok s L -> Inv s -> Inv (fst (suspend stage L s)).
Proof.
  intros HL (Hs & Hp & HJ). unfold suspend. simpl. split; [exact Hs | split].
  - simpl. apply Forall_app. split.
    + eapply Forall_impl; [exact Hp|]. intros p H. exact H.
    + constructor; [exact HL | constructor].
  - exact HJ.
Qed.

Lemma locals_ok_set_root s L nd :
  locals_ok s L -> nd_gen nd = l_n L -> root_of (l_blueprint L) nd ->
  locals_ok s (set_l_root (Some nd) L).
Proof.
  intros (H1 & H2 & H3) Hgen Hsrc. split; [exact H1 | split; [|exact H3]].
  simpl. intros nd' Heq. inversion Heq; subst. auto.
Qed.

Lemma locals_ok_crashBlock s L :
  locals_ok s L -> locals_ok s (set_l_root (Some (toNodes crashBlockUrl (l_n L))) L).
Proof.
  intros H. apply locals_ok_set_root; [exact H | reflexivity |].
  right. left. reflexivity.
Qed.

Lemma after_model_preserves L s :
  locals_ok s L -> Inv s -> Inv (fst (after_model crash L s)).
Proof.
  intros HL HI. unfold after_model.
  destruct (l_crashed L || negb (bool_decide (is_Some (l_root L)))) eqn:Hc.
  - rewrite bind_unfold. simpl.
    destruct (bool_decide (("model", crashBlockUrl) ∈ w_glbs (st_world s))).
    + apply finish_preserves; [eexists; reflexivity | apply locals_ok_crashBlock, HL | exact HI].
    + apply suspend_preserves; assumption.
  - apply orb_false_iff in Hc. destruct Hc as [_ Hc].
    apply negb_false_iff, bool_decide_eq_true in Hc.
    apply finish_preserves; assumption.
Qed.

Lemma after_script_preserves L s :
  locals_ok s L -> Inv s -> Inv (fst (after_script crash L s)).
Proof.
  intros HL HI. unfold after_script. rewrite bind_unfold. simpl. rewrite bind_unfold. simpl.
  destruct (uploaderIsOther (app_data (st_app s)) (w_netid (st_world s))).
  - apply after_model_preserves; [|exact HI].
    apply locals_ok_set_root; [exact HL | reflexivity | left; reflexivity].
  - destruct (bp_model (l_blueprint L)) as [model|] eqn:Hm.
    + destruct (bool_decide ((modelType model, model) ∈ w_glbs (st_world s))).
      * apply after_model_preserves; [|exact HI].
        apply locals_ok_set_root; [exact HL | reflexivity |].
        right. right. exists model. split; [exact Hm | reflexivity].
      * apply suspend_preserves; assumption.
    + rewrite bind_unfold.
      pose proof (stable_console_error
        "TypeError: Cannot read properties of null (reading 'endsWith')" s) as Hq.
      destruct (console_error _ s) as [s1 [[]|e]]; simpl in *.
      * apply after_model_preserves; [eapply locals_ok_quiet | eapply Inv_quiet]; eassumption.
      * eapply Inv_quiet; eassumption.
Qed.

Lemma locals_ok_set_script s L script :
  locals_ok s L -> locals_ok s (set_l_script script L).
Proof. intros H. exact H. Qed.

Lemma locals_ok_set_crashed s L b :
  locals_ok s L -> locals_ok s (set_l_crashed b L).
Proof. intros H. exact H. Qed.

Lemma build_body_preserves crashed s :
  Inv0 s -> Inv (fst (build_body crash crashed s)).
Proof.
  intros (Hs & Hp). unfold build_body. rewrite bind_unfold. simpl.
  rewrite bind_unfold. simpl. rewrite bind_unfold. simpl.
  set (s1 := set_st_app (set_app_n (S (app_n (st_app s))) (set_app_building true (st_app s))) s).
  assert (Hp1 : Forall (fun p => locals_ok s1 (pd_locals p) /\
                                 l_n (pd_locals p) <> app_n (st_app s1)) (st_pending s1)).
  { simpl. eapply Forall_impl; [exact Hp|]. intros p (H1 & H2 & H3).
    split; [split; [|split]|]; simpl; [lia | exact H2 | intros; lia | lia]. }
  assert (HI1 : Inv s1).
  { split; [exact Hs | split].
    - eapply Forall_impl; [exact Hp1|]. intros p [H _]. exact H.
    - intros Hb. simpl in Hb. discriminate. }
  destruct (w_blueprints (st_world s) !! d_blueprint (app_data (st_app s))) as [bp|];
    [|exact HI1].
  rewrite bind_unfold. simpl.
  set (s2 := set_st_requested (Some (S (app_n (st_app s)), bp)) s1).
  set (L := mkLocals (S (app_n (st_app s))) bp crashed None None).
  assert (HI2 : Inv s2).
  { split; [exact Hs | split].
    - simpl. eapply Forall_impl; [exact Hp1|]. intros p [(H1 & H2 & H3) Hne].
      split; [exact H1 | split; [exact H2|]]. intros Heq. contradiction.
    - intros Hb. simpl in Hb. discriminate. }
  assert (HL : locals_ok s2 L).
  { split; [simpl; lia | split]; [intros nd Hnd; discriminate | reflexivity]. }
  destruct (JS.truthy (bp_script bp)).
  - destruct (w_scripts (st_world s) !! default EmptyString (bp_script bp)) as [script|].
    + apply after_script_preserves; [apply locals_ok_set_script, HL | exact HI2].
    + apply suspend_preserves; assumption.
  - apply after_script_preserves; assumption.
Qed.

Lemma resume_body_preserves p r s :
  locals_ok s (pd_locals p) -> Inv s -> Inv (fst (resume_body crash p r s)).
Proof.
  intros HL HI. unfold resume_body.
  destruct (pd_stage p), r as [script| |err]; try exact HI.
  - apply after_script_preserves; [apply locals_ok_set_script, HL | exact HI].
  - rewrite bind_unfold. pose proof (stable_console_error err s) as Hq.
    destruct (console_error err s) as [s1 [[]|e]]; simpl in *;
      [|eapply Inv_quiet; eassumption].
    apply after_script_preserves;
      [apply locals_ok_set_crashed; eapply locals_ok_quiet | eapply Inv_quiet]; eassumption.
  - destruct (bp_model (l_blueprint (pd_locals p))) as [model|] eqn:Hm.
    + apply after_model_preserves; [|exact HI].
      apply locals_ok_set_root; [exact HL | reflexivity |].
      right. right. exists model. split; [exact Hm | reflexivity].
    + apply after_model_preserves; assumption.
  - rewrite bind_unfold. pose proof (stable_console_error err s) as Hq.
    destruct (console_error err s) as [s1 [[]|e]]; simpl in *;
      [|eapply Inv_quiet; eassumption].
    apply after_model_preserves; [eapply locals_ok_quiet | eapply Inv_quiet]; eassumption.
  - apply finish_preserves; [eexists; reflexivity | apply locals_ok_crashBlock, HL | exact HI].
Qed.

End WithCrash.

Lemma Inv_Inv0 s : Inv s -> Inv0 s.
Proof. intros (H1 & H2 & _). split; assumption. Qed.

Lemma async_preserves0 m :
  (forall s, Inv0 s -> Inv (fst (m s))) -> forall s, Inv0 s -> Inv (fst (async m s)).
Proof.
  intros Hm s HI. unfold async, try_catch. specialize (Hm s HI).
  destruct (m s) as [s' [[]|e]]; simpl in *; [exact Hm|].
  eapply Inv_quiet; [|exact Hm]. apply quiet_same; reflexivity.
Qed.

Lemma crash_preserves0 s : Inv0 s -> Inv (fst (crash s)).
Proof.
  unfold crash. apply async_preserves0. intros s'.
  apply build_body_preserves. apply preserves_ret.
Qed.

Lemma crash_preserves : preserves crash.
Proof. intros s H. apply crash_preserves0, Inv_Inv0, H. Qed.

Lemma build_preserves0 crashed s : Inv0 s -> Inv (fst (build crashed s)).
Proof.
  unfold build. apply async_preserves0. intros s'.
  apply build_body_preserves. exact crash_preserves.
Qed.

Lemma build_preserves crashed : preserves (build crashed).
Proof. intros s H. apply build_preserves0, Inv_Inv0, H. Qed.

Lemma resume_preserves p r s :
  locals_ok s (pd_locals p) -> Inv s -> Inv (fst (resume p r s)).
Proof.
  intros HL HI. unfold resume, async, try_catch.
  pose proof (resume_body_preserves crash crash_preserves p r s HL HI) as H.
  destruct (resume_body crash p r s) as [s' [[]|e]]; simpl in *; [exact H|].
  eapply Inv_quiet; [|exact H]. apply quiet_same; reflexivity.
Qed.

End BuildInv.

(** ** A superseded build touches nothing *)

Module Superseded.
Import App World AppSpec BuildSpec SupersededSpec Quiet BuildInv.

Lemma untouched_refl s : untouched s s.
Proof. repeat split. Qed.

Lemma untouched_trans s1 s2 s3 : untouched s1 s2 -> untouched s2 s3 -> untouched s1 s3.
Proof. intros (A1 & B1 & C1) (A2 & B2 & C2). repeat split; congruence. Qed.

Lemma untouched_console_error msg s : untouched s (fst (console_error msg s)).
Proof. repeat split. Qed.

Lemma untouched_suspend stage L s : untouched s (fst (suspend stage L s)).
Proof. repeat split. Qed.

Section WithCrash.
Variable crash : M unit.

Lemma finish_superseded L s :
  l_n L <> app_n (st_app s) -> finish crash L s = (s, Ok tt).
Proof.
  intros Hne. unfold finish. rewrite bind_unfold. simpl.
  destruct (Nat.eqb_spec (app_n (st_app s)) (l_n L)) as [Heq|_]; [congruence | reflexivity].
Qed.

Lemma after_model_superseded L s :
  l_n L <> app_n (st_app s) -> untouched s (fst (after_model crash L s)).
Proof.
  intros Hne. unfold after_model.
  destruct (l_crashed L || negb (bool_decide (is_Some (l_root L)))).
  - rewrite bind_unfold. simpl.
    destruct (bool_decide (("model", crashBlockUrl) ∈ w_glbs (st_world s))).
    + rewrite finish_superseded; [apply untouched_refl | exact Hne].
    + apply untouched_suspend.
  - rewrite finish_superseded; [apply untouched_refl | exact Hne].
Qed.

Lemma after_script_superseded L s :
  l_n L <> app_n (st_app s) -> untouched s (fst (after_script crash L s)).
Proof.
  intros Hne. unfold after_script. rewrite bind_unfold. simpl. rewrite bind_unfold. simpl.
  destruct (uploaderIsOther (app_data (st_app s)) (w_netid (st_world s))).
  - apply after_model_superseded. exact Hne.
  - destruct (bp_model (l_blueprint L)) as [model|].
    + destruct (bool_decide ((modelType model, model) ∈ w_glbs (st_world s))).
      * apply after_model_superseded. exact Hne.
      * apply untouched_suspend.
    + rewrite bind_unfold. simpl.
      eapply untouched_trans; [apply untouched_console_error|].
      apply after_model_superseded. exact Hne.
Qed.

Lemma resume_body_superseded p r s :
  l_n (pd_locals p) <> app_n (st_app s) -> untouched s (fst (resume_body crash p r s)).
Proof.
  intros Hne. unfold resume_body.
  destruct (pd_stage p), r as [script| |err]; try apply untouched_refl.
  - apply after_script_superseded. exact Hne.
  - rewrite bind_unfold. simpl.
    eapply untouched_trans; [apply untouched_console_error|].
    apply after_script_superseded. exact Hne.
  - destruct (bp_model (l_blueprint (pd_locals p))); apply after_model_superseded; exact Hne.
  - rewrite bind_unfold. simpl.
    eapply untouched_trans; [apply untouched_console_error|].
    apply after_model_superseded. exact Hne.
  - rewrite finish_superseded; [apply untouched_refl | exact Hne].
Qed.

End WithCrash.

Lemma resume_superseded p r s :
  l_n (pd_locals p) <> app_n (st_app s) ->
  untouched s (fst (resume p r s)) /\ snd (resume p r s) = Ok tt.
Proof.
  intros Hne. split; [|apply async_never_throws].
  unfold resume, async, try_catch.
  pose proof (resume_body_superseded crash p r s Hne) as H.
  destruct (resume_body crash p r s) as [s' [[]|e]]; simpl in *; [exact H|].
  eapply untouched_trans; [exact H|]. repeat split.
Qed.

(** ** Every turn of the event loop keeps the invariant *)

Lemma Inv_ikernel s s' : ikernel s' = ikernel s -> Inv s -> Inv s'.
Proof.
  unfold ikernel. intros Hk (Hs & Hp & HJ). inversion Hk as [[Hn Hr Hpd Hb Hroot Hbp Hsc]].
  split; [|split].
  - rewrite Hsc. exact Hs.
  - rewrite Hpd. eapply Forall_impl; [exact Hp|].
    intros p (H1 & H2 & H3). unfold locals_ok. rewrite Hn, Hr. auto.
  - unfold shows_latest. rewrite Hb, Hroot, Hbp, Hn, Hr. exact HJ.
Qed.

Lemma preserves_keeps {A} (m : M A) : keeps ikernel m -> preserves m.
Proof. intros H s. apply Inv_ikernel, H. Qed.

Import Keeps.

Lemma keeps_take {A} (field : option A) store : keeps ikernel (take field store).
Proof. unfold take. keeps_auto. Qed.

Lemma modify_preserves data : preserves (modify data).
Proof.
  unfold modify.
  repeat (apply preserves_bind; [apply preserves_keeps, keeps_take | intros ?]).
  apply preserves_bind; [apply preserves_keeps; keeps_auto | intros _].
  apply preserves_bind; [apply preserves_keeps; keeps_auto | intros _].
  apply preserves_bind; [apply preserves_keeps; keeps_auto | intros _].
  apply preserves_bind; [apply preserves_keeps, keeps_take | intros ?].
  match goal with |- preserves (if ?b then _ else _) => destruct b end;
    [apply build_preserves | apply preserves_ret].
Qed.

Lemma onEvent_preserves v name data id : preserves (onEvent v name data id).
Proof.
  apply preserves_stable. unfold onEvent, enqueueEvent.
  pose proof stable_emit. stable_auto.
Qed.

Lemma fixedUpdate_preserves delta : preserves (fixedUpdate delta).
Proof.
  unfold fixedUpdate. apply preserves_bind; [intros s0 H0; exact H0|]. intros a.
  destruct (scriptIsActive a); [|apply preserves_ret].
  apply preserves_try_catch; [apply preserves_stable, stable_emit|]. intros e.
  apply preserves_bind; [apply preserves_stable, stable_console_error|]. intros _.
  apply preserves_bind; [apply preserves_stable, stable_console_error|]. intros _.
  apply crash_preserves.
Qed.

Lemma destroy_preserves local : preserves (destroy local).
Proof.
  unfold destroy. apply preserves_bind; [intros s0 H0; exact H0|]. intros a.
  destruct (app_dead a); [apply preserves_ret|].
  apply preserves_bind; [apply preserves_keeps; keeps_auto | intros _].
  apply preserves_bind; [apply preserves_stable, stable_unbuild | intros _].
  apply preserves_keeps. unfold entities_remove, network_send. keeps_auto.
Qed.

Lemma take_pending_preserves i s :
  Inv s ->
  Inv (fst (take_pending i s)) /\
  forall p, snd (take_pending i s) = Ok (Some p) ->
            locals_ok (fst (take_pending i s)) (pd_locals p).
Proof.
  intros (Hs & Hp & HJ). unfold take_pending. simpl. split.
  - split; [exact Hs | split; [|exact HJ]]. simpl.
    apply Forall_forall. intros p Hin.
    rewrite Forall_forall in Hp. apply Hp.
    eapply list_elem_of_delete_inv. exact Hin.
  - intros p Heq. inversion Heq as [Hlook].
    rewrite Forall_forall in Hp. apply (Hp p).
    apply list_elem_of_lookup. eexists. exact Hlook.
Qed.

Lemma turn_preserves t : preserves (turn t).
Proof.
  destruct t as [crashed|data|v name data id|delta|local|i r|bp|url script|type url];
    simpl.
  - apply build_preserves.
  - apply modify_preserves.
  - apply onEvent_preserves.
  - apply fixedUpdate_preserves.
  - apply destroy_preserves.
  - intros s HI. rewrite bind_unfold.
    destruct (take_pending_preserves i s HI) as [HI1 HL].
    destruct (take_pending i s) as [s1 [[p|]|e]]; simpl in *; try exact HI1.
    apply resume_preserves; [apply HL; reflexivity | exact HI1].
  - apply preserves_keeps. keeps_auto.
  - apply preserves_keeps. keeps_auto.
  - apply preserves_keeps. keeps_auto.
Qed.

Lemma run_preserves ts : forall s, Inv s -> Inv (run ts s).
Proof.
  induction ts as [|t ts IH]; intros s HI; simpl; [exact HI|].
  apply IH. apply turn_preserves. exact HI.
Qed.

Lemma construct_Inv data w : Forall act_ok (w_scene w) -> Inv (construct data w).
Proof.
  intros Hw. unfold construct, exec_M. apply build_preserves0.
  split; simpl; [exact Hw | constructor].
Qed.

(** C2.  A [build] whose generation is no longer the app's counter returns
    at the check that follows its fetches: resuming it, with whatever its
    promise settled with, leaves every field of the app, the scene and the
    rest of the world as they were (only [console.error] may have printed,
    and the build may wait again).  Consequently, from the construction of
    an app on, through any sequence of method calls, settled promises and
    registry changes: every root ever activated was made by the build that
    was the latest at that moment, and whenever no build is in flight the
    app's root and blueprint are those of the latest build, the blueprint
    being the one that build requested. *)
Theorem C2_superseded_build_aborts :
  (forall s p r,
     l_n (pd_locals p) <> app_n (st_app s) ->
     untouched s (exec_M (resume p r) s) /\ result_M (resume p r) s = Ok tt) /\
  (forall data w ts,
     Forall act_ok (w_scene w) ->
     let s := run ts (construct data w) in
     Forall act_ok (w_scene (st_world s)) /\ shows_latest s).
Proof.
  split.
  - intros s p r Hne. apply resume_superseded. exact Hne.
  - intros data w ts Hw s.
    destruct (run_preserves ts (construct data w) (construct_Inv data w Hw)) as (H1 & _ & H3).
    split; assumption.
Qed.

(** The scenario "rebuild supersession": with the builds for "b1"
    (generation 2) and "b2" (generation 3) both waiting, the model of "b1"
    arriving changes nothing; and in either order of arrival the only roots
    activated are those of "a" and "b2", and the app ends on "b2". *)
Lemma C2_superseded_build_aborts_witness :
  (st_pending overlapping !! 0 = Some (mkPending AwaitModel (mkLocals 2 bpB1 false None None)) /\
   2 <> app_n (st_app overlapping) /\
   untouched overlapping
     (exec_M (resume (mkPending AwaitModel (mkLocals 2 bpB1 false None None)) ResolvedGlb)
        overlapping)) /\
  (Forall act_ok (w_scene worldAB) /\
   Forall act_ok (w_scene (st_world b1_then_b2)) /\ shows_latest b1_then_b2 /\
   Forall act_ok (w_scene (st_world b2_then_b1)) /\ shows_latest b2_then_b1 /\
   app_building (st_app b1_then_b2) = false /\
   app_blueprint (st_app b1_then_b2) = Some bpB2 /\
   filter (fun op => isActivate op = true) (w_scene (st_world b1_then_b2)) =
     [Activate 1 (toNodes "asset://a.glb" 1) true; Activate 3 (toNodes "asset://b2.glb" 3) true] /\
   w_scene (st_world b2_then_b1) = w_scene (st_world b1_then_b2)).
Proof.
  split.
  - split; [reflexivity|]. split; [vm_compute; lia|].
    apply (proj1 C2_superseded_build_aborts overlapping
             (mkPending AwaitModel (mkLocals 2 bpB1 false None None)) ResolvedGlb).
    vm_compute. lia.
  - assert (Hw : Forall act_ok (w_scene worldAB)) by constructor.
    split; [exact Hw|].
    pose proof (proj2 C2_superseded_build_aborts dataX worldAB
                  (twoRequests ++ [TSettle 0 ResolvedGlb; TSettle 0 ResolvedGlb]) Hw) as [H1 H2].
    pose proof (proj2 C2_superseded_build_aborts dataX worldAB
                  (twoRequests ++ [TSettle 1 ResolvedGlb; TSettle 0 ResolvedGlb]) Hw) as [H3 H4].
    split; [exact H1|]. split; [exact H2|]. split; [exact H3|]. split; [exact H4|].
    split; [reflexivity|]. split; [reflexivity|]. split; vm_compute; reflexivity.
Defined.

End Superseded.

(** ** A listener that throws *)

Module ListenerThrow.
Import App World AppSpec Dispatch.

Lemma dispatched_until_throw a1 a2 before cb after :
  anyThrows before = false -> cb_throws cb = true ->
  dispatched a1 a2 (before ++ cb :: after) =
    map (fun c => mkCall (cb_id c) a1 a2) (before ++ [cb]) /\
  anyThrows (before ++ cb :: after) = true.
Proof.
  intros Hb Hcb. induction before as [|c before IH]; simpl in *.
  - rewrite Hcb. auto.
  - apply orb_false_iff in Hb. destruct Hb as [Hc Hb]. rewrite Hc. simpl.
    destruct (IH Hb) as [IH1 IH2]. rewrite IH1, IH2. auto.
Qed.

(** The [try] of [update] and [lateUpdate] around a dispatch that
    throws. *)
Lemma scriptFrame_throw (s s1 : St) (name text : string) (delta : Q) (err : string) :
  scriptIsActive (st_app s) = true ->
  emit name (ANum delta) AUndef s = (s1, Threw err) ->
  AppMethods.scriptFrame name text delta s =
    crash (exec_M (console_error text;; console_error err) s1).
Proof.
  intros Hact Hemit. unfold AppMethods.scriptFrame. rewrite bind_unfold. cbn [get_app].
  rewrite Hact. unfold try_catch, exec_M. rewrite Hemit. reflexivity.
Qed.

(** On a client that is not the mover, [update] is the interpolation
    followed by the dispatch to the script. *)
Lemma update_not_mover addRotationY addRotationX interpolate fr delta s :
  JS.seq (d_mover (app_data (st_app s))) (Some (w_netid (st_world s))) = false ->
  AppMethods.update addRotationY addRotationX interpolate fr delta s =
    (AppMethods.followMover interpolate delta;;
     AppMethods.scriptFrame "update" "script update() crashed" delta) s.
Proof.
  intros Hm. unfold AppMethods.update. rewrite bind_unfold. cbn [get_app]. rewrite bind_unfold.
  cbn [get_world]. rewrite Hm. rewrite bind_unfold. cbn [ret]. reflexivity.
Qed.

(** The interpolation leaves the listeners, the mode and the script. *)
Lemma followMover_listeners interpolate delta :
  keeps (fun s => (app_listeners (st_app s), app_mode (st_app s), app_script (st_app s)))
        (AppMethods.followMover interpolate delta).
Proof. unfold AppMethods.followMover. Keeps.keeps_auto. Qed.

(** C3, as the code has it.  [emit] calls the listeners of an event in
    order with no [try] around the single call: when one throws, the throw
    leaves [emit], and the listeners registered after it are not called in
    that dispatch.  In [fixedUpdate], and likewise in [lateUpdate] and, on
    a client that is not the mover of the app, in [update] once it has
    interpolated, the throw is caught by the [try] around the whole [emit],
    logged with [console.error], and the app is crashed ([this.crash()]
    starts a build with the crashed flag). *)
Theorem C3_listener_throw (s : St) (name : string) (a1 a2 : Arg)
    (before after : list Callback) (cb : Callback) :
  app_listeners (st_app s) !! name = Some (before ++ cb :: after) ->
  anyThrows before = false ->
  cb_throws cb = true ->
  emit name a1 a2 s =
    (set_st_world
       (set_w_calls
          (w_calls (st_world s) ++ map (fun c => mkCall (cb_id c) a1 a2) (before ++ [cb]))
          (st_world s)) s,
     Threw "listener threw") /\
  (forall delta,
     name = "fixedUpdate" -> a1 = ANum delta -> a2 = AUndef ->
     scriptIsActive (st_app s) = true ->
     fixedUpdate delta s =
       crash (exec_M (console_error "script fixedUpdate crashed";;
                      console_error "listener threw")
                (exec_M (emit name a1 a2) s))) /\
  (forall delta,
     name = "lateUpdate" -> a1 = ANum delta -> a2 = AUndef ->
     scriptIsActive (st_app s) = true ->
     AppMethods.lateUpdate delta s =
       crash (exec_M (console_error "script lateUpdate() crashed";;
                      console_error "listener threw")
                (exec_M (emit name a1 a2) s))) /\
  (forall addRotationY addRotationX interpolate fr delta s1,
     name = "update" -> a1 = ANum delta -> a2 = AUndef ->
     scriptIsActive (st_app s) = true ->
     JS.seq (d_mover (app_data (st_app s))) (Some (w_netid (st_world s))) = false ->
     AppMethods.followMover interpolate delta s = (s1, Ok tt) ->
     AppMethods.update addRotationY addRotationX interpolate fr delta s =
       crash (exec_M (console_error "script update() crashed";;
                      console_error "listener threw")
                (exec_M (emit name a1 a2) s1))).
Proof.
  intros Hl Hb Hcb.
  destruct (dispatched_until_throw a1 a2 before cb after Hb Hcb) as [Hd Ha].
  assert (Hemit : emit name a1 a2 s =
    (set_st_world
       (set_w_calls
          (w_calls (st_world s) ++ map (fun c => mkCall (cb_id c) a1 a2) (before ++ [cb]))
          (st_world s)) s,
     Threw "listener threw")).
  { rewrite emit_unfold, Hl, forM_call, Hd, Ha. reflexivity. }
  split; [exact Hemit|]. split; [|split].
  - intros delta -> -> -> Hact.
    unfold fixedUpdate. rewrite bind_unfold. simpl. rewrite Hact.
    unfold try_catch, exec_M. rewrite Hemit. reflexivity.
  - intros delta -> -> -> Hact. unfold AppMethods.lateUpdate.
    rewrite (scriptFrame_throw s _ _ _ delta _ Hact Hemit).
    unfold exec_M at 3. rewrite Hemit. reflexivity.
  - intros addRotationY addRotationX interpolate fr delta s1 -> -> -> Hact Hm Hfollow.
    rewrite (update_not_mover _ _ _ fr delta s Hm), bind_unfold, Hfollow.
    pose proof (followMover_listeners interpolate delta s) as Hkeep.
    rewrite Hfollow in Hkeep. cbn [fst] in Hkeep. injection Hkeep as Hl1 Hm1 Hs1.
    assert (Hact1 : scriptIsActive (st_app s1) = true)
      by (unfold scriptIsActive in *; rewrite Hm1, Hs1; exact Hact).
    assert (Hemit1 : emit "update" (ANum delta) AUndef s1 =
      (set_st_world
         (set_w_calls
            (w_calls (st_world s1) ++
             map (fun c => mkCall (cb_id c) (ANum delta) AUndef) (before ++ [cb]))
            (st_world s1)) s1,
       Threw "listener threw")).
    { rewrite emit_unfold, Hl1, Hl, forM_call, Hd, Ha. reflexivity. }
    rewrite (scriptFrame_throw s1 _ _ _ delta _ Hact1 Hemit1).
    unfold exec_M at 3. rewrite Hemit1. reflexivity.
Qed.

Import DispatchExample.

(** The theorem on the [ticking] app: callback 1 throws, callback 2 is
    behind it. *)
Lemma C3_listener_throw_witness :
  app_listeners (st_app ticking) !! "fixedUpdate" =
    Some ([] ++ mkCallback 1 true :: [mkCallback 2 false]) /\
  scriptIsActive (st_app ticking) = true /\
  emit "fixedUpdate" (ANum step) AUndef ticking =
    (set_st_world
       (set_w_calls (w_calls (st_world ticking) ++ [mkCall 1 (ANum step) AUndef])
          (st_world ticking)) ticking,
     Threw "listener threw") /\
  fixedUpdate step ticking =
    crash (exec_M (console_error "script fixedUpdate crashed";;
                   console_error "listener threw")
             (exec_M (emit "fixedUpdate" (ANum step) AUndef) ticking)).
Proof.
  assert (Hl : app_listeners (st_app ticking) !! "fixedUpdate" =
               Some ([] ++ mkCallback 1 true :: [mkCallback 2 false])) by reflexivity.
  assert (Hact : scriptIsActive (st_app ticking) = true) by reflexivity.
  destruct (C3_listener_throw ticking "fixedUpdate" (ANum step) AUndef
              [] [mkCallback 2 false] (mkCallback 1 true) Hl eq_refl eq_refl) as [H1 H2].
  split; [exact Hl|]. split; [exact Hact|]. split; [exact H1|].
  exact (proj1 H2 step eq_refl eq_refl eq_refl Hact).
Defined.

(** C3 as stated fails: on the [ticking] app callback 1 throws during the
    dispatch of "fixedUpdate"; callback 2, registered for the same event, is
    never called; [emit] itself throws, and [fixedUpdate] answers by
    crashing the app (a second build is started, with the crashed flag). *)
Lemma C3_throw_aborts_dispatch :
  app_listeners (st_app ticking) !! "fixedUpdate" =
    Some [mkCallback 1 true; mkCallback 2 false] /\
  result_M (emit "fixedUpdate" (ANum step) AUndef) ticking = Threw "listener threw" /\
  w_calls (st_world (exec_M (emit "fixedUpdate" (ANum step) AUndef) ticking)) =
    [mkCall 1 (ANum step) AUndef] /\
  let s' := exec_M (fixedUpdate step) ticking in
  w_calls (st_world s') = [mkCall 1 (ANum step) AUndef] /\
  w_errors (st_world s') = ["script fixedUpdate crashed"; "listener threw"] /\
  app_n (st_app ticking) = 1 /\ app_n (st_app s') = 2 /\
  map (fun p => l_crashed (pd_locals p)) (st_pending s') = [true].
Proof. vm_compute. repeat split. Qed.

End ListenerThrow.

(** ** The mode and the physics flag of a completed build *)

Module BuildMode.
Import App World BuildSpec ModeSpec Quiet BuildInv.

Lemma build_mode_by_design d netid : build_mode d netid = mode_by_design d netid.
Proof.
  unfold build_mode, mode_by_design, transformingMode.
  destruct (uploaderIsOther d netid), (JS.truthy (d_mover d)); reflexivity.
Qed.

Lemma bstep_refl s : bstep s s.
Proof.
  split; [reflexivity | split; [reflexivity | split; [left; reflexivity|]]].
  exists []. rewrite app_nil_r. split; [reflexivity | constructor].
Qed.

Lemma bstep_trans s1 s2 s3 : bstep s1 s2 -> bstep s2 s3 -> bstep s1 s3.
Proof.
  intros (Hd1 & Hn1 & Hm1 & ops1 & Hs1 & Hf1) (Hd2 & Hn2 & Hm2 & ops2 & Hs2 & Hf2).
  rewrite Hd1, Hn1 in Hm2. rewrite Hd1 in Hf2.
  split; [congruence | split; [congruence | split]].
  - destruct Hm2 as [Hm2|Hm2]; [rewrite Hm2; exact Hm1 | right; exact Hm2].
  - exists (ops1 ++ ops2). split.
    + rewrite Hs2, Hs1, app_assoc. reflexivity.
    + apply Forall_app. split; assumption.
Qed.

Lemma bstep_quiet s s' : quiet s s' -> bstep s s'.
Proof.
  intros [Hk (ops & Hs & Hf)]. apply kernel_eq in Hk.
  destruct Hk as (_ & _ & _ & _ & _ & _ & Hm & Hd & Hn).
  split; [exact Hd | split; [exact Hn | split; [left; exact Hm|]]].
  exists ops. split; [exact Hs|].
  eapply Forall_impl; [exact Hf|]. intros op Hop. destruct op; simpl in *; [discriminate | exact I ..].
Qed.

Lemma follows_stable {A} (m : M A) : stable m -> follows bstep m.
Proof. intros H s. apply bstep_quiet, H. Qed.

Lemma follows_ret {A} (a : A) : follows bstep (ret a).
Proof. intros s. apply bstep_refl. Qed.

Lemma follows_bind {A B} (m : M A) (k : A -> M B) :
  follows bstep m -> (forall a, follows bstep (k a)) -> follows bstep (bind m k).
Proof.
  intros Hm Hk s. rewrite bind_unfold. specialize (Hm s).
  destruct (m s) as [s' [a|e]]; simpl in *; [|exact Hm].
  eapply bstep_trans; [exact Hm | apply Hk].
Qed.

Lemma follows_try_catch {A} (m : M A) (h : string -> M A) :
  follows bstep m -> (forall e, follows bstep (h e)) -> follows bstep (try_catch m h).
Proof.
  intros Hm Hh s. unfold try_catch. specialize (Hm s).
  destruct (m s) as [s' [a|e]]; simpl in *; [exact Hm|].
  eapply bstep_trans; [exact Hm | apply Hh].
Qed.

(** A step that leaves [data], the network id, the mode and the scene
    alone. *)
Lemma bstep_same s s' :
  app_data (st_app s') = app_data (st_app s) ->
  w_netid (st_world s') = w_netid (st_world s) ->
  app_mode (st_app s') = app_mode (st_app s) ->
  w_scene (st_world s') = w_scene (st_world s) ->
  bstep s s'.
Proof.
  intros Hd Hn Hm Hs. split; [exact Hd | split; [exact Hn | split; [left; exact Hm|]]].
  exists []. rewrite app_nil_r. split; [exact Hs | constructor].
Qed.

Lemma follows_suspend stage L : follows bstep (suspend stage L).
Proof. intros s. apply bstep_same; reflexivity. Qed.

Lemma follows_setup L : follows bstep (setup L).
Proof.
  intros s. unfold setup. rewrite bind_unfold. simpl. rewrite bind_unfold. simpl.
  destruct (l_root L) as [root0|]; simpl.
  - split; [reflexivity | split; [reflexivity | split; [right; reflexivity|]]].
    eexists. split; [reflexivity|]. constructor; [reflexivity | constructor].
  - split; [reflexivity | split; [reflexivity | split; [right; reflexivity|]]].
    exists []. rewrite app_nil_r. split; [reflexivity | constructor].
Qed.

Lemma follows_install mode root : follows bstep (install mode root).
Proof.
  apply follows_stable. unfold install.
  pose proof stable_setHotSelf. pose proof stable_drain. stable_auto.
Qed.

Section WithCrash.
Variable crash : M unit.
Hypothesis crash_follows : follows bstep crash.

Lemma follows_execute L mode : follows bstep (execute crash L mode).
Proof.
  unfold execute. destruct (l_script L) as [script|]; [|apply follows_ret].
  destruct (Mode_eqb mode ACTIVE && negb (l_crashed L)); [|apply follows_ret].
  apply follows_bind; [apply follows_stable; intros s; apply quiet_same; reflexivity|].
  intros _. apply follows_try_catch.
  - apply follows_stable, stable_bind; [apply stable_exec | intros; apply stable_ret].
  - intros e.
    apply follows_bind; [apply follows_stable, stable_console_error|]. intros _.
    apply follows_bind; [apply follows_stable, stable_console_error|]. intros _.
    apply follows_bind; [exact crash_follows|]. intros _. apply follows_ret.
Qed.

Lemma follows_finish L : follows bstep (finish crash L).
Proof.
  unfold finish. apply follows_bind; [intros s; apply bstep_refl|]. intros a.
  destruct (negb (Nat.eqb (app_n a) (l_n L))); [apply follows_ret|].
  apply follows_bind; [apply follows_stable, stable_unbuild|]. intros _.
  apply follows_bind; [apply follows_setup|]. intros r.
  apply follows_bind; [apply follows_execute|]. intros [|]; [|apply follows_ret].
  apply follows_bind; [apply follows_install|]. intros _.
  intros s. apply bstep_same; reflexivity.
Qed.

Lemma follows_after_model L : follows bstep (after_model crash L).
Proof.
  unfold after_model.
  destruct (l_crashed L || negb (bool_decide (is_Some (l_root L)))); [|apply follows_finish].
  apply follows_bind; [intros s; apply bstep_refl|]. intros w.
  destruct (bool_decide (("model", crashBlockUrl) ∈ w_glbs w));
    [apply follows_finish | apply follows_suspend].
Qed.

Lemma follows_after_script L : follows bstep (after_script crash L).
Proof.
  unfold after_script.
  apply follows_bind; [intros s; apply bstep_refl|]. intros a.
  apply follows_bind; [intros s; apply bstep_refl|]. intros w.
  destruct (uploaderIsOther (app_data a) (w_netid w)); [apply follows_after_model|].
  destruct (bp_model (l_blueprint L)) as [model|].
  - destruct (bool_decide ((modelType model, model) ∈ w_glbs w));
      [apply follows_after_model | apply follows_suspend].
  - apply follows_bind; [apply follows_stable, stable_console_error|]. intros _.
    apply follows_after_model.
Qed.

Lemma follows_build_body crashed : follows bstep (build_body crash crashed).
Proof.
  unfold build_body.
  apply follows_bind; [intros s; apply bstep_same; reflexivity|]. intros _.
  apply follows_bind; [intros s; apply bstep_refl|]. intros a.
  apply follows_bind; [intros s; apply bstep_refl|]. intros w.
  destruct (w_blueprints w !! d_blueprint (app_data a)) as [bp|];
    [|intros s; apply bstep_refl].
  apply follows_bind; [intros s; apply bstep_same; reflexivity|]. intros _.
  destruct (JS.truthy (bp_script bp)); [|apply follows_after_script].
  destruct (w_scripts w !! default EmptyString (bp_script bp));
    [apply follows_after_script | apply follows_suspend].
Qed.

End WithCrash.

Lemma follows_async m : follows bstep m -> follows bstep (async m).
Proof.
  intros H. unfold async. apply follows_try_catch; [exact H|].
  intros e s. apply bstep_same; reflexivity.
Qed.

Lemma follows_crash : follows bstep crash.
Proof. apply follows_async, follows_build_body, follows_ret. Qed.

Lemma total_bind {A B} (m : M A) (k : A -> M B) :
  total m -> (forall a, total (k a)) -> total (bind m k).
Proof.
  intros Hm Hk s. rewrite bind_unfold. specialize (Hm s).
  destruct (m s) as [s' [a|e]]; simpl in *; [apply Hk | discriminate].
Qed.

Lemma total_forM {A} (l : list A) (f : A -> M unit) :
  (forall x, total (f x)) -> total (forM_ l f).
Proof.
  intros Hf. induction l as [|x l IH]; simpl; [intros s; reflexivity|].
  apply total_bind; [apply Hf | intros _; exact IH].
Qed.

Ltac total_step :=
  first
    [ apply total_bind; [| intros ?]
    | apply total_forM; intros ?
    | (let s := fresh "s" in intros s; reflexivity)
    | progress cbv beta
    | match goal with
      | |- total (match ?x with _ => _ end) => destruct x
      end ].

Lemma total_events_off name cb : total (events_off name cb).
Proof. intros s. reflexivity. Qed.

Lemma total_unbuild : total unbuild.
Proof.
  unfold unbuild, clearEventListeners, setHotSelf, setHot, scene.
  pose proof total_events_off as Hoff.
  repeat first [apply Hoff | total_step].
Qed.

(** The lines under "mode", "setup" and "activate", run on a state. *)
Lemma setup_Some L root0 s :
  l_root L = Some root0 ->
  let d := app_data (st_app s) in
  let mode := build_mode d (w_netid (st_world s)) in
  setup L s =
    (set_st_world
       (set_w_scene
          (w_scene (st_world s) ++
           [Activate (app_n (st_app s)) (placed d root0) (negb (JS.truthy (d_mover d)))])
          (st_world s))
       (set_st_app
          (set_app_root (Some (placed d root0))
             (set_app_blueprint (Some (l_blueprint L))
                (set_app_mode (Some mode) (st_app s)))) s),
     Ok (mode, placed d root0)).
Proof.
  intros Hroot. unfold setup. rewrite bind_unfold. simpl. rewrite bind_unfold. simpl.
  rewrite Hroot. reflexivity.
Qed.

(** C4, as the code has it.  A build that passes the supersession check
    ends in the mode: LOADING when an uploader is set and is not the local
    network id; otherwise, when [data.mover] is set, to whichever socket,
    ROTATING for transformMode "rotate", SCALING for "scale" and MOVING for
    anything else; otherwise ACTIVE.  It activates its root once, after the
    previous version was taken down, with physics on exactly when
    [data.mover] is not set; and whatever it activates after that (the root
    of the crash build it may start) has the same physics flag. *)
Theorem C4_mode_of_completed_build (s : St) (L : Locals) (root0 : Node) :
  app_n (st_app s) = l_n L ->
  l_root L = Some root0 ->
  let s' := exec_M (finish crash L) s in
  let d := app_data (st_app s) in
  app_mode (st_app s') = Some (mode_by_design d (w_netid (st_world s))) /\
  exists pre post,
    w_scene (st_world s') =
      w_scene (st_world s) ++ pre ++
      Activate (l_n L) (placed d root0) (negb (JS.truthy (d_mover d))) :: post /\
    Forall (fun op => isActivate op = false) pre /\
    Forall (phys_ok (d_mover d)) post.
Proof.
  intros Hn Hroot s' d. subst s' d. unfold exec_M, finish.
  rewrite bind_unfold. simpl. rewrite Hn, Nat.eqb_refl. simpl.
  rewrite bind_unfold.
  pose proof (stable_unbuild s) as [Hk1 (pre & Hs1 & Hpre)].
  pose proof (total_unbuild s) as Hok1.
  destruct (unbuild s) as [s1 [[]|e]]; simpl in *; [clear Hok1 | discriminate].
  apply kernel_eq in Hk1.
  destruct Hk1 as (Hn1 & _ & _ & _ & _ & _ & _ & Hd1 & Hid1).
  rewrite bind_unfold, (setup_Some L root0 s1 Hroot). cbv zeta. cbn [fst snd].
  match goal with
  | |- context [bind (execute crash L ?m) ?k ?st] =>
      assert (Htail : bstep st (fst (bind (execute crash L m) k st)));
      [ apply follows_bind; [apply follows_execute, follows_crash|];
        intros [|]; [|apply follows_ret];
        apply follows_bind; [apply follows_install|];
        intros _ s0; apply bstep_same; reflexivity
      | generalize dependent (bind (execute crash L m) k st) ]
  end.
  intros [fin res] (Hd2 & Hid2 & Hm2 & post & Hs2 & Hpost).
  simpl in Hd2, Hid2, Hm2, Hs2, Hpost |- *.
  rewrite Hd1, Hid1 in Hm2. rewrite Hd1 in Hpost. rewrite Hd1, Hn1, Hn, Hs1 in Hs2.
  rewrite build_mode_by_design in Hm2.
  split.
  - destruct Hm2 as [Hm2|Hm2]; exact Hm2.
  - exists pre, post. split; [|split; assumption].
    rewrite Hs2, <- !app_assoc. reflexivity.
Qed.

(** The theorem on the crash-block build of a crashed app: the build that
    [crash] suspends on the [ticking] example is resumed. *)
Lemma C4_mode_of_completed_build_witness :
  let s := exec_M (fixedUpdate DispatchExample.step) DispatchExample.ticking in
  let L := set_l_root (Some (toNodes crashBlockUrl 2))
             (mkLocals 2 DispatchExample.bpT true (Some DispatchExample.twoListeners)
                (Some (toNodes "asset://t.glb" 2))) in
  app_n (st_app s) = l_n L /\
  l_root L = Some (toNodes crashBlockUrl 2) /\
  app_mode (st_app (exec_M (finish crash L) s)) = Some ACTIVE /\
  exists pre post,
    w_scene (st_world (exec_M (finish crash L) s)) =
      w_scene (st_world s) ++ pre ++
      Activate 2 (toNodes crashBlockUrl 2) true :: post.
Proof.
  intros s L.
  assert (Hn : app_n (st_app s) = l_n L) by reflexivity.
  assert (Hroot : l_root L = Some (toNodes crashBlockUrl 2)) by reflexivity.
  split; [exact Hn|]. split; [exact Hroot|].
  destruct (C4_mode_of_completed_build s L _ Hn Hroot) as (Hmode & pre & post & Hsc & _).
  split; [exact Hmode|]. exists pre, post. exact Hsc.
Defined.

(** C4 as stated fails.  An app that a peer is moving (mover "other", no
    uploader) is built on client "me": the claim's rule gives ACTIVE, the
    build gives MOVING.  An app that "me" moves while "other" still uploads
    it: the claim's rule gives MOVING, the build gives LOADING. *)
Lemma C4_mode_follows_any_mover :
  mode_as_claimed movedByPeer "me" = ACTIVE /\
  app_mode (st_app (construct movedByPeer worldM)) = Some MOVING /\
  app_building (st_app (construct movedByPeer worldM)) = false /\
  mode_as_claimed movedWhileUploading "me" = MOVING /\
  app_mode (st_app (construct movedWhileUploading worldM)) = Some LOADING /\
  app_building (st_app (construct movedWhileUploading worldM)) = false.
Proof. vm_compute. repeat split. Qed.

End BuildMode.

(** ** Scaling an app with the pointer *)

Module Scale.
Import App ScaleSpec V3Facts.
Local Open Scope Q_scope.

Lemma limits_ordered : 1 # 10 <= 10.
Proof. discriminate. Qed.

Lemma clamp_in_limits v : in_limits (V3.clamp v (1 # 10) 10).
Proof. apply clamp_bounds, limits_ordered. Qed.

(** C7, as the code has it.  [handleScale] needs a bound control and a
    root.  With Shift held it adds the same amount, minus the pointer's Y
    movement times the frame time, to all three axes and clamps each to
    [0.1, 10].  Without Shift it adds the pointer's X movement to the x axis
    and minus its Y movement to the y axis, clamps these two to [0.1, 10],
    and leaves the z axis as it was; nothing but the root's scale
    changes. *)
Theorem C7_handleScale (s : St) (inp : Input) (delta : Q) (c : Control) (root : Node) :
  app_control (st_app s) = Some c ->
  app_root (st_app s) = Some root ->
  let s' := exec_M (handleScale inp delta) s in
  let sc := nd_scale root in
  result_M (handleScale inp delta) s = Ok tt /\
  exists sc',
    s' = set_st_app (set_app_root (Some (set_nd_scale sc' root)) (st_app s)) s /\
    (in_ShiftLeft inp = true ->
       let scaleDelta := - in_pointer_dy inp * delta * 1 in
       sc' = mkVec3 (V3.clamp (vx sc + scaleDelta) (1 # 10) 10)
                    (V3.clamp (vy sc + scaleDelta) (1 # 10) 10)
                    (V3.clamp (vz sc + scaleDelta) (1 # 10) 10) /\
       in_limits (vx sc') /\ in_limits (vy sc') /\ in_limits (vz sc')) /\
    (in_ShiftLeft inp = false ->
       sc' = mkVec3 (V3.clamp (vx sc + in_pointer_dx inp * delta * 1) (1 # 10) 10)
                    (V3.clamp (vy sc + - in_pointer_dy inp * delta * 1) (1 # 10) 10)
                    (vz sc) /\
       in_limits (vx sc') /\ in_limits (vy sc')).
Proof.
  intros Hc Hroot s' sc. subst s' sc.
  unfold exec_M, result_M, handleScale. rewrite bind_unfold. simpl.
  rewrite Hc, Hroot. destruct (in_ShiftLeft inp) eqn:Hshift; simpl.
  - split; [reflexivity|]. eexists. split; [reflexivity|]. split; [|discriminate].
    intros _. split; [reflexivity|]. simpl. repeat split; apply clamp_in_limits.
  - split; [reflexivity|]. eexists. split; [reflexivity|]. split; [discriminate|].
    intros _. split; [reflexivity|]. simpl. repeat split; apply clamp_in_limits.
Qed.

(** The theorem on the [scaling] app, dragged without Shift. *)
Lemma C7_handleScale_witness :
  app_control (st_app scaling) = Some ControlEntity /\
  app_root (st_app scaling) =
    Some (mkNode (SrcGlb "asset://a.glb") 1 Examples.origin Examples.noRotation (mkVec3 1 1 20)) /\
  result_M (handleScale drag frame) scaling = Ok tt /\
  exists sc',
    option_map nd_scale (app_root (st_app (exec_M (handleScale drag frame) scaling))) = Some sc' /\
    in_limits (vx sc') /\ in_limits (vy sc') /\ vz sc' = 20.
Proof.
  assert (Hc : app_control (st_app scaling) = Some ControlEntity) by reflexivity.
  assert (Hr : app_root (st_app scaling) =
    Some (mkNode (SrcGlb "asset://a.glb") 1 Examples.origin Examples.noRotation (mkVec3 1 1 20)))
    by reflexivity.
  split; [exact Hc|]. split; [exact Hr|].
  destruct (C7_handleScale scaling drag frame _ _ Hc Hr) as (Hok & sc' & Hs' & _ & Hno).
  split; [exact Hok|]. exists sc'. split; [rewrite Hs'; reflexivity|].
  destruct (Hno eq_refl) as (Hsc & Hx & Hy). split; [exact Hx|]. split; [exact Hy|].
  rewrite Hsc. reflexivity.
Defined.

(** C7 as stated fails: the [scaling] app came with the stored scale
    (1, 1, 20); a [handleScale] step without Shift clamps x and y and leaves
    z at 20, outside [0.1, 10]. *)
Lemma C7_z_axis_not_clamped :
  app_mode (st_app scaling) = Some SCALING /\
  option_map nd_scale (app_root (st_app (exec_M (handleScale drag frame) scaling))) =
    Some (mkVec3 (63 # 60) (66 # 60) 20) /\
  ~ in_limits 20.
Proof.
  split; [reflexivity|]. split; [reflexivity|].
  intros [_ H]. revert H. vm_compute. intros H. apply H. reflexivity.
Qed.

End Scale.

(** ** [modify] *)

Module Modify.
Import App ModifySpec.

Lemma set_app_data_id a : set_app_data (app_data a) a = a.
Proof. destruct a; reflexivity. Qed.

(** Once a build has installed the interpolators, [modify] stores the keys
    of [data], pushes the new position and quaternion as interpolator
    targets, and then calls [build] exactly when [data] has one of the keys
    blueprint, uploader, mover, transformMode, state. *)
Lemma modify_installed data lp lq s :
  app_networkPos (st_app s) = Some lp ->
  app_networkQuat (st_app s) = Some lq ->
  modify data s =
    let s1 := set_st_app (stored data lp lq (st_app s)) s in
    if needs_rebuild data then build false s1 else (s1, Ok tt).
Proof.
  intros Hp Hq. destruct s as [a w pend req]. destruct a as [d]. simpl in Hp, Hq. subst.
  destruct d. destruct data as [b u m t p q sc stt].
  destruct b, u, m, t, p, q, sc, stt; reflexivity.
Qed.

(** A transform-only update of an app with installed interpolators changes
    [data] and the interpolators and nothing else: no build is started. *)
Lemma modify_transform_only data lp lq s :
  app_networkPos (st_app s) = Some lp ->
  app_networkQuat (st_app s) = Some lq ->
  needs_rebuild data = false ->
  modify data s = (set_st_app (stored data lp lq (st_app s)) s, Ok tt) /\
  let a' := stored data lp lq (st_app s) in
  app_script a' = app_script (st_app s) /\
  app_listeners a' = app_listeners (st_app s) /\
  app_mode a' = app_mode (st_app s) /\
  app_root a' = app_root (st_app s) /\
  app_n a' = app_n (st_app s) /\
  app_building a' = app_building (st_app s).
Proof.
  intros Hp Hq Hno. rewrite (modify_installed data lp lq s Hp Hq). simpl. rewrite Hno.
  split; [reflexivity|]. simpl. repeat split.
Qed.

Import Examples.

(** C9 at an app whose first build still waits for its model (no
    interpolator exists yet).  A transform-only update throws a TypeError
    at [this.networkPos.pushArray]: the position is stored, the quaternion
    is not.  An update with the keys blueprint and position throws at the
    same place, before [this.build()]: the counter stays at 1 and no build
    is started, although [data] has the key blueprint. *)
Lemma C9_modify_before_first_build :
  app_networkPos (st_app loading) = None /\
  result_M (modify moveTo) loading =
    Threw "TypeError: Cannot read properties of undefined (reading 'pushArray')" /\
  d_position (app_data (st_app (exec_M (modify moveTo) loading))) = mkVec3 1 2 3 /\
  d_quaternion (app_data (st_app (exec_M (modify moveTo) loading))) = noRotation /\
  needs_rebuild moveAndSwap = true /\
  result_M (modify moveAndSwap) loading =
    Threw "TypeError: Cannot read properties of undefined (reading 'pushArray')" /\
  app_n (st_app loading) = 1 /\
  app_n (st_app (exec_M (modify moveAndSwap) loading)) = 1 /\
  st_pending (exec_M (modify moveAndSwap) loading) = st_pending loading.
Proof. vm_compute. repeat split. Qed.

End Modify.

(** ** [destroy] *)

Module Destroy.
Import App World DestroySpec.

Lemma forM_scene (f : string -> SceneOp) l s :
  forM_ l (fun nd => scene (f nd)) s = (add_scene (map f l) s, Ok tt).
Proof.
  revert s. induction l as [|x l IH]; intros s; simpl.
  - unfold ret, add_scene. rewrite app_nil_r. destruct s as [a w p r]; destruct w; reflexivity.
  - rewrite bind_unfold. simpl. rewrite IH. unfold add_scene. simpl.
    rewrite <- app_assoc. reflexivity.
Qed.

Lemma forM_events_off l s :
  forM_ l (fun '(cb, name) => events_off name cb) s =
    (set_st_world (set_w_events (fold_left off_one l (w_events (st_world s))) (st_world s)) s,
     Ok tt).
Proof.
  revert s. induction l as [|[cb name] l IH]; intros s; simpl.
  - unfold ret. destruct s as [a w p r]; destruct w; reflexivity.
  - rewrite bind_unfold. unfold events_off at 1, mod_world.
    destruct s as [a w p r]; destruct w as [id bps scs glbs ents hot ev em sc calls sent errs].
    assert (Hoff : off_one ev (cb, name) =
                   match ev !! name with
                   | None => ev
                   | Some l0 => <[name := set_delete cb l0]> ev
                   end) by reflexivity.
    cbn [fold_left st_world w_events]. rewrite Hoff.
    destruct (ev !! name); rewrite IH; reflexivity.
Qed.

Lemma unbuild_unbuilt s : unbuild s = (unbuilt s, Ok tt).
Proof.
  destruct s as [a w p r].
  destruct a as [d n bld dead mode bp root script ls he wn wl q ctl lms np nq ac].
  destruct w as [id bps scs glbs ents hot ev em sc calls sent errs].
  unfold unbuild, unbuilt, clearEventListeners, setHotSelf, setHot.
  rewrite bind_unfold. cbn [get_app st_app app_root app_worldNodes].
  rewrite bind_unfold.
  destruct root as [root|]; cbn [scene mod_world ret];
    (rewrite bind_unfold, forM_scene; cbn -[fold_left off_one];
     repeat (rewrite bind_unfold; cbn -[fold_left off_one]);
     rewrite forM_events_off; cbn -[fold_left off_one];
     destruct ctl; cbn -[fold_left off_one]; rewrite ?app_nil_r, <- ?app_assoc; reflexivity).
Qed.

(** The state [destroy(local)] leaves of a live app. *)
Lemma destroy_live local s :
  app_dead (st_app s) = false ->
  App.destroy local s =
    (let u := unbuilt (set_st_app (set_app_dead true (st_app s)) s) in
     let id := d_id (app_data (st_app s)) in
     set_st_world
       (set_w_sent (w_sent (st_world u) ++ removal local id)
          (set_w_entities (w_entities (st_world u) ∖ {[ id ]}) (st_world u))) u,
     Ok tt).
Proof.
  intros Hdead. unfold App.destroy. rewrite bind_unfold. cbn [get_app]. rewrite Hdead.
  rewrite bind_unfold. cbn [mod_app]. rewrite bind_unfold, unbuild_unbuilt.
  rewrite bind_unfold. cbn [get_app]. rewrite bind_unfold.
  unfold entities_remove, network_send, mod_world, removal.
  destruct s as [a w p r]. destruct a, w. destruct local; cbn; rewrite ?app_nil_r; reflexivity.
Qed.

Lemma destroy_dead local s :
  app_dead (st_app s) = true -> App.destroy local s = (s, Ok tt).
Proof.
  intros Hdead. unfold App.destroy. rewrite bind_unfold. cbn [get_app]. rewrite Hdead.
  reflexivity.
Qed.

(** C10.  The first [destroy(local)] of an app marks it dead, unbuilds it
    (its root is deactivated, its listeners are dropped, it leaves the hot
    set), removes it from the entity store and, when [local] holds, sends
    one entityRemoved packet and otherwise none; the first [destroy(local)]
    of a remote player marks it dead, deactivates its subtree, takes it out
    of the hot set and the entity store and sends the same.  For both, any
    later [destroy] changes nothing: no removal, no packet. *)
Theorem C10_destroy_idempotent :
  (forall (s : St) (local again : bool),
     app_dead (st_app s) = false ->
     let id := d_id (app_data (st_app s)) in
     let s1 := exec_M (App.destroy local) s in
     app_dead (st_app s1) = true /\
     (forall root, app_root (st_app s) = Some root ->
                   (Deactivate root ∈ w_scene (st_world s1))) /\
     app_listeners (st_app s1) = ∅ /\
     (id ∉ w_hot (st_world s1)) /\
     (id ∉ w_entities (st_world s1)) /\
     w_sent (st_world s1) = w_sent (st_world s) ++ removal local id /\
     App.destroy again s1 = (s1, Ok tt)) /\
  (forall (r : PlayerRemote.Remote) (w : World) (local again : bool),
     PlayerRemote.pr_dead r = false ->
     let id := PlayerRemote.pr_id r in
     let r1 := fst (PlayerRemote.destroy local (r, w)) in
     let w1 := snd (PlayerRemote.destroy local (r, w)) in
     PlayerRemote.pr_dead r1 = true /\
     PlayerRemote.pr_baseActive r1 = false /\
     (id ∉ w_hot w1) /\
     (id ∉ w_entities w1) /\
     w_emitted w1 = w_emitted w ++ [("leave", id)] /\
     w_sent w1 = w_sent w ++ removal local id /\
     PlayerRemote.destroy again (r1, w1) = (r1, w1)).
Proof.
  split.
  - intros s local again Hdead id s1. subst id s1. unfold exec_M.
    rewrite (destroy_live local s Hdead). cbn [fst].
    split; [reflexivity|]. split; [|split; [reflexivity|split; [|split; [|split]]]].
    + intros root Hroot. cbn. rewrite Hroot. set_solver.
    + cbn. set_solver.
    + cbn. set_solver.
    + reflexivity.
    + apply destroy_dead. reflexivity.
  - intros r w local again Hdead id r1 w1. subst id r1 w1.
    unfold PlayerRemote.destroy. rewrite Hdead. cbn [fst snd].
    split; [reflexivity|]. split; [reflexivity|].
    split; [destruct local; cbn; set_solver|].
    split; [destruct local; cbn; set_solver|].
    split; [destruct local; reflexivity|].
    split; [destruct local; cbn; rewrite ?app_nil_r; reflexivity|].
    reflexivity.
Qed.

Import Examples.

(** The theorem on the [built] example app and on the remote player
    [peer], each destroyed locally and then once more. *)
Lemma C10_destroy_idempotent_witness :
  (app_dead (st_app built) = false /\
   let s1 := exec_M (App.destroy true) built in
   ("app1" ∉ w_entities (st_world s1)) /\
   w_sent (st_world s1) = [EntityRemoved "app1"] /\
   App.destroy true s1 = (s1, Ok tt)) /\
  (PlayerRemote.pr_dead peer = false /\
   let r1 := fst (PlayerRemote.destroy true (peer, worldP)) in
   let w1 := snd (PlayerRemote.destroy true (peer, worldP)) in
   ("p2" ∉ w_entities w1) /\
   w_sent w1 = [EntityRemoved "p2"] /\
   PlayerRemote.destroy true (r1, w1) = (r1, w1)).
Proof.
  split.
  - assert (Hlive : app_dead (st_app built) = false) by reflexivity.
    split; [exact Hlive|].
    destruct (proj1 C10_destroy_idempotent built true true Hlive)
      as (_ & _ & _ & _ & Hent & Hsent & Hagain).
    split; [exact Hent|]. split; [exact Hsent|]. exact Hagain.
  - assert (Hlive : PlayerRemote.pr_dead peer = false) by reflexivity.
    split; [exact Hlive|].
    destruct (proj2 C10_destroy_idempotent peer worldP true true Hlive)
      as (_ & _ & _ & Hent & _ & Hsent & Hagain).
    split; [exact Hent|]. split; [exact Hsent|]. exact Hagain.
Defined.

End Destroy.

(** ** Inbound packets wait in the queue and are flushed in order *)

Module PacketQueue.
Import ClientNetwork.

Section Handlers.
Context {W Payload Raw : Type}.
Variable readPacket : Raw -> option (option string * Payload).
Variable member : string -> Member W Payload.

Lemma dispatch_spec method data (n : Net W Payload) :
  net_queue (dispatch member method data n) = net_queue n /\
  net_world (dispatch member method data n) = handled member (net_world n) (method, data) /\
  taken_packets (dispatch member method data n) = taken_packets n ++ [(method, data)].
Proof.
  unfold dispatch, handled, taken_packets. simpl.
  destruct (lookup_member member method) as [| |handler]; simpl.
  - rewrite map_app. auto.
  - rewrite map_app. auto.
  - destruct (handler data (net_world n)) as [w [err|]]; simpl; rewrite map_app; auto.
Qed.

Lemma flush_loop_spec fuel : forall n : Net W Payload,
  length (net_queue n) <= fuel ->
  net_queue (flush_loop member fuel n) = [] /\
  net_world (flush_loop member fuel n) =
    fold_left (handled member) (net_queue n) (net_world n) /\
  taken_packets (flush_loop member fuel n) = taken_packets n ++ net_queue n.
Proof.
  induction fuel as [|fuel IH]; intros n Hlen.
  - destruct (net_queue n) eqn:Hq; [|simpl in Hlen; lia].
    simpl. rewrite Hq, app_nil_r. auto.
  - simpl. destruct (net_queue n) as [|[method data] rest] eqn:Hq.
    + rewrite Hq, app_nil_r. auto.
    + set (n1 := mkNet rest (net_world n) (net_errors n) (net_taken n)).
      destruct (dispatch_spec method data n1) as (Hq1 & Hw1 & Ht1).
      destruct (IH (dispatch member method data n1)) as (H1 & H2 & H3).
      { rewrite Hq1. simpl in *. lia. }
      split; [exact H1|]. split.
      * rewrite H2, Hq1, Hw1. reflexivity.
      * rewrite H3, Hq1, Ht1. simpl. rewrite <- app_assoc. reflexivity.
Qed.

Lemma onPacket_spec e (n : Net W Payload) :
  net_world (onPacket readPacket e n) = net_world n /\
  net_taken (onPacket readPacket e n) = net_taken n /\
  net_errors (onPacket readPacket e n) = net_errors n /\
  net_queue (onPacket readPacket e n) =
    net_queue n ++ match readPacket e with Some p => [p] | None => [] end.
Proof.
  unfold onPacket. destruct (readPacket e) as [[method data]|]; simpl.
  - auto.
  - rewrite app_nil_r. auto.
Qed.

Lemma run_spec ops : forall n : Net W Payload,
  taken_packets (run readPacket member ops n) ++ net_queue (run readPacket member ops n) =
    taken_packets n ++ net_queue n ++ arrivals readPacket ops.
Proof.
  induction ops as [|o ops IH]; intros n; simpl.
  - rewrite app_nil_r. reflexivity.
  - rewrite IH. destruct o as [e|]; simpl.
    + destruct (onPacket_spec e n) as (_ & Ht & _ & Hq).
      unfold taken_packets. rewrite Ht, Hq, <- !app_assoc. reflexivity.
    + destruct (flush_loop_spec (length (net_queue n)) n (le_n _)) as (Hq & _ & Ht).
      unfold preFixedUpdate, flush. rewrite Hq, Ht, <- !app_assoc. reflexivity.
Qed.

(** C5.  A frame that arrives is decoded and appended to the queue; its
    handler is not run, the world and the log of taken packets stay as they
    were.  [preFixedUpdate] flushes the queue: it takes every queued packet
    exactly once, in arrival order, and the world it leaves is the one
    obtained by running the handlers one after the other in that order; a
    handler that throws (or a member that is no function) is caught and
    logged and the packets behind it are handled all the same.  Over any
    sequence of arrivals and flushes the packets taken, followed by those
    still queued, are the packets that arrived, in their order. *)
Theorem C5_inbound_packets (n : Net W Payload) :
  (forall e,
     net_world (onPacket readPacket e n) = net_world n /\
     net_taken (onPacket readPacket e n) = net_taken n /\
     forall p, readPacket e = Some p ->
               net_queue (onPacket readPacket e n) = net_queue n ++ [p]) /\
  (net_queue (preFixedUpdate member n) = [] /\
   taken_packets (preFixedUpdate member n) = taken_packets n ++ net_queue n /\
   net_world (preFixedUpdate member n) =
     fold_left (handled member) (net_queue n) (net_world n)) /\
  (forall ops,
     let n' := run readPacket member ops n in
     taken_packets n' ++ net_queue n' =
       taken_packets n ++ net_queue n ++ arrivals readPacket ops) /\
  (forall ops,
     net_queue (run readPacket member (ops ++ [PreFixedUpdate]) n) = [] /\
     taken_packets (run readPacket member (ops ++ [PreFixedUpdate]) n) =
       taken_packets n ++ net_queue n ++ arrivals readPacket ops).
Proof.
  split; [|split; [|split]].
  - intros e. destruct (onPacket_spec e n) as (Hw & Ht & _ & Hq).
    split; [exact Hw|]. split; [exact Ht|]. intros p Hp. rewrite Hq, Hp. reflexivity.
  - destruct (flush_loop_spec (length (net_queue n)) n (le_n _)) as (Hq & Hw & Ht).
    unfold preFixedUpdate, flush. auto.
  - intros ops. apply run_spec.
  - intros ops. unfold run. rewrite fold_left_app. simpl.
    fold (run readPacket member ops n).
    set (n1 := run readPacket member ops n).
    destruct (flush_loop_spec (length (net_queue n1)) n1 (le_n _)) as (Hq & _ & Ht).
    unfold preFixedUpdate, flush. rewrite Hq, Ht. split; [reflexivity|].
    apply run_spec.
Qed.

End Handlers.

(** The theorem on the chat system: three frames arrive, the second for an
    entity that is not in the store (its handler throws), then the frame
    starts; the two chat lines are both added, in order. *)
Lemma C5_inbound_packets_witness :
  readPair ("onChatAdded", "hi") = Some (Some "onChatAdded", "hi") /\
  net_queue (onPacket readPair ("onChatAdded", "hi") idle) = [(Some "onChatAdded", "hi")] /\
  net_world (onPacket readPair ("onChatAdded", "hi") idle) = [] /\
  let n' := run readPair chatHandlers
              [Arrives ("onChatAdded", "hi"); Arrives ("onEntityModified", "{}");
               Arrives ("onChatAdded", "bye"); PreFixedUpdate] idle in
  net_queue n' = [] /\
  taken_packets n' =
    [(Some "onChatAdded", "hi"); (Some "onEntityModified", "{}"); (Some "onChatAdded", "bye")] /\
  net_world n' = ["hi"; "bye"] /\
  net_errors n' = ["TypeError: Cannot read properties of undefined (reading 'modify')"].
Proof.
  assert (Hread : readPair ("onChatAdded", "hi") = Some (Some "onChatAdded", "hi"))
    by reflexivity.
  destruct (C5_inbound_packets readPair chatHandlers idle) as (Harrive & _ & _ & Hrun).
  destruct (Harrive ("onChatAdded", "hi")) as (Hw & _ & Hq).
  split; [exact Hread|]. split; [exact (Hq _ Hread)|]. split; [exact Hw|].
  destruct (Hrun [Arrives ("onChatAdded", "hi"); Arrives ("onEntityModified", "{}");
                  Arrives ("onChatAdded", "bye")]) as (Hempty & Htaken).
  split; [exact Hempty|]. split; [exact Htaken|]. split; reflexivity.
Defined.

End PacketQueue.

(** ** Steep slopes: the player slips *)

Module Slipping.
Import PlayerLocal.
Local Open Scope Q_scope.

Section Math.
Variable angleTo : Vec3 -> Vec3 -> Q.
Variable RAD2DEG : Q.
Variable sqrt : Q -> Q.
Variable alignToSlope : Vec3 -> Vec3 -> Vec3.

Abbreviation step := (fixedUpdate angleTo RAD2DEG sqrt alignToSlope).
Abbreviation beforeVelocity := (PlayerLocal.beforeVelocity angleTo RAD2DEG).

Lemma Qgtb_lt a b : Qgtb a b = true <-> b < a.
Proof.
  unfold Qgtb. rewrite negb_true_iff. split; intros H.
  - apply Qnot_le_lt. intros Hle. apply Qle_bool_iff in Hle. congruence.
  - destruct (Qle_bool a b) eqn:Hb; [|reflexivity].
    apply Qle_bool_iff in Hb. exfalso. exact (Qlt_not_le _ _ H Hb).
Qed.

(** Two states with the same ground state agree on each of its fields. *)
Lemma groundState_fields p p' :
  groundState p = groundState p' ->
  pl_grounded p = pl_grounded p' /\ pl_slipping p = pl_slipping p' /\
  pl_groundNormal p = pl_groundNormal p' /\ pl_groundAngle p = pl_groundAngle p' /\
  pl_justLeftGround p = pl_justLeftGround p'.
Proof.
  unfold groundState.
  generalize (pl_grounded p) (pl_slipping p) (pl_groundNormal p) (pl_groundAngle p)
    (pl_justLeftGround p) (pl_grounded p') (pl_slipping p') (pl_groundNormal p')
    (pl_groundAngle p') (pl_justLeftGround p').
  intros g s n a j g' s' n' a' j' H. injection H as -> -> -> -> ->. repeat split.
Qed.

Lemma groundState_value p g s n a j :
  groundState p = (g, s, n, a, j) ->
  pl_grounded p = g /\ pl_slipping p = s /\
  pl_groundNormal p = n /\ pl_groundAngle p = a /\ pl_justLeftGround p = j.
Proof.
  unfold groundState.
  generalize (pl_grounded p) (pl_slipping p) (pl_groundNormal p) (pl_groundAngle p)
    (pl_justLeftGround p).
  intros g0 s0 n0 a0 j0 H. injection H as -> -> -> -> ->. repeat split.
Qed.

(** Nothing after [checkSlope] writes the fields of the ground check. *)
Ltac by_cases :=
  repeat match goal with
         | |- context [if ?b then _ else _] => destruct b eqn:?
         | |- context [match ?x with _ => _ end] => destruct x eqn:?
         end; simpl in *; congruence.

Lemma groundState_swapMaterial p : groundState (swapMaterial p) = groundState p.
Proof. unfold swapMaterial, groundState. by_cases. Qed.

Lemma groundState_jumpAndFall delta p : groundState (jumpAndFall delta p) = groundState p.
Proof.
  assert (H1 : forall p0, groundState (progressJump p0) = groundState p0)
    by (intros p0; unfold progressJump, groundState; by_cases).
  assert (H2 : forall p0, groundState (timeFall delta p0) = groundState p0)
    by (intros p0; unfold timeFall, groundState; by_cases).
  assert (H3 : forall p0, groundState (startFalling p0) = groundState p0)
    by (intros p0; unfold startFalling, groundState; by_cases).
  assert (H4 : forall p0, groundState (clearFalling p0) = groundState p0)
    by (intros p0; unfold clearFalling, groundState; by_cases).
  assert (H5 : forall p0, groundState (clearJumping p0) = groundState p0)
    by (intros p0; unfold clearJumping, groundState; by_cases).
  unfold jumpAndFall. rewrite H5, H4, H3, H2, H1. reflexivity.
Qed.

Lemma groundState_applyGravity p : groundState (applyGravity p) = groundState p.
Proof. unfold applyGravity, groundState. by_cases. Qed.

Lemma groundState_updateVelocity delta p : groundState (updateVelocity delta p) = groundState p.
Proof. reflexivity. Qed.

Lemma groundState_applyMove p : groundState (applyMove alignToSlope p) = groundState p.
Proof. unfold applyMove, groundState. by_cases. Qed.

Lemma groundState_applyJump q p : groundState (applyJump sqrt q p) = groundState p.
Proof. unfold applyJump, groundState. by_cases. Qed.

Lemma groundState_beforeVelocity delta q p :
  groundState (beforeVelocity delta q p) =
  groundState (checkSlope (updateGrounded angleTo RAD2DEG q (trackPlatform q p))).
Proof.
  unfold PlayerLocal.beforeVelocity.
  rewrite groundState_applyGravity, (groundState_jumpAndFall delta), groundState_swapMaterial.
  reflexivity.
Qed.

Lemma step_beforeVelocity delta q p :
  step delta q p =
    applyJump sqrt q (applyMove alignToSlope (updateVelocity delta (beforeVelocity delta q p))).
Proof. unfold fixedUpdate, PlayerLocal.beforeVelocity. reflexivity. Qed.

Lemma groundState_after_checkSlope delta q p :
  groundState (step delta q p) =
  groundState (checkSlope (updateGrounded angleTo RAD2DEG q (trackPlatform q p))).
Proof.
  rewrite step_beforeVelocity, groundState_applyJump, groundState_applyMove,
    groundState_updateVelocity.
  apply groundState_beforeVelocity.
Qed.

(** Nothing before the velocity update writes the capsule's velocity. *)
Lemma velocity_beforeVelocity delta q p :
  pl_velocity (beforeVelocity delta q p) = pl_velocity p.
Proof.
  unfold PlayerLocal.beforeVelocity.
  assert (Hg : forall p0, pl_velocity (applyGravity p0) = pl_velocity p0)
    by (intros p0; unfold applyGravity; by_cases).
  assert (Hm : forall p0, pl_velocity (swapMaterial p0) = pl_velocity p0)
    by (intros p0; unfold swapMaterial; by_cases).
  assert (Hc : forall p0, pl_velocity (checkSlope p0) = pl_velocity p0)
    by (intros p0; unfold checkSlope; by_cases).
  assert (Hu : forall p0, pl_velocity (updateGrounded angleTo RAD2DEG q p0) = pl_velocity p0)
    by (intros p0; unfold updateGrounded; by_cases).
  assert (Ht : forall p0, pl_velocity (trackPlatform q p0) = pl_velocity p0)
    by (intros p0; unfold trackPlatform; by_cases).
  assert (Hj : forall p0, pl_velocity (jumpAndFall delta p0) = pl_velocity p0).
  { intros p0.
    assert (H1 : forall p1, pl_velocity (progressJump p1) = pl_velocity p1)
      by (intros p1; unfold progressJump; by_cases).
    assert (H2 : forall p1, pl_velocity (timeFall delta p1) = pl_velocity p1)
      by (intros p1; unfold timeFall; by_cases).
    assert (H3 : forall p1, pl_velocity (startFalling p1) = pl_velocity p1)
      by (intros p1; unfold startFalling; by_cases).
    assert (H4 : forall p1, pl_velocity (clearFalling p1) = pl_velocity p1)
      by (intros p1; unfold clearFalling; by_cases).
    assert (H5 : forall p1, pl_velocity (clearJumping p1) = pl_velocity p1)
      by (intros p1; unfold clearJumping; by_cases).
    unfold jumpAndFall. rewrite H5, H4, H3, H2, H1. reflexivity. }
  rewrite Hg, Hj, Hm, Hc, Hu, Ht. reflexivity.
Qed.

(** The state of the ground check on a steep hit. *)
Lemma checkSlope_steep q p normal :
  q_sweepNormal q = Some normal ->
  60 < angleTo V3.UP normal * RAD2DEG ->
  groundState (checkSlope (updateGrounded angleTo RAD2DEG q (trackPlatform q p))) =
    (false, true, V3.UP, 0, false).
Proof.
  intros Hhit Hsteep. unfold updateGrounded. rewrite Hhit.
  unfold checkSlope. simpl. apply Qgtb_lt in Hsteep. rewrite Hsteep. reflexivity.
Qed.

(** [slipping] is set exactly on a steep hit. *)
Lemma slipping_iff delta q p :
  pl_slipping (step delta q p) = true <->
  exists normal, q_sweepNormal q = Some normal /\ 60 < angleTo V3.UP normal * RAD2DEG.
Proof.
  pose proof (groundState_after_checkSlope delta q p) as Hg.
  apply groundState_fields in Hg. destruct Hg as (_ & Hslip & _). rewrite Hslip. clear Hslip.
  unfold updateGrounded. destruct (q_sweepNormal q) as [normal|] eqn:Hhit.
  - unfold checkSlope. simpl.
    destruct (Qgtb (angleTo V3.UP normal * RAD2DEG) 60) eqn:Hb; simpl.
    + split; [|reflexivity]. intros _. exists normal. split; [reflexivity|].
      apply Qgtb_lt. exact Hb.
    + split; [discriminate|]. intros (n' & Hn' & Hlt). inversion Hn'; subst.
      apply Qgtb_lt in Hlt. congruence.
  - unfold checkSlope. simpl. split; [discriminate|]. intros (n' & Hn' & _). discriminate.
Qed.

(** The velocity the step leaves when the player slips: the shaped
    velocity with 0.5 taken from its vertical component. *)
Lemma velocity_when_slipping delta q p :
  pl_slipping (step delta q p) = true ->
  pl_velocity (step delta q p) =
    V3.setY (shaped delta (beforeVelocity delta q p))
            (vy (shaped delta (beforeVelocity delta q p)) - (1 # 2)).
Proof.
  intros Hslip.
  pose proof (groundState_after_checkSlope delta q p) as Hg'.
  rewrite <- (groundState_beforeVelocity delta) in Hg'.
  apply groundState_fields in Hg'. destruct Hg' as (Hgr & Hsl & _). rewrite Hslip in Hsl.
  assert (Hground : pl_grounded (beforeVelocity delta q p) = false).
  { apply slipping_iff in Hslip. destruct Hslip as (normal & Hhit & Hsteep).
    pose proof (checkSlope_steep q p normal Hhit Hsteep) as Hc.
    rewrite <- (groundState_beforeVelocity delta) in Hc.
    apply groundState_value in Hc. exact (proj1 Hc). }
  rewrite step_beforeVelocity.
  set (p6 := beforeVelocity delta q p) in *. clearbody p6.
  assert (Hmove : forall p0, pl_velocity (applyMove alignToSlope p0) = pl_velocity p0)
    by (intros p0; unfold applyMove; destruct (pl_moving p0); reflexivity).
  assert (Hair : pl_grounded (applyMove alignToSlope (updateVelocity delta p6)) = false).
  { pose proof (groundState_applyMove (updateVelocity delta p6)) as H.
    apply groundState_fields in H. rewrite (proj1 H). exact Hground. }
  unfold applyJump. rewrite Hair. cbn [andb]. rewrite Hmove.
  unfold updateVelocity. rewrite <- Hsl. reflexivity.
Qed.

(** C6.  When the ground sweep hits a surface whose angle to the vertical
    is above 60 degrees, the step ends with grounded = false,
    slipping = true, groundNormal straight up and groundAngle 0, and the
    capsule's vertical velocity is the one it had minus 0.5 (so it went
    down).  [slipping] is true after a step exactly in that case, and then
    the velocity the step sets is the shaped velocity with 0.5 subtracted
    from its vertical component. *)
Theorem C6_steep_slope (delta : Q) (q : Queries) (p : Player) :
  (forall normal,
     q_sweepNormal q = Some normal ->
     60 < angleTo V3.UP normal * RAD2DEG ->
     let p' := step delta q p in
     pl_grounded p' = false /\
     pl_slipping p' = true /\
     pl_groundNormal p' = V3.UP /\
     pl_groundAngle p' = 0 /\
     vy (pl_velocity p') == vy (pl_velocity p) - (1 # 2) /\
     vy (pl_velocity p') < vy (pl_velocity p)) /\
  (pl_slipping (step delta q p) = true ->
     (exists normal, q_sweepNormal q = Some normal /\ 60 < angleTo V3.UP normal * RAD2DEG) /\
     pl_velocity (step delta q p) =
       V3.setY (shaped delta (beforeVelocity delta q p))
               (vy (shaped delta (beforeVelocity delta q p)) - (1 # 2))).
Proof.
  split.
  - intros normal Hhit Hsteep p'.
    pose proof (groundState_after_checkSlope delta q p) as Hg.
    rewrite (checkSlope_steep q p normal Hhit Hsteep) in Hg.
    apply groundState_value in Hg. destruct Hg as (Hgr & Hsl & Hn & Ha & Hj). subst p'.
    assert (Hvel : vy (pl_velocity (step delta q p)) == vy (pl_velocity p) - (1 # 2)).
    { rewrite (velocity_when_slipping delta q p Hsl).
      pose proof (groundState_beforeVelocity delta q p) as Hb.
      rewrite (checkSlope_steep q p normal Hhit Hsteep) in Hb.
      apply groundState_value in Hb. destruct Hb as (Hgr' & Hsl' & Hn' & Ha' & Hj').
      unfold shaped. rewrite Hgr', Hn', Hj', velocity_beforeVelocity.
      destruct (pl_velocity p) as [x y z]. unfold V3.dot, V3.UP. simpl. ring. }
    repeat split; try assumption.
    rewrite Hvel. apply Qlt_minus_iff. ring_simplify. reflexivity.
  - intros Hslip. split; [apply slipping_iff in Hslip; exact Hslip|].
    apply velocity_when_slipping. exact Hslip.
Qed.

End Math.

(** The theorem on the [walking] player reaching a slope of 65 degrees. *)
Lemma C6_steep_slope_witness :
  q_sweepNormal steep = Some (mkVec3 (9 # 10) (4 # 10) 0) /\
  60 < angleTo65 V3.UP (mkVec3 (9 # 10) (4 # 10) 0) * 57 /\
  let p' := fixedUpdate angleTo65 57 sqrtStub noSlope (1 # 50) steep walking in
  pl_grounded p' = false /\ pl_slipping p' = true /\
  pl_groundNormal p' = V3.UP /\ pl_groundAngle p' = 0 /\
  vy (pl_velocity p') == (1 # 2).
Proof.
  assert (Hhit : q_sweepNormal steep = Some (mkVec3 (9 # 10) (4 # 10) 0)) by reflexivity.
  assert (Hsteep : 60 < angleTo65 V3.UP (mkVec3 (9 # 10) (4 # 10) 0) * 57) by reflexivity.
  split; [exact Hhit|]. split; [exact Hsteep|].
  destruct (proj1 (C6_steep_slope angleTo65 57 sqrtStub noSlope (1 # 50) steep walking)
              _ Hhit Hsteep) as (H1 & H2 & H3 & H4 & H5 & _).
  split; [exact H1|]. split; [exact H2|]. split; [exact H3|]. split; [exact H4|].
  rewrite H5. reflexivity.
Defined.

End Slipping.


(** ** Dropping a file above the upload cap *)

Module FileDrop.
Import ClientEditor.

(** Dropping fewer elements than the list has keeps its last one. *)
Lemma last_skipn {A} (l : list A) (k : nat) :
  (k < length l)%nat -> last (skipn k l) = last l.
Proof.
  revert k. induction l as [|x l IH]; intros k Hk; [simpl in Hk; lia|].
  destruct k as [|k]; [reflexivity|].
  simpl in Hk. simpl skipn. rewrite IH by lia.
  destruct l as [|y l]; [simpl in Hk; lia|reflexivity].
Qed.

Lemma last_chat_add msg c : last (cl_chat (chat_add msg c)) = Some msg.
Proof.
  unfold chat_add. simpl. rewrite last_skipn.
  - apply last_snoc.
  - rewrite length_app. simpl. lia.
Qed.

Section Config.
Variable MAX_UPLOAD_SIZE : Z.
Variable hasRole : list string -> list string -> bool.

Abbreviation onDrop := (ClientEditor.onDrop MAX_UPLOAD_SIZE hasRole).
Abbreviation tooLarge := (ClientEditor.tooLarge MAX_UPLOAD_SIZE).

(** Without the admin or builder role the handler only clears
    [dropping]. *)
Lemma onDrop_without_role e id now c :
  hasRole (cl_roles c) ["admin"; "builder"] = false ->
  onDrop e id now c = set_cl_dropping false c.
Proof. intros H. unfold ClientEditor.onDrop. simpl. rewrite H. reflexivity. Qed.

(** A file above the cap, dropped by an admin or builder: the notice is
    added to the chat, the error is printed, and that is all. *)
Lemma onDrop_too_large e id now c file :
  hasRole (cl_roles c) ["admin"; "builder"] = true ->
  droppedFile e = Some file ->
  (MAX_UPLOAD_SIZE * 1024 * 1024 < file_size file)%Z ->
  onDrop e id now c =
    set_cl_errors
      (cl_errors c ++
       [String.append "File too large. Maximum size is "
          (String.append (show MAX_UPLOAD_SIZE) "MB")])
      (chat_add (tooLarge id now) (set_cl_dropping false c)).
Proof.
  intros Hrole Hfile Hsize. unfold ClientEditor.onDrop. simpl. rewrite Hrole, Hfile. simpl.
  apply Z.ltb_lt in Hsize. rewrite Hsize. reflexivity.
Qed.

(** A model within the cap, dropped by an admin or builder, starts
    [addModel]. *)
Lemma onDrop_model e id now c file :
  hasRole (cl_roles c) ["admin"; "builder"] = true ->
  droppedFile e = Some file ->
  (file_size file <= MAX_UPLOAD_SIZE * 1024 * 1024)%Z ->
  extension (file_name file) = "glb" ->
  cl_tasks (onDrop e id now c) = cl_tasks c ++ [AddModel file].
Proof.
  intros Hrole Hfile Hsize Hext. unfold ClientEditor.onDrop. simpl. rewrite Hrole, Hfile. simpl.
  apply Z.ltb_ge in Hsize. rewrite Hsize, Hext. reflexivity.
Qed.

(** C8.  When the file picked from a drop is larger than
    MAX_UPLOAD_SIZE megabytes, the drop handler leaves the blueprint
    registry, the entity store, the socket and the packets sent as they
    were and starts neither [addModel] nor [addAvatar]; and when the local
    player is an admin or a builder, the chat ends with the notice
    "File size too large (>MAX_UPLOAD_SIZE mb)", a message with no sender. *)
Theorem C8_oversized_drop (c : Client) (e : DataTransfer) (id now : string) (file : File) :
  droppedFile e = Some file ->
  (MAX_UPLOAD_SIZE * 1024 * 1024 < file_size file)%Z ->
  let c' := onDrop e id now c in
  cl_blueprints c' = cl_blueprints c /\
  cl_entities c' = cl_entities c /\
  cl_tasks c' = cl_tasks c /\
  cl_socketOpen c' = cl_socketOpen c /\
  cl_sent c' = cl_sent c /\
  (hasRole (cl_roles c) ["admin"; "builder"] = true ->
   last (cl_chat c') = Some (tooLarge id now) /\
   msg_from (tooLarge id now) = None /\
   msg_fromId (tooLarge id now) = None /\
   msg_body (tooLarge id now) =
     String.append "File size too large (>" (String.append (show MAX_UPLOAD_SIZE) "mb)")).
Proof.
  intros Hfile Hsize c'. subst c'.
  destruct (hasRole (cl_roles c) ["admin"; "builder"]) eqn:Hrole.
  - rewrite (onDrop_too_large e id now c file Hrole Hfile Hsize).
    repeat split. simpl cl_chat. apply last_chat_add.
  - rewrite (onDrop_without_role e id now c Hrole).
    repeat split. discriminate.
Qed.

End Config.

(** The theorem on a builder dropping 200 MB against a cap of 100 MB. *)
Lemma C8_oversized_drop_witness :
  let c' := ClientEditor.onDrop 100 anyRole bigDrop "u1" "2025-01-01T00:00:00.000Z" builder in
  cl_blueprints c' = ∅ /\
  cl_entities c' = {[ "me" ]} /\
  cl_tasks c' = [] /\
  cl_socketOpen c' = true /\
  cl_sent c' = [] /\
  last (cl_chat c') =
    Some (mkChatMessage "u1" None None "File size too large (>100mb)"
            "2025-01-01T00:00:00.000Z").
Proof.
  assert (Hfile : droppedFile bigDrop = Some bigFile) by reflexivity.
  assert (Hsize : (100 * 1024 * 1024 < file_size bigFile)%Z) by (simpl; lia).
  assert (Hrole : anyRole (cl_roles builder) ["admin"; "builder"] = true) by reflexivity.
  destruct (C8_oversized_drop 100 anyRole builder bigDrop "u1" "2025-01-01T00:00:00.000Z"
              bigFile Hfile Hsize) as (H1 & H2 & H3 & H4 & H5 & H6).
  destruct (H6 Hrole) as (H7 & _).
  intros c'. subst c'.
  split; [exact H1|]. split; [exact H2|]. split; [exact H3|]. split; [exact H4|].
  split; [exact H5|]. exact H7.
Defined.

(** The same builder dropping 2 MB: [addModel] is started, and once the
    file is hashed the blueprint is registered and the app is added. *)
Lemma small_drop_is_uploaded :
  let c' := ClientEditor.onDrop 100 anyRole smallDrop "u1" "2025-01-01T00:00:00.000Z" builder in
  cl_tasks c' = [AddModel (mkFile "castle.GLB" (2 * 1024 * 1024))] /\
  cl_chat c' = [] /\
  cl_sent (addModel_hashed "h" "b1" "a1" c') = ["blueprintAdded"; "entityAdded"] /\
  cl_blueprints (addModel_hashed "h" "b1" "a1" c') !! "b1" =
    Some (mkBlueprint "b1" 0 (Some "asset://h.glb") None).
Proof.
  vm_compute. repeat split.
Qed.

End FileDrop.

(** ** The physics step: what each part of it writes *)

Module GroundStep.
Import PlayerLocal GroundSpec.
Local Open Scope Q_scope.

Ltac split_ifs :=
  repeat match goal with
         | |- context [if ?b then _ else _] => destruct b eqn:?
         | |- context [match ?x with _ => _ end] => destruct x eqn:?
         end.

Section Math.
Variable angleTo : Vec3 -> Vec3 -> Q.
Variable RAD2DEG : Q.
Variable sqrt : Q -> Q.
Variable alignToSlope : Vec3 -> Vec3 -> Vec3.

Abbreviation step := (fixedUpdate angleTo RAD2DEG sqrt alignToSlope).
Abbreviation checked := (afterGroundCheck angleTo RAD2DEG).

Lemma jumpAndFall_frame {A} (f : Player -> A) delta p :
  ignores_flight f -> f (jumpAndFall delta p) = f p.
Proof.
  intros (H1 & H2 & H3 & H4).
  unfold jumpAndFall, clearJumping, clearFalling, startFalling, timeFall, progressJump.
  split_ifs; repeat first [rewrite H1 | rewrite H2 | rewrite H3 | rewrite H4]; reflexivity.
Qed.

Lemma capsule_frame {A} (f : Player -> A) delta q p :
  ignores_capsule f ->
  f (applyJump sqrt q (applyMove alignToSlope (updateVelocity delta (applyGravity p)))) = f p.
Proof.
  intros (H1 & H2 & H3 & H4).
  unfold applyJump, applyMove, updateVelocity, applyGravity.
  split_ifs; repeat first [rewrite H1 | rewrite H2 | rewrite H3 | rewrite H4]; reflexivity.
Qed.

Lemma step_unfold delta q p :
  step delta q p =
  applyJump sqrt q (applyMove alignToSlope (updateVelocity delta
    (applyGravity (jumpAndFall delta (checked q p))))).
Proof. reflexivity. Qed.

Ltac frame_ok := repeat split; intros ? ?; reflexivity.

(** The swap of the combine mode writes [materialMax] only. *)
Lemma swapMaterial_frame {A} (f : Player -> A) p :
  untouched_by f set_pl_materialMax -> f (swapMaterial p) = f p.
Proof. intros H. unfold swapMaterial. split_ifs; rewrite ?H; reflexivity. Qed.

Lemma checked_frame {A} (f : Player -> A) q p :
  ignores_ground f -> f (checked q p) = f p.
Proof.
  intros (H1 & H2 & H3 & H4 & H5 & H6 & H7).
  unfold afterGroundCheck, swapMaterial, checkSlope, updateGrounded, trackPlatform.
  split_ifs;
    repeat first [rewrite H1 | rewrite H2 | rewrite H3 | rewrite H4 | rewrite H5
                 | rewrite H6 | rewrite H7];
    reflexivity.
Qed.

(** The ground check when the sweep hits a surface of at most 60
    degrees. *)
Lemma checked_walkable q p normal :
  q_sweepNormal q = Some normal ->
  ~ 60 < angleTo V3.UP normal * RAD2DEG ->
  pl_grounded (checked q p) = true /\
  pl_slipping (checked q p) = false /\
  pl_groundNormal (checked q p) = normal /\
  pl_justLeftGround (checked q p) = false /\
  pl_platform (checked q p) = (if pl_grounded p then q_raycastActor q else None).
Proof.
  intros Hhit Hangle.
  assert (Hb : Qgtb (angleTo V3.UP normal * RAD2DEG) 60 = false).
  { destruct (Qgtb _ 60) eqn:Hb; [|reflexivity]. apply Slipping.Qgtb_lt in Hb. contradiction. }
  unfold afterGroundCheck.
  rewrite (swapMaterial_frame pl_grounded), (swapMaterial_frame pl_slipping),
    (swapMaterial_frame pl_groundNormal), (swapMaterial_frame pl_justLeftGround),
    (swapMaterial_frame pl_platform) by (intros ? ?; reflexivity).
  unfold updateGrounded. rewrite Hhit. unfold checkSlope. simpl. rewrite Hb. simpl.
  unfold trackPlatform. destruct (pl_grounded p) eqn:Hg; simpl; rewrite ?Hg; repeat split.
Qed.

(** The ground check when the sweep hits nothing. *)
Lemma checked_miss q p :
  q_sweepNormal q = None ->
  pl_grounded (checked q p) = false /\
  pl_slipping (checked q p) = false /\
  pl_groundNormal (checked q p) = V3.UP /\
  pl_justLeftGround (checked q p) = pl_grounded p /\
  pl_platform (checked q p) = (if pl_grounded p then q_raycastActor q else None).
Proof.
  intros Hhit. unfold afterGroundCheck.
  rewrite (swapMaterial_frame pl_grounded), (swapMaterial_frame pl_slipping),
    (swapMaterial_frame pl_groundNormal), (swapMaterial_frame pl_justLeftGround),
    (swapMaterial_frame pl_platform) by (intros ? ?; reflexivity).
  unfold updateGrounded. rewrite Hhit. unfold checkSlope. simpl.
  unfold trackPlatform. destruct (pl_grounded p) eqn:Hg; simpl; rewrite ?Hg; repeat split.
Qed.

Lemma checked_material q p :
  pl_materialMax (checked q p) = Some (pl_grounded (checked q p)).
Proof.
  unfold afterGroundCheck.
  generalize (checkSlope (updateGrounded angleTo RAD2DEG q (trackPlatform q p))).
  intros p3. unfold swapMaterial. split_ifs; simpl; congruence.
Qed.

Lemma checked_not_both q p :
  pl_grounded (checked q p) = true -> pl_slipping (checked q p) = false.
Proof.
  unfold afterGroundCheck.
  rewrite (swapMaterial_frame pl_grounded), (swapMaterial_frame pl_slipping)
    by (intros ? ?; reflexivity).
  generalize (updateGrounded angleTo RAD2DEG q (trackPlatform q p)). intros p2.
  unfold checkSlope. split_ifs; simpl; congruence.
Qed.

(** On the ground the flags of jumping and falling are cleared. *)
Lemma jumpAndFall_grounded delta p :
  pl_grounded p = true ->
  pl_falling (jumpAndFall delta p) = false /\
  pl_jumping (jumpAndFall delta p) = false /\
  pl_fallTimer (jumpAndFall delta p) = 0 /\
  pl_jumped (jumpAndFall delta p) = pl_jumped p.
Proof.
  intros H.
  assert (H1 : progressJump p = p)
    by (unfold progressJump; rewrite H, andb_false_r; reflexivity).
  assert (H2 : timeFall delta p = set_pl_fallTimer 0 p)
    by (unfold timeFall; rewrite H; reflexivity).
  assert (H3 : startFalling (set_pl_fallTimer 0 p) = set_pl_fallTimer 0 p) by reflexivity.
  unfold jumpAndFall. rewrite H1, H2, H3.
  unfold clearJumping, clearFalling. simpl. rewrite H, andb_true_r.
  destruct (pl_falling p) eqn:Hf; simpl; rewrite H, andb_true_r;
    destruct (pl_jumping p) eqn:Hj; simpl; rewrite ?Hf, ?Hj; repeat split.
Qed.

(** [jumped] survives the flags only on the ground. *)
Lemma jumpAndFall_jumped delta p :
  pl_jumped (jumpAndFall delta p) = true -> pl_grounded p = true.
Proof.
  unfold jumpAndFall, clearJumping, clearFalling, startFalling, timeFall, progressJump.
  destruct (pl_grounded p) eqn:Hg; [reflexivity|]. rewrite andb_true_r.
  destruct (pl_jumped p) eqn:Hj; split_ifs; simpl; congruence.
Qed.

(** The forces and the velocity are written without a change to the
    flags. *)
Lemma forces_frame {A} (f : Player -> A) delta p :
  untouched_by f set_pl_forces -> untouched_by f set_pl_platformForces ->
  untouched_by f set_pl_velocity ->
  f (applyMove alignToSlope (updateVelocity delta (applyGravity p))) = f p.
Proof.
  intros H1 H2 H3. unfold applyMove, updateVelocity, applyGravity.
  split_ifs; repeat first [rewrite H1 | rewrite H2 | rewrite H3]; reflexivity.
Qed.

(** X1.  After every physics step the combine mode of the capsule's
    material is the one of the ground state: [materialMax] is [grounded]. *)
Theorem material_follows_grounded delta q p :
  pl_materialMax (step delta q p) = Some (pl_grounded (step delta q p)).
Proof.
  rewrite step_unfold.
  rewrite (capsule_frame pl_materialMax) by frame_ok.
  rewrite (capsule_frame pl_grounded) by frame_ok.
  rewrite (jumpAndFall_frame pl_materialMax) by frame_ok.
  rewrite (jumpAndFall_frame pl_grounded) by frame_ok.
  apply checked_material.
Qed.

(** X2.  A step that ends on the ground ends with [falling] and
    [jumping] false, the fall timer at 0 and [slipping] false; and a step
    that ends with [jumped] set ends on the ground. *)
Theorem grounded_clears_flight delta q p :
  (pl_grounded (step delta q p) = true ->
   pl_falling (step delta q p) = false /\
   pl_jumping (step delta q p) = false /\
   pl_fallTimer (step delta q p) = 0 /\
   pl_slipping (step delta q p) = false) /\
  (pl_jumped (step delta q p) = true -> pl_grounded (step delta q p) = true).
Proof.
  rewrite step_unfold.
  rewrite (capsule_frame pl_grounded) by frame_ok.
  rewrite (capsule_frame pl_falling) by frame_ok.
  rewrite (capsule_frame pl_jumping) by frame_ok.
  rewrite (capsule_frame pl_fallTimer) by frame_ok.
  rewrite (capsule_frame pl_slipping) by frame_ok.
  rewrite (jumpAndFall_frame pl_grounded) by frame_ok.
  rewrite (jumpAndFall_frame pl_slipping) by frame_ok.
  split.
  - intros Hg. destruct (jumpAndFall_grounded delta _ Hg) as (H1 & H2 & H3 & _).
    split; [exact H1|]. split; [exact H2|]. split; [exact H3|].
    apply checked_not_both. exact Hg.
  - set (p5 := jumpAndFall delta (checked q p)).
    assert (Hg5 : pl_grounded p5 = pl_grounded (checked q p))
      by (apply (jumpAndFall_frame pl_grounded); frame_ok).
    assert (Hj5 : pl_jumped p5 = true -> pl_grounded (checked q p) = true)
      by (apply jumpAndFall_jumped).
    clearbody p5.
    set (p8 := applyMove alignToSlope (updateVelocity delta (applyGravity p5))).
    assert (Hg8 : pl_grounded p8 = pl_grounded p5)
      by (apply (forces_frame pl_grounded); intros ? ?; reflexivity).
    assert (Hj8 : pl_jumped p8 = pl_jumped p5)
      by (apply (forces_frame pl_jumped); intros ? ?; reflexivity).
    clearbody p8. unfold applyJump.
    destruct (pl_grounded p8 && negb (pl_jumping p8) && q_Space q) eqn:Hc.
    + intros _. apply andb_prop in Hc. destruct Hc as (Hc & _).
      apply andb_prop in Hc. destruct Hc as (Hc & _). congruence.
    + rewrite Hj8. exact Hj5.
Qed.

Lemma applyGravity_frame {A} (f : Player -> A) p :
  untouched_by f set_pl_forces -> untouched_by f set_pl_platformForces ->
  f (applyGravity p) = f p.
Proof.
  intros H1 H2. unfold applyGravity. split_ifs; rewrite ?H1, ?H2; reflexivity.
Qed.

(** The state the velocity update starts from keeps what the ground check
    and the flags do not write. *)
Lemma before_frame {A} (f : Player -> A) delta q p :
  ignores_ground f -> ignores_flight f ->
  untouched_by f set_pl_forces -> untouched_by f set_pl_platformForces ->
  f (applyGravity (jumpAndFall delta (checked q p))) = f p.
Proof.
  intros Hg Hf H1 H2.
  rewrite (applyGravity_frame f) by assumption.
  rewrite (jumpAndFall_frame f) by assumption.
  apply checked_frame. assumption.
Qed.

Lemma checked_platform q p :
  pl_platform (checked q p) = (if pl_grounded p then q_raycastActor q else None).
Proof.
  unfold afterGroundCheck.
  rewrite (swapMaterial_frame pl_platform) by (intros ? ?; reflexivity).
  unfold checkSlope, updateGrounded, trackPlatform. split_ifs; reflexivity.
Qed.

Lemma jumpAndFall_not_jumping delta p :
  pl_jumped p = false -> pl_jumping p = false -> pl_jumping (jumpAndFall delta p) = false.
Proof.
  intros Hjd Hjg.
  unfold jumpAndFall, clearJumping, clearFalling, startFalling, timeFall, progressJump.
  rewrite Hjd. simpl. split_ifs; simpl in *; congruence.
Qed.

(** The velocity a step leaves, from the state the velocity update starts
    from. *)
Lemma step_velocity delta q p :
  pl_velocity (step delta q p) =
    let p6 := applyGravity (jumpAndFall delta (checked q p)) in
    let v := if pl_slipping p6
             then V3.setY (shaped delta p6) (vy (shaped delta p6) - (1 # 2))
             else shaped delta p6 in
    if pl_grounded p6 && negb (pl_jumping p6) && q_Space q
    then V3.setY v (jumpVelocity sqrt p) else v.
Proof.
  rewrite step_unfold. cbv zeta.
  assert (Hjv : jumpVelocity sqrt (applyGravity (jumpAndFall delta (checked q p))) =
                jumpVelocity sqrt p) by (apply before_frame; frame_ok).
  set (p6 := applyGravity (jumpAndFall delta (checked q p))) in *. clearbody p6.
  rewrite <- Hjv. clear Hjv.
  unfold applyJump, applyMove, updateVelocity.
  destruct (pl_moving (set_pl_velocity _ p6)); simpl;
    destruct (pl_grounded p6 && negb (pl_jumping p6) && q_Space q); reflexivity.
Qed.

(** X3.  A player that was on the ground, neither about to jump nor
    jumping, and whose ground sweep now hits nothing has walked off an
    edge: the step ends ungrounded with [justLeftGround] set and the
    vertical velocity snapped to -5. *)
Theorem walking_off_an_edge delta q p :
  q_sweepNormal q = None ->
  pl_grounded p = true -> pl_jumped p = false -> pl_jumping p = false ->
  pl_grounded (step delta q p) = false /\
  pl_justLeftGround (step delta q p) = true /\
  pl_jumping (step delta q p) = false /\
  vy (pl_velocity (step delta q p)) = -5.
Proof.
  intros Hmiss Hg Hjd Hjg.
  destruct (checked_miss q p Hmiss) as (C1 & C2 & _ & C4 & _).
  assert (Cjd : pl_jumped (checked q p) = false)
    by (rewrite (checked_frame pl_jumped) by frame_ok; exact Hjd).
  assert (Cjg : pl_jumping (checked q p) = false)
    by (rewrite (checked_frame pl_jumping) by frame_ok; exact Hjg).
  pose proof (jumpAndFall_not_jumping delta _ Cjd Cjg) as Hnj.
  rewrite step_velocity. rewrite step_unfold.
  rewrite (capsule_frame pl_grounded), (capsule_frame pl_justLeftGround),
    (capsule_frame pl_jumping) by frame_ok.
  rewrite (jumpAndFall_frame pl_grounded), (jumpAndFall_frame pl_justLeftGround) by frame_ok.
  rewrite C1, C4, Hg, Hnj.
  split; [reflexivity|]. split; [reflexivity|]. split; [reflexivity|].
  cbv zeta.
  rewrite (applyGravity_frame pl_slipping), (applyGravity_frame pl_grounded)
    by (intros ? ?; reflexivity).
  rewrite (jumpAndFall_frame pl_slipping), (jumpAndFall_frame pl_grounded) by frame_ok.
  rewrite C1, C2. cbn [andb].
  unfold shaped.
  rewrite (applyGravity_frame pl_justLeftGround), (applyGravity_frame pl_jumping)
    by (intros ? ?; reflexivity).
  rewrite (jumpAndFall_frame pl_justLeftGround) by frame_ok.
  rewrite C4, Hg, Hnj. reflexivity.
Qed.

(** X4.  When the ground sweep hits a surface of at most 60 degrees and
    Space is held, the step ends on the ground with [jumped] set and the
    vertical velocity at sqrt(2 * gravity * jumpHeight) / sqrt(mass),
    whatever the flags were before. *)
Theorem jump_from_the_ground delta q p normal :
  q_sweepNormal q = Some normal ->
  ~ 60 < angleTo V3.UP normal * RAD2DEG ->
  q_Space q = true ->
  pl_grounded (step delta q p) = true /\
  pl_jumped (step delta q p) = true /\
  vy (pl_velocity (step delta q p)) = jumpVelocity sqrt p.
Proof.
  intros Hhit Hangle Hspace.
  destruct (checked_walkable q p normal Hhit Hangle) as (C1 & C2 & _).
  destruct (jumpAndFall_grounded delta _ C1) as (_ & J2 & _).
  assert (Hg6 : pl_grounded (applyGravity (jumpAndFall delta (checked q p))) = true).
  { rewrite (applyGravity_frame pl_grounded) by (intros ? ?; reflexivity).
    rewrite (jumpAndFall_frame pl_grounded) by frame_ok. exact C1. }
  assert (Hj6 : pl_jumping (applyGravity (jumpAndFall delta (checked q p))) = false).
  { rewrite (applyGravity_frame pl_jumping) by (intros ? ?; reflexivity). exact J2. }
  split.
  { rewrite step_unfold, (capsule_frame pl_grounded) by frame_ok.
    rewrite (jumpAndFall_frame pl_grounded) by frame_ok. exact C1. }
  split.
  { rewrite step_unfold.
    set (p5 := jumpAndFall delta (checked q p)) in *.
    assert (Hg8 : pl_grounded (applyMove alignToSlope (updateVelocity delta (applyGravity p5)))
                  = true).
    { rewrite (forces_frame pl_grounded) by (intros ? ?; reflexivity).
      rewrite <- Hg6. symmetry. apply applyGravity_frame; intros ? ?; reflexivity. }
    assert (Hj8 : pl_jumping (applyMove alignToSlope (updateVelocity delta (applyGravity p5)))
                  = false).
    { rewrite (forces_frame pl_jumping) by (intros ? ?; reflexivity).
      rewrite <- Hj6. symmetry. apply applyGravity_frame; intros ? ?; reflexivity. }
    unfold applyJump. rewrite Hg8, Hj8, Hspace. reflexivity. }
  rewrite step_velocity. cbv zeta. rewrite Hg6, Hj6, Hspace. reflexivity.
Qed.

(** X5.  On flat ground, that is when the ground sweep hits a
    surface whose normal is straight up, and with Space not held, the step
    leaves the capsule with no vertical velocity, and with the horizontal
    velocity it had scaled by 1 - 10 * delta. *)
Theorem sticks_to_flat_ground delta q p :
  q_sweepNormal q = Some V3.UP ->
  ~ 60 < angleTo V3.UP V3.UP * RAD2DEG ->
  q_Space q = false ->
  vy (pl_velocity (step delta q p)) == 0 /\
  vx (pl_velocity (step delta q p)) == vx (pl_velocity p) * (1 - 10 * delta) /\
  vz (pl_velocity (step delta q p)) == vz (pl_velocity p) * (1 - 10 * delta).
Proof.
  intros Hhit Hangle Hspace.
  destruct (checked_walkable q p V3.UP Hhit Hangle) as (C1 & C2 & C3 & C4 & _).
  destruct (jumpAndFall_grounded delta _ C1) as (_ & J2 & _).
  rewrite step_velocity. cbv zeta. rewrite Hspace, andb_false_r.
  rewrite (applyGravity_frame pl_slipping) by (intros ? ?; reflexivity).
  rewrite (jumpAndFall_frame pl_slipping) by frame_ok. rewrite C2.
  unfold shaped.
  rewrite (applyGravity_frame pl_justLeftGround), (applyGravity_frame pl_jumping),
    (applyGravity_frame pl_grounded), (applyGravity_frame pl_groundNormal),
    (applyGravity_frame pl_velocity) by (intros ? ?; reflexivity).
  rewrite (jumpAndFall_frame pl_justLeftGround), (jumpAndFall_frame pl_grounded),
    (jumpAndFall_frame pl_groundNormal), (jumpAndFall_frame pl_velocity) by frame_ok.
  rewrite C1, C3, C4, J2. cbn [andb negb].
  rewrite (checked_frame pl_velocity) by frame_ok.
  destruct (pl_velocity p) as [x y z].
  unfold V3.dot, V3.UP. simpl.
  repeat split; ring.
Qed.

(** X6.  The forces a step adds to the capsule are gravity, exactly
    when the step ends off the ground, and then the move force when the
    player is moving; the only force added to the platform is the reaction
    force, exactly when the step ends on the ground over a platform that
    is neither static nor kinematic. *)
Theorem forces_of_a_step delta q p :
  pl_forces (step delta q p) =
    pl_forces p ++
    (if pl_grounded (step delta q p) then [] else [gravityForce p]) ++
    (if pl_moving p
     then [alignToSlope (pl_groundNormal (step delta q p)) (moveInput p)] else []) /\
  pl_platformForces (step delta q p) =
    pl_platformForces p ++
    (if pl_grounded (step delta q p) then
       match (if pl_grounded p then q_raycastActor q else None) with
       | Some actor => if isDynamic actor then [(actor, reactionForce)] else []
       | None => []
       end
     else []).
Proof.
  rewrite step_unfold.
  rewrite (capsule_frame pl_grounded), (capsule_frame pl_groundNormal) by frame_ok.
  rewrite <- (checked_platform q p).
  rewrite <- (jumpAndFall_frame pl_platform delta (checked q p)) by frame_ok.
  assert (Hf : pl_forces (jumpAndFall delta (checked q p)) = pl_forces p).
  { rewrite (jumpAndFall_frame pl_forces) by frame_ok. apply checked_frame. frame_ok. }
  assert (Hpf : pl_platformForces (jumpAndFall delta (checked q p)) = pl_platformForces p).
  { rewrite (jumpAndFall_frame pl_platformForces) by frame_ok. apply checked_frame. frame_ok. }
  assert (Hgv : gravityForce (jumpAndFall delta (checked q p)) = gravityForce p).
  { rewrite (jumpAndFall_frame gravityForce) by frame_ok. apply checked_frame. frame_ok. }
  assert (Hmi : moveInput (jumpAndFall delta (checked q p)) = moveInput p).
  { rewrite (jumpAndFall_frame moveInput) by frame_ok. apply checked_frame. frame_ok. }
  assert (Hmv : pl_moving (jumpAndFall delta (checked q p)) = pl_moving p).
  { rewrite (jumpAndFall_frame pl_moving) by frame_ok. apply checked_frame. frame_ok. }
  set (p5 := jumpAndFall delta (checked q p)) in *. clearbody p5.
  rewrite <- Hf, <- Hpf, <- Hgv, <- Hmi, <- Hmv. clear Hf Hpf Hgv Hmi Hmv.
  unfold applyJump, applyMove, updateVelocity, applyGravity, isDynamic, gravityForce,
    moveInput, reactionForce.
  destruct (pl_grounded p5) eqn:Hg; [destruct (pl_platform p5) as [actor|] eqn:Hp;
    [destruct (negb (ac_kinematic actor) && negb (ac_static actor)) eqn:Hd|]|];
    simpl; rewrite ?Hg, ?Hp; simpl;
    destruct (pl_moving p5) eqn:Hm; simpl; rewrite ?Hg, ?Hp; simpl;
    repeat match goal with
           | |- context [if ?b then _ else _] => destruct b
           end; simpl; rewrite ?app_nil_r, <- ?app_assoc; split; reflexivity.
Qed.

End Math.

(** The invariants on a step of the [walking] player over flat ground. *)
Lemma grounded_clears_flight_witness :
  let p' := fixedUpdate angleTo65 57 sqrtStub noSlope (1 # 50) flat walking in
  pl_grounded p' = true /\ pl_falling p' = false /\ pl_jumping p' = false /\
  pl_fallTimer p' = 0 /\ pl_slipping p' = false.
Proof.
  assert (Hg : pl_grounded (fixedUpdate angleTo65 57 sqrtStub noSlope (1 # 50) flat walking)
               = true) by reflexivity.
  destruct (proj1 (grounded_clears_flight angleTo65 57 sqrtStub noSlope (1 # 50) flat walking)
              Hg) as (H1 & H2 & H3 & H4).
  intros p'. subst p'.
  split; [exact Hg|]. split; [exact H1|]. split; [exact H2|]. split; [exact H3|exact H4].
Defined.

(** The [walking] player with nothing under the capsule. *)
Lemma walking_off_an_edge_witness :
  let p' := fixedUpdate angleTo65 57 sqrtStub noSlope (1 # 50) nothing walking in
  pl_grounded p' = false /\ pl_justLeftGround p' = true /\ pl_jumping p' = false /\
  vy (pl_velocity p') = -5.
Proof.
  exact (walking_off_an_edge angleTo65 57 sqrtStub noSlope (1 # 50) nothing walking
           eq_refl eq_refl eq_refl eq_refl).
Defined.

(** The [airborne] player landing on flat ground with Space held. *)
Lemma jump_from_the_ground_witness :
  let p' := fixedUpdate angleTo65 57 sqrtStub noSlope (1 # 50) flatSpace airborne in
  pl_grounded p' = true /\ pl_jumped p' = true /\ vy (pl_velocity p') = 2 * 20 * (3 # 2) * (1 / 1).
Proof.
  assert (Hangle : ~ 60 < angleTo65 V3.UP V3.UP * 57) by (intros H; discriminate H).
  exact (jump_from_the_ground angleTo65 57 sqrtStub noSlope (1 # 50) flatSpace airborne V3.UP
           eq_refl Hangle eq_refl).
Defined.

(** The [walking] player on flat ground at 50 steps a second. *)
Lemma sticks_to_flat_ground_witness :
  vy (pl_velocity (fixedUpdate angleTo65 57 sqrtStub noSlope (1 # 50) flat walking)) == 0 /\
  vx (pl_velocity (fixedUpdate angleTo65 57 sqrtStub noSlope (1 # 50) flat walking)) ==
    vx (pl_velocity walking) * (1 - 10 * (1 # 50)).
Proof.
  assert (Hangle : ~ 60 < angleTo65 V3.UP V3.UP * 57) by (intros H; discriminate H).
  destruct (sticks_to_flat_ground angleTo65 57 sqrtStub noSlope (1 # 50) flat walking
              eq_refl Hangle eq_refl) as (Hy & Hx & _).
  split; [exact Hy|exact Hx].
Defined.

End GroundStep.

(** ** The .hyp container and the version check *)

Module AppToolsFacts.
Import AppTools.

(** *** The size prefix *)

Lemma byte_bits (n k i : Z) :
  (0 <= k)%Z -> (0 <= i)%Z ->
  Z.testbit (Z.shiftl (Z.land (Z.shiftr n k) 255) k) i =
  Z.testbit n i && (k <=? i)%Z && (i <? k + 8)%Z.
Proof.
  intros Hk Hi.
  destruct (Z.leb_spec k i) as [Hle|Hlt].
  - rewrite Z.shiftl_spec by lia. rewrite Z.land_spec, Z.shiftr_spec by lia.
    replace (i - k + k)%Z with i by lia.
    change 255%Z with (Z.ones 8).
    destruct (Z.ltb_spec i (k + 8)) as [Hlt|Hge].
    + rewrite Z.ones_spec_low by lia. rewrite !andb_true_r. reflexivity.
    + rewrite Z.ones_spec_high by lia. rewrite !andb_false_r. reflexivity.
  - rewrite Z.shiftl_spec_low by lia. rewrite andb_false_r. reflexivity.
Qed.

Lemma getUint32_setUint32 (n : Z) (rest : Bytes) :
  getUint32 (setUint32 n ++ rest) = Some (n mod 2 ^ 32)%Z.
Proof.
  unfold setUint32, getUint32. cbn [app]. f_equal.
  set (m := (n mod 2 ^ 32)%Z).
  assert (Hm : (0 <= m < 2 ^ 32)%Z) by (apply Z.mod_pos_bound; lia).
  apply Z.bits_inj'. intros i Hi.
  rewrite <- (Z.shiftl_0_r (Z.land m 255)).
  rewrite <- (Z.shiftr_0_r m) at 1.
  rewrite !Z.lor_spec, !byte_bits by lia.
  destruct (Z.ltb_spec i 32) as [Hlt|Hge].
  - destruct (Z.testbit m i); [|reflexivity]. cbn [andb].
    destruct (Z.leb_spec 0 i), (Z.ltb_spec i (0 + 8)), (Z.leb_spec 8 i),
      (Z.ltb_spec i (8 + 8)), (Z.leb_spec 16 i), (Z.ltb_spec i (16 + 8)),
      (Z.leb_spec 24 i), (Z.ltb_spec i (24 + 8)); try lia; reflexivity.
  - assert (Hb : Z.testbit m i = false).
    { destruct (Z.eq_dec m 0%Z) as [Hz|Hnz]; [rewrite Hz; apply Z.bits_0|].
      apply Z.bits_above_log2; [lia|].
      assert (Z.log2 m < 32)%Z by (apply Z.log2_lt_pow2; lia). lia. }
    rewrite Hb. reflexivity.
Qed.

Lemma setUint32_length n : length (setUint32 n) = 4%nat.
Proof. reflexivity. Qed.

Lemma setUint32_bytes n : Forall is_byte (setUint32 n).
Proof.
  unfold setUint32.
  repeat constructor;
    change 255%Z with (Z.ones 8); rewrite Z.land_ones by lia;
    apply Z.mod_pos_bound; lia.
Qed.

(** X7.  The four bytes [exportApp] writes for a header of [n] bytes,
    with [n] below 2^32, are bytes and read back as [n] with what
    [importApp] does, whatever follows them. *)
Theorem size_prefix_round_trip (n : Z) (rest : Bytes) :
  (0 <= n < 2 ^ 32)%Z ->
  Forall is_byte (setUint32 n) /\
  length (setUint32 n) = 4%nat /\
  getUint32 (setUint32 n ++ rest) = Some n.
Proof.
  intros Hn. split; [apply setUint32_bytes|]. split; [reflexivity|].
  rewrite getUint32_setUint32. rewrite Z.mod_small by exact Hn. reflexivity.
Qed.

Lemma size_prefix_round_trip_witness :
  getUint32 (setUint32 70000 ++ [9; 9]%Z) = Some 70000%Z.
Proof.
  assert (H : (0 <= 70000 < 2 ^ 32)%Z) by lia.
  exact (proj2 (proj2 (size_prefix_round_trip 70000 [9; 9]%Z H))).
Defined.

(** *** Text and bytes *)

Lemma str2ab_units (buf : Bytes) :
  Forall is_byte buf -> str2ab (map (fun b => b mod 65536)%Z buf) = buf.
Proof.
  induction 1 as [|b buf Hb _ IH]; [reflexivity|].
  unfold str2ab in *. cbn [map]. rewrite IH. f_equal.
  unfold is_byte in Hb. rewrite (Z.mod_small b 65536) by lia. apply Z.mod_small. lia.
Qed.

Lemma units_str2ab (s : CodeUnits) :
  Forall is_byte s -> map (fun b => b mod 65536)%Z (str2ab s) = s.
Proof.
  induction 1 as [|c s Hc _ IH]; [reflexivity|].
  unfold str2ab in *. cbn [map]. rewrite IH. f_equal.
  unfold is_byte in Hc. rewrite (Z.mod_small c 256) by lia. apply Z.mod_small. lia.
Qed.

Lemma str2ab_length s : length (str2ab s) = length s.
Proof. apply length_map. Qed.

Lemma ab2str_within (maxArguments : nat) (buf : Bytes) :
  length buf <= maxArguments ->
  ab2str maxArguments buf = Some (map (fun b => b mod 65536)%Z buf).
Proof.
  intros H. unfold ab2str. apply Nat.leb_le in H. rewrite H. reflexivity.
Qed.

Lemma ab2str_beyond (maxArguments : nat) (buf : Bytes) :
  maxArguments < length buf -> ab2str maxArguments buf = None.
Proof.
  intros H. unfold ab2str. apply Nat.leb_gt in H. rewrite H. reflexivity.
Qed.

Lemma ab2str_str2ab (maxArguments : nat) (s : CodeUnits) :
  length s <= maxArguments -> Forall is_byte s ->
  ab2str maxArguments (str2ab s) = Some s.
Proof.
  intros Hlen Hs. rewrite ab2str_within by (rewrite str2ab_length; exact Hlen).
  rewrite (units_str2ab s Hs). reflexivity.
Qed.

(** X8.  With no more bytes than the engine accepts as arguments, bytes
    read as text and written back are the same bytes, and text written as
    bytes and read back is the same text exactly when every code unit of
    it is below 256; with more bytes [ab2str] throws. *)
Theorem text_and_bytes (maxArguments : nat) :
  (forall buf, length buf <= maxArguments -> Forall is_byte buf ->
     exists text, ab2str maxArguments buf = Some text /\ str2ab text = buf) /\
  (forall s, length s <= maxArguments -> Forall is_unit s ->
     (ab2str maxArguments (str2ab s) = Some s <-> Forall is_byte s)) /\
  (forall buf, maxArguments < length buf -> ab2str maxArguments buf = None).
Proof.
  split; [|split].
  - intros buf Hlen Hb. eexists. split; [apply ab2str_within; exact Hlen|].
    apply str2ab_units. exact Hb.
  - intros s Hlen Hs. split; [|apply ab2str_str2ab; exact Hlen].
    rewrite ab2str_within by (rewrite str2ab_length; exact Hlen).
    intros Heq. injection Heq as Heq. clear Hlen.
    induction Hs as [|c s Hc _ IH]; [constructor|].
    unfold str2ab in *. cbn [map] in Heq.
    injection Heq as Hhd Htl. constructor; [|apply IH; exact Htl].
    unfold is_byte, is_unit in *.
    assert (H1 : (0 <= c mod 256 < 256)%Z) by (apply Z.mod_pos_bound; lia).
    rewrite (Z.mod_small (c mod 256) 65536) in Hhd by lia. lia.
  - apply ab2str_beyond.
Qed.

Lemma text_and_bytes_witness :
  (exists text, ab2str 3 [0; 104; 255]%Z = Some text /\ str2ab text = [0; 104; 255]%Z) /\
  (ab2str 3 (str2ab [104; 8364]%Z) = Some [104; 8364]%Z <-> Forall is_byte [104; 8364]%Z) /\
  ab2str 3 [1; 2; 3; 4]%Z = None.
Proof.
  assert (Hb : Forall is_byte [0; 104; 255]%Z) by (repeat constructor; unfold is_byte; lia).
  assert (Hu : Forall is_unit [104; 8364]%Z) by (repeat constructor; unfold is_unit; lia).
  assert (H3 : length [0; 104; 255]%Z <= 3) by (simpl; lia).
  assert (H2 : length [104; 8364]%Z <= 3) by (simpl; lia).
  assert (H4 : 3 < length [1; 2; 3; 4]%Z) by (simpl; lia).
  split; [exact (proj1 (text_and_bytes 3) _ H3 Hb)|].
  split; [exact (proj1 (proj2 (text_and_bytes 3)) _ H2 Hu)|].
  exact (proj2 (proj2 (text_and_bytes 3)) _ H4).
Defined.

(** *** The container *)

Lemma slice_middle (a b c : Bytes) :
  slice (Z.of_nat (length a)) (Z.of_nat (length a) + Z.of_nat (length b)) (a ++ b ++ c) = b.
Proof.
  unfold slice, clampIndex. rewrite !length_app.
  destruct (Z.ltb_spec (Z.of_nat (length a)) 0) as [H|_]; [lia|].
  destruct (Z.ltb_spec (Z.of_nat (length a) + Z.of_nat (length b)) 0) as [H|_]; [lia|].
  rewrite !Z.min_l by lia.
  replace (Z.to_nat (Z.max (Z.of_nat (length a) + Z.of_nat (length b) - Z.of_nat (length a)) 0))
    with (length b) by lia.
  rewrite Nat2Z.id. rewrite drop_app_length. apply take_app_length.
Qed.

Section Codec.
Variable PUBLIC_VERSION : option string.
Variable resolveFile : string -> option HFile.
Variable stringify : Header -> CodeUnits.
Variable parse : CodeUnits -> option Header.
Variable maxArguments : nat.

Lemma extract_blobs (assets : list Asset) (pre : Bytes) :
  extract (pre ++ concat (map (fun a => hf_bytes (as_file a)) assets))
          (Z.of_nat (length pre)) (map assetInfo assets)
  = map reimported assets.
Proof.
  revert pre. induction assets as [|a assets IH]; intros pre; [reflexivity|].
  cbn [map concat extract assetInfo ai_size ai_type ai_url ai_mime].
  f_equal.
  - unfold reimported. f_equal. f_equal. apply slice_middle.
  - rewrite app_assoc. rewrite <- Nat2Z.inj_add, <- length_app. apply IH.
Qed.

(** X9.  A blueprint whose files all resolve, with a header
    shorter than 2^32, is exported to a file.  When the header has no more
    bytes than the engine accepts as arguments, [importApp] reads the file
    back as the version, the blueprint as exported (frozen when it was
    locked) and the assets in the same order with the same types, urls and
    bytes, each file named by the last segment of its url; provided the
    header's JSON text parses back to the header and has only code units
    below 256.  With a longer header [importApp] throws on the file it was
    given by [exportApp]. *)
Theorem container_round_trip (bp : AppBlueprint) (assets : list Asset) :
  resolveAll resolveFile (assetRefs bp) = Some assets ->
  let header := headerOf PUBLIC_VERSION bp assets in
  (Z.of_nat (length (stringify header)) < 2 ^ 32)%Z ->
  exists file,
    exportApp PUBLIC_VERSION resolveFile stringify bp = Some file /\
    hf_name file = hypName bp /\
    (length (stringify header) <= maxArguments ->
     parse (stringify header) = Some header ->
     Forall is_byte (stringify header) ->
     importApp parse maxArguments file =
       Some (mkImported PUBLIC_VERSION (exportedBlueprint bp) (map reimported assets))) /\
    (maxArguments < length (stringify header) ->
     importApp parse maxArguments file = None).
Proof.
  intros Hres header Hlen.
  unfold exportApp. rewrite Hres. fold header.
  eexists. split; [reflexivity|]. split; [reflexivity|].
  unfold importApp. cbn [hf_bytes].
  set (text := stringify header) in *.
  set (blobs := concat (map (fun a => hf_bytes (as_file a)) assets)).
  rewrite getUint32_setUint32.
  rewrite str2ab_length.
  rewrite Z.mod_small by lia.
  set (prefix := setUint32 (Z.of_nat (length text))).
  pose proof (slice_middle prefix (str2ab text) blobs) as Hslice.
  rewrite str2ab_length in Hslice.
  change (Z.of_nat (length prefix)) with 4%Z in Hslice.
  rewrite Hslice. split.
  - intros Hmax Hparse Hlatin.
    rewrite (ab2str_str2ab maxArguments text Hmax Hlatin).
    rewrite Hparse. cbn [h_version h_blueprint h_assets header headerOf].
    f_equal. f_equal.
    pose proof (extract_blobs assets (prefix ++ str2ab text)) as Hex.
    rewrite length_app, str2ab_length, Nat2Z.inj_add in Hex.
    change (Z.of_nat (length prefix)) with 4%Z in Hex.
    rewrite <- app_assoc in Hex. exact Hex.
  - intros Hmax. rewrite ab2str_beyond by (rewrite str2ab_length; exact Hmax). reflexivity.
Qed.

End Codec.

Lemma container_round_trip_witness :
  exists file,
    exportApp (Some "0.5.0") cubeFiles writeOk cube = Some file /\
    hf_name file = "cube.hyp" /\
    importApp readOk 100 file =
      Some (mkImported (Some "0.5.0") (setFrozen cube)
              [mkAsset (Some "model") "asset://abc.glb"
                 (mkHFile [1; 2; 3]%Z "abc.glb" "model/gltf-binary");
               mkAsset (Some "script") "asset://def.js"
                 (mkHFile [7; 8]%Z "def.js" "text/javascript")]) /\
    importApp readOk 1 file = None.
Proof.
  assert (Hres : resolveAll cubeFiles (assetRefs cube) =
                 Some [mkAsset (Some "model") "asset://abc.glb" cubeFile;
                       mkAsset (Some "script") "asset://def.js" scriptFile]) by reflexivity.
  assert (Hparse : readOk (writeOk cubeHeader) = Some cubeHeader) by reflexivity.
  assert (Hlatin : Forall is_byte (writeOk cubeHeader))
    by (repeat constructor; unfold is_byte; lia).
  assert (Hlen : (Z.of_nat (length (writeOk cubeHeader)) < 2 ^ 32)%Z) by (simpl; lia).
  assert (Hmax : length (writeOk cubeHeader) <= 100) by (simpl; lia).
  assert (Hmin : 1 < length (writeOk cubeHeader)) by (simpl; lia).
  destruct (container_round_trip (Some "0.5.0") cubeFiles writeOk readOk 100 cube _ Hres Hlen)
    as (file & He & Hn & Hok & _).
  exists file. split; [exact He|]. split; [exact Hn|].
  split; [exact (Hok Hmax Hparse Hlatin)|].
  destruct (container_round_trip (Some "0.5.0") cubeFiles writeOk readOk 1 cube _ Hres Hlen)
    as (file' & He' & _ & _ & Hno).
  rewrite He in He'. injection He' as <-. exact (Hno Hmin).
Defined.

(** *** Versions *)

Lemma num_lt_irrefl (a : Num) : num_lt a a = false.
Proof.
  destruct a as [| |q|]; try reflexivity. simpl.
  assert (H : Qle_bool q q = true) by (apply Qle_bool_iff; apply Qle_refl).
  rewrite H. reflexivity.
Qed.

Lemma compareParts_same (l : list Num) (i n : nat) : compareParts l l i n = true.
Proof.
  revert i. induction n as [|n IH]; intros i; [reflexivity|].
  cbn [compareParts]. rewrite num_lt_irrefl. apply IH.
Qed.

Lemma num_lt_Fin (x y : Q) : num_lt (Fin x) (Fin y) = true <-> (x < y)%Q.
Proof.
  simpl. rewrite negb_true_iff. split; intros H.
  - apply Qnot_le_lt. intros Hle. apply Qle_bool_iff in Hle. congruence.
  - destruct (Qle_bool y x) eqn:Hb; [|reflexivity].
    apply Qle_bool_iff in Hb. exfalso. exact (Qlt_not_le _ _ H Hb).
Qed.

Lemma num_lt_Fin_false (x y : Q) : num_lt (Fin x) (Fin y) = false <-> (y <= x)%Q.
Proof.
  simpl. rewrite negb_false_iff. apply Qle_bool_iff.
Qed.

Section Version.
Variable Number : string -> Num.

(** X10.  For two versions whose first three parts are numbers, the
    app's version is compatible exactly when it is at most the current one
    in the order of the triples; what follows the third part is not
    looked at. *)
Theorem compatible_iff_not_newer (current app : string)
    (c0 c1 c2 r0 r1 r2 : Q) (cmore rmore : list Num) :
  versionParts Number current = Fin c0 :: Fin c1 :: Fin c2 :: cmore ->
  versionParts Number app = Fin r0 :: Fin r1 :: Fin r2 :: rmore ->
  isAppCompatible Number (Some current) app = Some true <-> lex_le (r0, r1, r2) (c0, c1, c2).
Proof.
  intros Hc Hr. unfold isAppCompatible. rewrite Hc, Hr.
  unfold lex_le. cbn [compareParts part lookup list_lookup].
  destruct (num_lt (Fin r0) (Fin c0)) eqn:H0.
  { apply num_lt_Fin in H0. split; [intros _; left; exact H0 | reflexivity]. }
  apply num_lt_Fin_false in H0.
  destruct (num_lt (Fin c0) (Fin r0)) eqn:H0'.
  { apply num_lt_Fin in H0'. split; [discriminate|].
    intros [H|[H _]]; exfalso.
    - exact (Qlt_irrefl _ (Qlt_trans _ _ _ H H0')).
    - rewrite H in H0'. exact (Qlt_irrefl _ H0'). }
  apply num_lt_Fin_false in H0'.
  assert (E0 : (r0 == c0)%Q) by (apply Qle_antisym; assumption).
  destruct (num_lt (Fin r1) (Fin c1)) eqn:H1.
  { apply num_lt_Fin in H1. split; [intros _; right; split; [exact E0|left; exact H1]
                                   | reflexivity]. }
  apply num_lt_Fin_false in H1.
  destruct (num_lt (Fin c1) (Fin r1)) eqn:H1'.
  { apply num_lt_Fin in H1'. split; [discriminate|].
    intros [H|[_ [H|[H _]]]]; exfalso.
    - rewrite E0 in H. exact (Qlt_irrefl _ H).
    - exact (Qlt_irrefl _ (Qlt_trans _ _ _ H H1')).
    - rewrite H in H1'. exact (Qlt_irrefl _ H1'). }
  apply num_lt_Fin_false in H1'.
  assert (E1 : (r1 == c1)%Q) by (apply Qle_antisym; assumption).
  destruct (num_lt (Fin r2) (Fin c2)) eqn:H2.
  { apply num_lt_Fin in H2. split; [|reflexivity].
    intros _. right. split; [exact E0|]. right. split; [exact E1|].
    apply Qlt_le_weak. exact H2. }
  apply num_lt_Fin_false in H2.
  destruct (num_lt (Fin c2) (Fin r2)) eqn:H2'.
  { apply num_lt_Fin in H2'. split; [discriminate|].
    intros [H|[_ [H|[_ H]]]]; exfalso.
    - rewrite E0 in H. exact (Qlt_irrefl _ H).
    - rewrite E1 in H. exact (Qlt_irrefl _ H).
    - exact (Qlt_not_le _ _ H2' H). }
  apply num_lt_Fin_false in H2'.
  split; [|reflexivity]. intros _. right. split; [exact E0|]. right. split; [exact E1|].
  exact H2'.
Qed.

(** X11.  Two versions that are the same text once the first "-dev" of
    each is taken out are compatible, whatever their parts are. *)
Theorem compatible_up_to_dev (current app : string) :
  replaceFirst "-dev" EmptyString current = replaceFirst "-dev" EmptyString app ->
  isAppCompatible Number (Some current) app = Some true.
Proof.
  intros H. unfold isAppCompatible, versionParts. rewrite H.
  rewrite compareParts_same. reflexivity.
Qed.

End Version.

Lemma compatible_iff_not_newer_witness :
  isAppCompatible digits (Some "0.5.1-dev") "0.4.9" = Some true /\
  lex_le (0, 4, 9)%Q (0, 5, 1)%Q.
Proof.
  assert (Hc : versionParts digits "0.5.1-dev" = [Fin 0; Fin 5; Fin 1]) by reflexivity.
  assert (Hr : versionParts digits "0.4.9" = [Fin 0; Fin 4; Fin 9]) by reflexivity.
  pose proof (compatible_iff_not_newer digits "0.5.1-dev" "0.4.9" 0 5 1 0 4 9 [] [] Hc Hr) as H.
  assert (Hlex : lex_le (0, 4, 9)%Q (0, 5, 1)%Q).
  { right. split; [reflexivity|]. left. reflexivity. }
  split; [exact (proj2 H Hlex) | exact Hlex].
Defined.

Lemma compatible_up_to_dev_witness :
  isAppCompatible digits (Some "0.5.0-dev") "0.5.0" = Some true.
Proof.
  exact (compatible_up_to_dev digits "0.5.0-dev" "0.5.0" eq_refl).
Defined.

End AppToolsFacts.

(** ** The pointer state: hover, cursor, press *)

Module Pointer.
Import PointerState.

Lemma same_true a b : same a b = true <-> pn_id a = pn_id b.
Proof. unfold same. apply Nat.eqb_eq. Qed.

Lemma same_false a b : same a b = false <-> pn_id a <> pn_id b.
Proof. unfold same. apply Nat.eqb_neq. Qed.

Lemma ids_app l1 l2 : ids (l1 ++ l2) = ids l1 ++ ids l2.
Proof. apply map_app. Qed.

Lemma set_has_false n l : set_has n l = false <-> pn_id n ∉ ids l.
Proof.
  unfold set_has, ids. induction l as [|m l IH]; simpl.
  - split; [intros _ H; inversion H | reflexivity].
  - rewrite orb_false_iff, IH, same_false. rewrite not_elem_of_cons. reflexivity.
Qed.

(** *** The common prefix *)

Lemma divergence_prefix newPath oldPath :
  ids (take (divergence newPath oldPath) newPath) =
  ids (take (divergence newPath oldPath) oldPath).
Proof.
  revert oldPath. induction newPath as [|n newPath IH]; intros [|o oldPath]; try reflexivity.
  simpl. destruct (same n o) eqn:Hs; [|reflexivity].
  simpl. rewrite IH. apply same_true in Hs. rewrite Hs. reflexivity.
Qed.

Lemma divergence_same_ids newPath oldPath :
  ids newPath = ids oldPath -> divergence newPath oldPath = length newPath.
Proof.
  revert oldPath. induction newPath as [|n newPath IH]; intros [|o oldPath] H;
    try discriminate; [reflexivity|].
  simpl in *. injection H as Hid Hrest.
  assert (Hs : same n o = true) by (apply same_true; exact Hid).
  rewrite Hs. f_equal. apply IH. exact Hrest.
Qed.

(** A path that continues another one by nodes not on it diverges at its
    end. *)
Lemma divergence_extends newPath oldPath :
  ids (take (length oldPath) newPath) = ids oldPath ->
  length oldPath <= length newPath ->
  divergence newPath oldPath = length oldPath.
Proof.
  revert newPath. induction oldPath as [|o oldPath IH]; intros [|n newPath] H Hlen;
    simpl in *; try reflexivity; try lia.
  injection H as Hid Hrest.
  assert (Hs : same n o = true) by (apply same_true; exact Hid).
  rewrite Hs. f_equal. apply IH; [exact Hrest | lia].
Qed.

(** *** Leaving *)

Lemma set_delete_ids n l : pn_id n ∉ ids l -> set_delete n l = l.
Proof.
  unfold set_delete, ids. induction l as [|m l IH]; intros H; [reflexivity|].
  simpl in *. apply not_elem_of_cons in H. destruct H as (Hne & Hl).
  assert (Hs : same n m = false) by (apply same_false; exact Hne).
  rewrite Hs. simpl. f_equal. apply IH. exact Hl.
Qed.

Lemma set_delete_last A n :
  pn_id n ∉ ids A -> set_delete n (A ++ [n]) = A.
Proof.
  intros H. unfold set_delete. rewrite List.filter_app. simpl.
  assert (Hs : same n n = true) by (apply same_true; reflexivity).
  rewrite Hs. simpl. rewrite app_nil_r. apply set_delete_ids. exact H.
Qed.

Lemma set_delete_app_last A B n :
  set_delete n (A ++ B ++ [n]) = set_delete n (A ++ B).
Proof.
  unfold set_delete. rewrite !List.filter_app. simpl.
  assert (Hs : same n n = true) by (apply same_true; reflexivity).
  rewrite Hs. simpl. rewrite app_nil_r. reflexivity.
Qed.

(** What [leaveAll] does when no leave handler throws. *)
Lemma leaveAll_spec nodes s :
  Forall (fun n => no_throw (pn_onPointerLeave n)) nodes ->
  snd (leaveAll nodes s) = false /\
  ps_activePath (fst (leaveAll nodes s)) =
    fold_left (fun l n => set_delete n l) nodes (ps_activePath s) /\
  ps_calls (fst (leaveAll nodes s)) = ps_calls s ++ callsOf LEAVE pn_onPointerLeave nodes /\
  ps_cursor (fst (leaveAll nodes s)) = ps_cursor s /\
  ps_pressedNodes (fst (leaveAll nodes s)) = ps_pressedNodes s /\
  ps_bodyCursor (fst (leaveAll nodes s)) = ps_bodyCursor s.
Proof.
  intros H. revert s. induction H as [|n nodes Hn _ IH]; intros s.
  - simpl. rewrite app_nil_r. repeat split.
  - cbn [leaveAll]. unfold no_throw in Hn.
    destruct (pn_onPointerLeave n) as [[| |]|] eqn:Hh; try congruence; cbn [fire];
      match goal with
      | |- context [leaveAll nodes ?s1] => destruct (IH s1) as (I1 & I2 & I3 & I4 & I5 & I6)
      end;
      rewrite I1, I2, I3, I4, I5, I6; unfold callsOf; cbn [flat_map fold_left];
      rewrite Hh;
      cbn [set_ps_activePath ps_activePath ps_calls ps_cursor ps_pressedNodes ps_bodyCursor];
      rewrite <- ?app_assoc; repeat split.
Qed.

(** Leaving the nodes past the common prefix, leaf first, leaves the
    prefix. *)
Lemma delete_tail A B :
  NoDup (ids (A ++ B)) ->
  fold_left (fun l n => set_delete n l) (rev B) (A ++ B) = A.
Proof.
  revert A. induction B as [|b B IH] using rev_ind; intros A Hnd.
  - simpl. apply app_nil_r.
  - rewrite rev_app_distr. cbn [rev app fold_left].
    rewrite set_delete_app_last.
    rewrite app_assoc in Hnd. rewrite ids_app in Hnd.
    apply NoDup_app in Hnd. destruct Hnd as (Hnd & Hdisj & _).
    rewrite set_delete_ids.
    + apply IH. exact Hnd.
    + intros Hin. apply (Hdisj _ Hin). simpl. left.
Qed.

(** *** Entering *)

Lemma set_add_new n l : pn_id n ∉ ids l -> set_add n l = l ++ [n].
Proof.
  intros H. unfold set_add. apply set_has_false in H. rewrite H. reflexivity.
Qed.

Lemma add_tail A C :
  NoDup (ids (A ++ C)) -> fold_left (fun l n => set_add n l) C A = A ++ C.
Proof.
  revert A. induction C as [|c C IH]; intros A Hnd; [symmetry; apply app_nil_r|].
  cbn [fold_left].
  assert (Hc : pn_id c ∉ ids A).
  { rewrite ids_app in Hnd. apply NoDup_app in Hnd. destruct Hnd as (_ & Hdisj & _).
    intros Hin. apply (Hdisj _ Hin). simpl. left. }
  rewrite (set_add_new c A Hc).
  replace (A ++ c :: C) with ((A ++ [c]) ++ C) in * by (rewrite <- app_assoc; reflexivity).
  apply IH. exact Hnd.
Qed.

(** What [enterAll] does when every enter handler returns. *)
Lemma enterAll_quiet nodes s :
  Forall (fun n => quiet (pn_onPointerEnter n)) nodes ->
  snd (enterAll nodes s) = false /\
  ps_activePath (fst (enterAll nodes s)) =
    fold_left (fun l n => set_add n l) nodes (ps_activePath s) /\
  ps_calls (fst (enterAll nodes s)) = ps_calls s ++ callsOf ENTER pn_onPointerEnter nodes /\
  ps_cursor (fst (enterAll nodes s)) = ps_cursor s /\
  ps_pressedNodes (fst (enterAll nodes s)) = ps_pressedNodes s /\
  ps_bodyCursor (fst (enterAll nodes s)) = ps_bodyCursor s.
Proof.
  intros H. revert s. induction H as [|n nodes Hn _ IH]; intros s.
  - simpl. rewrite app_nil_r. repeat split.
  - cbn [enterAll]. destruct Hn as [Hh|Hh]; rewrite Hh; cbn [fire ps_stopped];
      match goal with
      | |- context [enterAll nodes ?s1] => destruct (IH s1) as (I1 & I2 & I3 & I4 & I5 & I6)
      end;
      rewrite I1, I2, I3, I4, I5, I6; unfold callsOf; cbn [flat_map fold_left];
      rewrite Hh;
      cbn [set_ps_activePath ps_activePath ps_calls ps_cursor ps_pressedNodes ps_bodyCursor];
      rewrite <- ?app_assoc; repeat split.
Qed.

Lemma enterAll_app quietNodes rest s :
  Forall (fun n => quiet (pn_onPointerEnter n)) quietNodes ->
  enterAll (quietNodes ++ rest) s = enterAll rest (fst (enterAll quietNodes s)).
Proof.
  intros H. revert s. induction H as [|n nodes Hn _ IH]; intros s; [reflexivity|].
  cbn [app enterAll]. destruct Hn as [Hh|Hh]; rewrite Hh; cbn [fire ps_stopped]; apply IH.
Qed.

(** *** The cursor *)

Lemma setCursor_frame newPath s :
  ps_activePath (setCursor newPath s) = ps_activePath s /\
  ps_calls (setCursor newPath s) = ps_calls s /\
  ps_pressedNodes (setCursor newPath s) = ps_pressedNodes s /\
  ps_cursor (setCursor newPath s) = pickCursor (rev newPath) /\
  ps_bodyCursor (setCursor newPath s) =
    ps_bodyCursor s ++
    (if String.eqb (pickCursor (rev newPath)) (ps_cursor s) then []
     else [pickCursor (rev newPath)]).
Proof.
  unfold setCursor. destruct (String.eqb_spec (pickCursor (rev newPath)) (ps_cursor s)) as [E|_].
  - rewrite app_nil_r. repeat split. symmetry. exact E.
  - repeat split.
Qed.

(** *** Hovering *)

(** The state a hover update ends in when no leave handler of the old path
    throws and every enter handler of the new path returns. *)
Lemma hover_spec (hit : option Hit) (s : PState) :
  let newPath := match hit with Some h => getAncestorPath h | None => [] end in
  let i := divergence newPath (ps_activePath s) in
  NoDup (ids (ps_activePath s)) ->
  NoDup (ids newPath) ->
  Forall (fun n => no_throw (pn_onPointerLeave n)) (ps_activePath s) ->
  Forall (fun n => quiet (pn_onPointerEnter n)) newPath ->
  snd (update hit false false s) = false /\
  ps_activePath (fst (update hit false false s)) = take i (ps_activePath s) ++ drop i newPath /\
  ps_calls (fst (update hit false false s)) =
    ps_calls s ++
    callsOf LEAVE pn_onPointerLeave (rev (drop i (ps_activePath s))) ++
    callsOf ENTER pn_onPointerEnter (drop i newPath) /\
  ps_cursor (fst (update hit false false s)) = pickCursor (rev newPath) /\
  ps_pressedNodes (fst (update hit false false s)) = ps_pressedNodes s /\
  ps_bodyCursor (fst (update hit false false s)) =
    ps_bodyCursor s ++
    (if String.eqb (pickCursor (rev newPath)) (ps_cursor s) then []
     else [pickCursor (rev newPath)]).
Proof.
  intros newPath i Hold Hnew Hleave Henter.
  unfold update. fold newPath. fold i.
  assert (Hl : Forall (fun n => no_throw (pn_onPointerLeave n)) (rev (drop i (ps_activePath s)))).
  { apply Forall_rev. apply Forall_drop. exact Hleave. }
  destruct (leaveAll_spec _ s Hl) as (L1 & L2 & L3 & L4 & L5 & L6).
  destruct (leaveAll (rev (drop i (ps_activePath s))) s) as [s1 t1].
  cbn [fst snd] in *. subst t1.
  assert (He : Forall (fun n => quiet (pn_onPointerEnter n)) (drop i newPath))
    by (apply Forall_drop; exact Henter).
  destruct (enterAll_quiet _ s1 He) as (E1 & E2 & E3 & E4 & E5 & E6).
  destruct (enterAll (drop i newPath) s1) as [s2 t2].
  cbn [fst snd] in *. subst t2.
  destruct (setCursor_frame newPath s2) as (C1 & C2 & C3 & C4 & C5).
  cbv zeta. cbn [fst snd].
  split; [reflexivity|].
  rewrite C1, C2, C3, C4, C5, E2, E3, E4, E5, E6, L2, L3, L4, L5, L6.
  pose proof (delete_tail (take i (ps_activePath s)) (drop i (ps_activePath s))) as Hdel.
  rewrite take_drop in Hdel. rewrite (Hdel Hold).
  rewrite add_tail.
  - rewrite <- app_assoc. repeat split.
  - rewrite ids_app. unfold i. rewrite <- divergence_prefix.
    rewrite <- ids_app, take_drop. exact Hnew.
Qed.

(** X12.  An update without press or release, where no leave handler
    of the old path throws and every enter handler of the new path
    returns, leaves the active path on the nodes of the new path; it calls
    the leave handlers of the nodes that are no longer under the pointer
    from the leaf up, and then the enter handlers of the new nodes from the
    divergence point down. *)
Theorem hover_follows_the_pointer (hit : option Hit) (s : PState) :
  let newPath := match hit with Some h => getAncestorPath h | None => [] end in
  let i := divergence newPath (ps_activePath s) in
  NoDup (ids (ps_activePath s)) ->
  NoDup (ids newPath) ->
  Forall (fun n => no_throw (pn_onPointerLeave n)) (ps_activePath s) ->
  Forall (fun n => quiet (pn_onPointerEnter n)) newPath ->
  snd (update hit false false s) = false /\
  ids (ps_activePath (fst (update hit false false s))) = ids newPath /\
  ps_calls (fst (update hit false false s)) =
    ps_calls s ++
    callsOf LEAVE pn_onPointerLeave (rev (drop i (ps_activePath s))) ++
    callsOf ENTER pn_onPointerEnter (drop i newPath).
Proof.
  intros newPath i Hold Hnew Hleave Henter.
  destruct (hover_spec hit s Hold Hnew Hleave Henter) as (H1 & H2 & H3 & _).
  split; [exact H1|]. split; [|exact H3].
  fold newPath in H2. fold i in H2. rewrite H2.
  rewrite ids_app. unfold i. rewrite <- divergence_prefix. rewrite <- ids_app.
  rewrite take_drop. reflexivity.
Qed.

(** The pointer moves from [button] to nothing: the button and the panel
    are left, leaf first. *)
Lemma hover_follows_the_pointer_witness :
  let s := fst (update (over button) false false fresh) in
  ids (ps_activePath s) = [0; 1; 2]%nat /\
  ps_calls s = [(ENTER, 1%nat); (ENTER, 2%nat)] /\
  ids (ps_activePath (fst (update None false false s))) = [] /\
  ps_calls (fst (update None false false s)) =
    [(ENTER, 1%nat); (ENTER, 2%nat); (LEAVE, 2%nat); (LEAVE, 1%nat)].
Proof.
  intros s.
  assert (H1 : NoDup (ids (ps_activePath fresh))) by constructor.
  assert (H2 : NoDup (ids [root; panel; button])) by (apply NoDup_ListNoDup; repeat constructor; simpl; lia).
  assert (H3 : Forall (fun n => no_throw (pn_onPointerLeave n)) (ps_activePath fresh))
    by constructor.
  assert (H4 : Forall (fun n => quiet (pn_onPointerEnter n)) [root; panel; button])
    by (constructor; [left; reflexivity|]; constructor; [right; reflexivity|];
        constructor; [right; reflexivity|]; constructor).
  destruct (hover_follows_the_pointer (over button) fresh H1 H2 H3 H4) as (_ & A1 & A2).
  assert (H5 : NoDup (ids (ps_activePath s))) by (subst s; rewrite A1; exact H2).
  assert (H6 : NoDup (ids [])) by constructor.
  assert (H7 : Forall (fun n => no_throw (pn_onPointerLeave n)) (ps_activePath s))
    by (subst s; repeat constructor; discriminate).
  assert (H8 : Forall (fun n => quiet (pn_onPointerEnter n)) []) by constructor.
  destruct (hover_follows_the_pointer None s H5 H6 H7 H8) as (_ & B1 & B2).
  split; [exact A1|]. split; [exact A2|]. split; [exact B1|]. exact B2.
Defined.

(** X13.  A second update with the same hit, without press or
    release, calls no handler and changes nothing. *)
Theorem hover_is_stable (hit : option Hit) (s : PState) :
  let newPath := match hit with Some h => getAncestorPath h | None => [] end in
  NoDup (ids (ps_activePath s)) ->
  NoDup (ids newPath) ->
  Forall (fun n => no_throw (pn_onPointerLeave n)) (ps_activePath s) ->
  Forall (fun n => quiet (pn_onPointerEnter n)) newPath ->
  update hit false false (fst (update hit false false s)) =
    (fst (update hit false false s), false).
Proof.
  intros newPath Hold Hnew Hleave Henter.
  destruct (hover_spec hit s Hold Hnew Hleave Henter) as (_ & H2 & _ & H4 & _).
  fold newPath in H2, H4.
  set (s1 := fst (update hit false false s)) in *. clearbody s1.
  set (i := divergence newPath (ps_activePath s)) in *.
  assert (Hids : ids newPath = ids (ps_activePath s1)).
  { rewrite H2, ids_app. unfold i. rewrite <- divergence_prefix. rewrite <- ids_app.
    rewrite take_drop. reflexivity. }
  assert (Hlen : length (ps_activePath s1) = length newPath).
  { apply (f_equal (@length nat)) in Hids. unfold ids in Hids.
    rewrite !length_map in Hids. symmetry. exact Hids. }
  unfold update. fold newPath.
  rewrite (divergence_same_ids _ _ Hids).
  rewrite <- Hlen at 1. rewrite !drop_all. cbn [rev leaveAll enterAll].
  unfold setCursor. rewrite H4. rewrite String.eqb_refl. reflexivity.
Qed.

Lemma hover_is_stable_witness :
  update (over button) false false (fst (update (over button) false false fresh)) =
    (fst (update (over button) false false fresh), false).
Proof.
  assert (H1 : NoDup (ids (ps_activePath fresh))) by constructor.
  assert (H2 : NoDup (ids [root; panel; button])) by (apply NoDup_ListNoDup; repeat constructor; simpl; lia).
  assert (H3 : Forall (fun n => no_throw (pn_onPointerLeave n)) (ps_activePath fresh))
    by constructor.
  assert (H4 : Forall (fun n => quiet (pn_onPointerEnter n)) [root; panel; button])
    by (constructor; [left; reflexivity|]; constructor; [right; reflexivity|];
        constructor; [right; reflexivity|]; constructor).
  exact (hover_is_stable (over button) fresh H1 H2 H3 H4).
Defined.

(** *** An enter handler that stops the event *)

Lemma divergence_le newPath oldPath :
  divergence newPath oldPath <= length newPath /\
  divergence newPath oldPath <= length oldPath.
Proof.
  revert oldPath. induction newPath as [|n newPath IH]; intros [|o oldPath]; simpl; try lia.
  destruct (same n o); simpl; [|lia]. destruct (IH oldPath). lia.
Qed.

Lemma hover_stopped_spec (hit : option Hit) (s : PState) quietNodes n post :
  let newPath := match hit with Some h => getAncestorPath h | None => [] end in
  let i := divergence newPath (ps_activePath s) in
  NoDup (ids (ps_activePath s)) ->
  NoDup (ids newPath) ->
  Forall (fun n => no_throw (pn_onPointerLeave n)) (ps_activePath s) ->
  drop i newPath = quietNodes ++ n :: post ->
  Forall (fun m => quiet (pn_onPointerEnter m)) quietNodes ->
  pn_onPointerEnter n = Some Stops ->
  snd (update hit false false s) = false /\
  ps_activePath (fst (update hit false false s)) = take i (ps_activePath s) ++ quietNodes /\
  ps_calls (fst (update hit false false s)) =
    ps_calls s ++
    callsOf LEAVE pn_onPointerLeave (rev (drop i (ps_activePath s))) ++
    callsOf ENTER pn_onPointerEnter quietNodes ++ [(ENTER, pn_id n)] /\
  ps_cursor (fst (update hit false false s)) = pickCursor (rev newPath).
Proof.
  intros newPath i Hold Hnew Hleave Hdrop Hquiet Hstop.
  unfold update. fold newPath. fold i.
  assert (Hl : Forall (fun n => no_throw (pn_onPointerLeave n)) (rev (drop i (ps_activePath s)))).
  { apply Forall_rev. apply Forall_drop. exact Hleave. }
  destruct (leaveAll_spec _ s Hl) as (L1 & L2 & L3 & _).
  destruct (leaveAll (rev (drop i (ps_activePath s))) s) as [s1 t1].
  cbn [fst snd] in *. subst t1.
  rewrite Hdrop. rewrite (enterAll_app _ _ _ Hquiet).
  destruct (enterAll_quiet _ s1 Hquiet) as (_ & E2 & E3 & _).
  set (s2 := fst (enterAll quietNodes s1)) in *. clearbody s2.
  cbn [enterAll]. rewrite Hstop. cbn [fire ps_stopped].
  cbv zeta. cbn [fst snd].
  match goal with
  | |- context [setCursor newPath ?x] =>
      destruct (setCursor_frame newPath x) as (C1 & C2 & _ & C4 & _)
  end.
  split; [reflexivity|].
  rewrite C1, C2, C4. cbn [ps_activePath ps_calls].
  rewrite E2, E3, L2, L3.
  pose proof (delete_tail (take i (ps_activePath s)) (drop i (ps_activePath s))) as Hdel.
  rewrite take_drop in Hdel. rewrite (Hdel Hold).
  rewrite add_tail.
  - rewrite <- !app_assoc. repeat split.
  - rewrite ids_app. unfold i. rewrite <- divergence_prefix. fold i.
    rewrite <- (take_drop i newPath) in Hnew. rewrite Hdrop in Hnew.
    rewrite app_assoc, ids_app in Hnew. apply NoDup_app in Hnew.
    destruct Hnew as (Hnew & _). rewrite <- ids_app. exact Hnew.
Qed.

(** X14.  When the enter handler of a node stops the event, the
    update does not record that node, nor those below it, on the active
    path; so the next update with the same hit calls the same enter
    handler again, and nothing else. *)
Theorem stopped_enter_is_repeated (hit : option Hit) (s : PState) quietNodes n post :
  let newPath := match hit with Some h => getAncestorPath h | None => [] end in
  let i := divergence newPath (ps_activePath s) in
  NoDup (ids (ps_activePath s)) ->
  NoDup (ids newPath) ->
  Forall (fun n => no_throw (pn_onPointerLeave n)) (ps_activePath s) ->
  drop i newPath = quietNodes ++ n :: post ->
  Forall (fun m => quiet (pn_onPointerEnter m)) quietNodes ->
  pn_onPointerEnter n = Some Stops ->
  let s1 := fst (update hit false false s) in
  snd (update hit false false s) = false /\
  ids (ps_activePath s1) = ids (take i newPath ++ quietNodes) /\
  snd (update hit false false s1) = false /\
  ps_activePath (fst (update hit false false s1)) = ps_activePath s1 /\
  ps_calls (fst (update hit false false s1)) = ps_calls s1 ++ [(ENTER, pn_id n)].
Proof.
  intros newPath i Hold Hnew Hleave Hdrop Hquiet Hstop s1.
  destruct (hover_stopped_spec hit s quietNodes n post Hold Hnew Hleave Hdrop Hquiet Hstop)
    as (H1 & H2 & _ & H4).
  fold newPath in H2, H4. fold i in H2. fold s1 in H2, H4.
  assert (Hids : ids (ps_activePath s1) = ids (take i newPath ++ quietNodes)).
  { rewrite H2, !ids_app. unfold i. rewrite <- divergence_prefix. reflexivity. }
  split; [exact H1|]. split; [exact Hids|].
  clearbody s1.
  assert (Hsplit : newPath = (take i newPath ++ quietNodes) ++ n :: post).
  { rewrite <- app_assoc, <- Hdrop, take_drop. reflexivity. }
  assert (Hlen : length (ps_activePath s1) = length (take i newPath ++ quietNodes)).
  { apply (f_equal (@length nat)) in Hids. unfold ids in Hids.
    rewrite !length_map in Hids. exact Hids. }
  set (pre := take i newPath ++ quietNodes) in *. clearbody pre.
  assert (Hdiv : divergence newPath (ps_activePath s1) = length (ps_activePath s1)).
  { apply divergence_extends.
    - rewrite Hlen. rewrite Hsplit. rewrite take_app_length. symmetry. exact Hids.
    - rewrite Hlen. rewrite Hsplit. rewrite length_app. lia. }
  unfold update. fold newPath. rewrite Hdiv.
  rewrite drop_all. cbn [rev leaveAll].
  rewrite Hlen. rewrite Hsplit. rewrite drop_app_length.
  cbn [enterAll]. rewrite Hstop. cbn [fire ps_stopped]. cbv zeta. cbn [fst snd].
  unfold setCursor. cbn [ps_cursor]. rewrite Hsplit in H4. rewrite H4, String.eqb_refl.
  repeat split.
Qed.

(** The pointer over [shy], whose enter handler stops the event. *)
Lemma stopped_enter_is_repeated_witness :
  let s1 := fst (update (over shy) false false fresh) in
  ids (ps_activePath s1) = [0; 1]%nat /\
  ps_calls s1 = [(ENTER, 1%nat); (ENTER, 3%nat)] /\
  ps_calls (fst (update (over shy) false false s1)) =
    [(ENTER, 1%nat); (ENTER, 3%nat); (ENTER, 3%nat)].
Proof.
  assert (H1 : NoDup (ids (ps_activePath fresh))) by constructor.
  assert (H2 : NoDup (ids [root; panel; shy]))
    by (apply NoDup_ListNoDup; repeat constructor; simpl; lia).
  assert (H3 : Forall (fun n => no_throw (pn_onPointerLeave n)) (ps_activePath fresh))
    by constructor.
  assert (H4 : drop 0 [root; panel; shy] = [root; panel] ++ shy :: []) by reflexivity.
  assert (H5 : Forall (fun m => quiet (pn_onPointerEnter m)) [root; panel])
    by (constructor; [left; reflexivity|]; constructor; [right; reflexivity|]; constructor).
  destruct (stopped_enter_is_repeated (over shy) fresh [root; panel] shy [] H1 H2 H3 H4 H5
              eq_refl) as (_ & A & _ & _ & B).
  intros s1. split; [exact A|]. split; [reflexivity|]. exact B.
Defined.

(** *** The cursor *)

Lemma pickCursor_deepest pre n post :
  JS.truthy (pn_cursor n) = true ->
  Forall (fun m => JS.truthy (pn_cursor m) = false) post ->
  pickCursor (rev (pre ++ n :: post)) = default EmptyString (pn_cursor n).
Proof.
  intros Hn Hpost. rewrite rev_app_distr. cbn [rev]. rewrite <- app_assoc.
  apply Forall_rev in Hpost. induction Hpost as [|m l Hm _ IH].
  - cbn [app pickCursor]. rewrite Hn. reflexivity.
  - cbn [app pickCursor]. rewrite Hm. exact IH.
Qed.

Lemma pickCursor_none path :
  Forall (fun m => JS.truthy (pn_cursor m) = false) path ->
  pickCursor (rev path) = CURSOR_DEFAULT.
Proof.
  intros H. apply Forall_rev in H. induction H as [|m l Hm _ IH]; [reflexivity|].
  cbn [pickCursor]. rewrite Hm. exact IH.
Qed.

Lemma downAll_frame nodes s :
  ps_cursor (fst (downAll nodes s)) = ps_cursor s /\
  ps_activePath (fst (downAll nodes s)) = ps_activePath s /\
  ps_bodyCursor (fst (downAll nodes s)) = ps_bodyCursor s.
Proof.
  revert s. induction nodes as [|n nodes IH]; intros s; [repeat split|].
  cbn [downAll]. destruct (pn_onPointerDown n) as [[| |]|]; cbn [fire ps_stopped set_ps_pressedNodes fst];
    try (repeat split; fail);
    match goal with
    | |- context [downAll nodes ?s1] => destruct (IH s1) as (I1 & I2 & I3)
    end; rewrite I1, I2, I3; repeat split.
Qed.

Lemma upAll_frame nodes s :
  ps_cursor (fst (upAll nodes s)) = ps_cursor s /\
  ps_activePath (fst (upAll nodes s)) = ps_activePath s /\
  ps_bodyCursor (fst (upAll nodes s)) = ps_bodyCursor s /\
  ps_pressedNodes (fst (upAll nodes s)) = ps_pressedNodes s.
Proof.
  revert s. induction nodes as [|n nodes IH]; intros s; [repeat split|].
  cbn [upAll]. destruct (pn_onPointerUp n) as [[| |]|]; cbn [fire ps_stopped fst];
    try (repeat split; fail);
    match goal with
    | |- context [upAll nodes ?s1] => destruct (IH s1) as (I1 & I2 & I3 & I4)
    end; rewrite I1, I2, I3, I4; repeat split.
Qed.

(** X15.  An update that returns leaves the cursor of the deepest node
    on the new path that has one, whatever the handlers did; when no node
    of the path has a cursor, or nothing is hit, the cursor is
    "default". *)
Theorem cursor_of_the_deepest_node (hit : option Hit) (pressed released : bool) (s : PState) :
  let newPath := match hit with Some h => getAncestorPath h | None => [] end in
  snd (update hit pressed released s) = false ->
  (forall pre n post,
     newPath = pre ++ n :: post ->
     JS.truthy (pn_cursor n) = true ->
     Forall (fun m => JS.truthy (pn_cursor m) = false) post ->
     ps_cursor (fst (update hit pressed released s)) = default EmptyString (pn_cursor n)) /\
  (Forall (fun m => JS.truthy (pn_cursor m) = false) newPath ->
   ps_cursor (fst (update hit pressed released s)) = CURSOR_DEFAULT).
Proof.
  intros newPath Hret.
  assert (Hc : ps_cursor (fst (update hit pressed released s)) = pickCursor (rev newPath)).
  { revert Hret. unfold update. fold newPath.
    destruct (leaveAll _ s) as [s1 [|]]; [discriminate|].
    destruct (enterAll _ s1) as [s2 [|]]; [discriminate|].
    destruct (setCursor_frame newPath s2) as (_ & _ & _ & C4 & _).
    destruct pressed.
    - destruct (downAll_frame (rev newPath) (setCursor newPath s2)) as (D1 & _).
      destruct (downAll (rev newPath) (setCursor newPath s2)) as [s3 [|]]; [discriminate|].
      cbn [fst] in D1. destruct released.
      + destruct (upAll_frame (ps_pressedNodes s3) s3) as (U1 & _).
        destruct (upAll (ps_pressedNodes s3) s3) as [s4 [|]]; [discriminate|].
        cbn [fst] in *. intros _. cbn [set_ps_pressedNodes ps_cursor]. congruence.
      + intros _. cbn [fst]. congruence.
    - destruct released.
      + destruct (upAll_frame (ps_pressedNodes (setCursor newPath s2)) (setCursor newPath s2))
          as (U1 & _).
        destruct (upAll (ps_pressedNodes (setCursor newPath s2)) (setCursor newPath s2))
          as [s4 [|]]; [discriminate|].
        cbn [fst] in *. intros _. cbn [set_ps_pressedNodes ps_cursor]. congruence.
      + intros _. cbn [fst]. exact C4. }
  split.
  - intros pre n post Hsplit Hn Hpost. rewrite Hc, Hsplit.
    apply pickCursor_deepest; assumption.
  - intros Hnone. rewrite Hc. apply pickCursor_none. exact Hnone.
Qed.

Lemma cursor_of_the_deepest_node_witness :
  ps_cursor (fst (update (over button) true false fresh)) = "pointer" /\
  ps_cursor (fst (update (over shy) false false fresh)) = "crosshair".
Proof.
  split.
  - assert (Hret : snd (update (over button) true false fresh) = false) by reflexivity.
    refine (proj1 (cursor_of_the_deepest_node (over button) true false fresh Hret)
              [root; panel] button [] eq_refl eq_refl _).
    constructor.
  - assert (Hret : snd (update (over shy) false false fresh) = false) by reflexivity.
    refine (proj1 (cursor_of_the_deepest_node (over shy) false false fresh Hret)
              [] root [panel; shy] eq_refl eq_refl _).
    repeat constructor.
Defined.

(** *** Press and release *)

(** With the pointer already over the nodes of the active path, an update
    starts at the cursor. *)
Lemma steady_update (hit : option Hit) (pressed released : bool) (s : PState) :
  let newPath := match hit with Some h => getAncestorPath h | None => [] end in
  ids newPath = ids (ps_activePath s) ->
  update hit pressed released s =
    let s := setCursor newPath s in
    let '(s, threw) := if pressed then downAll (rev newPath) s else (s, false) in
    if threw then (s, true) else
    if released then
      let '(s, threw) := upAll (ps_pressedNodes s) s in
      if threw then (s, true) else (set_ps_pressedNodes [] s, false)
    else (s, false).
Proof.
  intros newPath Hids. unfold update. fold newPath.
  rewrite (divergence_same_ids _ _ Hids).
  assert (Hlen : length newPath = length (ps_activePath s)).
  { apply (f_equal (@length nat)) in Hids. unfold ids in Hids.
    rewrite !length_map in Hids. exact Hids. }
  rewrite Hlen at 1. rewrite !drop_all. reflexivity.
Qed.

Lemma downAll_quiet nodes s :
  Forall (fun m => quiet (pn_onPointerDown m)) nodes ->
  snd (downAll nodes s) = false /\
  ps_calls (fst (downAll nodes s)) = ps_calls s ++ callsOf DOWN pn_onPointerDown nodes /\
  ps_pressedNodes (fst (downAll nodes s)) =
    fold_left (fun l m => set_add m l)
      (List.filter hasDown nodes)
      (ps_pressedNodes s).
Proof.
  intros H. revert s. induction H as [|n nodes Hn _ IH]; intros s.
  - simpl. rewrite app_nil_r. repeat split.
  - cbn [downAll List.filter]. destruct Hn as [Hh|Hh]; rewrite Hh;
      unfold hasDown at 1; rewrite ?Hh;
      cbn [fire ps_stopped set_ps_pressedNodes];
      match goal with
      | |- context [downAll nodes ?s1] => destruct (IH s1) as (I1 & I2 & I3)
      end;
      rewrite I1, I2, I3; unfold callsOf; cbn [flat_map]; rewrite Hh;
      cbn [ps_calls ps_pressedNodes set_ps_pressedNodes fold_left app];
      rewrite <- ?app_assoc; repeat split.
Qed.

Lemma downAll_app quietNodes rest s :
  Forall (fun m => quiet (pn_onPointerDown m)) quietNodes ->
  downAll (quietNodes ++ rest) s = downAll rest (fst (downAll quietNodes s)).
Proof.
  intros H. revert s. induction H as [|n nodes Hn _ IH]; intros s; [reflexivity|].
  cbn [app downAll]. destruct Hn as [Hh|Hh]; rewrite Hh;
    cbn [fire ps_stopped set_ps_pressedNodes]; apply IH.
Qed.

(** X16.  With the pointer resting on a path, a press calls the down
    handlers from the leaf up and ends at the first one that stops the
    event: the nodes above it are not called.  Every node whose handler was
    called is added to the pressed nodes. *)
Theorem press_bubbles_until_stopped (hit : option Hit) (s : PState) below n above :
  let newPath := match hit with Some h => getAncestorPath h | None => [] end in
  ids newPath = ids (ps_activePath s) ->
  rev newPath = below ++ n :: above ->
  Forall (fun m => quiet (pn_onPointerDown m)) below ->
  pn_onPointerDown n = Some Stops ->
  snd (update hit true false s) = false /\
  ps_calls (fst (update hit true false s)) =
    ps_calls s ++ callsOf DOWN pn_onPointerDown below ++ [(DOWN, pn_id n)] /\
  ps_pressedNodes (fst (update hit true false s)) =
    fold_left (fun l m => set_add m l)
      (List.filter hasDown below ++ [n])
      (ps_pressedNodes s).
Proof.
  intros newPath Hids Hrev Hquiet Hstop.
  rewrite (steady_update hit true false s Hids). fold newPath. cbv zeta.
  rewrite Hrev. rewrite (downAll_app _ _ _ Hquiet).
  destruct (setCursor_frame newPath s) as (_ & C2 & C3 & _).
  destruct (downAll_quiet below (setCursor newPath s) Hquiet) as (_ & D2 & D3).
  set (s2 := fst (downAll below (setCursor newPath s))) in *. clearbody s2.
  cbn [downAll]. rewrite Hstop. cbn [fire ps_stopped set_ps_pressedNodes fst snd].
  rewrite D2, D3, C2, C3. rewrite fold_left_app. cbn [fold_left].
  rewrite <- app_assoc. repeat split.
Qed.

(** A press on [button], whose handler stops the event: the panel above it
    is not called. *)
Lemma press_bubbles_until_stopped_witness :
  let s := fst (update (over button) false false fresh) in
  ps_calls (fst (update (over button) true false s)) = ps_calls s ++ [(DOWN, 2%nat)] /\
  ids (ps_pressedNodes (fst (update (over button) true false s))) = [2%nat].
Proof.
  intros s.
  assert (Hids : ids [root; panel; button] = ids (ps_activePath s)) by reflexivity.
  assert (Hrev : rev [root; panel; button] = [] ++ button :: [panel; root]) by reflexivity.
  assert (Hq : Forall (fun m => quiet (pn_onPointerDown m)) []) by constructor.
  destruct (press_bubbles_until_stopped (over button) s [] button [panel; root]
              Hids Hrev Hq eq_refl) as (_ & A & B).
  split; [exact A|]. rewrite B. reflexivity.
Defined.

Lemma upAll_quiet nodes s :
  Forall (fun m => quiet (pn_onPointerUp m)) nodes ->
  snd (upAll nodes s) = false /\
  ps_calls (fst (upAll nodes s)) = ps_calls s ++ callsOf UP pn_onPointerUp nodes.
Proof.
  intros H. revert s. induction H as [|n nodes Hn _ IH]; intros s.
  - simpl. rewrite app_nil_r. repeat split.
  - cbn [upAll]. destruct Hn as [Hh|Hh]; rewrite Hh; cbn [fire ps_stopped];
      match goal with
      | |- context [upAll nodes ?s1] => destruct (IH s1) as (I1 & I2)
      end;
      rewrite I1, I2; unfold callsOf; cbn [flat_map]; rewrite Hh;
      cbn [ps_calls app]; rewrite <- ?app_assoc; repeat split.
Qed.

(** X17.  An update with a release that returns ends with no pressed
    node.  With the pointer resting on a path (or on nothing), and up
    handlers that return, the release calls the up handler of every pressed
    node in the order they were pressed, wherever the pointer is now. *)
Theorem release_reaches_the_pressed_nodes (hit : option Hit) (pressed : bool) (s : PState) :
  let newPath := match hit with Some h => getAncestorPath h | None => [] end in
  (snd (update hit pressed true s) = false ->
   ps_pressedNodes (fst (update hit pressed true s)) = []) /\
  (ids newPath = ids (ps_activePath s) ->
   Forall (fun m => quiet (pn_onPointerUp m)) (ps_pressedNodes s) ->
   snd (update hit false true s) = false /\
   ps_calls (fst (update hit false true s)) =
     ps_calls s ++ callsOf UP pn_onPointerUp (ps_pressedNodes s)).
Proof.
  intros newPath. split.
  - unfold update. fold newPath.
    destruct (leaveAll _ s) as [s1 [|]]; [discriminate|].
    destruct (enterAll _ s1) as [s2 [|]]; [discriminate|].
    destruct (if pressed then downAll (rev newPath) (setCursor newPath s2)
              else (setCursor newPath s2, false)) as [s3 [|]]; [discriminate|].
    destruct (upAll (ps_pressedNodes s3) s3) as [s4 [|]]; [discriminate|].
    reflexivity.
  - intros Hids Hquiet.
    rewrite (steady_update hit false true s Hids). fold newPath. cbv zeta.
    destruct (setCursor_frame newPath s) as (_ & C2 & C3 & _).
    rewrite C3.
    destruct (upAll_quiet (ps_pressedNodes s) (setCursor newPath s) Hquiet) as (U1 & U2).
    destruct (upAll (ps_pressedNodes s) (setCursor newPath s)) as [s4 t4].
    cbn [fst snd] in *. subst t4. cbn [fst snd set_ps_pressedNodes ps_calls].
    rewrite U2, C2. repeat split.
Qed.

(** [button] is pressed, the pointer leaves it, and the release outside
    still reaches it. *)
Lemma release_reaches_the_pressed_nodes_witness :
  let s := fst (update None false false
                  (fst (update (over button) true false
                          (fst (update (over button) false false fresh))))) in
  ids (ps_pressedNodes s) = [2%nat] /\
  ps_calls (fst (update None false true s)) = ps_calls s ++ [(UP, 2%nat)] /\
  ps_pressedNodes (fst (update None false true s)) = [].
Proof.
  intros s.
  assert (Hids : ids [] = ids (ps_activePath s)) by reflexivity.
  assert (Hq : Forall (fun m => quiet (pn_onPointerUp m)) (ps_pressedNodes s))
    by (constructor; [right; reflexivity|constructor]).
  destruct (release_reaches_the_pressed_nodes None false s) as (A & B).
  destruct (B Hids Hq) as (B1 & B2).
  split; [reflexivity|]. split; [exact B2|]. exact (A B1).
Defined.

End Pointer.

(** ** Transforming and placing an app *)

Module AppFrames.
Import World App AppSpec AppMethods Keeps.
Local Open Scope Q_scope.

(** *** What a build leaves alone *)

Lemma outside_call a1 a2 cb : keeps outside (call a1 a2 cb).
Proof. unfold call. keeps_auto. Qed.

Lemma outside_emit name a1 a2 : keeps outside (emit name a1 a2).
Proof. unfold emit. pose proof outside_call. keeps_auto. Qed.

Lemma outside_setHotSelf hot : keeps outside (setHotSelf hot).
Proof. unfold setHotSelf, setHot. keeps_auto. Qed.

Lemma outside_on name cb : keeps outside (on name cb).
Proof. unfold on. pose proof outside_setHotSelf. keeps_auto. Qed.

Lemma outside_events_off name cb : keeps outside (events_off name cb).
Proof.
  unfold events_off, mod_world. intros s. simpl.
  destruct (w_events (st_world s) !! name); reflexivity.
Qed.

Lemma outside_onWorldEvent name cb : keeps outside (onWorldEvent name cb).
Proof. unfold onWorldEvent, events_on. keeps_auto. Qed.

Lemma outside_clearEventListeners : keeps outside clearEventListeners.
Proof. unfold clearEventListeners. pose proof outside_events_off. keeps_auto. Qed.

Lemma outside_unbuild : keeps outside unbuild.
Proof.
  unfold unbuild, scene.
  pose proof outside_clearEventListeners. pose proof outside_setHotSelf. keeps_auto.
Qed.

Lemma outside_exec script : keeps outside (exec script).
Proof.
  unfold exec, world_add, scene.
  pose proof outside_on. pose proof outside_onWorldEvent. keeps_auto.
Qed.

Lemma outside_drain fuel : keeps outside (drain fuel).
Proof.
  induction fuel as [|fuel IH]; simpl; [apply of_ret|].
  pose proof outside_emit. keeps_auto.
Qed.

Lemma outside_console_error msg : keeps outside (console_error msg).
Proof. unfold console_error. keeps_auto. Qed.

Section WithCrash.
Variable crash : M unit.
Hypothesis outside_crash : keeps outside crash.

Lemma outside_finish L : keeps outside (finish crash L).
Proof.
  unfold finish, setup, execute, install, scene.
  pose proof outside_unbuild. pose proof outside_exec. pose proof outside_drain.
  pose proof outside_setHotSelf. pose proof outside_console_error.
  keeps_auto.
Qed.

Lemma outside_suspend stage L : keeps outside (suspend stage L).
Proof. intros s. reflexivity. Qed.

Lemma outside_after_model L : keeps outside (after_model crash L).
Proof.
  unfold after_model. pose proof outside_finish. pose proof outside_suspend. keeps_auto.
Qed.

Lemma outside_after_script L : keeps outside (after_script crash L).
Proof.
  unfold after_script.
  pose proof outside_after_model. pose proof outside_suspend. pose proof outside_console_error.
  keeps_auto.
Qed.

Lemma outside_build_body crashed : keeps outside (build_body crash crashed).
Proof.
  unfold build_body.
  pose proof outside_after_script. pose proof outside_suspend.
  keeps_auto.
Qed.

Lemma outside_resume_body p r : keeps outside (resume_body crash p r).
Proof.
  unfold resume_body.
  pose proof outside_after_script. pose proof outside_after_model. pose proof outside_finish.
  pose proof outside_console_error.
  keeps_auto.
Qed.

End WithCrash.

Lemma outside_async m : keeps outside m -> keeps outside (async m).
Proof. intros H. unfold async. keeps_auto. Qed.

Lemma outside_crash : keeps outside crash.
Proof.
  apply outside_async. apply outside_build_body. apply of_ret.
Qed.

Lemma outside_build crashed : keeps outside (build crashed).
Proof. apply outside_async, outside_build_body, outside_crash. Qed.

Lemma outside_resume p r : keeps outside (resume p r).
Proof. apply outside_async, outside_resume_body, outside_crash. Qed.

(** *** Builds that run no script *)

Lemma deafly_of_keeps {A} (m : M A) : keeps tracedDeaf m -> deafly m.
Proof. intros H s _. apply H. Qed.

Lemma deaf_kept s s' : tracedDeaf s' = tracedDeaf s -> deaf s -> deaf s'.
Proof.
  unfold deaf. intros H Hd. apply (f_equal snd) in H. cbn [tracedDeaf snd] in H.
  rewrite H. exact Hd.
Qed.

Lemma deafly_bind {A B} (m : M A) (k : A -> M B) :
  deafly m -> (forall a, deafly (k a)) -> deafly (bind m k).
Proof.
  intros Hm Hk s Hd. rewrite bind_unfold. specialize (Hm s Hd).
  destruct (m s) as [s1 [a|e]]; cbn [fst] in *; [|exact Hm].
  rewrite (Hk a s1 (deaf_kept _ _ Hm Hd)). exact Hm.
Qed.

Lemma deafly_emit name a1 a2 : deafly (emit name a1 a2).
Proof.
  intros s Hd. rewrite Dispatch.emit_unfold. unfold deaf in Hd. rewrite Hd, lookup_empty.
  destruct (inherited name); reflexivity.
Qed.

Lemma deafly_drain fuel : deafly (drain fuel).
Proof.
  induction fuel as [|fuel IH]; cbn [drain]; [apply deafly_of_keeps, of_ret|].
  apply deafly_bind; [apply deafly_of_keeps; keeps_auto|]. intros a.
  destruct (app_eventQueue a) as [|event rest]; [apply deafly_of_keeps, of_ret|].
  destruct (app_blueprint a) as [bp|]; [|apply deafly_of_keeps, of_throw].
  destruct (bp_version bp <? ev_version event)%Z; [apply deafly_of_keeps, of_ret|].
  apply deafly_bind; [apply deafly_of_keeps; keeps_auto|]. intros _.
  apply deafly_bind; [apply deafly_emit|]. intros _. exact IH.
Qed.

Lemma deafly_install mode root : deafly (install mode root).
Proof.
  unfold install, setHotSelf, setHot.
  repeat first
    [ apply deafly_drain
    | apply deafly_bind; [apply deafly_of_keeps; keeps_auto | intros ?] ].
Qed.

Section WithCrash.
Variable crash : M unit.

Lemma execute_idle L mode :
  l_script L = None \/ l_crashed L = true \/ mode <> ACTIVE ->
  execute crash L mode = ret true.
Proof.
  intros H. unfold execute. destruct (l_script L) as [script|]; [|reflexivity].
  destruct H as [H|[H|H]]; [discriminate| |].
  - rewrite H, andb_false_r. reflexivity.
  - destruct mode; try reflexivity. contradiction.
Qed.

Lemma after_refl s : afterBuild s s.
Proof. split; [reflexivity|left; reflexivity]. Qed.

Lemma finish_idle L s : idle L s -> afterBuild s (fst (finish crash L s)).
Proof.
  intros Hidle. unfold finish. rewrite bind_unfold. cbn [get_app].
  destruct (negb (Nat.eqb (app_n (st_app s)) (l_n L))); [apply after_refl|].
  rewrite bind_unfold, Destroy.unbuild_unbuilt.
  set (s1 := DestroySpec.unbuilt s).
  assert (Ht : traced s1 = traced s) by (destruct s as [a w p r]; reflexivity).
  assert (Hd : deaf s1) by reflexivity.
  assert (Hmode : l_script L = None \/ l_crashed L = true \/
                  build_mode (app_data (st_app s1)) (w_netid (st_world s1)) <> ACTIVE).
  { destruct Hidle as [H|[H|H]]; [left; exact H|right; left; exact H|right; right].
    unfold buildsInactive in H. destruct s as [a w p r]. exact H. }
  clearbody s1.
  assert (Hrest : tracedDeaf
            (fst ((r <- setup L;;
                   continue <- execute crash L (fst r);;
                   if continue : bool then
                     install (fst r) (snd r);; mod_app (set_app_building false)
                   else ret tt) s1)) = tracedDeaf s1).
  { rewrite bind_unfold. unfold setup at 1. rewrite bind_unfold. cbn [get_app].
    rewrite bind_unfold. cbn [get_world].
    destruct (l_root L) as [root0|].
    - rewrite bind_unfold. unfold mod_app at 1. rewrite bind_unfold.
      unfold scene at 1, mod_world at 1. unfold ret at 1. cbn [fst snd].
      rewrite bind_unfold, (execute_idle L _ Hmode). unfold ret at 1.
      match goal with |- tracedDeaf (fst (?m ?s2)) = _ =>
        assert (Hs2 : tracedDeaf s2 = tracedDeaf s1)
          by (destruct s1 as [a w p r]; reflexivity);
        rewrite <- Hs2;
        apply (deafly_bind (install _ _) (fun _ => mod_app (set_app_building false)));
          [apply deafly_install
          |intros _; apply deafly_of_keeps; keeps_auto
          |exact (deaf_kept _ _ Hs2 Hd)]
      end.
    - rewrite bind_unfold. unfold mod_app at 1, throw. cbn [fst].
      destruct s1 as [a w p r]; reflexivity. }
  split.
  - apply (f_equal fst) in Hrest. cbn [tracedDeaf fst] in Hrest. rewrite Hrest. exact Ht.
  - right. exact (deaf_kept _ _ Hrest Hd).
Qed.

Lemma idle_traced L s s1 : traced s1 = traced s -> idle L s -> idle L s1.
Proof.
  intros Ht [H|[H|H]]; [left; exact H|right; left; exact H|right; right].
  unfold buildsInactive in *. unfold traced in Ht.
  assert (Hd : app_data (st_app s1) = app_data (st_app s))
    by (apply (f_equal (fun x => snd (fst x))) in Ht; exact Ht).
  assert (Hn : w_netid (st_world s1) = w_netid (st_world s))
    by (apply (f_equal snd) in Ht; exact Ht).
  rewrite Hd, Hn. exact H.
Qed.

Lemma idle_root L root s : idle L s -> idle (set_l_root root L) s.
Proof. intros H. exact H. Qed.

(** A step before the build proper, which leaves the trace, the mode and
    the listeners. *)
Lemma after_pre s s1 s' :
  traced s1 = traced s -> app_mode (st_app s1) = app_mode (st_app s) ->
  afterBuild s1 s' -> afterBuild s s'.
Proof.
  intros Ht Hm [H1 H2]. split; [rewrite H1; exact Ht|].
  destruct H2 as [H2|H2]; [left; rewrite H2; exact Hm|right; exact H2].
Qed.

Lemma after_suspend stage L s : afterBuild s (fst (suspend stage L s)).
Proof. split; [destruct s as [a w p r]; reflexivity|left; reflexivity]. Qed.

Lemma after_model_idle L s : idle L s -> afterBuild s (fst (after_model crash L s)).
Proof.
  intros Hidle. unfold after_model.
  destruct (l_crashed L || negb (bool_decide (is_Some (l_root L)))).
  - rewrite bind_unfold. cbn [get_world].
    destruct (bool_decide (("model", crashBlockUrl) ∈ w_glbs (st_world s))).
    + apply finish_idle. exact Hidle.
    + apply after_suspend.
  - apply finish_idle. exact Hidle.
Qed.

Lemma after_script_idle L s : idle L s -> afterBuild s (fst (after_script crash L s)).
Proof.
  intros Hidle. unfold after_script. rewrite bind_unfold. cbn [get_app].
  rewrite bind_unfold. cbn [get_world].
  destruct (uploaderIsOther (app_data (st_app s)) (w_netid (st_world s))).
  - apply after_model_idle. exact Hidle.
  - destruct (bp_model (l_blueprint L)) as [model|].
    + destruct (bool_decide ((modelType model, model) ∈ w_glbs (st_world s))).
      * apply after_model_idle. exact Hidle.
      * apply after_suspend.
    + rewrite bind_unfold. unfold console_error at 1, mod_world at 1.
      match goal with |- afterBuild _ (fst (after_model _ _ ?s1)) =>
        apply (after_pre s s1); [destruct s as [a w p r]; reflexivity|reflexivity|];
        apply after_model_idle; apply (idle_traced L s);
          [destruct s as [a w p r]; reflexivity|exact Hidle]
      end.
Qed.

Lemma build_body_idle crashed s :
  crashed = true \/ scriptless s \/ buildsInactive s ->
  afterBuild (counted s) (fst (build_body crash crashed s)).
Proof.
  intros Hidle. unfold build_body. rewrite bind_unfold. unfold mod_app at 1.
  fold (counted s). rewrite bind_unfold. cbn [get_app]. rewrite bind_unfold. cbn [get_world].
  assert (Hbp : w_blueprints (st_world (counted s)) !! d_blueprint (app_data (st_app (counted s)))
                = w_blueprints (st_world s) !! d_blueprint (app_data (st_app s)))
    by (destruct s as [a w p r]; reflexivity).
  rewrite Hbp.
  destruct (w_blueprints (st_world s) !! d_blueprint (app_data (st_app s))) as [bp|] eqn:Hl;
    [|apply after_refl].
  rewrite bind_unfold.
  match goal with |- afterBuild _ (fst (?m ?x)) => set (s1 := x) end.
  assert (Ht : traced s1 = traced (counted s)) by (destruct s as [a w p r]; reflexivity).
  assert (Hm : app_mode (st_app s1) = app_mode (st_app (counted s)))
    by (destruct s as [a w p r]; reflexivity).
  assert (Hin : buildsInactive s -> buildsInactive s1)
    by (destruct s as [a w p r]; exact (fun H => H)).
  apply (after_pre (counted s) s1 _ Ht Hm). clearbody s1.
  destruct (JS.truthy (bp_script bp)) eqn:Hscript.
  - assert (Hc : crashed = true \/ buildsInactive s1).
    { destruct Hidle as [H|[H|H]]; [left; exact H| |right; exact (Hin H)].
      rewrite (H bp Hl) in Hscript. discriminate. }
    destruct (w_scripts _ !! _) as [script|]; [|apply after_suspend].
    apply after_script_idle. destruct Hc as [H|H]; [right; left; exact H|right; right; exact H].
  - apply after_script_idle. left. reflexivity.
Qed.

Lemma resume_body_idle p r s :
  idle (pd_locals p) s -> (forall script, r <> ResolvedScript script) ->
  afterBuild s (fst (resume_body crash p r s)).
Proof.
  intros Hidle Hr. unfold resume_body.
  destruct (pd_stage p), r as [script| |err];
    try (exfalso; exact (Hr script eq_refl)); try apply after_refl.
  - rewrite bind_unfold. unfold console_error at 1, mod_world at 1.
    match goal with |- afterBuild _ (fst (after_script _ _ ?s1)) =>
      apply (after_pre s s1); [destruct s as [a w q r]; reflexivity|reflexivity|];
      apply after_script_idle; right; left; reflexivity
    end.
  - destruct (bp_model (l_blueprint (pd_locals p))); apply after_model_idle; exact Hidle.
  - rewrite bind_unfold. unfold console_error at 1, mod_world at 1.
    match goal with |- afterBuild _ (fst (after_model _ _ ?s1)) =>
      apply (after_pre s s1); [destruct s as [a w q r]; reflexivity|reflexivity|];
      apply after_model_idle; apply (idle_traced _ s);
        [destruct s as [a w q r]; reflexivity|exact Hidle]
    end.
  - apply finish_idle. exact Hidle.
Qed.

End WithCrash.

Lemma after_async m s s0 :
  afterBuild s0 (fst (m s)) -> afterBuild s0 (fst (async m s)).
Proof.
  intros H. unfold async, try_catch. destruct (m s) as [s1 [[]|err]]; [exact H|].
  unfold mod_world. cbn [fst] in *. destruct H as [H1 H2]. split.
  - rewrite <- H1. destruct s1 as [a w p r]; reflexivity.
  - destruct H2 as [H2|H2]; [left; exact H2|right; exact H2].
Qed.

Lemma build_idle crashed s :
  crashed = true \/ scriptless s \/ buildsInactive s ->
  afterBuild (counted s) (fst (build crashed s)).
Proof. intros H. apply after_async, build_body_idle, H. Qed.

Lemma resume_idle p r s :
  idle (pd_locals p) s -> (forall script, r <> ResolvedScript script) ->
  afterBuild s (fst (resume p r s)).
Proof. intros H Hr. apply after_async, resume_body_idle; assumption. Qed.

Lemma after_trace s0 s' :
  afterBuild s0 s' ->
  scriptTrace s' = scriptTrace s0.
Proof. intros [H _]. apply (f_equal (fun x => fst (fst x))) in H. exact H. Qed.

(** X18.  A build that executes no script (it starts out crashed, the
    blueprint of the app names no script, or the mode it builds is not
    ACTIVE) returns to its caller without a throw, calls no callback of a
    script, leaves the script the app holds, advances the generation by
    one, and leaves the entity's record, the packets sent, the entity
    store, the blueprint registry and the network id as they were; so does,
    without advancing the generation, such a build resumed after the await
    of its model or crash block, or of a script that failed to load. *)
Theorem build_without_a_script (crashed : bool) (p : Pending) (r : Settled) (s : St) :
  (crashed = true \/ scriptless s \/ buildsInactive s ->
   snd (build crashed s) = Ok tt /\
   outside (fst (build crashed s)) = outside s /\
   scriptTrace (fst (build crashed s)) =
     (w_calls (st_world s), app_script (st_app s), S (app_n (st_app s)))) /\
  (idle (pd_locals p) s -> (forall script, r <> ResolvedScript script) ->
   snd (resume p r s) = Ok tt /\
   outside (fst (resume p r s)) = outside s /\
   scriptTrace (fst (resume p r s)) = scriptTrace s).
Proof.
  split.
  - intros Hidle. split; [apply (async_never_throws _ s)|].
    split; [apply outside_build|].
    rewrite (after_trace _ _ (build_idle crashed s Hidle)).
    destruct s as [a w q r0]; reflexivity.
  - intros Hidle Hr. split; [apply (async_never_throws _ s)|].
    split; [apply outside_resume|].
    apply after_trace, resume_idle; assumption.
Qed.

Lemma build_without_a_script_witness :
  scriptTrace (fst (build true Examples.built)) =
    (w_calls (st_world Examples.built), app_script (st_app Examples.built),
     S (app_n (st_app Examples.built))) /\
  scriptTrace (fst (resume (mkPending AwaitModel (mkLocals 1 Examples.bp1 false None None))
                      ResolvedGlb Examples.loading)) =
    scriptTrace Examples.loading.
Proof.
  pose (p := mkPending AwaitModel (mkLocals 1 Examples.bp1 false None None)).
  assert (H1 : true = true \/ scriptless Examples.built \/ buildsInactive Examples.built)
    by (left; reflexivity).
  assert (H2 : idle (pd_locals p) Examples.loading) by (left; reflexivity).
  assert (H3 : forall script, ResolvedGlb <> ResolvedScript script) by (intros script; discriminate).
  destruct (build_without_a_script true p ResolvedGlb Examples.built) as [A _].
  destruct (build_without_a_script true p ResolvedGlb Examples.loading) as [_ B].
  split; [exact (proj2 (proj2 (A H1)))|exact (proj2 (proj2 (B H2 H3)))].
Defined.

(** *** [move], [rotate], [scale] *)

Lemma mover_builds_inactive d netid :
  JS.truthy (d_mover d) = true -> build_mode d netid <> ACTIVE.
Proof.
  intros Hm. unfold build_mode. rewrite Hm.
  destruct (uploaderIsOther d netid); [discriminate|].
  destruct (JS.seq (d_transformMode d) (Some "rotate")); [discriminate|].
  destruct (JS.seq (d_transformMode d) (Some "scale")); discriminate.
Qed.

Lemma startTransform_spec mode s :
  w_netid (st_world s) <> EmptyString ->
  let s' := fst (startTransform mode s) in
  let netid := w_netid (st_world s) in
  snd (startTransform mode s) = Ok tt /\
  app_data (st_app s') =
    set_d_transformMode (Some mode) (set_d_mover (Some netid) (app_data (st_app s))) /\
  w_sent (st_world s') =
    w_sent (st_world s) ++ [transformPacket (d_id (app_data (st_app s))) netid mode] /\
  scriptTrace s' = (w_calls (st_world s), app_script (st_app s), S (app_n (st_app s))).
Proof.
  intros Hnet.
  unfold startTransform, mod_data, mod_app, get_world, get_app, network_send, mod_world, bind.
  cbn -[build].
  match goal with |- context [build false ?x] => set (s1 := x) end.
  pose proof (async_never_throws (build_body crash false) s1) as Hok.
  pose proof (outside_build false s1) as Hout.
  assert (Hin : buildsInactive s1).
  { unfold buildsInactive. apply mover_builds_inactive. subst s1. cbn.
    unfold JS.truthy. destruct (String.eqb_spec (w_netid (st_world s)) EmptyString);
      [contradiction|reflexivity]. }
  pose proof (after_trace _ _ (build_idle false s1 (or_intror (or_intror Hin)))) as Htrace.
  unfold result_M in Hok. fold (build false) in Hok.
  destruct (build false s1) as [s2 res]. cbn [fst snd] in *. subst res.
  unfold outside in Hout. injection Hout as Hd Hs _ _ _.
  unfold scriptTrace in *. injection Htrace as Hc Hsc Hn.
  cbn. rewrite Hd, Hs, Hc, Hsc, Hn. subst s1. cbn. repeat split.
Qed.

(** X19.  With a network id, [move], [rotate] and [scale] store it
    as the mover and their transform mode in the entity's record, start a
    build, which advances the generation by one and, its mode not being
    ACTIVE, runs no script code, and then announce both in one
    entityModified packet, the only packet sent. *)
Theorem transform_is_announced (s : St) :
  w_netid (st_world s) <> EmptyString ->
  let id := d_id (app_data (st_app s)) in
  let netid := w_netid (st_world s) in
  Forall (fun '(mode, method) =>
            snd (method s) = Ok tt /\
            d_mover (app_data (st_app (fst (method s)))) = Some netid /\
            d_transformMode (app_data (st_app (fst (method s)))) = Some mode /\
            w_sent (st_world (fst (method s))) =
              w_sent (st_world s) ++ [transformPacket id netid mode] /\
            scriptTrace (fst (method s)) =
              (w_calls (st_world s), app_script (st_app s), S (app_n (st_app s))))
         [("move", move); ("rotate", rotate); ("scale", scale)].
Proof.
  intros Hnet id netid.
  repeat constructor;
    match goal with
    | |- snd (?m s) = _ => apply (startTransform_spec _ s Hnet)
    | |- d_mover _ = _ =>
        unfold move, rotate, scale;
        rewrite (proj1 (proj2 (startTransform_spec _ s Hnet))); reflexivity
    | |- d_transformMode _ = _ =>
        unfold move, rotate, scale;
        rewrite (proj1 (proj2 (startTransform_spec _ s Hnet))); reflexivity
    | |- w_sent _ = _ => apply (startTransform_spec _ s Hnet)
    | |- scriptTrace _ = _ => apply (startTransform_spec _ s Hnet)
    end.
Qed.

(** On the built example app, [move] leaves generation 3 behind: the
    construction was the first build, the arrival of the model resumed it,
    and here is the next. *)
Lemma transform_is_announced_witness :
  w_sent (st_world (fst (move Examples.built))) =
    [transformPacket "app1" "me" "move"] /\
  app_n (st_app (fst (move Examples.built))) = S (app_n (st_app Examples.built)).
Proof.
  assert (Hnet : w_netid (st_world Examples.built) <> EmptyString) by discriminate.
  pose proof (transform_is_announced Examples.built Hnet) as H.
  apply Forall_cons_1 in H. destruct H as [(_ & _ & _ & Hs & Ht) _].
  split; [exact Hs|exact (f_equal snd Ht)].
Defined.

(** *** [on] and [off] *)

Lemma set_delete_absent cb l :
  Forall (fun c => cb_id c <> cb_id cb) l -> set_delete cb l = l.
Proof.
  unfold set_delete. induction 1 as [|c l Hc _ IH]; [reflexivity|].
  simpl. apply Nat.eqb_neq in Hc. rewrite Hc. simpl. f_equal. exact IH.
Qed.

Lemma set_add_absent cb l :
  Forall (fun c => cb_id c <> cb_id cb) l -> set_add cb l = l ++ [cb].
Proof.
  unfold set_add. intros H.
  assert (He : existsb (fun c => Nat.eqb (cb_id c) (cb_id cb)) l = false).
  { induction H as [|c l Hc _ IH]; [reflexivity|].
    simpl. apply Nat.eqb_neq in Hc. rewrite Hc. exact IH. }
  rewrite He. reflexivity.
Qed.

Lemma set_delete_add cb l :
  Forall (fun c => cb_id c <> cb_id cb) l -> set_delete cb (set_add cb l) = l.
Proof.
  intros H. rewrite (set_add_absent cb l H). unfold set_delete.
  rewrite List.filter_app. simpl. rewrite Nat.eqb_refl. simpl. rewrite app_nil_r.
  apply set_delete_absent. exact H.
Qed.

Lemma set_add_again cb l : set_add cb (set_add cb l) = set_add cb l.
Proof.
  unfold set_add at 2.
  destruct (existsb (fun c => Nat.eqb (cb_id c) (cb_id cb)) l) eqn:He.
  - unfold set_add. rewrite He. reflexivity.
  - unfold set_add. rewrite existsb_app, He. simpl. rewrite Nat.eqb_refl. reflexivity.
Qed.

Lemma set_delete_gone cb l :
  Forall (fun c => cb_id c <> cb_id cb) (set_delete cb l).
Proof.
  unfold set_delete. apply List.Forall_forall. intros c Hc.
  apply List.filter_In in Hc. destruct Hc as (_ & Hc).
  apply negb_true_iff, Nat.eqb_neq in Hc. exact Hc.
Qed.

Ltac proj_cbn :=
  cbn [fst snd st_app st_world set_st_app set_st_world
       set_app_listeners set_app_hotEvents set_w_hot
       app_listeners app_hotEvents app_data w_hot d_id].

Lemma hot_not_inherited name :
  includes hotEventNames name = true -> inherited name = false.
Proof.
  unfold includes, hotEventNames. cbn [existsb]. intros H.
  repeat (apply orb_prop in H; destruct H as [H|H]);
    try discriminate; apply String.eqb_eq in H; subst name; reflexivity.
Qed.

Lemma asSet_plain name what s : inherited name = false -> asSet name what s = (s, Ok tt).
Proof.
  intros H. unfold asSet. rewrite bind_unfold. cbn [get_app].
  destruct (app_listeners (st_app s) !! name); [reflexivity|]. rewrite H. reflexivity.
Qed.

Lemma asSet_inherited name what s :
  inherited name = true -> app_listeners (st_app s) !! name = None ->
  asSet name what s = (s, Threw what).
Proof.
  intros H Hl. unfold asSet. rewrite bind_unfold. cbn [get_app]. rewrite Hl, H. reflexivity.
Qed.

Lemma asSet_own name what s l :
  app_listeners (st_app s) !! name = Some l -> asSet name what s = (s, Ok tt).
Proof.
  intros Hl. unfold asSet. rewrite bind_unfold. cbn [get_app]. rewrite Hl. reflexivity.
Qed.

(** The state after [on]. *)
Lemma on_spec name cb s :
  inherited name = false ->
  let s' := fst (on name cb s) in
  snd (on name cb s) = Ok tt /\
  app_listeners (st_app s') !! name = Some (set_add cb (listenersOf name s)) /\
  d_id (app_data (st_app s')) = d_id (app_data (st_app s)) /\
  app_hotEvents (st_app s') =
    (if includes hotEventNames name then app_hotEvents (st_app s) + 1
     else app_hotEvents (st_app s))%Z /\
  w_hot (st_world s') =
    (if includes hotEventNames name then
       if (0 <? app_hotEvents (st_app s) + 1)%Z
       then {[ d_id (app_data (st_app s)) ]} ∪ w_hot (st_world s)
       else w_hot (st_world s) ∖ {[ d_id (app_data (st_app s)) ]}
     else w_hot (st_world s)).
Proof.
  intros Hplain. unfold on. rewrite bind_unfold, (asSet_plain _ _ _ Hplain).
  unfold listenersOf, setHotSelf, setHot, mod_app, mod_world, get_app, bind, ret.
  destruct (includes hotEventNames name); proj_cbn; rewrite lookup_insert_eq;
    repeat split.
Qed.

(** The state after [off] for a name that has a set of listeners. *)
Lemma off_spec name cb s l :
  app_listeners (st_app s) !! name = Some l ->
  let s' := fst (off name cb s) in
  snd (off name cb s) = Ok tt /\
  listenersOf name s' = set_delete cb l /\
  app_hotEvents (st_app s') =
    (if includes hotEventNames name then app_hotEvents (st_app s) - 1
     else app_hotEvents (st_app s))%Z /\
  w_hot (st_world s') =
    (if includes hotEventNames name then
       if (0 <? app_hotEvents (st_app s) - 1)%Z
       then {[ d_id (app_data (st_app s)) ]} ∪ w_hot (st_world s)
       else w_hot (st_world s) ∖ {[ d_id (app_data (st_app s)) ]}
     else w_hot (st_world s)) /\
  d_id (app_data (st_app s')) = d_id (app_data (st_app s)).
Proof.
  intros Hl. unfold off. rewrite bind_unfold, (asSet_own _ _ _ _ Hl).
  unfold listenersOf, setHotSelf, setHot, mod_app, mod_world, get_app, bind, ret.
  proj_cbn. rewrite Hl.
  destruct (includes hotEventNames name); proj_cbn; rewrite lookup_insert_eq;
    repeat split.
Qed.

(** X20.  For a name that no object inherits, [off] after [on] of a
    callback that was not registered for the name gives back the listeners
    of the name and the count of hot listeners; for one of the three frame
    events the app is then in the hot set exactly when that count is
    positive.  For a name inherited from [Object.prototype], such as
    "toString", [on] and [off] throw a TypeError and change nothing. *)
Theorem on_then_off (name : string) (cb : Callback) (s : St) :
  (inherited name = false ->
   Forall (fun c => cb_id c <> cb_id cb) (listenersOf name s) ->
   let s' := fst (off name cb (fst (on name cb s))) in
   snd (on name cb s) = Ok tt /\
   snd (off name cb (fst (on name cb s))) = Ok tt /\
   listenersOf name s' = listenersOf name s /\
   app_hotEvents (st_app s') = app_hotEvents (st_app s) /\
   (includes hotEventNames name = true ->
    (d_id (app_data (st_app s)) ∈ w_hot (st_world s') <-> (0 < app_hotEvents (st_app s))%Z))) /\
  (inherited name = true ->
   app_listeners (st_app s) !! name = None ->
   on name cb s = (s, Threw "TypeError: this.listeners[name].add is not a function") /\
   off name cb s = (s, Threw "TypeError: this.listeners[name].delete is not a function")).
Proof.
  split.
  - intros Hplain Hnew s'.
    destruct (on_spec name cb s Hplain) as (O0 & O1 & O2 & O3 & O4).
    destruct (off_spec name cb _ _ O1) as (F0 & F1 & F2 & F3 & _).
    fold s' in F1, F2, F3.
    split; [exact O0|]. split; [exact F0|]. split; [|split].
    + rewrite F1. apply set_delete_add. exact Hnew.
    + rewrite F2, O3. destruct (includes hotEventNames name); lia.
    + intros Hhot. rewrite F3, O2, O3, O4, Hhot.
      replace (app_hotEvents (st_app s) + 1 - 1)%Z with (app_hotEvents (st_app s)) by lia.
      destruct (Z.ltb_spec 0 (app_hotEvents (st_app s))) as [Hpos|Hnpos].
      * split; [intros _; exact Hpos|intros _; set_solver].
      * split; [intros Hin; set_solver|intros H; lia].
  - intros Hin Hl. split.
    + unfold on. rewrite bind_unfold, (asSet_inherited _ _ _ Hin Hl). reflexivity.
    + unfold off. rewrite bind_unfold, (asSet_inherited _ _ _ Hin Hl). reflexivity.
Qed.

Lemma on_then_off_witness :
  let s := Examples.built in
  let cb := mkCallback 77 false in
  let s' := fst (off "update" cb (fst (on "update" cb s))) in
  (listenersOf "update" s' = listenersOf "update" s /\
   app_hotEvents (st_app s') = app_hotEvents (st_app s)) /\
  on "toString" cb s = (s, Threw "TypeError: this.listeners[name].add is not a function").
Proof.
  intros s cb s'.
  assert (Hplain : inherited "update" = false) by reflexivity.
  assert (Hnew : Forall (fun c => cb_id c <> cb_id cb) (listenersOf "update" s))
    by (vm_compute; constructor).
  assert (Hin : inherited "toString" = true) by reflexivity.
  assert (Hl : app_listeners (st_app s) !! "toString" = None) by reflexivity.
  destruct (proj1 (on_then_off "update" cb s) Hplain Hnew) as (_ & _ & H1 & H2 & _).
  split; [split; [exact H1|exact H2]|].
  exact (proj1 (proj2 (on_then_off "toString" cb s) Hin Hl)).
Defined.

(** X21.  The count of hot listeners follows the calls, not the
    set: after a callback is registered twice for a frame event and
    removed once, it is no longer a listener, the count is one above what
    it was, and the app is in the hot set whenever the count was not
    negative. *)
Theorem on_twice_off_once (name : string) (cb : Callback) (s : St) :
  includes hotEventNames name = true ->
  let s' := fst (off name cb (fst (on name cb (fst (on name cb s))))) in
  Forall (fun c => cb_id c <> cb_id cb) (listenersOf name s') /\
  app_hotEvents (st_app s') = (app_hotEvents (st_app s) + 1)%Z /\
  ((0 <= app_hotEvents (st_app s))%Z -> d_id (app_data (st_app s)) ∈ w_hot (st_world s')).
Proof.
  intros Hhot s'. pose proof (hot_not_inherited name Hhot) as Hplain.
  destruct (on_spec name cb s Hplain) as (_ & A1 & A2 & A3 & _).
  set (s1 := fst (on name cb s)) in *.
  destruct (on_spec name cb s1 Hplain) as (_ & B1 & B2 & B3 & _).
  set (s2 := fst (on name cb s1)) in *.
  destruct (off_spec name cb s2 _ B1) as (_ & F1 & F2 & F3 & _).
  fold s' in F1, F2, F3. rewrite Hhot in *.
  split; [rewrite F1; apply set_delete_gone|].
  split; [rewrite F2, B3, A3; lia|].
  intros Hpos. rewrite F3, B2, A2, B3, A3.
  destruct (Z.ltb_spec 0 (app_hotEvents (st_app s) + 1 + 1 - 1)) as [_|Hn]; [|lia].
  set_solver.
Qed.

Lemma on_twice_off_once_witness :
  let s := Examples.loading in
  let cb := mkCallback 77 false in
  let s' := fst (off "update" cb (fst (on "update" cb (fst (on "update" cb s))))) in
  listenersOf "update" s' = [] /\
  app_hotEvents (st_app s') = 1%Z /\
  d_id (app_data (st_app s)) ∈ w_hot (st_world s').
Proof.
  intros s cb s'.
  assert (Hhot : includes hotEventNames "update" = true) by reflexivity.
  destruct (on_twice_off_once "update" cb s Hhot) as (_ & H2 & H3).
  split; [reflexivity|]. split; [exact H2|]. apply H3. vm_compute. discriminate.
Defined.

(** *** [update] *)

Section Frames.
Variable addRotationY : Q -> Quat -> Quat.
Variable addRotationX : Q -> Quat -> Quat.
Variable interpolate :
  Q -> LerpVector3 * LerpQuaternion * option Node -> LerpVector3 * LerpQuaternion * option Node.

Abbreviation update := (AppMethods.update addRotationY addRotationX interpolate).
Abbreviation handleRotate := (AppMethods.handleRotate addRotationY addRotationX).

Lemma outside_followMover delta : keeps outside (followMover interpolate delta).
Proof.
  unfold followMover. keeps_auto.
Qed.

Lemma outside_scriptFrame name text delta : keeps outside (scriptFrame name text delta).
Proof.
  unfold scriptFrame.
  pose proof outside_emit. pose proof outside_console_error. pose proof outside_crash.
  keeps_auto.
Qed.

Lemma scriptFrame_returns name text delta s : snd (scriptFrame name text delta s) = Ok tt.
Proof.
  unfold scriptFrame. rewrite bind_unfold. cbn [get_app].
  destruct (scriptIsActive (st_app s)); [|reflexivity].
  unfold try_catch. destruct (emit name (ANum delta) AUndef s) as [s1 [[]|err]]; [reflexivity|].
  rewrite bind_unfold. unfold console_error at 1, mod_world at 1.
  rewrite bind_unfold. unfold console_error at 1, mod_world at 1.
  apply (async_never_throws (build_body (ret tt) true)).
Qed.

(** A frame of the script that has no listener to call. *)
Lemma scriptFrame_idle name text delta s :
  inherited name = false ->
  scriptIsActive (st_app s) = false \/ listenersOf name s = [] ->
  scriptFrame name text delta s = (s, Ok tt).
Proof.
  intros Hplain H. unfold scriptFrame. rewrite bind_unfold. cbn [get_app].
  destruct (scriptIsActive (st_app s)); [|reflexivity].
  destruct H as [H|H]; [discriminate|].
  unfold try_catch. rewrite Dispatch.emit_unfold. unfold listenersOf in H.
  destruct (app_listeners (st_app s) !! name) as [cbs|].
  - cbn [default from_option id] in H. rewrite H. reflexivity.
  - rewrite Hplain. reflexivity.
Qed.

(** X22.  On a client that is not the mover of the app, and with
    no listener of the script's update to call (the app is not ACTIVE, or
    nothing listens to "update"), [update] is the interpolation step and
    nothing else: it calls no callback, leaves the entity's record as it
    was and sends no packet; for an app nobody moves it changes nothing
    at all. *)
Theorem update_of_a_bystander (fr : Frame) (delta : Q) (s : St) :
  JS.seq (d_mover (app_data (st_app s))) (Some (w_netid (st_world s))) = false ->
  scriptIsActive (st_app s) = false \/ listenersOf "update" s = [] ->
  update fr delta s = followMover interpolate delta s /\
  outside (fst (update fr delta s)) = outside s /\
  w_calls (st_world (fst (update fr delta s))) = w_calls (st_world s) /\
  (d_mover (app_data (st_app s)) = None -> update fr delta s = (s, Ok tt)).
Proof.
  intros Hmover Hidle.
  assert (Hupd : update fr delta s = followMover interpolate delta s).
  { unfold AppMethods.update.
    rewrite bind_unfold. cbn [get_app]. rewrite bind_unfold. cbn [get_world].
    rewrite Hmover. rewrite bind_unfold. cbn [ret]. rewrite bind_unfold.
    unfold followMover. rewrite bind_unfold. cbn [get_app]. rewrite bind_unfold.
    cbn [get_world].
    destruct (JS.truthy (d_mover (app_data (st_app s))) &&
              negb (JS.seq (d_mover (app_data (st_app s))) (Some (w_netid (st_world s))))).
    - destruct (app_networkPos (st_app s)) as [lp|]; [|reflexivity].
      destruct (app_networkQuat (st_app s)) as [lq|]; [|reflexivity].
      destruct (interpolate delta (lp, lq, app_root (st_app s))) as [[lp' lq'] root'].
      unfold mod_app. apply scriptFrame_idle; [reflexivity|].
      destruct s as [a w p r]; destruct a; exact Hidle.
    - cbn [ret]. apply scriptFrame_idle; [reflexivity|exact Hidle]. }
  split; [exact Hupd|]. split; [|split].
  - rewrite Hupd. apply outside_followMover.
  - rewrite Hupd. unfold followMover. rewrite bind_unfold. cbn [get_app]. rewrite bind_unfold.
    cbn [get_world].
    destruct (JS.truthy (d_mover (app_data (st_app s))) &&
              negb (JS.seq (d_mover (app_data (st_app s))) (Some (w_netid (st_world s)))));
      [|reflexivity].
    destruct (app_networkPos (st_app s)) as [lp|]; [|reflexivity].
    destruct (app_networkQuat (st_app s)) as [lq|]; [|reflexivity].
    destruct (interpolate delta (lp, lq, app_root (st_app s))) as [[lp' lq'] root'].
    reflexivity.
  - intros Hnone. rewrite Hupd. unfold followMover. rewrite bind_unfold. cbn [get_app].
    rewrite bind_unfold. cbn [get_world]. rewrite Hnone. reflexivity.
Qed.

(** *** The mover's frames *)

Lemma bind_assoc {A B C} (m : M A) (k : A -> M B) (k' : B -> M C) s :
  bind (bind m k) k' s = bind m (fun a => bind (k a) k') s.
Proof.
  unfold bind. destruct (m s) as [s1 [a|e]]; reflexivity.
Qed.

Lemma handle_trace fr delta s mode :
  scriptTrace
    (fst ((match mode with
           | Some MOVING => handleMove fr delta
           | Some ROTATING => handleRotate fr delta
           | Some SCALING => handleScale (fr_input fr) delta
           | _ => ret tt
           end) s)) = scriptTrace s.
Proof.
  revert s. change (keeps scriptTrace
    (match mode with
     | Some MOVING => handleMove fr delta
     | Some ROTATING => handleRotate fr delta
     | Some SCALING => handleScale (fr_input fr) delta
     | _ => ret tt
     end)).
  unfold handleMove, AppMethods.handleRotate, handleScale. keeps_auto.
Qed.

Lemma sendMove_trace fr delta : keeps scriptTrace (sendMove fr delta).
Proof. unfold sendMove, network_send. keeps_auto. Qed.

(** With a control and a root, the handler of the mode returns and writes
    the root only. *)
Lemma handle_spec fr delta s c root mode :
  app_control (st_app s) = Some c ->
  app_root (st_app s) = Some root ->
  let handle := match mode with
                | Some MOVING => handleMove fr delta
                | Some ROTATING => handleRotate fr delta
                | Some SCALING => handleScale (fr_input fr) delta
                | _ => ret tt
                end in
  snd (handle s) = Ok tt /\
  besidesRoot (fst (handle s)) = besidesRoot s /\
  exists root', app_root (st_app (fst (handle s))) = Some root'.
Proof.
  intros Hc Hr.
  destruct mode as [[| | | | |]|]; cbv zeta;
    try (split; [reflexivity|]; split; [reflexivity|]; exists root; exact Hr).
  - unfold handleMove. rewrite bind_unfold. cbn [get_app]. rewrite Hc, Hr.
    destruct (in_ShiftLeft (fr_input fr)).
    + split; [reflexivity|]. split; [reflexivity|]. eexists. reflexivity.
    + destruct (firstHit (fr_hits fr)).
      * split; [reflexivity|]. split; [reflexivity|]. eexists. reflexivity.
      * split; [reflexivity|]. split; [reflexivity|]. exists root. exact Hr.
  - unfold AppMethods.handleRotate. rewrite bind_unfold. cbn [get_app]. rewrite Hr.
    rewrite bind_unfold. cbn [mod_app]. rewrite Hc.
    destruct (in_ShiftLeft (fr_input fr));
      (split; [reflexivity|]; split; [reflexivity|]; eexists; reflexivity).
  - unfold handleScale. rewrite bind_unfold. cbn [get_app]. rewrite Hc, Hr.
    destruct (in_ShiftLeft (fr_input fr));
      (split; [reflexivity|]; split; [reflexivity|]; eexists; reflexivity).
Qed.

(** The periodic update, with a root and a time since the last one. *)
Lemma sendMove_spec fr delta s root t :
  app_root (st_app s) = Some root ->
  app_lastMoveSendTime (st_app s) = Some t ->
  let tick := moveTick (fr_networkRate fr) delta t in
  snd (sendMove fr delta s) = Ok tt /\
  besidesSending (fst (sendMove fr delta s)) = besidesSending s /\
  app_lastMoveSendTime (st_app (fst (sendMove fr delta s))) = Some (fst tick) /\
  w_sent (st_world (fst (sendMove fr delta s))) =
    w_sent (st_world s) ++ (if snd tick then [movePacket (st_app s) root] else []).
Proof.
  intros Hr Ht. unfold sendMove, moveTick.
  rewrite bind_unfold. cbn [mod_app]. rewrite bind_unfold. cbn [get_app].
  cbn [st_app set_st_app set_app_lastMoveSendTime app_lastMoveSendTime app_root].
  rewrite Ht, Hr. cbn [option_map].
  destruct (PlayerLocal.Qgtb (t + delta) (fr_networkRate fr)).
  - rewrite bind_unfold. cbn. rewrite ?app_nil_r. repeat split.
  - cbn. rewrite app_nil_r. repeat split.
Qed.

(** The click that places an app whose blueprint names no script, with a
    control and a root. *)
Lemma place_spec fr s c root :
  app_control (st_app s) = Some c ->
  app_root (st_app s) = Some root ->
  fr_MouseLeft fr = true ->
  scriptless s ->
  let scaling := Mode_eqb (default ACTIVE (app_mode (st_app s))) SCALING in
  let s' := fst (place fr s) in
  snd (place fr s) = Ok tt /\
  app_data (st_app s') = placedData (app_data (st_app s)) root scaling /\
  w_sent (st_world s') =
    w_sent (st_world s) ++ [placePacket (app_data (st_app s)) root scaling] /\
  w_netid (st_world s') = w_netid (st_world s) /\
  scriptTrace s' = (w_calls (st_world s), app_script (st_app s), S (app_n (st_app s))) /\
  (app_mode (st_app s') = app_mode (st_app s) \/ deaf s').
Proof.
  intros Hc Hr Hclick Hless scaling.
  unfold place. rewrite bind_unfold. cbn [get_app]. rewrite Hc, Hclick, Hr. fold scaling.
  unfold mod_data, mod_app, get_app, network_send, mod_world, bind, ret.
  destruct scaling; cbn -[build];
    match goal with |- context [build false ?x] => set (s1 := x) end;
    pose proof (async_never_throws (build_body crash false) s1) as Hok;
    pose proof (outside_build false s1) as Hout;
    (assert (Hless1 : scriptless s1) by exact Hless);
    pose proof (build_idle false s1 (or_intror (or_introl Hless1))) as Hafter;
    pose proof (after_trace _ _ Hafter) as Htrace;
    destruct Hafter as [_ Hmode];
    unfold result_M in Hok; fold (build false) in Hok;
    destruct (build false s1) as [s2 res]; cbn [fst snd] in *; subst res;
    unfold outside in Hout; injection Hout as Hd Hs _ _ Hn;
    unfold scriptTrace in *; injection Htrace as Hcalls Hscript Hgen;
    rewrite Hd, Hs, Hn, Hcalls, Hscript, Hgen; subst s1; cbn;
    (repeat split; try reflexivity);
    (destruct Hmode as [Hmode|Hmode]; [left; exact Hmode|right; exact Hmode]).
Qed.


(** X24.  When the local client transforms an app whose blueprint
    names no script and clicks, [update] stores the transform the root has
    after the frame's handling in the entity's record (the scale only in
    scaling mode), clears the mover and the transform mode, resets the
    state, and announces exactly the stored record in the last packet it
    sends; the build it starts advances the generation by one, and no
    callback is called.  Moving with the cursor over a point of the scene,
    the stored position is that point. *)
Theorem click_places_the_app (fr : Frame) (delta : Q) (s : St)
    (m : Mode) (c : Control) (root : Node) (t : Q) :
  JS.seq (d_mover (app_data (st_app s))) (Some (w_netid (st_world s))) = true ->
  app_mode (st_app s) = Some m -> isTransforming m = true ->
  app_control (st_app s) = Some c ->
  app_root (st_app s) = Some root ->
  app_lastMoveSendTime (st_app s) = Some t ->
  fr_MouseLeft fr = true ->
  scriptless s ->
  let s' := fst (update fr delta s) in
  snd (update fr delta s) = Ok tt /\
  scriptTrace s' = (w_calls (st_world s), app_script (st_app s), S (app_n (st_app s))) /\
  exists root',
    app_data (st_app s') = placedData (app_data (st_app s)) root' (Mode_eqb m SCALING) /\
    last (w_sent (st_world s')) =
      Some (placePacket (app_data (st_app s)) root' (Mode_eqb m SCALING)) /\
    (forall hit, m = MOVING -> in_ShiftLeft (fr_input fr) = false ->
                 firstHit (fr_hits fr) = Some hit -> nd_position root' = ph_point hit).
Proof.
  intros Hmover Hmode Htrans Hc Hr Ht Hclick Hless s'.
  subst s'. unfold AppMethods.update.
  rewrite bind_unfold. cbn [get_app]. rewrite bind_unfold. cbn [get_world].
  rewrite Hmover, Hmode.
  destruct (handle_spec fr delta s c root (Some m) Hc Hr) as (H1 & H2 & root' & H3).
  cbv zeta in H1, H2, H3.
  assert (Hpoint : forall hit, m = MOVING -> in_ShiftLeft (fr_input fr) = false ->
                   firstHit (fr_hits fr) = Some hit -> nd_position root' = ph_point hit).
  { intros hit -> Hshift Hhit. revert H3. unfold handleMove.
    rewrite bind_unfold. cbn [get_app]. rewrite Hc, Hshift, Hhit, Hr.
    cbn. intros H. injection H as <-. reflexivity. }
  rewrite !bind_assoc. rewrite bind_unfold.
  pose proof (handle_trace fr delta s (Some m)) as Hh.
  destruct (match m with
            | MOVING => handleMove fr delta
            | ROTATING => handleRotate fr delta
            | SCALING => handleScale (fr_input fr) delta
            | _ => ret tt
            end s) as [s1 r1].
  cbn [fst snd] in H1, H2, H3, Hh. subst r1.
  unfold besidesRoot in H2. injection H2 as Hc1 Hm1 Hd1 Ht1 Hs1 Hw1.
  assert (Ht1' : app_lastMoveSendTime (st_app s1) = Some t) by congruence.
  destruct (sendMove_spec fr delta s1 root' t H3 Ht1') as (S1 & S2 & _ & _).
  pose proof (sendMove_trace fr delta s1) as Hsm.
  cbv beta. rewrite ?bind_assoc. rewrite bind_unfold.
  destruct (sendMove fr delta s1) as [s2 r2]. cbn [fst snd] in S1, S2, Hsm. subst r2.
  unfold besidesSending in S2. injection S2 as Hc2 Hm2 Hd2 Hr2 Hs2 Hn2 _ Hb2.
  assert (Hc2' : app_control (st_app s2) = Some c) by congruence.
  assert (Hr2' : app_root (st_app s2) = Some root') by congruence.
  assert (Hless2 : scriptless s2).
  { unfold scriptless. rewrite Hd2, Hd1, Hb2, Hw1. exact Hless. }
  destruct (place_spec fr s2 c root' Hc2' Hr2' Hclick Hless2)
    as (P1 & P2 & P3 & P4 & P5 & P6).
  cbv zeta in P1, P2, P3, P4, P5, P6.
  cbv beta. rewrite bind_unfold.
  destruct (place fr s2) as [s3 r3]. cbn [fst snd] in P1, P2, P3, P4, P5, P6. subst r3.
  rewrite bind_unfold.
  assert (Hfollow : followMover interpolate delta s3 = (s3, Ok tt)).
  { unfold followMover. rewrite bind_unfold. cbn [get_app]. rewrite bind_unfold.
    cbn [get_world]. rewrite P2. reflexivity. }
  rewrite Hfollow.
  assert (Hscript : scriptFrame "update" "script update() crashed" delta s3 = (s3, Ok tt)).
  { apply scriptFrame_idle; [reflexivity|].
    destruct P6 as [P6|P6].
    - left. unfold scriptIsActive. rewrite P6, Hm2, Hm1, Hmode.
      destruct m; try discriminate; reflexivity.
    - right. unfold listenersOf. unfold deaf in P6. rewrite P6, lookup_empty. reflexivity. }
  rewrite Hscript. cbn [fst snd].
  split; [reflexivity|]. split.
  - rewrite P5. unfold scriptTrace in Hsm, Hh. injection Hsm as A1 A2 A3.
    injection Hh as B1 B2 B3. rewrite A1, A2, A3, B1, B2, B3. reflexivity.
  - exists root'.
    rewrite P2, P3, Hm2, Hm1, Hmode, Hd2, Hd1. cbn [default from_option id].
    split; [reflexivity|]. split; [apply last_snoc|exact Hpoint].
Qed.

End Frames.


Lemma click_places_the_app_witness :
  let s' := fst (AppMethods.update sameQuat sameQuat still click (1 # 60) held) in
  d_position (app_data (st_app s')) = mkVec3 4 0 2 /\
  d_mover (app_data (st_app s')) = None /\
  exists packet, last (w_sent (st_world s')) = Some packet.
Proof.
  assert (Hless : scriptless held).
  { intros bp Hbp. vm_compute in Hbp. injection Hbp as <-. reflexivity. }
  destruct (click_places_the_app sameQuat sameQuat still click (1 # 60) held
              MOVING ControlEntity (toNodes "asset://a.glb" 1) 0
              eq_refl eq_refl eq_refl eq_refl eq_refl eq_refl eq_refl Hless)
    as (_ & _ & root' & H1 & H2 & H3).
  intros s'. subst s'. rewrite H1. cbn [placedData d_position d_mover].
  split; [exact (H3 ground eq_refl eq_refl eq_refl)|].
  split; [reflexivity|]. eexists. exact H2.
Defined.

Lemma update_of_a_bystander_witness :
  AppMethods.update sameQuat sameQuat still hover (1 # 60) Examples.built =
    (Examples.built, Ok tt).
Proof.
  assert (Hm : JS.seq (d_mover (app_data (st_app Examples.built)))
                 (Some (w_netid (st_world Examples.built))) = false) by reflexivity.
  assert (Hl : scriptIsActive (st_app Examples.built) = false \/
               listenersOf "update" Examples.built = []) by (right; reflexivity).
  exact (proj2 (proj2 (proj2 (update_of_a_bystander sameQuat sameQuat still hover (1 # 60)
                                Examples.built Hm Hl))) eq_refl).
Defined.

End AppFrames.

(** ** Entity packets *)

Module EntityPackets.
Import App AppSpec ClientNetwork ClientEntities.

Section Others.
Variable other : EPayload -> St -> St * option string.

Abbreviation members := (entityMembers other).

(** X25.  For an entity that is not in the store, an entityEvent
    packet is dropped without a trace, while an entityModified packet
    makes its handler throw: the flush logs the TypeError and goes on.
    Neither changes the world. *)
Theorem packets_for_an_unknown_entity (n : Net St EPayload) (id : string)
    (version : Z) (name : string) (data : Data) (patch : Patch) :
  id ∉ w_entities (st_world (net_world n)) ->
  let event := EntityEventData id version name data in
  let change := EntityModifiedData id patch in
  let err := "TypeError: Cannot read properties of undefined (reading 'modify')" in
  dispatch members (Some "onEntityEvent") event n =
    mkNet (net_queue n) (net_world n) (net_errors n)
          (net_taken n ++ [(Some "onEntityEvent", event, Returned)]) /\
  dispatch members (Some "onEntityModified") change n =
    mkNet (net_queue n) (net_world n) (net_errors n ++ [err])
          (net_taken n ++ [(Some "onEntityModified", change, Caught err)]).
Proof.
  intros Hid event change err.
  unfold dispatch, lookup_member.
  change (members "onEntityEvent") with (Method (onEntityEvent other)).
  change (members "onEntityModified") with (Method (onEntityModified other)).
  unfold onEntityEvent, onEntityModified, event, change, entities_get.
  rewrite bool_decide_eq_false_2 by exact Hid. split; reflexivity.
Qed.

(** The events that reach an app while it is building. *)
Lemma events_while_building (evs : list QueuedEvent) (s : St) :
  app_building (st_app s) = true ->
  d_id (app_data (st_app s)) ∈ w_entities (st_world s) ->
  fold_left (handled members) (map (eventPacket (d_id (app_data (st_app s)))) evs) s =
    set_st_app (set_app_eventQueue (app_eventQueue (st_app s) ++ map fromServer evs)
                  (st_app s)) s.
Proof.
  revert s. induction evs as [|ev evs IH]; intros s Hb Hin.
  - cbn [map fold_left]. rewrite app_nil_r. destruct s as [[] ? ? ?]. reflexivity.
  - cbn [map fold_left].
    assert (Hstep : handled members s (eventPacket (d_id (app_data (st_app s))) ev) =
                    queued (ev_version ev) (ev_name ev) (ev_data ev) None s).
    { unfold handled, eventPacket, lookup_member. cbn [fst snd].
      change (members "onEntityEvent") with (Method (onEntityEvent other)).
      unfold onEntityEvent, entities_get.
      rewrite bool_decide_eq_true_2 by exact Hin. rewrite String.eqb_refl.
      unfold handler_of. rewrite (DeferredEvents.onEvent_while_building _ _ _ _ _ Hb).
      reflexivity. }
    rewrite Hstep.
    replace (d_id (app_data (st_app s)))
      with (d_id (app_data (st_app (queued (ev_version ev) (ev_name ev) (ev_data ev) None s))))
      by reflexivity.
    rewrite IH; [|exact Hb|exact Hin].
    unfold queued. cbn. rewrite <- app_assoc. reflexivity.
Qed.

(** X26.  The entityEvent packets queued for an app that is
    building are, at the next flush, appended to the app's event queue in
    the order they arrived; no listener is called and nothing else
    changes. *)
Theorem flush_defers_events_of_a_building_app (n : Net St EPayload) (evs : list QueuedEvent) :
  let s := net_world n in
  app_building (st_app s) = true ->
  d_id (app_data (st_app s)) ∈ w_entities (st_world s) ->
  net_queue n = map (eventPacket (d_id (app_data (st_app s)))) evs ->
  net_queue (preFixedUpdate members n) = [] /\
  net_world (preFixedUpdate members n) =
    set_st_app (set_app_eventQueue (app_eventQueue (st_app s) ++ map fromServer evs)
                  (st_app s)) s.
Proof.
  intros s Hb Hin Hq.
  destruct (PacketQueue.flush_loop_spec members (length (net_queue n)) n (le_n _))
    as (H1 & H2 & _).
  unfold preFixedUpdate, flush. split; [exact H1|].
  rewrite H2, Hq. apply events_while_building; assumption.
Qed.

End Others.

Lemma packets_for_an_unknown_entity_witness :
  let n := mkNet [] Examples.built [] [] in
  net_errors (dispatch (entityMembers noOthers) (Some "onEntityModified")
                (EntityModifiedData "ghost" emptyPatch) n) =
    ["TypeError: Cannot read properties of undefined (reading 'modify')"] /\
  net_errors (dispatch (entityMembers noOthers) (Some "onEntityEvent")
                (EntityEventData "ghost" 0 "ping" "{}") n) = [].
Proof.
  intros n.
  assert (Hid : "ghost" ∉ w_entities (st_world (net_world n))) by (vm_compute; set_solver).
  destruct (packets_for_an_unknown_entity noOthers n "ghost" 0 "ping" "{}" emptyPatch Hid)
    as (H1 & H2).
  rewrite H1, H2. split; reflexivity.
Defined.

Lemma flush_defers_events_of_a_building_app_witness :
  let evs := [mkQueuedEvent 0 "ping" "1" None; mkQueuedEvent 0 "ping" "2" None] in
  let n := mkNet (map (eventPacket "app1") evs) Examples.loading [] [] in
  app_eventQueue (st_app (net_world (preFixedUpdate (entityMembers noOthers) n))) = evs.
Proof.
  intros evs n.
  assert (Hb : app_building (st_app (net_world n)) = true) by reflexivity.
  assert (Hin : d_id (app_data (st_app (net_world n))) ∈ w_entities (st_world (net_world n)))
    by (vm_compute; set_solver).
  destruct (flush_defers_events_of_a_building_app noOthers n evs Hb Hin eq_refl) as (_ & H).
  rewrite H. reflexivity.
Defined.

End EntityPackets.

(** ** Drops *)

Module Drops.
Import ClientEditor EditorSpec.

Lemma append_empty (s : string) : String.append s EmptyString = s.
Proof.
  induction s as [|a s IH]; [reflexivity|].
  change (String a (String.append s EmptyString) = String a s). f_equal. exact IH.
Qed.

Lemma append_step (acc : string) (c : Ascii.ascii) (s : string) :
  String.append (String.append acc (String c EmptyString)) s = String.append acc (String c s).
Proof.
  induction acc as [|a acc IH]; [reflexivity|].
  change (String a (String.append (String.append acc (String c EmptyString)) s) =
          String a (String.append acc (String c s))).
  f_equal. exact IH.
Qed.

Lemma afterLastDot_noDot s acc :
  noDot s = true -> afterLastDot s acc = String.append acc s.
Proof.
  revert acc. induction s as [|c s IH]; intros acc H.
  - simpl. symmetry. apply append_empty.
  - simpl in *. apply andb_prop in H. destruct H as (Hc & Hs).
    apply negb_true_iff in Hc. rewrite Hc. rewrite (IH _ Hs). apply append_step.
Qed.

Lemma afterLastDot_dot base ext acc :
  noDot ext = true ->
  afterLastDot (String.append base (String (Ascii.ascii_of_nat 46) ext)) acc = ext.
Proof.
  intros H. revert acc. induction base as [|c base IH]; intros acc.
  - change (afterLastDot (String (Ascii.ascii_of_nat 46) ext) acc = ext).
    cbn [afterLastDot]. rewrite Ascii.eqb_refl.
    rewrite (afterLastDot_noDot _ _ H). reflexivity.
  - change (afterLastDot
              (String c (String.append base (String (Ascii.ascii_of_nat 46) ext))) acc = ext).
    cbn [afterLastDot]. destruct (Ascii.eqb c (Ascii.ascii_of_nat 46)); apply IH.
Qed.

(** X27.  The extension [onDrop] looks at is the text after the
    last dot of the file's name, in lower case; a name without a dot is
    its own extension. *)
Theorem extension_is_after_the_last_dot :
  (forall base ext,
     noDot ext = true ->
     extension (String.append base (String (Ascii.ascii_of_nat 46) ext)) = toLowerCase ext) /\
  (forall name, noDot name = true -> extension name = toLowerCase name).
Proof.
  split.
  - intros base ext H. unfold extension. rewrite (afterLastDot_dot _ _ _ H). reflexivity.
  - intros name H. unfold extension. rewrite (afterLastDot_noDot _ _ H). reflexivity.
Qed.

Lemma extension_is_after_the_last_dot_witness :
  extension "my.castle.GLB" = "glb" /\ extension "VRM" = "vrm".
Proof.
  split.
  - exact (proj1 extension_is_after_the_last_dot "my.castle" "GLB" eq_refl).
  - exact (proj2 extension_is_after_the_last_dot "VRM" eq_refl).
Defined.

Section Config.
Variable MAX_UPLOAD_SIZE : Z.
Variable hasRole : list string -> list string -> bool.

Abbreviation onDrop := (ClientEditor.onDrop MAX_UPLOAD_SIZE hasRole).

(** X28.  A drop always clears [dropping] and, by itself, registers no
    blueprint, adds no entity and sends nothing.  Without the admin or
    builder role, or without a file, it does nothing else.  With the role
    and a file within the size cap it starts [addModel] for the extension
    glb, [addAvatar] for vrm, and nothing for any other extension, without
    a word in the chat. *)
Theorem what_a_drop_starts (e : DataTransfer) (id now : string) (c : Client) :
  let c' := onDrop e id now c in
  (cl_dropping c' = false /\ cl_blueprints c' = cl_blueprints c /\
   cl_entities c' = cl_entities c /\ cl_sent c' = cl_sent c) /\
  (hasRole (cl_roles c) ["admin"; "builder"] = false \/ droppedFile e = None ->
   c' = set_cl_dropping false c) /\
  (forall file,
     hasRole (cl_roles c) ["admin"; "builder"] = true ->
     droppedFile e = Some file ->
     (file_size file <= MAX_UPLOAD_SIZE * 1024 * 1024)%Z ->
     cl_tasks c' = cl_tasks c ++ started file /\
     cl_chat c' = cl_chat c /\ cl_errors c' = cl_errors c).
Proof.
  intros c'. subst c'. unfold ClientEditor.onDrop. cbv zeta.
  cbn [cl_roles set_cl_dropping].
  destruct (hasRole (cl_roles c) ["admin"; "builder"]) eqn:Hrole; cbn [negb].
  - destruct (droppedFile e) as [file|] eqn:Hfile.
    + destruct (Z.ltb_spec (MAX_UPLOAD_SIZE * 1024 * 1024) (file_size file)) as [Hbig|Hsmall].
      * split; [repeat split|]. split; [intros [H|H]; discriminate|].
        intros file' _ Hf Hs. injection Hf as <-. lia.
      * split.
        { destruct (String.eqb (extension (file_name file)) "glb"),
            (String.eqb (extension (file_name file)) "vrm"); repeat split. }
        split; [intros [H|H]; discriminate|].
        intros file' _ Hf _. injection Hf as <-. unfold started.
        destruct (String.eqb_spec (extension (file_name file)) "glb") as [Eg|Ng].
        { rewrite Eg. cbn. repeat split. }
        destruct (String.eqb (extension (file_name file)) "vrm");
          cbn; rewrite ?app_nil_r; repeat split.
    + split; [repeat split|]. split; [reflexivity|]. intros file _ Hf. discriminate.
  - split; [repeat split|]. split; [reflexivity|]. intros file H. discriminate.
Qed.

End Config.

Lemma what_a_drop_starts_witness :
  ClientEditor.onDrop 100 anyRole smallDrop "u1" "now" visitor = set_cl_dropping false visitor /\
  cl_tasks (ClientEditor.onDrop 100 anyRole textDrop "u1" "now" builder) = [] /\
  cl_tasks (ClientEditor.onDrop 100 anyRole smallDrop "u1" "now" builder) =
    [AddModel (mkFile "castle.GLB" (2 * 1024 * 1024))].
Proof.
  destruct (what_a_drop_starts 100 anyRole smallDrop "u1" "now" visitor) as (_ & A & _).
  destruct (what_a_drop_starts 100 anyRole textDrop "u1" "now" builder) as (_ & _ & B).
  destruct (what_a_drop_starts 100 anyRole smallDrop "u1" "now" builder) as (_ & _ & C).
  split; [apply A; left; reflexivity|]. split.
  - apply (B textFile eq_refl eq_refl). simpl. lia.
  - apply (C (mkFile "castle.GLB" (2 * 1024 * 1024)) eq_refl eq_refl). simpl. lia.
Defined.

(** X29.  The app [addModel] spawns has the dropping client as mover
    and uploader: built on that client it is MOVING, built on any other it
    is LOADING until the upload is announced, and MOVING after; the copy
    the Duplicate action adds is MOVING on every client.  In all of them
    the subtree is activated without physics. *)
Theorem what_a_spawned_app_shows (appId bpId netid peer : string) (position : Vec3)
    (d : AppData) :
  netid <> EmptyString -> peer <> netid ->
  let spawned := spawnData appId bpId netid position in
  App.build_mode spawned netid = MOVING /\
  App.build_mode spawned peer = LOADING /\
  App.build_mode (set_d_uploader None spawned) peer = MOVING /\
  App.build_mode (duplicateData appId netid d) netid = MOVING /\
  App.build_mode (duplicateData appId netid d) peer = MOVING /\
  negb (JS.truthy (d_mover spawned)) = false /\
  negb (JS.truthy (d_mover (duplicateData appId netid d))) = false.
Proof.
  intros Hnet Hpeer spawned.
  assert (Ht : JS.truthy (Some netid) = true).
  { unfold JS.truthy. destruct (String.eqb_spec netid EmptyString); [contradiction|reflexivity]. }
  assert (Hs : JS.seq (Some netid) (Some peer) = false).
  { unfold JS.seq. destruct (String.eqb_spec netid peer); [congruence|reflexivity]. }
  assert (Hr : JS.seq (Some netid) (Some netid) = true).
  { unfold JS.seq. apply String.eqb_refl. }
  unfold App.build_mode, App.uploaderIsOther, spawned, spawnData, duplicateData.
  cbn [d_mover d_uploader d_transformMode set_d_uploader].
  rewrite Ht, Hs, Hr. cbn. repeat split.
Qed.

Lemma what_a_spawned_app_shows_witness :
  App.build_mode (spawnData "a1" "b1" "me" (mkVec3 0 0 0)) "me" = MOVING /\
  App.build_mode (spawnData "a1" "b1" "me" (mkVec3 0 0 0)) "you" = LOADING.
Proof.
  assert (H1 : "me" <> EmptyString) by discriminate.
  assert (H2 : "you" <> "me") by discriminate.
  destruct (what_a_spawned_app_shows "a1" "b1" "me" "you" (mkVec3 0 0 0)
              SupersededSpec.dataX H1 H2) as (A & B & _).
  split; [exact A|exact B].
Defined.

End Drops.

(** ** World listeners of an app *)

Module WorldListeners.
Import World App WorldListenersSpec.

Lemma has_set_add cb l : has cb (set_add cb l) = true.
Proof.
  unfold has, set_add.
  destruct (existsb (fun c => Nat.eqb (cb_id c) (cb_id cb)) l) eqn:He; [exact He|].
  rewrite existsb_app, He. simpl. rewrite Nat.eqb_refl. reflexivity.
Qed.

Lemma has_set_delete cb l : has cb (set_delete cb l) = false.
Proof.
  unfold has, set_delete. induction l as [|c l IH]; [reflexivity|].
  simpl. destruct (Nat.eqb (cb_id c) (cb_id cb)) eqn:E; simpl; [exact IH|].
  rewrite E. exact IH.
Qed.

Lemma has_set_delete_other c cb l :
  cb_id c <> cb_id cb -> has cb (set_delete c l) = has cb l.
Proof.
  intros Hne. unfold has, set_delete. induction l as [|x l IH]; [reflexivity|].
  simpl. destruct (Nat.eqb_spec (cb_id x) (cb_id c)) as [E|N]; simpl.
  - destruct (Nat.eqb_spec (cb_id x) (cb_id cb)) as [E'|_]; [congruence|exact IH].
  - rewrite IH. reflexivity.
Qed.

(** Unsubscribing other callbacks leaves the subscription of [cb]. *)
Lemma off_others cb name l ev :
  Forall (fun e : Callback * string => cb_id (fst e) <> cb_id cb) l ->
  has cb (default [] (fold_left DestroySpec.off_one l ev !! name)) =
  has cb (default [] (ev !! name)).
Proof.
  intros H. revert ev. induction H as [|[c n] l Hc _ IH]; intros ev; [reflexivity|].
  cbn [fold_left]. rewrite IH. unfold DestroySpec.off_one. cbn [fst snd] in *.
  destruct (ev !! n) as [l0|] eqn:En; [|reflexivity].
  destruct (decide (n = name)) as [->|Hn].
  - rewrite lookup_insert_eq, En. cbn [default]. apply has_set_delete_other. exact Hc.
  - rewrite lookup_insert_ne by exact Hn. reflexivity.
Qed.

Lemma map_set_fresh cb name l :
  Forall (fun e : Callback * string => cb_id (fst e) <> cb_id cb) l ->
  map_set cb name l = l ++ [(cb, name)].
Proof.
  induction 1 as [|[c n] l Hc _ IH]; [reflexivity|].
  cbn [map_set fst] in *. apply Nat.eqb_neq in Hc. rewrite Hc, IH. reflexivity.
Qed.

Lemma map_set_last cb name1 name2 l :
  Forall (fun e : Callback * string => cb_id (fst e) <> cb_id cb) l ->
  map_set cb name2 (l ++ [(cb, name1)]) = l ++ [(cb, name2)].
Proof.
  induction 1 as [|[c n] l Hc _ IH].
  - cbn [app map_set]. rewrite Nat.eqb_refl. reflexivity.
  - cbn [app map_set fst] in *. apply Nat.eqb_neq in Hc. rewrite Hc, IH. reflexivity.
Qed.

(** The state after [onWorldEvent]. *)
Lemma onWorldEvent_spec name cb s :
  onWorldEvent name cb s =
    (set_st_world
       (set_w_events
          (<[name := set_add cb (default [] (w_events (st_world s) !! name))]>
             (w_events (st_world s))) (st_world s))
       (set_st_app
          (set_app_worldListeners (map_set cb name (app_worldListeners (st_app s)))
             (st_app s)) s),
     Ok tt).
Proof.
  unfold onWorldEvent, events_on, mod_app, mod_world. rewrite bind_unfold.
  destruct s as [a w p r]. reflexivity.
Qed.

(** X30.  [worldListeners] remembers one name for a callback.  A
    callback subscribed under one name is unsubscribed when the app is
    unbuilt; subscribed under two names, it is unsubscribed from the
    second only and goes on listening to the first, although
    [worldListeners] is empty. *)
Theorem unbuild_forgets_the_first_name (name1 name2 : string) (cb : Callback) (s : St) :
  unknownTo cb s ->
  name1 <> name2 ->
  let once := fst ((onWorldEvent name1 cb;; unbuild) s) in
  let twice := fst ((onWorldEvent name1 cb;; onWorldEvent name2 cb;; unbuild) s) in
  worldListens name1 cb once = false /\
  worldListens name1 cb twice = true /\
  worldListens name2 cb twice = false /\
  app_worldListeners (st_app twice) = [].
Proof.
  intros Hfresh Hne once twice. subst once twice. unfold unknownTo in Hfresh.
  rewrite !bind_unfold, !onWorldEvent_spec. cbv beta iota.
  rewrite bind_unfold, onWorldEvent_spec. cbv beta iota.
  rewrite !Destroy.unbuild_unbuilt.
  destruct s as [a w p r]. unfold worldListens, DestroySpec.unbuilt.
  cbn [fst st_app st_world set_st_app set_st_world app_worldListeners set_app_worldListeners
       w_events set_w_events set_w_hot set_w_scene set_app_abortController set_app_control
       set_app_hotEvents set_app_listeners set_app_worldNodes] in *.
  rewrite (map_set_fresh cb name1 _ Hfresh), (map_set_last cb name1 name2 _ Hfresh).
  rewrite !fold_left_app. cbn [fold_left].
  set (ev1 := <[name1 := _]> (w_events w)).
  set (ev2 := <[name2 := _]> ev1).
  repeat split.
  - unfold DestroySpec.off_one at 1. cbn [fst snd].
    destruct (fold_left DestroySpec.off_one (app_worldListeners a) ev1 !! name1) as [l|] eqn:E.
    + rewrite lookup_insert_eq. cbn [default]. apply has_set_delete.
    + rewrite E. reflexivity.
  - unfold DestroySpec.off_one at 1. cbn [fst snd].
    assert (Hkeep : has cb (default [] (fold_left DestroySpec.off_one (app_worldListeners a) ev2
                                          !! name1)) = true).
    { rewrite (off_others cb name1 _ ev2 Hfresh). unfold ev2.
      rewrite lookup_insert_ne by congruence. unfold ev1. rewrite lookup_insert_eq.
      cbn [default]. apply has_set_add. }
    destruct (fold_left DestroySpec.off_one (app_worldListeners a) ev2 !! name2) as [l|] eqn:E.
    + rewrite lookup_insert_ne by congruence. exact Hkeep.
    + exact Hkeep.
  - unfold DestroySpec.off_one at 1. cbn [fst snd].
    destruct (fold_left DestroySpec.off_one (app_worldListeners a) ev2 !! name2) as [l|] eqn:E.
    + rewrite lookup_insert_eq. cbn [default]. apply has_set_delete.
    + rewrite E. reflexivity.
Qed.

Lemma unbuild_forgets_the_first_name_witness :
  worldListens "open" (mkCallback 7 false)
    (fst ((onWorldEvent "open" (mkCallback 7 false);;
           onWorldEvent "close" (mkCallback 7 false);; unbuild) Examples.built)) = true.
Proof.
  assert (H1 : unknownTo (mkCallback 7 false) Examples.built) by constructor.
  assert (H2 : "open" <> "close") by discriminate.
  exact (proj1 (proj2 (unbuild_forgets_the_first_name "open" "close" (mkCallback 7 false)
                         Examples.built H1 H2))).
Defined.

End WorldListeners.
